(* ===== verification/_CoqProject ===== *)
-Q . S2P
Prelude.v
GoStrings.v
FieldError.v
ErrorText.v
Conditions.v
ApiTypes.v
Url.v
Channel.v
DeepCopy.v
Sender.v
MessageDispatcher.v
KafkaSubscription.v
Consumer.v
ErrorChannels.v
Dispatcher.v
Endpoint.v
Receiver.v
ReceiverServer.v
Delivery.v
DispatcherReconciler.v
Prober.v
Readiness.v
Resources.v
KafkaEnv.v
Controller.v
GenReconciler.v
ItemQueue.v
WorkQueue.v
ProbeWorkers.v
Wiring.v
Process.v
Convergence.v
PodProcess.v
Client.v
Informers.v
Injection.v
SharedMain.v
Startup.v
Stats.v
System.v
Schemes.v
Tracker.v
Listers.v
Fixtures.v
