(* ===== verification/Prelude.v ===== *)
(** * Kafka topic channel: a verification library

    A development for the Go program under [src/]: a Knative eventing channel
    backed by one Kafka topic.  Two processes run it.  The controller
    ([src/pkg/channel/kt/reconciler/controller]) watches [KafkaTopicChannel]
    objects and gives each one a dispatcher: a deployment, two services and the
    access rights of its pods.  A dispatcher pod
    ([src/pkg/channel/kt/dispatcher], [src/pkg/channel/kt/reconciler/dispatcher])
    receives events over HTTP, produces them to the topic, and runs one consumer
    group per subscription that sends each event on.  The controller probes the
    dispatcher pods ([src/pkg/channel/kt/status]) to learn which subscriptions
    are ready and publishes that in the status of the channel.

    ** Parts, in dependency order

    Foundations.
    - [Prelude]: results of Go functions ([res]: value, error or panic), the
      nondeterminism of the run time ([GoRuntime]: clock, map iteration,
      unstable sort), 64-bit wrap-around, generic lemmas and hint databases.
    - [GoStrings]: [strings.Split], [Join], [ToLower], formatting of numbers and
      booleans, with the round trip of [Join] and [Split].
    - [ApiTypes]: the fields of the Kubernetes and Knative objects the program
      sets or inspects, owner references and informer filters.
    - [Url]: the texts of URLs ([net/url]), with the round trip of [Parse] and [String].

    The API object ([src/pkg/apis/messaging/v1alpha1]).
    - [FieldError]: trees of validation errors
      ([knative.dev/pkg/apis/field_error.go]) and their normal form.
    - [ErrorText]: the text of such a tree, which merges its leaves and sorts them.
    - [Conditions]: condition sets and the condition manager
      ([knative.dev/pkg/apis/condition_set.go]); refinement of the abstract map
      from condition to status.
    - [Channel]: the [KafkaTopicChannel] with defaulting, validation (equal to
      a declarative list of violations) and the lifecycle methods of its status.
    - [DeepCopy]: the generated deep copies, over a heap of pointers and arrays,
      against an interface for the copies of the library types.
    - [Schemes]: the registry of types and every registration of the repository, on
      which the references of events depend.

    Delivery of one event.
    - [Sender]: [kncloudevents/message_sender.go] and the loop of
      [go-retryablehttp]: attempts, pauses, closed bodies.
    - [MessageDispatcher]: [eventing/pkg/channel/message_dispatcher.go]:
      destination, reply and dead letter legs.
    - [Receiver]: [message_receiver.go] and the function of [NewDispatcher] that
      produces an event to the topic.
    - [ReceiverServer]: the HTTP server around it ([kncloudevents/message_receiver.go]) with
      its drainer and [Start]: probes, shutdown and time-outs.

    The dispatcher pod ([src/pkg/channel/kt/dispatcher]).
    - [KafkaSubscription]: [kafka_subscription.go], the object that the
      dispatcher, the handlers and the endpoint share.
    - [Consumer]: sessions of a consumer group
      ([eventing-kafka/pkg/common/consumer]) against the interface
      [KafkaConsumerHandler] with its laws [HandlerLaws], and
      [consumer_message_handler.go] as an instance of it.
    - [ErrorChannels]: the goroutines and channels behind one consumer group
      ([consumer_factory.go]): consume loop, claims, the reports of sarama, forwarders of
      errors, their reader and the caller of [Close], interleaved.
    - [Dispatcher]: [dispatcher.go]: its three maps, the shared objects and the
      open groups; the relation [represents] to one abstract map from
      subscription UID to channel and subscription.
    - [Endpoint]: [subscription_endpoint.go], the readiness report.
    - [Delivery]: a partition as its log, its oldest offset and the offset committed for
      a group, if any, with the offset at which sarama starts a session; receiver, topic and sessions composed, from the post of an event to its
      subscriber.
    - [DispatcherReconciler]: [reconciler/dispatcher/kafkachannel.go], which
      turns a channel into a configuration of the dispatcher.
    - [KafkaEnv]: [utils/client.go], [utils/util.go], [envconfig] and the Sarama
      configuration builder: what the pod reads from its environment.

    The controller ([src/pkg/channel/kt/reconciler/controller]).
    - [Prober]: [status/status.go] and [lister.go]: probes of the pods over a heap of
      subscription states and work items; the calls as functions, and their single
      accesses, which interleave, as steps.
    - [ProbeWorkers]: the workers, the queue and the delays of the prober, a refinement of
      [Prober], and its shutdown.
    - [Readiness]: what the runs of the prober keep of its states and cancel contexts; calls
      of [IsReady] that others interrupt, and the race of a refresh with a worker.
    - [Resources]: [resources/*.go], the objects created for a channel, the
      host names of services and the filter of the pod informer.
    - [Controller]: [kafkachannel.go], in a state and error monad over the
      caches, the answers of the API server, the prober and the status.
    - [GenReconciler]: the generated reconciler
      ([src/pkg/client/injection/reconciler/messaging/v1alpha1/kafkatopicchannel])
      around the methods of a reconciler, with [reconcile_common.go] and the
      retries of status updates.

    Between the API server and the reconcilers.
    - [ItemQueue]: the work queue of [client-go] and its rate limiter, over any items.
    - [WorkQueue]: that queue with its delays, the two lanes and the workers
      of [knative.dev/pkg/controller]; its goroutines interleave in one step
      relation.
    - [Wiring]: [NewController] of both processes: which notification of which
      informer enqueues which keys, refreshes the probing or cleans a channel up;
      [NewImpl] and [NewReconciler] of the generated code.
    - [Process]: informer cache, queue, workers and generated reconciler of one
      process, interleaved; what its handlers do, and what else changes the state, is
      an interface ([Handlers]).
    - [Convergence]: what is true of a channel when the running controller has come to
      rest: [Process], [GenReconciler] and [Controller] together.
    - [PodProcess]: the same for the dispatcher: [Process] with the handlers and the
      reconciler of a pod, over [Dispatcher].
    - [Client]: the typed client, its requests as the builder of [client-go/rest]
      makes them, and the fake client ([src/pkg/client/clientset]).
    - [Informers]: the informer factory and the listers
      ([src/pkg/client/informers], [src/pkg/client/listers]).
    - [Tracker]: the store behind the fake client, an instance of the interface that
      [Client] compares the two clients on.
    - [Injection]: clients and informers passed through the context
      ([src/pkg/client/injection]), with the variables that closures share.
    - [SharedMain]: [MainWithContext] of [knative.dev/pkg/injection/sharedmain]: every step
      that can end a process before its controllers run.
    - [Startup]: the [main] programs and the parts of [NewController], [NewDispatcher] and
      [NewProducer] that read the environment and start servers and workers.
    - [Stats]: [reconciler/stats_reporter.go], the readiness metrics.
    - [Listers], [Fixtures]: the support of the unit tests
      ([src/pkg/channel/kt/reconciler/testing]): the objects of a table, the channels built
      with options, and the environment that a row runs in.

    - [System]: the two processes together: the prober's request answered by
      the endpoint, the status it leads to, and the published address resolved by
      the receiver.

    ** State and operations

    Each component has a Record for its state and one definition per operation,
    under the name of the Go function (with a prefix where two methods share a
    name).  Pointers that are shared are locations of a heap ([objects] of the
    dispatcher, [states] and [probes] of the prober); a lock held over a whole
    operation makes it one transition, and where the code touches shared state
    without a lock every access has its own state or is a step of its own
    ([Endpoint.ServeHTTP_interleaved], [Prober.piece], the check and the send of
    [handleError] in [ErrorChannels], the sends of [Consumer.group_step]).  A nil dereference is the result [Panic].  What is outside the
    repository is a parameter, given by a class: the HTTP transport
    ([HttpClient]), the period parser, the Kafka cluster, broker and producer, the
    CloudEvents binding, the API server ([KubeClient], [ApiClient],
    [RoundTripper]) and its encoders, the resolver file and Sarama's configuration
    ([SaramaLib]).  The answers of a
    parameter may depend on the number of calls made before, so that failures
    may come and go.  Each file ends with concrete instances on which the
    theorems are applied.

    ** What the theorems show

    - Refinement: [ReconcileConsumers_refines] and [CleanupChannel_spec] against
      the abstract map, [mark_sequence_refines], [SetReady_sequence_refines],
      [syncChannel_spec], [lister_refines_map], [start_refines] (workers and queue of the
      prober against its set of work items), [fake_client_refines_map].
    - Functional behaviour on every branch: [ReconcileKind_spec],
      [reconcileSubscribers_spec], [dispatch_routes], [dispatch_success],
      [SendWithRetries_spec], [Validate_spec], [merge_spec], [ServeHTTP_spec],
      [accepted_iff_produced], [finalizer_released_iff_clean], [dispatcher_startup_spec],
      [controller_startup_spec], [injected_informer_is_started],
      [dispatch_closes_responses], [event_decides_retry].
    - Invariants of all reachable states or runs: [no_group_leaked],
      [ready_is_evidenced] and [interrupted_IsReady_is_evidenced], [session_keeps_unhandled_messages],
      [ready_channel_is_addressable], [one_worker_per_key], [informers_run_once],
      [error_channels_safe].
    - Isolation: [channel_copy_is_isolated], [list_copy_is_isolated]: what is written
      through a deep copy never shows in the original, nor the other way round.
    - Delivery: [claim_delivers_in_order], [at_least_once],
      [clean_session_catches_up] and, from the post to the subscriber,
      [accepted_event_is_delivered].
    - Progress: [enqueued_key_is_reconciled], [failed_key_is_retried],
      [last_version_is_reconciled] (the last version of a channel that the informer
      saw is reconciled, over informer, queue, workers and reconciler),
      [controller_converges] (what the controller has left behind by then),
      [dispatcher_converges] (what the dispatcher consumes by then),
      [owned_change_reconciles_channels], [channel_event_reconciles],
      [promotion_reconciles_bucket]; [probe_completes_subscription] and, over
      prober, endpoint and reconciler, [subscription_becomes_ready].
    - Shutdown: [prober_stops], [close_leaks_nothing] and [receiver_stops]: no goroutine of
      the prober, of a consumer group (unless a report of sarama races [Close], which
      panics) or of the receiver is left; [requests_answered_once]
      and [drain_fails_probes] for the requests until then.
    - Equivalence: [clients_agree] (typed and fake client),
      [NewImpl_NewReconciler]; [dispatcher_never_writes] for what the options of the
      dispatcher are for.
    - Round trips: [dispatcher_env_roundtrip], [dispatcher_config], [pod_probe_spec],
      [published_address_is_served] and [dispatcher_pod_serves_its_channel] between
      controller and dispatcher; [probe_url_roundtrip] for the URLs of probes.
    - Names: [events_name_their_channel], for the registrations that events depend on.
    - Termination and bounds: [session_terminates] (the channel of the errors included), [consume_loop_terminates],
      [queue_drains], [delivery_retry_schedule].
    - The support of the tests: [NewKafkaChannel_ready], [factory_validates],
      [GetAllObjects_complete], [MakeFactory_consistent], [NewSimpleClientset_serves].
    - Behaviour a reader may not expect, proved as it is:
      [changed_subscription_ignored], [failed_update_forgotten],
      [stuck_subscription_never_ready], [success_keeps_failures],
      [pod_filter_rejects_dispatchers], [failed_message_passed_over],
      [syncChannel_panics_iff], [unnoticed_changes], [dispatcher_handler_spec],
      [other_scope_never_starts], [filtered_factories_use_last_selector],
      [merge_loses_an_error], [status_subscribers_padded], [ReportReady_spec],
      [promotion_serves_foreign_channels], [deletion_can_be_undone],
      [busy_shutdown_times_out], [new_group_passes_over], [report_races_close],
      [refresh_ejects_ready_state] and the examples
      [failed_subscribe_leaves_entry], [shared_uid_leaks_group],
      [cleanup_unmaps_foreign_host], [ServeHTTP_races_with_unsubscribe],
      [subscriber_patch_reverted].

    ** Fuel and bounds

    Nearly all loops recurse on the data they range over.  [Sender.Do_loop]
    recurses on the retries left, at most [RetryMax]; [update_attempts] on the
    [DefaultRetry_Steps = 5] attempts of [RetryOnConflict].  The one loop that
    the code does not bound, that of a consumer group, has fuel:
    [consume_loop_terminates] shows that any fuel above the index of the session
    at which the group is closed gives the result.  Durations are [int64] with
    wrap-around ([wrap64]); [delivery_retry_schedule] states the range in which
    the pauses are the documented ones.  The work queue never ends by itself;
    [queue_drains] bounds by [WorkQueue.weight] the steps it takes without new keys.

    ** Not modelled

    Metrics of requests and queues, tracing and logging; time itself: the rates of the
    token buckets, the lengths of delays and time-outs; the wire protocols of HTTP, Kafka
    and CloudEvents; what Kafka decides in a rebalance; the leader election itself (who leads is a parameter); the
    transport of watches and the caches below the listers; the parsing of configuration
    maps, the profiling server; conversion and defaulting
    functions of the type registry; JSON patches of the fake client; the end-to-end test
    programs under [src/test], which call libraries only. *)
From stdpp Require Export prelude strings gmap pretty sorting.
#[export] Set Warnings "-clear-no-such-hyp,-register-all".

(** ** Results of Go functions

    [Ok] is a normal return, [Err] a returned error, [Panic] a run-time panic
    (nil dereference, unlock of an unlocked mutex, ...) carrying the expression
    that panicked. *)
Inductive res (E A : Type) : Type :=
  | Ok (a : A)
  | Err (e : E)
  | Panic (why : string).
Arguments Ok {E A} a.
Arguments Err {E A} e.
Arguments Panic {E A} why.

#[export] Instance res_eq_dec {E A} `{EqDecision E, EqDecision A} : EqDecision (res E A).
Proof. solve_decision. Defined.

(** ** The sources of nondeterminism of the Go run time

    - [now n] is the [n]-th reading of [time.Now()];
    - [sort_slice] is [sort.Slice], which is not stable: it yields some sorted
      permutation;
    - [range_order n] is the order in which the [n]-th [range] over a map (or
      [UnsortedList] of a set) visits its elements: some permutation.

    Theorems are proved for every instance; the instance [deterministic_runtime]
    below makes the definitions executable. *)
Definition not_less {A} (less : A → A → bool) (x y : A) : Prop := less y x = false.
#[export] Instance not_less_dec {A} (less : A → A → bool) : RelDecision (not_less less).
Proof. intros x y. unfold not_less. apply _. Defined.

Class GoRuntime := {
  now : nat → Z;
  sort_slice : ∀ {A : Type}, (A → A → bool) → list A → list A;
  range_order : ∀ {A : Type}, nat → list A → list A;
  sort_slice_perm : ∀ {A} (less : A → A → bool) l, sort_slice less l ≡ₚ l;
  sort_slice_sorted : ∀ {A} (less : A → A → bool) l,
    Transitive (not_less less) → Total (not_less less) →
    StronglySorted (not_less less) (sort_slice less l);
  range_order_perm : ∀ {A} n (l : list A), range_order n l ≡ₚ l;
}.


Program Definition deterministic_runtime (clock : nat → Z) : GoRuntime := {|
  now := clock;
  sort_slice A less l := merge_sort (not_less less) l;
  range_order A n l := l;
|}.
Next Obligation. intros. apply merge_sort_Permutation. Qed.
Next Obligation. intros. by apply (StronglySorted_merge_sort _). Qed.
Next Obligation. done. Qed.

(** ** Lists: [find] and [filter] *)
Section lists.
Context {A : Type}.
Implicit Types (l : list A) (f : A → bool).

Lemma find_Some_elem f l x : List.find f l = Some x → x ∈ l ∧ f x = true.
Proof. intros [Hin ?]%List.find_some. split; [by apply list_elem_of_In|done]. Qed.

Lemma find_None_elem f l x : List.find f l = None → x ∈ l → f x = false.
Proof. intros H Hin. apply list_elem_of_In in Hin. by eapply List.find_none. Qed.

Lemma find_is_Some f l : is_Some (List.find f l) ↔ ∃ x, x ∈ l ∧ f x = true.
Proof.
  split.
  - intros [x ?%find_Some_elem]. eauto.
  - intros (x & Hx & Hf). destruct (List.find f l) eqn:E; [eauto|].
    by rewrite (find_None_elem _ _ _ E Hx) in Hf.
Qed.

Lemma find_app f l1 l2 :
  List.find f (l1 ++ l2) =
  match List.find f l1 with Some x => Some x | None => List.find f l2 end.
Proof. induction l1 as [|a l1 IH]; simpl; [done|]. by destruct (f a). Qed.

Lemma find_is_Some_perm f l1 l2 :
  l1 ≡ₚ l2 → is_Some (List.find f l1) ↔ is_Some (List.find f l2).
Proof. intros H. rewrite !find_is_Some. by setoid_rewrite H. Qed.

(** When at most one element can satisfy [f], [find] does not depend on the
    order of the list. *)
Lemma find_perm_unique f l1 l2 :
  (∀ x y, x ∈ l1 → y ∈ l1 → f x = true → f y = true → x = y) →
  l1 ≡ₚ l2 → List.find f l1 = List.find f l2.
Proof.
  intros Huniq Hperm.
  destruct (List.find f l1) as [x|] eqn:E1, (List.find f l2) as [y|] eqn:E2; [| | |done].
  - apply find_Some_elem in E1 as [??], E2 as [Hy ?]. rewrite <-Hperm in Hy.
    f_equal. by apply Huniq.
  - apply find_Some_elem in E1 as [Hx Hf]. rewrite Hperm in Hx.
    by rewrite (find_None_elem _ _ _ E2 Hx) in Hf.
  - apply find_Some_elem in E2 as [Hx Hf]. rewrite <-Hperm in Hx.
    by rewrite (find_None_elem _ _ _ E1 Hx) in Hf.
Qed.
End lists.

Lemma NoDup_fmap_filter {A B} (f : A → B) (P : A → Prop) `{!∀ x, Decision (P x)} (l : list A) :
  NoDup (f <$> l) → NoDup (f <$> filter P l).
Proof.
  induction l as [|x l IH]; [done|].
  rewrite fmap_cons, filter_cons, NoDup_cons, list_elem_of_fmap. intros [Hx Hnd].
  case_decide; [|by apply IH]. rewrite fmap_cons, NoDup_cons, list_elem_of_fmap.
  split; [|by apply IH]. intros (y & ? & [? ?]%list_elem_of_filter). eauto.
Qed.

(** ** Machine integers: two's complement wrap-around of [int64] *)
Definition wrap64 (z : Z) : Z := ((z + 2 ^ 63) `mod` 2 ^ 64 - 2 ^ 63)%Z.

Lemma wrap64_id z : (- 2 ^ 63 ≤ z < 2 ^ 63)%Z → wrap64 z = z.
Proof. intros H. unfold wrap64. rewrite Z.mod_small; lia. Qed.

Lemma wrap64_range z : (- 2 ^ 63 ≤ wrap64 z < 2 ^ 63)%Z.
Proof.
  unfold wrap64. pose proof (Z.mod_pos_bound (z + 2 ^ 63) (2 ^ 64)). lia.
Qed.

(** ** Automation *)
Create HintDb ktc discriminated.

(** [destruct_or_eq] splits on the first [decide] or [if] of the goal. *)
Ltac case_all := repeat (case_match || case_decide); simplify_eq/=.
