(* ===== verification/GoStrings.v ===== *)
(** * GoStrings: the string functions of the Go standard library the program uses

    [strings.Split], [strings.Join], [strings.HasPrefix], [strings.HasSuffix] and
    the decimal rendering of [fmt]; a Go string is a [string] of bytes. *)
From Stdlib Require Import Ascii.
From S2P Require Import Prelude.

(** [strings.Split(s, sep)] for a one-byte separator: never empty. *)
Fixpoint Split (sep : ascii) (s : string) : list string :=
  match s with
  | EmptyString => [""]
  | String c s =>
      let parts := Split sep s in
      if decide (c = sep) then "" :: parts
      else match parts with
           | [] => [String c ""]
           | p :: ps => String c p :: ps
           end
  end.

(** [strings.Join(elems, sep)]. *)
Fixpoint Join (sep : string) (elems : list string) : string :=
  match elems with
  | [] => ""
  | [e] => e
  | e :: es => e +:+ sep +:+ Join sep es
  end.

Definition HasPrefix (s prefix : string) : bool := String.prefix prefix s.

Fixpoint last_char (s : string) : option ascii :=
  match s with
  | EmptyString => None
  | String c EmptyString => Some c
  | String _ s => last_char s
  end.

(** [strings.HasSuffix(s, c)] for a one-byte suffix. *)
Definition HasSuffix1 (s : string) (c : ascii) : bool := bool_decide (last_char s = Some c).

(** The characters of a string. *)
Fixpoint chars (s : string) : list ascii :=
  match s with EmptyString => [] | String c s => c :: chars s end.

(** [sep] does not occur in [s]. *)
Definition free_of (sep : ascii) (s : string) : Prop := sep ∉ chars s.

#[export] Instance free_of_dec sep s : Decision (free_of sep s).
Proof. unfold free_of. apply _. Defined.

(** [strings.ToLower] on ASCII text. *)
Definition lower_char (c : ascii) : ascii :=
  let n := nat_of_ascii c in
  if decide (65 ≤ n ≤ 90) then ascii_of_nat (n + 32) else c.

Fixpoint ToLower (s : string) : string :=
  match s with EmptyString => EmptyString | String c s => String (lower_char c) (ToLower s) end.

(** [strconv.FormatBool] and the decimal forms of [fmt]. *)
Definition FormatBool (b : bool) : string := if b then "true" else "false".
Definition itoa (z : Z) : string := pretty z.

Definition dquote : ascii := ascii_of_nat 34.
(** [%q] of a text that needs no escape. *)
Definition quote (s : string) : string := String dquote (s +:+ String dquote EmptyString).

Lemma append_nil_r s : s +:+ "" = s.
Proof. induction s as [|c s IH]; [done|]. change (String c (s +:+ "") = String c s). by rewrite IH. Qed.

Lemma append_assoc s1 s2 s3 : (s1 +:+ s2) +:+ s3 = s1 +:+ (s2 +:+ s3).
Proof.
  induction s1 as [|c s IH]; [done|].
  change (String c ((s +:+ s2) +:+ s3) = String c (s +:+ (s2 +:+ s3))). by rewrite IH.
Qed.

Lemma append_cons c s1 s2 : String c s1 +:+ s2 = String c (s1 +:+ s2).
Proof. done. Qed.

Lemma chars_append s1 s2 : chars (s1 +:+ s2) = chars s1 ++ chars s2.
Proof. induction s1 as [|c s IH]; [done|]. rewrite append_cons. simpl. by rewrite IH. Qed.

Lemma chars_inj s1 s2 : chars s1 = chars s2 → s1 = s2.
Proof.
  revert s2. induction s1 as [|c1 s1 IH]; intros [|c2 s2]; try done.
  simpl. intros [= -> ?]. by rewrite (IH s2).
Qed.

Lemma free_of_append sep s1 s2 : free_of sep (s1 +:+ s2) ↔ free_of sep s1 ∧ free_of sep s2.
Proof. unfold free_of. rewrite chars_append, not_elem_of_app. done. Qed.

Lemma free_of_cons sep c s : free_of sep (String c s) ↔ sep ≠ c ∧ free_of sep s.
Proof. unfold free_of. simpl. by rewrite not_elem_of_cons. Qed.

Lemma Split_not_nil sep s : Split sep s ≠ [].
Proof. destruct s; simpl; repeat case_match; done. Qed.

Lemma Split_free sep s : free_of sep s → Split sep s = [s].
Proof.
  induction s as [|c s IH]; [done|]. rewrite free_of_cons. intros [Hc Hs].
  simpl. rewrite IH by done. by rewrite decide_False by done.
Qed.

(** Splitting at the first separator. *)
Lemma Split_append sep s1 s2 :
  free_of sep s1 → Split sep (s1 +:+ String sep s2) = s1 :: Split sep s2.
Proof.
  induction s1 as [|c s IH]; intros Hf.
  - change (Split sep (String sep s2) = "" :: Split sep s2). simpl. by rewrite decide_True.
  - apply free_of_cons in Hf as [Hc Hf]. rewrite append_cons. simpl.
    rewrite decide_False by done. by rewrite IH.
Qed.

(** Splitting inverts joining when no element holds the separator. *)
Lemma Split_Join sep e es :
  Forall (free_of sep) (e :: es) → Split sep (Join (String sep "") (e :: es)) = e :: es.
Proof.
  revert e. induction es as [|e' es IH]; intros e [He Hes]%Forall_cons.
  - by apply Split_free.
  - change (Join (String sep "") (e :: e' :: es))
      with (e +:+ String sep (Join (String sep "") (e' :: es))).
    rewrite Split_append by done. by rewrite IH.
Qed.

(** The separator free pieces around a separator are determined. *)
Lemma append_sep_inj sep a1 a2 b1 b2 :
  free_of sep a1 → free_of sep b1 →
  a1 +:+ String sep a2 = b1 +:+ String sep b2 → a1 = b1 ∧ a2 = b2.
Proof.
  revert b1. induction a1 as [|c a IH]; intros [|d b] Ha Hb; rewrite ?append_cons.
  - by intros [= ->].
  - intros [= <- _]. apply free_of_cons in Hb as [? _]. done.
  - intros [= -> _]. apply free_of_cons in Ha as [? _]. done.
  - intros [= -> ?]. apply free_of_cons in Ha as [? Ha], Hb as [? Hb].
    destruct (IH b) as [-> ->]; done.
Qed.

(** The same around the last separator. *)
Lemma append_last_sep_inj sep a1 a2 b1 b2 :
  free_of sep a2 → free_of sep b2 →
  a1 +:+ String sep a2 = b1 +:+ String sep b2 → a1 = b1 ∧ a2 = b2.
Proof.
  intros Ha Hb. revert b1. induction a1 as [|c a IH]; intros [|d b]; rewrite ?append_cons.
  - by intros [= ->].
  - intros [= <- ->]. apply free_of_append in Ha as [_ Ha]. by apply free_of_cons in Ha as [? _].
  - intros [= -> <-]. apply free_of_append in Hb as [_ Hb]. by apply free_of_cons in Hb as [? _].
  - intros [= -> ?]. by destruct (IH b) as [-> ->].
Qed.

Lemma append_inj_r s1 s2 t : s1 +:+ t = s2 +:+ t → s1 = s2.
Proof.
  intros H. apply chars_inj. apply (f_equal chars) in H. rewrite !chars_append in H.
  by apply app_inv_tail in H.
Qed.

(** ** Decimal digits *)
Definition is_digit (c : ascii) : Prop := (48 ≤ N_of_ascii c ≤ 57)%N.

Lemma pretty_N_char_digit x : is_digit (pretty_N_char x).
Proof. unfold pretty_N_char, is_digit. repeat case_match; by compute. Qed.

Lemma pretty_N_go_chars x s c :
  c ∈ chars (pretty_N_go x s) → is_digit c ∨ c ∈ chars s.
Proof.
  revert s. induction (N.lt_wf_0 x) as [x _ IH]; intros s.
  destruct (decide (x = 0)%N) as [->|Hx]; [rewrite pretty_N_go_0; auto|].
  rewrite pretty_N_go_step by lia. intros Hc.
  apply IH in Hc as [?|Hc]; [by left| |by apply N.div_lt; lia].
  simpl in Hc. apply elem_of_cons in Hc as [->|?]; [left; apply pretty_N_char_digit|by right].
Qed.

Lemma pretty_N_chars (x : N) c : c ∈ chars (pretty x) → is_digit c.
Proof.
  unfold pretty, pretty_N. case_decide.
  - simpl. intros ->%list_elem_of_singleton. by compute.
  - by intros [?|?%elem_of_nil]%pretty_N_go_chars.
Qed.

Lemma pretty_nat_free sep (n : nat) : ¬ is_digit sep → free_of sep (pretty n).
Proof. intros Hs Hc. by apply pretty_N_chars in Hc. Qed.
