(* ===== verification/FieldError.v ===== *)
(** * FieldError: validation errors with field paths

    Models [vendor/knative.dev/pkg/apis/field_error.go]: trees of errors that
    are collected with [Also], relocated with [ViaField] and read back as the
    flat list of leaves [normalized].  A [*FieldError] is an [option]. *)
From Stdlib Require Import Ascii.
From S2P Require Import Prelude GoStrings.

Inductive FieldError := mkFieldError {
  fe_Message : string;
  fe_Paths : list string;
  fe_Details : string;
  fe_errors : list FieldError;
}.

Definition CurrentField : string := "".

Definition isEmpty_val (fe : FieldError) : bool :=
  bool_decide (fe_Message fe = "" ∧ fe_Details fe = "" ∧ length (fe_errors fe) = 0 ∧
               length (fe_Paths fe) = 0).

Definition isEmpty (fe : option FieldError) : bool :=
  match fe with None => true | Some fe => isEmpty_val fe end.

(** Append the non-empty errors of [errs] to [fe]. *)
Definition add_errors (fe : FieldError) (errs : list (option FieldError)) : FieldError :=
  {| fe_Message := fe_Message fe; fe_Paths := fe_Paths fe; fe_Details := fe_Details fe;
     fe_errors := fe_errors fe ++
       omap (λ e, if isEmpty e then None else e) errs |}.

Definition Also (fe : option FieldError) (errs : list (option FieldError)) : option FieldError :=
  if match errs with [] => true | [e] => isEmpty e | _ => false end then fe
  else
    let newErr :=
      match fe with
      | Some fe => if isEmpty_val fe then mkFieldError "" [] "" [] else fe
      | None => mkFieldError "" [] "" []
      end in
    let newErr := add_errors newErr errs in
    if isEmpty_val newErr then None else Some newErr.

Definition asIndex (index : nat) : string := "[" +:+ pretty index +:+ "]".
Definition asKey (key : string) : string := "[" +:+ key +:+ "]".
Definition isIndex (part : string) : bool := HasPrefix part "[" && HasSuffix1 part "]"%char.

(** One component [p] of the double loop of [flatten]. *)
Definition flatten_step (newPath : list string) (p : string) : list string :=
  if decide (p = CurrentField) then newPath
  else if bool_decide (0 < length newPath) && isIndex p
  then match last newPath with
       | Some q => List.removelast newPath ++ [q +:+ p]
       | None => newPath
       end
  else newPath ++ [p].

Definition flatten (path : list string) : string :=
  Join "." (foldl flatten_step [] (List.flat_map (Split "."%char) path)).

(** [ViaField] on a non-nil receiver. *)
Fixpoint ViaField_val (prefix : list string) (fe : FieldError) : FieldError :=
  let newErr :=
    {| fe_Message := fe_Message fe;
       fe_Paths := (λ oldPath, flatten (prefix ++ [oldPath])) <$> fe_Paths fe;
       fe_Details := fe_Details fe; fe_errors := [] |} in
  (fix go (newErr : FieldError) (es : list FieldError) : FieldError :=
     match es with
     | [] => newErr
     | e :: es =>
         go (match Also (Some newErr) [Some (ViaField_val prefix e)] with
             | Some x => x
             | None => newErr
             end) es
     end) newErr (fe_errors fe).

Definition ViaField (fe : option FieldError) (prefix : list string) : option FieldError :=
  ViaField_val prefix <$> fe.

Definition ViaIndex (fe : option FieldError) (index : nat) : option FieldError :=
  ViaField fe [asIndex index].
Definition ViaFieldIndex (fe : option FieldError) (field : string) (index : nat) :=
  ViaField (ViaIndex fe index) [field].
Definition ViaKey (fe : option FieldError) (key : string) : option FieldError :=
  ViaField fe [asKey key].
Definition ViaFieldKey (fe : option FieldError) (field key : string) : option FieldError :=
  ViaField (ViaKey fe key) [field].

Fixpoint normalized_val (fe : FieldError) : list FieldError :=
  (if decide (fe_Message fe = "") then []
   else [mkFieldError (fe_Message fe) (fe_Paths fe) (fe_Details fe) []]) ++
  List.flat_map normalized_val (fe_errors fe).

Definition normalized (fe : option FieldError) : list FieldError :=
  match fe with None => [] | Some fe => normalized_val fe end.

Definition ErrMissingField (fieldPaths : list string) : FieldError :=
  mkFieldError "missing field(s)" fieldPaths "" [].

(** [value] is the rendering of the value by [fmt.Sprint]. *)
Definition ErrInvalidValue (value fieldPath : string) : FieldError :=
  mkFieldError ("invalid value: " +:+ value) [fieldPath] "" [].

Definition with_Details (fe : FieldError) (details : string) : FieldError :=
  mkFieldError (fe_Message fe) (fe_Paths fe) details (fe_errors fe).

(** ** Induction over error trees *)
Lemma FieldError_ind' (P : FieldError → Prop) :
  (∀ msg ps ds es, Forall P es → P (mkFieldError msg ps ds es)) → ∀ fe, P fe.
Proof.
  intros H. fix IH 1. intros [msg ps ds es]. apply H.
  induction es as [|e es IHes]; constructor; [apply IH|apply IHes].
Qed.

Lemma normalized_empty fe : isEmpty fe = true → normalized fe = [].
Proof.
  destruct fe as [[msg ps ds es]|]; [|done]. simpl. unfold isEmpty_val. simpl.
  rewrite bool_decide_eq_true. intros (-> & _ & ->%nil_length_inv & _).
  by rewrite decide_True.
Qed.

Lemma normalized_val_add fe errs :
  normalized_val (add_errors fe errs) = normalized_val fe ++ List.flat_map normalized errs.
Proof.
  unfold add_errors. destruct fe as [msg ps ds es]. simpl. rewrite List.flat_map_app, app_assoc.
  f_equal. induction errs as [|e errs IH]; [done|]. cbn. rewrite <-IH.
  destruct (isEmpty e) eqn:E; [by rewrite (normalized_empty e E)|by destruct e].
Qed.

(** [normalized] turns [Also] into concatenation. *)
Lemma normalized_Also fe errs :
  normalized (Also fe errs) = normalized fe ++ List.flat_map normalized errs.
Proof.
  unfold Also. set (trivial := match errs with [] => _ | _ => _ end).
  destruct trivial eqn:E.
  - unfold trivial in E. destruct errs as [|e [|]]; [by rewrite app_nil_r| |done].
    simpl. by rewrite (normalized_empty e E), !app_nil_r.
  - set (newErr := match fe with Some _ => _ | None => _ end).
    assert (normalized fe = normalized_val newErr) as ->.
    { unfold newErr. destruct fe as [fe|]; [|done]. destruct (isEmpty_val fe) eqn:E'; [|done].
      by rewrite (normalized_empty (Some fe) E'). }
    rewrite <-normalized_val_add. destruct (isEmpty_val _) eqn:E'; [|done].
    symmetry. apply (normalized_empty (Some _) E').
Qed.

(** Where [ViaField] moves a leaf. *)
Definition relocate (prefix : list string) (fe : FieldError) : FieldError :=
  mkFieldError (fe_Message fe) ((λ p, flatten (prefix ++ [p])) <$> fe_Paths fe)
    (fe_Details fe) [].

Lemma normalized_ViaField_val prefix fe :
  normalized_val (ViaField_val prefix fe) = relocate prefix <$> normalized_val fe.
Proof.
  induction fe as [msg ps ds es IH] using FieldError_ind'. simpl.
  set (start := mkFieldError msg _ ds []).
  assert (normalized_val start =
          relocate prefix <$> (if decide (msg = "") then [] else [mkFieldError msg ps ds []])) as Hstart.
  { unfold start. simpl. rewrite app_nil_r. by case_decide. }
  rewrite fmap_app, <-Hstart. clearbody start. clear Hstart. revert start.
  induction IH as [|e es He _ IHes]; intros start; [by rewrite app_nil_r|]. simpl.
  rewrite IHes, fmap_app, <-He, app_assoc. f_equal.
  pose proof (normalized_Also (Some start) [Some (ViaField_val prefix e)]) as HA.
  simpl in HA. rewrite app_nil_r in HA. rewrite <-HA.
  destruct (Also _ _) as [x|] eqn:E; [done|]. exfalso.
  unfold Also in E. destruct (isEmpty _) eqn:Ee; [done|].
  destruct (isEmpty_val (add_errors _ _)) eqn:E'; [|done].
  unfold isEmpty_val, add_errors in E'. rewrite bool_decide_eq_true in E'. simpl in E', Ee.
  rewrite Ee in E'. rewrite length_app in E'. simpl in E'. lia.
Qed.

(** [normalized] turns [ViaField] into relocation of every leaf. *)
Lemma normalized_ViaField prefix fe :
  normalized (ViaField fe prefix) = relocate prefix <$> normalized fe.
Proof. destruct fe; [apply normalized_ViaField_val|done]. Qed.

(** ** Errors that report something

    [Also] and [ViaField] return nil exactly when no leaf was collected. *)
Definition reports (fe : option FieldError) : Prop := fe = None ∨ normalized fe ≠ [].

Lemma reports_iff fe : reports fe → fe = None ↔ normalized fe = [].
Proof. intros [->|H]; [done|]. destruct fe; [|done]. split; [done|]. intros; by destruct H. Qed.

Lemma reports_None : reports None.
Proof. by left. Qed.

Lemma reports_leaf msg ps ds : msg ≠ "" → reports (Some (mkFieldError msg ps ds [])).
Proof. intros H. right. simpl. by rewrite decide_False. Qed.

Lemma reports_Also1 fe e : reports fe → reports e → reports (Also fe [e]).
Proof.
  intros Hfe He. destruct (decide (normalized (Also fe [e]) = [])) as [Hn|]; [|by right].
  left. rewrite normalized_Also in Hn. apply app_eq_nil in Hn as [H1 H2].
  simpl in H2. rewrite app_nil_r in H2.
  apply reports_iff in H1, H2; [|done..]. by subst.
Qed.

Lemma reports_ViaField prefix fe : reports fe → reports (ViaField fe prefix).
Proof.
  intros [->|H]; [by left|]. right. rewrite normalized_ViaField. by intros ?%fmap_nil_inv.
Qed.
#[export] Hint Resolve reports_None reports_leaf reports_Also1 reports_ViaField : ktc.
