(* ===== verification/ErrorText.v ===== *)
(** * ErrorText: the text of validation errors

    Models [Error], [merge], [mergePaths] and [key] of
    [vendor/knative.dev/pkg/apis/field_error.go]: the leaves of an error tree are merged by
    message and details, sorted, and printed a line each.  The loop over the map of
    [merge] visits it in any order ([range_order]); [n] numbers the loop. *)
From Stdlib Require Import Ascii.
From S2P Require Import Prelude GoStrings FieldError.

(** ** Definitions *)
Section text.
Context {rt : GoRuntime}.

Definition containsString (slice : list string) (s : string) : bool := bool_decide (s ∈ slice).

Definition mergePaths (a b : list string) : list string :=
  foldl (λ newPaths bi, if containsString newPaths bi then newPaths else newPaths ++ [bi]) a b.

Definition key (err : FieldError) : string := fe_Message err +:+ "-" +:+ fe_Details err.

Definition with_Paths (ps : list string) (e : FieldError) : FieldError :=
  mkFieldError (fe_Message e) ps (fe_Details e) (fe_errors e).

(** One error in the map [m], whose values have distinct keys. *)
Definition merge_into (m : list FieldError) (e : FieldError) : list FieldError :=
  if decide (key e ∈ key <$> m) then
    (λ v, if decide (key v = key e) then with_Paths (mergePaths (fe_Paths v) (fe_Paths e)) v else v) <$> m
  else m ++ [e].

Definition sort_Paths (v : FieldError) : FieldError := with_Paths (sort_slice String.ltb (fe_Paths v)) v.

Definition error_less (a b : FieldError) : bool :=
  if decide (fe_Message a = fe_Message b) then String.ltb (fe_Details a) (fe_Details b)
  else String.ltb (fe_Message a) (fe_Message b).

Definition merge (n : nat) (errs : list FieldError) : list FieldError :=
  sort_slice error_less (range_order n (sort_Paths <$> foldl merge_into [] errs)).

Definition lf : ascii := ascii_of_nat 10.
Definition error_line (e : FieldError) : string :=
  fe_Message e +:+ ": " +:+ Join ", " (fe_Paths e)
    +:+ (if decide (fe_Details e = "") then "" else String lf (fe_Details e)).

Definition Error (n : nat) (fe : option FieldError) : string :=
  Join (String lf "") (error_line <$> merge n (normalized fe)).
End text.

(** ** The order of strings *)
Lemma compare_le_trans (s t u : string) : String.leb s t = true → String.leb t u = true → String.leb s u = true.
Proof.
  unfold String.leb. revert t u. induction s as [|a s IH]; intros [|b t] [|c u]; try done. simpl.
  unfold Ascii.compare. destruct (N.compare_spec (N_of_ascii a) (N_of_ascii b)) as [Hab|Hab|Hab]; [| |done];
    (destruct (N.compare_spec (N_of_ascii b) (N_of_ascii c)) as [Hbc|Hbc|Hbc]; [| |done]);
    (destruct (N.compare_spec (N_of_ascii a) (N_of_ascii c)); [|done|lia]); try lia; intros; [by eapply IH|done..].
Qed.

Lemma ltb_leb (s t : string) : String.ltb s t = negb (String.leb t s).
Proof. unfold String.ltb, String.leb. rewrite String.compare_antisym. by destruct (String.compare t s). Qed.

Lemma not_ltb (s t : string) : String.ltb s t = false ↔ String.leb t s = true.
Proof. rewrite ltb_leb. by destruct (String.leb t s). Qed.

#[export] Instance string_not_less_trans : Transitive (not_less String.ltb).
Proof. intros s t u. unfold not_less. rewrite !not_ltb. apply compare_le_trans. Qed.
#[export] Instance string_not_less_total : Total (not_less String.ltb).
Proof. intros s t. unfold not_less. rewrite !not_ltb. apply String.leb_total. Qed.
#[export] Instance string_not_less_antisym : AntiSymm (=) (not_less String.ltb).
Proof. intros s t. unfold not_less. rewrite !not_ltb. apply String.leb_antisym. Qed.

Definition pair_of (e : FieldError) : string * string := (fe_Message e, fe_Details e).

Lemma error_not_less a b :
  not_less error_less a b ↔
  (fe_Message a = fe_Message b ∧ String.leb (fe_Details a) (fe_Details b) = true) ∨
  (fe_Message a ≠ fe_Message b ∧ String.leb (fe_Message a) (fe_Message b) = true).
Proof.
  unfold not_less, error_less. destruct (decide (fe_Message b = fe_Message a)) as [->|]; rewrite not_ltb; naive_solver.
Qed.

#[export] Instance error_not_less_trans : Transitive (not_less error_less).
Proof.
  intros a b c. rewrite !error_not_less. intros [[Hab Ha]|[Hab Ha]] [[Hbc Hb]|[Hbc Hb]].
  - left. split; [congruence|]. by eapply compare_le_trans.
  - right. split; congruence.
  - right. split; congruence.
  - pose proof (compare_le_trans _ _ _ Ha Hb). destruct (decide (fe_Message a = fe_Message c)) as [Hac|]; [|by right].
    rewrite <-Hac in Hb. destruct Hab. by apply String.leb_antisym.
Qed.

#[export] Instance error_not_less_total : Total (not_less error_less).
Proof.
  intros a b. rewrite !error_not_less. destruct (decide (fe_Message a = fe_Message b)) as [He|He].
  - rewrite He. destruct (String.leb_total (fe_Details a) (fe_Details b)); auto.
  - destruct (String.leb_total (fe_Message a) (fe_Message b)); [left; auto|right; right; auto].
Qed.

Lemma error_not_less_antisym a b : not_less error_less a b → not_less error_less b a → pair_of a = pair_of b.
Proof.
  rewrite !error_not_less. unfold pair_of. intros [[Hm Ha]|[Hm Ha]] [[Hm' Hb]|[Hm' Hb]]; try congruence.
  - f_equal; [done|]. by apply String.leb_antisym.
  - destruct Hm. by apply String.leb_antisym.
Qed.

(** ** What [merge] makes of the errors *)
Section merge.
Context {rt : GoRuntime}.
Implicit Types (es m : list FieldError) (e v : FieldError).

Lemma mergePaths_elem a b x : x ∈ mergePaths a b ↔ x ∈ a ∨ x ∈ b.
Proof.
  unfold mergePaths. revert a. induction b as [|y b IH]; intros a; simpl; [set_solver|]. rewrite IH, elem_of_cons.
  unfold containsString. case_bool_decide; [naive_solver|]. rewrite elem_of_app, list_elem_of_singleton. tauto.
Qed.

(** Errors whose keys tell them apart: [key] joins message and details with a dash. *)
Definition telling_keys es : Prop := ∀ e e', e ∈ es → e' ∈ es → key e = key e' → pair_of e = pair_of e'.

Record merged es m : Prop := {
  mg_nodup : NoDup (pair_of <$> m);
  mg_pairs p : p ∈ pair_of <$> m ↔ p ∈ pair_of <$> es;
  mg_paths v x : v ∈ m → x ∈ fe_Paths v ↔ ∃ e, e ∈ es ∧ pair_of e = pair_of v ∧ x ∈ fe_Paths e;
}.

Lemma key_pair e e' : pair_of e = pair_of e' → key e = key e'.
Proof. unfold pair_of, key. by intros [= -> ->]. Qed.

Lemma merge_into_merged es m e : telling_keys (es ++ [e]) → merged es m → merged (es ++ [e]) (merge_into m e).
Proof.
  intros Hk [Hn Hp Hpa].
  assert (Htell : ∀ v, v ∈ m → key v = key e → pair_of v = pair_of e).
  { intros v Hv Hkey. assert (pair_of v ∈ pair_of <$> es) as (e' & Heq & He')%list_elem_of_fmap by (apply Hp; by apply list_elem_of_fmap_2).
    rewrite Heq. apply Hk; [by apply elem_of_app; left|by apply elem_of_app; right; left|]. rewrite <-Hkey. symmetry. by apply key_pair. }
  unfold merge_into. destruct (decide (key e ∈ key <$> m)) as [(v0 & Hv0 & Hin)%list_elem_of_fmap|Hno].
  - set (g v := if decide (key v = key e) then with_Paths (mergePaths (fe_Paths v) (fe_Paths e)) v else v).
    assert (Hg : ∀ v, pair_of (g v) = pair_of v) by (intros v; unfold g; by case_decide).
    assert (Hgm : pair_of <$> (g <$> m) = pair_of <$> m) by (rewrite <-list_fmap_compose; apply list_fmap_ext; intros; apply Hg).
    split.
    + by rewrite Hgm.
    + intros p. rewrite Hgm, Hp, fmap_app, elem_of_app. split; [by left|]. intros [?|Hpe%list_elem_of_singleton]; [done|].
      rewrite Hpe, <-(Htell v0), <-Hp by done. by apply list_elem_of_fmap_2.
    + intros v x (v' & -> & Hv')%list_elem_of_fmap. rewrite Hg. unfold g. case_decide as Hkey.
      * simpl. rewrite mergePaths_elem, Hpa by done. rewrite (Htell v' Hv' Hkey). split.
        -- intros [(e' & ? & ? & ?)|?]; [exists e'|exists e]; rewrite elem_of_app, ?list_elem_of_singleton; auto.
        -- intros (e' & [?|He']%elem_of_app & ? & ?); [left; by exists e'|right]. by apply list_elem_of_singleton in He' as ->.
      * rewrite Hpa by done. split; [intros (e' & ? & ? & ?); exists e'; rewrite elem_of_app; auto|]. intros (e' & [?|He']%elem_of_app & Hpe & ?); [by exists e'|].
        apply list_elem_of_singleton in He' as ->. destruct Hkey. symmetry. by apply key_pair.
  - assert (Hnew : pair_of e ∉ pair_of <$> m).
    { intros (v & Hv & Hin)%list_elem_of_fmap. destruct Hno. apply list_elem_of_fmap. exists v. split; [by apply key_pair|done]. }
    split.
    + rewrite fmap_app. apply NoDup_app. split; [done|]. split; [|apply NoDup_singleton].
      intros p Hpm Hpe%list_elem_of_singleton. congruence.
    + intros p. rewrite !fmap_app, !elem_of_app, Hp. done.
    + intros v x [Hv|Hv%list_elem_of_singleton]%elem_of_app.
      * rewrite Hpa by done. split; [intros (e' & ? & ? & ?); exists e'; rewrite elem_of_app; auto|]. intros (e' & [?|He']%elem_of_app & Hpe & ?); [by exists e'|].
        apply list_elem_of_singleton in He' as ->. destruct Hnew. rewrite Hpe. by apply list_elem_of_fmap_2.
      * subst v. split; [intros; exists e; rewrite elem_of_app, list_elem_of_singleton; auto|]. intros (e' & [He'|He']%elem_of_app & Hpe & ?).
        -- destruct Hnew. rewrite <-Hpe, Hp. by apply list_elem_of_fmap_2.
        -- by apply list_elem_of_singleton in He' as ->.
Qed.

Lemma foldl_merged es : telling_keys es → merged es (foldl merge_into [] es).
Proof.
  induction es as [|e es IH] using rev_ind; intros Hk.
  - split; [constructor|done|]. by intros v x ?%elem_of_nil.
  - rewrite foldl_app. apply merge_into_merged; [done|]. apply IH. intros e1 e2 H1 H2. apply Hk; by apply elem_of_app; left.
Qed.

(** Errors told apart by message and details have one sorted list. *)
Lemma sorted_unique (l1 l2 : list FieldError) :
  NoDup (pair_of <$> l1) → l1 ≡ₚ l2 → StronglySorted (not_less error_less) l1 → StronglySorted (not_less error_less) l2 → l1 = l2.
Proof.
  intros Hn Hp H1 H2. apply (StronglySorted_unique_strong (not_less error_less)); [|done..].
  intros x1 x2 Hx1 Hx2 H12 H21. rewrite <-Hp in Hx2. pose proof (error_not_less_antisym _ _ H12 H21) as Heq.
  apply list_elem_of_lookup in Hx1 as [i Hi], Hx2 as [j Hj].
  assert (i = j) as ->; [|congruence]. eapply (NoDup_lookup _ _ _ (pair_of x1) Hn); rewrite list_lookup_fmap; rewrite ?Hi, ?Hj; simpl; congruence.
Qed.

Lemma pair_of_sort_Paths v : pair_of (sort_Paths v) = pair_of v.
Proof. done. Qed.

Lemma merge_shape n es :
  merge n es ≡ₚ sort_Paths <$> foldl merge_into [] es ∧ StronglySorted (not_less error_less) (merge n es).
Proof.
  unfold merge. split; [by rewrite sort_slice_perm, range_order_perm|]. apply sort_slice_sorted; apply _.
Qed.

Lemma merge_nodup n es : telling_keys es → NoDup (pair_of <$> merge n es).
Proof.
  intros Hk. destruct (merge_shape n es) as [Hp _]. rewrite Hp, <-list_fmap_compose.
  change (pair_of ∘ sort_Paths) with pair_of. apply (mg_nodup _ _ (foldl_merged es Hk)).
Qed.

(** [merge] promises the errors merged by message and details, with their paths combined
    and sorted, in the order of message and details.  It keeps the promise, whatever the
    order in which Go visits the map, for errors that the dash in [key] tells apart, and
    the text of an error is then always the same. *)
Theorem merge_spec n es (telling : telling_keys es) :
  NoDup (pair_of <$> merge n es) ∧ StronglySorted (not_less error_less) (merge n es) ∧
  (∀ p, p ∈ pair_of <$> merge n es ↔ p ∈ pair_of <$> es) ∧
  (∀ v, v ∈ merge n es → StronglySorted (not_less String.ltb) (fe_Paths v) ∧
     ∀ x, x ∈ fe_Paths v ↔ ∃ e, e ∈ es ∧ pair_of e = pair_of v ∧ x ∈ fe_Paths e) ∧
  (∀ n', merge n' es = merge n es).
Proof.
  destruct (foldl_merged es telling) as [Hn Hp Hpa]. destruct (merge_shape n es) as [Hperm Hs]. split_and!.
  - by apply merge_nodup.
  - done.
  - intros p. rewrite Hperm, <-list_fmap_compose, <-Hp. done.
  - intros v. rewrite Hperm. intros (v' & -> & Hv')%list_elem_of_fmap. split; [apply sort_slice_sorted; apply _|].
    intros x. simpl. rewrite sort_slice_perm, pair_of_sort_Paths. by apply Hpa.
  - intros n'. destruct (merge_shape n' es) as [Hperm' Hs']. apply sorted_unique; [by apply merge_nodup| |done..].
    by rewrite Hperm, Hperm'.
Qed.

(** The dash does not always tell them apart: of two errors one is lost. *)
Lemma merge_loses_an_error n :
  let es := [mkFieldError "a-b" ["x"] "c" []; mkFieldError "a" ["y"] "b-c" []] in
  ∃ ps, merge n es = [mkFieldError "a-b" ps "c" []].
Proof.
  cbv zeta. set (es := [_; _]). destruct (merge_shape n es) as [Hp _].
  assert (Hm : foldl merge_into [] es = [mkFieldError "a-b" ["x"; "y"] "c" []]) by (vm_compute; reflexivity).
  rewrite Hm in Hp. apply Permutation_singleton_r in Hp. eexists. exact Hp.
Qed.
End merge.

Section demo.
#[local] Instance demo_runtime : GoRuntime := deterministic_runtime Z.of_nat.
Definition demo_errors : list FieldError :=
  [ErrMissingField ["spec.topic"]; ErrInvalidValue "-1" "spec.numPartitions"; ErrMissingField ["spec.bootstrapServers"]].

Lemma merge_spec_witness :
  merge 0 demo_errors =
    [mkFieldError "invalid value: -1" ["spec.numPartitions"] "" []; mkFieldError "missing field(s)" ["spec.bootstrapServers"; "spec.topic"] "" []] ∧
  merge 1 demo_errors = merge 0 demo_errors.
Proof.
  assert (telling : telling_keys demo_errors).
  { intros e e' He He'. repeat (apply elem_of_cons in He as [->|He]); try (by apply elem_of_nil in He);
      repeat (apply elem_of_cons in He' as [->|He']); try (by apply elem_of_nil in He'); vm_compute; congruence. }
  destruct (merge_spec 0 demo_errors telling) as (_ & _ & _ & _ & Hsame).
  split; [vm_compute; reflexivity|apply Hsame].
Defined.
End demo.
