(* ===== verification/Conditions.v ===== *)
(** * Conditions: the condition manager of the channel status

    Models [vendor/knative.dev/pkg/apis/condition_types.go] and
    [condition_set.go]: a [ConditionSet] names a top-level ("happy") condition
    and its dependents, and the manager keeps the happy condition in step with
    them.  The state is the condition list of the status together with the
    number of clock readings made so far ([tick]); [time.Now()] is [now tick]. *)
From S2P Require Import Prelude.

Abbreviation ConditionType := string (only parsing).

(** [corev1.ConditionStatus], a Go string with three named values. *)
Inductive ConditionStatus :=
  | ConditionTrue
  | ConditionFalse
  | ConditionUnknown
  | OtherStatus (s : string).

(** [apis.ConditionSeverity], a Go string; [ConditionSeverityError] is the
    empty string. *)
Inductive ConditionSeverity :=
  | ConditionSeverityError
  | ConditionSeverityWarning
  | ConditionSeverityInfo
  | OtherSeverity (s : string).

#[export] Instance ConditionStatus_eq_dec : EqDecision ConditionStatus.
Proof. solve_decision. Defined.
#[export] Instance ConditionSeverity_eq_dec : EqDecision ConditionSeverity.
Proof. solve_decision. Defined.

Record Condition := mkCondition {
  Type_ : ConditionType;
  Status : ConditionStatus;
  Severity : ConditionSeverity;
  LastTransitionTime : Z;
  Reason : string;
  Message : string;
}.
#[export] Instance Condition_eq_dec : EqDecision Condition.
Proof. solve_decision. Defined.

Definition ConditionReady : ConditionType := "Ready".
Definition ConditionSucceeded : ConditionType := "Succeeded".

(** The methods of [*Condition] accept a nil receiver: [None]. *)
Definition IsTrue (c : option Condition) : bool :=
  match c with None => false | Some c => bool_decide (Status c = ConditionTrue) end.
Definition IsFalse (c : option Condition) : bool :=
  match c with None => false | Some c => bool_decide (Status c = ConditionFalse) end.
Definition IsUnknown (c : option Condition) : bool :=
  match c with None => true | Some c => bool_decide (Status c = ConditionUnknown) end.

Record ConditionSet := mkConditionSet {
  happy : ConditionType;
  dependents : list ConditionType;
}.

Definition contains (ct : list ConditionType) (t : ConditionType) : bool :=
  List.existsb (λ c, bool_decide (c = t)) ct.

Fixpoint collect_dependents (happy : ConditionType) (deps ds : list ConditionType) :=
  match ds with
  | [] => deps
  | d :: ds =>
      if bool_decide (d = happy) || contains deps d
      then collect_dependents happy deps ds
      else collect_dependents happy (deps ++ [d]) ds
  end.

Definition newConditionSet (happy : ConditionType) (ds : list ConditionType) : ConditionSet :=
  {| happy := happy; dependents := collect_dependents happy [] ds |}.

Definition NewLivingConditionSet (ds : list ConditionType) : ConditionSet :=
  newConditionSet ConditionReady ds.

Definition NewBatchConditionSet (ds : list ConditionType) : ConditionSet :=
  newConditionSet ConditionSucceeded ds.

(** What a manager operates on: the status's conditions and the clock. *)
Record Managed := mkManaged {
  conditions : list Condition;
  tick : nat;
}.
#[export] Instance Managed_eq_dec : EqDecision Managed.
Proof. solve_decision. Defined.

Section manager.
  Context {rt : GoRuntime} (r : ConditionSet).
  Implicit Types (m : Managed) (l : list Condition) (c cond : Condition) (t : ConditionType).

(** The loop of [GetCondition]: the first condition of the type. *)
Definition GetCondition m t : option Condition :=
  List.find (λ c, bool_decide (Type_ c = t)) (conditions m).

Definition GetTopLevelConditionType : ConditionType := happy r.

Definition GetTopLevelCondition m : option Condition := GetCondition m (happy r).

Definition IsHappy m : bool := IsTrue (GetTopLevelCondition m).

Definition with_time cond (z : Z) : Condition :=
  {| Type_ := Type_ cond; Status := Status cond; Severity := Severity cond;
     LastTransitionTime := z; Reason := Reason cond; Message := Message cond |}.

(** The loop of [SetCondition]: [None] is the early return, taken when a
    condition of the type is there already and differs at most in its
    [LastTransitionTime]; otherwise the conditions of the other types. *)
Fixpoint set_condition_loop cond l (acc : list Condition) : option (list Condition) :=
  match l with
  | [] => Some acc
  | c :: l =>
      if bool_decide (Type_ c ≠ Type_ cond) then set_condition_loop cond l (acc ++ [c])
      else if bool_decide (with_time cond (LastTransitionTime c) = c) then None
      else set_condition_loop cond l acc
  end.

Definition type_less c1 c2 : bool := String.ltb (Type_ c1) (Type_ c2).

Definition SetCondition cond m : Managed :=
  match set_condition_loop cond (conditions m) [] with
  | None => m
  | Some others =>
      {| conditions := sort_slice type_less (others ++ [with_time cond (now (tick m))]);
         tick := S (tick m) |}
  end.

Definition isTerminal t : bool :=
  contains (dependents r) t || bool_decide (t = happy r).

Definition severity t : ConditionSeverity :=
  if isTerminal t then ConditionSeverityError else ConditionSeverityInfo.

(** A fresh [Condition] literal: [LastTransitionTime] has the zero value. *)
Definition new_condition t (s : ConditionStatus) (reason message : string) : Condition :=
  {| Type_ := t; Status := s; Severity := severity t; LastTransitionTime := 0;
     Reason := reason; Message := message |}.

Definition time_after c1 c2 : bool :=
  bool_decide (LastTransitionTime c2 < LastTransitionTime c1)%Z.

Definition terminal_conditions l : list Condition :=
  filter (λ c, Severity c = ConditionSeverityError ∧ Type_ c ≠ happy r) l.

Definition findUnhappyDependent m : option Condition :=
  if bool_decide (length (dependents r) = 0) then None
  else
    let sorted := sort_slice time_after (terminal_conditions (conditions m)) in
    match List.find (λ c, IsFalse (Some c)) sorted with
    | Some c => Some c
    | None =>
        match List.find (λ c, IsUnknown (Some c)) sorted with
        | Some c => Some c
        | None =>
            if bool_decide (length sorted < length (dependents r))
            then Some {| Type_ := ""; Status := ConditionUnknown;
                         Severity := ConditionSeverityError; LastTransitionTime := 0;
                         Reason := ""; Message := "" |}
            else None
        end
    end.

Definition recomputeHappiness t m : Managed :=
  match findUnhappyDependent m with
  | Some c => SetCondition (new_condition (happy r) (Status c) (Reason c) (Message c)) m
  | None =>
      if bool_decide (t ≠ happy r)
      then SetCondition (new_condition (happy r) ConditionTrue "" "") m
      else m
  end.

Definition MarkTrue t m : Managed :=
  recomputeHappiness t (SetCondition (new_condition t ConditionTrue "" "") m).

(** [message] is the formatted [fmt.Sprintf(messageFormat, messageA...)]. *)
Definition MarkTrueWithReason t (reason message : string) m : Managed :=
  recomputeHappiness t (SetCondition (new_condition t ConditionTrue reason message) m).

(** The types [MarkFalse] touches: [t], and the happy condition for every
    occurrence of [t] among the dependents. *)
Definition MarkFalse_types t : list ConditionType :=
  t :: omap (λ d, if bool_decide (d = t) then Some (happy r) else None) (dependents r).

Definition MarkFalse t (reason message : string) m : Managed :=
  foldl (λ m t, SetCondition (new_condition t ConditionFalse reason message) m)
    m (MarkFalse_types t).

(** The loop over the dependents in [MarkUnknown]: [inl] is the early return. *)
Fixpoint MarkUnknown_loop t (reason message : string) (ds : list ConditionType)
    (isDependent : bool) m : Managed + bool :=
  match ds with
  | [] => inr isDependent
  | d :: ds =>
      if IsFalse (GetCondition m d) then
        inl (if IsFalse (GetCondition m (happy r)) then m
             else MarkFalse (happy r) reason message m)
      else MarkUnknown_loop t reason message ds (isDependent || bool_decide (d = t)) m
  end.

Definition MarkUnknown t (reason message : string) m : Managed :=
  let m := SetCondition (new_condition t ConditionUnknown reason message) m in
  match MarkUnknown_loop t reason message (dependents r) false m with
  | inl m => m
  | inr true => SetCondition (new_condition (happy r) ConditionUnknown reason message) m
  | inr false => m
  end.

Definition initializeTerminalCondition t (s : ConditionStatus) m : Managed :=
  match GetCondition m t with
  | Some _ => m
  | None => SetCondition {| Type_ := t; Status := s; Severity := ConditionSeverityError;
                            LastTransitionTime := 0; Reason := ""; Message := "" |} m
  end.

Definition InitializeConditions m : Managed :=
  let '(h, m) :=
    match GetCondition m (happy r) with
    | Some h => (Status h, m)
    | None => (ConditionUnknown,
        SetCondition {| Type_ := happy r; Status := ConditionUnknown;
                        Severity := ConditionSeverityError; LastTransitionTime := 0;
                        Reason := ""; Message := "" |} m)
    end in
  let s := if bool_decide (h = ConditionTrue) then ConditionTrue else ConditionUnknown in
  foldl (λ m t, initializeTerminalCondition t s m) m (dependents r).

(** [ClearCondition]: terminal conditions cannot be cleared. *)
Definition ClearCondition t m : option string * Managed :=
  if isTerminal t then (Some "clearing terminal conditions not implemented", m)
  else
    match GetCondition m t with
    | None => (None, m)
    | Some _ =>
        (None, {| conditions := sort_slice type_less
                    (filter (λ c, Type_ c ≠ t) (conditions m));
                  tick := tick m |})
    end.
End manager.

(** ** Lookups after an update *)
Section lemmas.
Context {rt : GoRuntime} (r : ConditionSet).
Implicit Types (m : Managed) (l : list Condition) (c cond : Condition) (t : ConditionType).

Definition types m : list ConditionType := Type_ <$> conditions m.

Lemma contains_spec ds t : contains ds t = true ↔ t ∈ ds.
Proof.
  unfold contains. rewrite List.existsb_exists. split.
  - intros (x & Hx & ->%bool_decide_eq_true). by apply list_elem_of_In.
  - intros H. exists t. rewrite <-list_elem_of_In, bool_decide_eq_true. done.
Qed.

Lemma isTerminal_spec t : isTerminal r t = true ↔ t ∈ happy r :: dependents r.
Proof.
  unfold isTerminal. rewrite orb_true_iff, contains_spec, bool_decide_eq_true.
  rewrite elem_of_cons. tauto.
Qed.

Lemma set_condition_loop_spec cond l acc :
  match set_condition_loop cond l acc with
  | Some others => others = acc ++ filter (λ c, Type_ c ≠ Type_ cond) l
  | None => ∃ c, c ∈ l ∧ with_time cond (LastTransitionTime c) = c
  end.
Proof.
  revert acc. induction l as [|c l IH]; intros acc; simpl; [by rewrite app_nil_r|].
  rewrite filter_cons. case_bool_decide as Hne; case_decide; try done;
    [|case_bool_decide].
  - specialize (IH (acc ++ [c])). destruct (set_condition_loop _ _ _).
    + by rewrite <-app_assoc in IH.
    + destruct IH as (c' & ? & ?). exists c'. by rewrite elem_of_cons; auto.
  - exists c. by rewrite elem_of_cons; auto.
  - specialize (IH acc). destruct (set_condition_loop _ _ _); [done|].
    destruct IH as (c' & ? & ?). exists c'. by rewrite elem_of_cons; auto.
Qed.

(** [SetCondition] either leaves the list as it is (an equal condition is there)
    or replaces the conditions of that type by the new one, up to order. *)
Lemma SetCondition_cases cond m :
  (∃ c, c ∈ conditions m ∧ with_time cond (LastTransitionTime c) = c ∧
        SetCondition cond m = m) ∨
  (conditions (SetCondition cond m) ≡ₚ
     with_time cond (now (tick m)) :: filter (λ c, Type_ c ≠ Type_ cond) (conditions m) ∧
   tick (SetCondition cond m) = S (tick m)).
Proof.
  unfold SetCondition. pose proof (set_condition_loop_spec cond (conditions m) []) as H.
  destruct (set_condition_loop _ _ _) as [others|]; simpl in *.
  - right. split; [|done]. rewrite sort_slice_perm, H. symmetry. apply Permutation_cons_append.
  - left. destruct H as (c & ? & ?). eauto.
Qed.

Lemma GetCondition_Some m t c : GetCondition m t = Some c → c ∈ conditions m ∧ Type_ c = t.
Proof. intros [? ?%bool_decide_eq_true]%find_Some_elem. done. Qed.

Lemma GetCondition_None m t : GetCondition m t = None ↔ t ∉ types m.
Proof.
  unfold types. rewrite list_elem_of_fmap. split.
  - intros H (c & -> & Hc). apply (find_None_elem _ _ _ H) in Hc.
    by rewrite bool_decide_eq_false in Hc.
  - intros H. destruct (GetCondition m t) eqn:E; [|done].
    apply GetCondition_Some in E as [??]. destruct H. eauto.
Qed.

Lemma types_unique m c1 c2 :
  NoDup (types m) → c1 ∈ conditions m → c2 ∈ conditions m → Type_ c1 = Type_ c2 → c1 = c2.
Proof.
  unfold types. induction (conditions m) as [|c l IH]; [by inversion 2|].
  rewrite fmap_cons, NoDup_cons, list_elem_of_fmap.
  intros [Hc Hnd] [->|H1]%elem_of_cons [->|H2]%elem_of_cons Heq; [done| | |by apply IH].
  - destruct Hc. eauto.
  - destruct Hc. eauto.
Qed.

Lemma GetCondition_elem m c :
  NoDup (types m) → c ∈ conditions m → GetCondition m (Type_ c) = Some c.
Proof.
  intros Hnd Hc. destruct (GetCondition m (Type_ c)) as [c'|] eqn:E.
  - apply GetCondition_Some in E as [??]. f_equal. by apply (types_unique m).
  - apply GetCondition_None in E. destruct E. unfold types. apply list_elem_of_fmap. eauto.
Qed.

Lemma SetCondition_types_nodup cond m :
  NoDup (types m) → NoDup (types (SetCondition cond m)).
Proof.
  intros Hnd. destruct (SetCondition_cases cond m) as [(c & ? & ? & ->)|[Hp _]]; [done|].
  unfold types in *. rewrite Hp, fmap_cons. simpl. apply NoDup_cons. split.
  - rewrite list_elem_of_fmap. intros (c & Heq & [? ?]%list_elem_of_filter). congruence.
  - by apply NoDup_fmap_filter.
Qed.

Lemma GetCondition_SetCondition_eq cond m :
  NoDup (types m) →
  ∃ z, GetCondition (SetCondition cond m) (Type_ cond) = Some (with_time cond z).
Proof.
  intros Hnd. pose proof (SetCondition_types_nodup cond m Hnd) as Hnd'.
  destruct (SetCondition_cases cond m) as [(c & Hc & Heq & Hm)|[Hp _]].
  - rewrite Hm. exists (LastTransitionTime c).
    rewrite Heq. assert (Type_ cond = Type_ c) as -> by (by rewrite <-Heq).
    by apply GetCondition_elem.
  - exists (now (tick m)).
    apply (GetCondition_elem _ (with_time cond (now (tick m)))); [done|].
    rewrite Hp. apply elem_of_cons. by left.
Qed.

Lemma GetCondition_SetCondition_ne cond m t :
  NoDup (types m) → t ≠ Type_ cond →
  GetCondition (SetCondition cond m) t = GetCondition m t.
Proof.
  intros Hnd Hne. pose proof (SetCondition_types_nodup cond m Hnd) as Hnd'.
  destruct (SetCondition_cases cond m) as [(c & Hc & Heq & ->)|[Hp _]]; [done|].
  destruct (GetCondition m t) as [c|] eqn:E.
  - apply GetCondition_Some in E as [Hc <-]. apply GetCondition_elem; [done|].
    rewrite Hp, elem_of_cons, list_elem_of_filter. by right.
  - apply GetCondition_None in E. apply GetCondition_None. unfold types in *.
    rewrite Hp, fmap_cons, elem_of_cons, list_elem_of_fmap. simpl. intros [->|(c & -> & Hc)]; [done|].
    apply list_elem_of_filter in Hc as [_ Hc]. destruct E. apply list_elem_of_fmap. eauto.
Qed.

Lemma SetCondition_elem cond m c :
  c ∈ conditions (SetCondition cond m) →
  (c ∈ conditions m) ∨ ∃ z, c = with_time cond z.
Proof.
  destruct (SetCondition_cases cond m) as [(c' & Hc & Heq & ->)|[Hp _]]; [by left|].
  rewrite Hp, elem_of_cons, list_elem_of_filter. intros [->|[_ ?]]; eauto.
Qed.
End lemmas.

(** ** Well-formed condition lists and the happiness of a resource *)

Definition known (s : ConditionStatus) : bool :=
  match s with OtherStatus _ => false | _ => true end.

Record set_wf (r : ConditionSet) : Prop := {
  set_wf_nodup : NoDup (dependents r);
  set_wf_happy : happy r ∉ dependents r;
}.

(** At most one condition per type; the terminal conditions are those of
    severity Error, and have one of the three named statuses. *)
Record wf (r : ConditionSet) (m : Managed) : Prop := {
  wf_nodup : NoDup (types m);
  wf_severity : ∀ c, c ∈ conditions m →
    Severity c = ConditionSeverityError ↔ isTerminal r (Type_ c) = true;
  wf_known : ∀ c, c ∈ conditions m → isTerminal r (Type_ c) = true → known (Status c) = true;
}.
#[export] Hint Resolve wf_nodup : ktc.

(** The status the dependents call for: False if one of them is False, else
    Unknown if one of them is Unknown or missing, else True. *)
Definition dep_summary (r : ConditionSet) (m : Managed) : ConditionStatus :=
  if List.existsb (λ d, IsFalse (GetCondition m d)) (dependents r) then ConditionFalse
  else if List.existsb (λ d, IsUnknown (GetCondition m d)) (dependents r)
  then ConditionUnknown else ConditionTrue.

Definition status_of (m : Managed) (t : ConditionType) : option ConditionStatus :=
  Status <$> GetCondition m t.

(** The happy condition says exactly what the dependents call for. *)
Definition agrees (r : ConditionSet) (m : Managed) : Prop :=
  status_of m (happy r) = Some (dep_summary r m).

(** A happy resource has happy dependents. *)
Definition sound (r : ConditionSet) (m : Managed) : Prop :=
  IsHappy r m = true → ∀ d, d ∈ dependents r → status_of m d = Some ConditionTrue.

Lemma collect_dependents_wf h deps ds :
  NoDup deps → h ∉ deps →
  NoDup (collect_dependents h deps ds) ∧ h ∉ collect_dependents h deps ds.
Proof.
  revert deps. induction ds as [|d ds IH]; intros deps Hnd Hh; simpl; [done|].
  case_bool_decide; simpl; [by apply IH|].
  destruct (contains deps d) eqn:E; [by apply IH|].
  apply IH.
  - apply NoDup_app. split_and!; [done| |apply NoDup_singleton].
    intros x Hx ->%list_elem_of_singleton. apply contains_spec in Hx. congruence.
  - rewrite elem_of_app, list_elem_of_singleton. intros [?|?]; [done|congruence].
Qed.

Lemma newConditionSet_wf h ds : set_wf (newConditionSet h ds).
Proof.
  destruct (collect_dependents_wf h [] ds) as [? ?]; [constructor|set_solver|].
  by split.
Qed.

Section happiness.
Context {rt : GoRuntime} (r : ConditionSet) (Hr : set_wf r).
Implicit Types (m : Managed) (c cond : Condition) (t d : ConditionType).

Lemma severity_terminal t : isTerminal r t = true → severity r t = ConditionSeverityError.
Proof. unfold severity. by intros ->. Qed.

Lemma severity_spec t : severity r t = ConditionSeverityError ↔ isTerminal r t = true.
Proof. unfold severity. by destruct (isTerminal r t). Qed.

Lemma happy_terminal : isTerminal r (happy r) = true.
Proof. apply isTerminal_spec. by left. Qed.

Lemma dep_terminal d : d ∈ dependents r → isTerminal r d = true.
Proof. intros. apply isTerminal_spec. by right. Qed.

Lemma dep_not_happy d : d ∈ dependents r → d ≠ happy r.
Proof. intros Hd ->. by destruct Hr. Qed.

Lemma SetCondition_wf cond m :
  wf r m → (Severity cond = ConditionSeverityError ↔ isTerminal r (Type_ cond) = true) →
  (isTerminal r (Type_ cond) = true → known (Status cond) = true) →
  wf r (SetCondition cond m).
Proof.
  intros [Hnd Hsev Hkn] Hs Hk. split; [by apply SetCondition_types_nodup| |].
  - intros c [Hc|[z ->]]%SetCondition_elem; [by apply Hsev|done].
  - intros c [Hc|[z ->]]%SetCondition_elem; [by apply Hkn|done].
Qed.

Lemma SetCondition_new_wf t s reason msg m :
  wf r m → known s = true → wf r (SetCondition (new_condition r t s reason msg) m).
Proof. intros. apply SetCondition_wf; [done|apply severity_spec|done]. Qed.
Hint Resolve SetCondition_new_wf : ktc.

Lemma status_of_SetCondition cond m t :
  wf r m → status_of (SetCondition cond m) t =
           if decide (t = Type_ cond) then Some (Status cond) else status_of m t.
Proof.
  intros Hwf. unfold status_of. case_decide as Ht.
  - subst. destruct (GetCondition_SetCondition_eq cond m) as [z ->]; [by apply Hwf|done].
  - rewrite GetCondition_SetCondition_ne; [done|by apply Hwf|done].
Qed.

Lemma status_of_new_eq t s reason msg m :
  wf r m → status_of (SetCondition (new_condition r t s reason msg) m) t = Some s.
Proof. intros. rewrite status_of_SetCondition by done. by case_decide. Qed.

Lemma status_of_new_ne t t' s reason msg m :
  wf r m → t ≠ t' →
  status_of (SetCondition (new_condition r t' s reason msg) m) t = status_of m t.
Proof. intros. rewrite status_of_SetCondition by done. by case_decide. Qed.

Lemma IsFalse_status m t : IsFalse (GetCondition m t) = bool_decide (status_of m t = Some ConditionFalse).
Proof. unfold status_of. destruct (GetCondition m t); simpl; [apply bool_decide_ext; split; congruence|done]. Qed.

Lemma IsTrue_status m t : IsTrue (GetCondition m t) = bool_decide (status_of m t = Some ConditionTrue).
Proof. unfold status_of. destruct (GetCondition m t); simpl; [apply bool_decide_ext; split; congruence|done]. Qed.

Lemma IsUnknown_status m t :
  IsUnknown (GetCondition m t) =
  bool_decide (status_of m t = None ∨ status_of m t = Some ConditionUnknown).
Proof. unfold status_of. destruct (GetCondition m t); simpl; [apply bool_decide_ext; intuition congruence|done]. Qed.

Lemma status_of_known m t s :
  wf r m → isTerminal r t = true → status_of m t = Some s → known s = true.
Proof.
  intros Hwf Ht. unfold status_of. intros (c & Hc & ->)%fmap_Some.
  apply GetCondition_Some in Hc as [? <-]. by apply Hwf.
Qed.

(** [dep_summary] through the statuses alone. *)
Lemma dep_summary_cases m :
  (∃ d, d ∈ dependents r ∧ status_of m d = Some ConditionFalse) ∧ dep_summary r m = ConditionFalse ∨
  (∀ d, d ∈ dependents r → status_of m d ≠ Some ConditionFalse) ∧
    ((∃ d, d ∈ dependents r ∧ (status_of m d = None ∨ status_of m d = Some ConditionUnknown)) ∧
       dep_summary r m = ConditionUnknown ∨
     (∀ d, d ∈ dependents r → status_of m d ≠ None ∧ status_of m d ≠ Some ConditionUnknown) ∧
       dep_summary r m = ConditionTrue).
Proof.
  unfold dep_summary.
  destruct (List.existsb (λ d, IsFalse _) _) eqn:EF.
  - apply List.existsb_exists in EF as (d & Hd & HF).
    rewrite IsFalse_status, bool_decide_eq_true in HF. rewrite <-list_elem_of_In in Hd. eauto.
  - right. split.
    { intros d Hd Hs. rewrite <-not_true_iff_false, List.existsb_exists in EF. destruct EF.
      exists d. rewrite <-list_elem_of_In, IsFalse_status, bool_decide_eq_true. done. }
    destruct (List.existsb (λ d, IsUnknown _) _) eqn:EU.
    + apply List.existsb_exists in EU as (d & Hd & HU).
      rewrite IsUnknown_status, bool_decide_eq_true in HU. rewrite <-list_elem_of_In in Hd. eauto.
    + right. split; [|done]. intros d Hd.
      rewrite <-not_true_iff_false, List.existsb_exists in EU.
      assert (¬ (status_of m d = None ∨ status_of m d = Some ConditionUnknown)) as Hn; [|tauto].
      intros HU. destruct EU. exists d.
      rewrite <-list_elem_of_In, IsUnknown_status, bool_decide_eq_true. done.
Qed.

Lemma dep_summary_True m :
  wf r m →
  dep_summary r m = ConditionTrue ↔ ∀ d, d ∈ dependents r → status_of m d = Some ConditionTrue.
Proof.
  intros Hwf.
  destruct (dep_summary_cases m) as [[(d & Hd & Hs) ->]|[HF [[(d & Hd & Hs) ->]|[HU ->]]]].
  - split; [done|]. intros H. specialize (H d Hd). congruence.
  - split; [done|]. intros H. specialize (H d Hd). destruct Hs; congruence.
  - split; [|done]. intros _ d Hd. specialize (HF d Hd) as HF. specialize (HU d Hd) as [? ?].
    destruct (status_of m d) as [s|] eqn:E; [|done].
    pose proof (status_of_known m d s Hwf (dep_terminal d Hd) E). by destruct s.
Qed.

Lemma dep_summary_ext m1 m2 :
  (∀ d, d ∈ dependents r → status_of m1 d = status_of m2 d) → dep_summary r m1 = dep_summary r m2.
Proof.
  intros Hext. assert (∀ d, d ∈ dependents r → status_of m2 d = status_of m1 d) as Hext'
    by (intros; symmetry; auto).
  destruct (dep_summary_cases m1) as [[(d & Hd & Hs) ->]|[HF [[(d & Hd & Hs) ->]|[HU ->]]]],
    (dep_summary_cases m2) as [[(d' & Hd' & Hs') ->]|[HF' [[(d' & Hd' & Hs') ->]|[HU' ->]]]];
    try done; exfalso.
  - apply (HF' d Hd). by rewrite Hext'.
  - apply (HF' d Hd). by rewrite Hext'.
  - apply (HF d' Hd'). by rewrite Hext.
  - destruct (HU' d Hd) as [? ?]. rewrite Hext' in * by done. tauto.
  - apply (HF d' Hd'). by rewrite Hext.
  - destruct (HU d' Hd') as [? ?]. rewrite Hext in * by done. tauto.
Qed.

(** *** The unhappy dependent *)

Lemma terminal_conditions_elem m c :
  wf r m →
  c ∈ terminal_conditions r (conditions m) ↔
  Type_ c ∈ dependents r ∧ GetCondition m (Type_ c) = Some c.
Proof.
  intros Hwf. unfold terminal_conditions. rewrite list_elem_of_filter. split.
  - intros [[Hs Hh] Hc]. split; [|apply GetCondition_elem; eauto with ktc].
    apply (wf_severity _ _ Hwf), isTerminal_spec, elem_of_cons in Hs as [?|?]; done.
  - intros [Hd Hc]. apply GetCondition_Some in Hc as [Hc _]. split_and!; [| |done].
    + apply (wf_severity _ _ Hwf); [done|]. by apply dep_terminal.
    + by apply dep_not_happy.
Qed.

Lemma terminal_conditions_complete m d s :
  wf r m → d ∈ dependents r → status_of m d = Some s →
  ∃ c, c ∈ terminal_conditions r (conditions m) ∧ Type_ c = d ∧ Status c = s.
Proof.
  intros Hwf Hd (c & Hc & ->)%fmap_Some. pose proof Hc as [_ Ht]%GetCondition_Some. subst d.
  exists c. by rewrite terminal_conditions_elem.
Qed.

Lemma terminal_conditions_length m :
  wf r m →
  length (terminal_conditions r (conditions m)) < length (dependents r) ↔
  ∃ d, d ∈ dependents r ∧ status_of m d = None.
Proof.
  intros Hwf. set (ts := Type_ <$> terminal_conditions r (conditions m)).
  assert (length (terminal_conditions r (conditions m)) = length ts) as ->
    by (by unfold ts; rewrite length_fmap).
  assert (∀ d, d ∈ ts → d ∈ dependents r ∧ status_of m d ≠ None) as Hts.
  { intros d (c & -> & Hc)%list_elem_of_fmap. apply terminal_conditions_elem in Hc as [? Hc]; [|done].
    split; [done|]. unfold status_of. by rewrite Hc. }
  assert (NoDup ts) as Hnd.
  { apply NoDup_fmap_filter, Hwf. }
  split.
  - intros Hlt. destruct (decide (Exists (λ d, status_of m d = None) (dependents r))) as [He|Hne].
    + by apply Exists_exists in He.
    + exfalso. rewrite <-Forall_Exists_neg, Forall_forall in Hne.
      assert (dependents r ⊆+ ts) as Hsub%submseteq_length; [|lia].
      apply NoDup_submseteq; [apply Hr|]. intros d Hd.
      specialize (Hne d Hd). destruct (status_of m d) as [s|] eqn:E; [|done].
      destruct (terminal_conditions_complete m d s) as (c & Hc & <- & _); [done..|].
      apply list_elem_of_fmap. eauto.
  - intros (d & Hd & Hs).
    assert (d :: ts ⊆+ dependents r) as Hsub%submseteq_length; [|simpl in *; lia].
    apply NoDup_submseteq.
    + apply NoDup_cons. split; [|done]. by intros [_ ?]%Hts.
    + intros x [->|[? _]%Hts]%elem_of_cons; done.
Qed.

Lemma find_sorted_status m (f : Condition → bool) s :
  wf r m → (∀ c, f c = true ↔ Status c = s) →
  match List.find f (sort_slice time_after (terminal_conditions r (conditions m))) with
  | Some c => Status c = s ∧ ∃ d, d ∈ dependents r ∧ status_of m d = Some s
  | None => ∀ d, d ∈ dependents r → status_of m d ≠ Some s
  end.
Proof.
  intros Hwf Hf. case_match eqn:E.
  - apply find_Some_elem in E as [Hc Hs%Hf]. split; [done|].
    rewrite sort_slice_perm in Hc. apply terminal_conditions_elem in Hc as [? Hc]; [|done].
    eexists. split; [done|]. unfold status_of. rewrite Hc. simpl. by f_equal.
  - intros d Hd Hs.
    destruct (terminal_conditions_complete m d s) as (c & Hc & Ht & Hst%Hf); [done..|].
    rewrite (find_None_elem _ _ c E) in Hst; [done|]. by rewrite sort_slice_perm.
Qed.

Lemma findUnhappyDependent_summary m :
  wf r m →
  match findUnhappyDependent r m with
  | Some c => Status c = dep_summary r m ∧ dep_summary r m ≠ ConditionTrue
  | None => dep_summary r m = ConditionTrue
  end.
Proof.
  intros Hwf. unfold findUnhappyDependent. case_bool_decide as Hlen.
  { apply dep_summary_True; [done|]. apply nil_length_inv in Hlen. rewrite Hlen. by intros ? ?%elem_of_nil. }
  pose proof (find_sorted_status m (λ c, IsFalse (Some c)) ConditionFalse Hwf
    (λ c, bool_decide_eq_true _)) as HF.
  pose proof (find_sorted_status m (λ c, IsUnknown (Some c)) ConditionUnknown Hwf
    (λ c, bool_decide_eq_true _)) as HU.
  pose proof (terminal_conditions_length m Hwf) as Hcount.
  rewrite <-(Permutation_length (sort_slice_perm time_after (terminal_conditions r (conditions m)))) in Hcount.
  destruct (List.find (λ c, IsFalse (Some c)) _) as [c|].
  - destruct HF as [-> (d & Hd & Hs)].
    destruct (dep_summary_cases m) as [[_ ->]|[HnF _]]; [done|]. by destruct (HnF d).
  - destruct (List.find (λ c, IsUnknown (Some c)) _) as [c|].
    + destruct HU as [-> (d & Hd & Hs)].
      destruct (dep_summary_cases m) as [[(d' & Hd' & Hs') _]|[_ [[_ ->]|[HnU _]]]];
        [by destruct (HF d')|done|]. destruct (HnU d Hd). done.
    + case_bool_decide as Hlt; simpl; rewrite Hcount in Hlt;
        destruct (dep_summary_cases m) as [[(d' & Hd' & Hs') _]|[_ [[(d' & Hd' & Hs') ->]|[HnU ->]]]];
        try (by destruct (HF d')); try done.
      * destruct Hlt as (d & Hd & Hs). by destruct (HnU d Hd).
      * destruct Hs' as [Hs'|Hs']; [destruct Hlt; eauto|by destruct (HU d')].
Qed.
(** *** The marking operations

    Each of them, applied to a dependent, makes the happy condition agree with
    the dependents and leaves the other dependents alone. *)

(** [m'] is [m] with dependent [d] at status [s] and a happy condition that
    agrees with the dependents. *)
Record marked (d : ConditionType) (s : ConditionStatus) m m' : Prop := {
  marked_wf : wf r m';
  marked_agrees : agrees r m';
  marked_status : status_of m' d = Some s;
  marked_others : ∀ t, t ≠ d → t ≠ happy r → status_of m' t = status_of m t;
}.

Lemma set_happy_agrees reason msg m :
  wf r m →
  let m' := SetCondition (new_condition r (happy r) (dep_summary r m) reason msg) m in
  wf r m' ∧ agrees r m' ∧ ∀ t, t ≠ happy r → status_of m' t = status_of m t.
Proof.
  intros Hwf m'.
  assert (∀ t, t ≠ happy r → status_of m' t = status_of m t) as Hext.
  { intros t Ht. by apply status_of_new_ne. }
  split_and!; [|unfold agrees|done].
  - apply SetCondition_new_wf; [done|].
    by destruct (dep_summary_cases m) as [[_ ->]|[_ [[_ ->]|[_ ->]]]].
  - rewrite (dep_summary_ext m' m) by (intros d Hd; apply Hext; by apply dep_not_happy).
    by apply status_of_new_eq.
Qed.

Lemma recomputeHappiness_agrees d m :
  wf r m → d ∈ dependents r →
  let m' := recomputeHappiness r d m in
  wf r m' ∧ agrees r m' ∧ ∀ t, t ≠ happy r → status_of m' t = status_of m t.
Proof.
  intros Hwf Hd. unfold recomputeHappiness.
  pose proof (findUnhappyDependent_summary m Hwf) as Hsum.
  destruct (findUnhappyDependent r m) as [c|].
  - destruct Hsum as [-> _]. by apply set_happy_agrees.
  - rewrite bool_decide_eq_true_2 by (by apply dep_not_happy).
    rewrite <-Hsum. by apply set_happy_agrees.
Qed.

Lemma mark_recompute d s reason msg m :
  wf r m → d ∈ dependents r → known s = true →
  marked d s m (recomputeHappiness r d (SetCondition (new_condition r d s reason msg) m)).
Proof.
  intros Hwf Hd Hs.
  destruct (recomputeHappiness_agrees d (SetCondition (new_condition r d s reason msg) m))
    as (? & ? & Hext); [by apply SetCondition_new_wf|done|].
  split; [done|done| |].
  - rewrite Hext by (by apply dep_not_happy). by apply status_of_new_eq.
  - intros t ??. rewrite Hext by done. by apply status_of_new_ne.
Qed.

(** After [set_happy_agrees] on a list where [d] has just been set. *)
Lemma marked_set_happy d s s' reason msg reason' msg' m :
  wf r m → d ∈ dependents r → known s = true →
  let m1 := SetCondition (new_condition r d s reason msg) m in
  dep_summary r m1 = s' →
  marked d s m (SetCondition (new_condition r (happy r) s' reason' msg') m1).
Proof.
  intros Hwf Hd Hs m1 <-.
  destruct (set_happy_agrees reason' msg' m1) as (? & ? & Hext); [by apply SetCondition_new_wf|].
  split; [done|done| |].
  - rewrite Hext by (by apply dep_not_happy). by apply status_of_new_eq.
  - intros t ??. rewrite Hext by done. by apply status_of_new_ne.
Qed.

Lemma marked_MarkTrue d m : wf r m → d ∈ dependents r → marked d ConditionTrue m (MarkTrue r d m).
Proof. intros. by apply mark_recompute. Qed.

Lemma marked_MarkTrueWithReason d reason msg m :
  wf r m → d ∈ dependents r → marked d ConditionTrue m (MarkTrueWithReason r d reason msg m).
Proof. intros. by apply mark_recompute. Qed.

Lemma MarkFalse_types_dep d : d ∈ dependents r → MarkFalse_types r d = [d; happy r].
Proof.
  intros Hd. unfold MarkFalse_types. f_equal. destruct Hr as [Hnd _]. revert Hd Hnd.
  induction (dependents r) as [|d' ds IH]; [by intros ?%elem_of_nil|].
  rewrite elem_of_cons, NoDup_cons. intros Hin [Hn Hnd]. simpl.
  case_bool_decide as Hdd.
  - subst. f_equal. clear -Hn. induction ds as [|d2 ds IH]; [done|]. simpl.
    rewrite elem_of_cons in Hn. rewrite bool_decide_eq_false_2 by naive_solver.
    apply IH. naive_solver.
  - destruct Hin as [?|?]; [congruence|]. by apply IH.
Qed.

Lemma MarkFalse_types_other t : t ∉ dependents r → MarkFalse_types r t = [t].
Proof.
  intros Ht. unfold MarkFalse_types. f_equal. induction (dependents r) as [|d ds IH]; [done|].
  rewrite elem_of_cons in Ht. simpl. rewrite bool_decide_eq_false_2 by naive_solver.
  apply IH. naive_solver.
Qed.

Lemma dep_summary_False d m :
  d ∈ dependents r → status_of m d = Some ConditionFalse → dep_summary r m = ConditionFalse.
Proof.
  intros Hd Hs. destruct (dep_summary_cases m) as [[_ ->]|[HnF _]]; [done|]. by destruct (HnF d).
Qed.

Lemma marked_MarkFalse d reason msg m :
  wf r m → d ∈ dependents r → marked d ConditionFalse m (MarkFalse r d reason msg m).
Proof.
  intros Hwf Hd. unfold MarkFalse. rewrite MarkFalse_types_dep by done. simpl.
  apply marked_set_happy; [done..|]. apply (dep_summary_False d); [done|].
  by apply status_of_new_eq.
Qed.

Lemma MarkUnknown_loop_spec t reason msg ds b m :
  match MarkUnknown_loop r t reason msg ds b m with
  | inl m' =>
      (∃ d, d ∈ ds ∧ status_of m d = Some ConditionFalse) ∧
      m' = if bool_decide (status_of m (happy r) = Some ConditionFalse) then m
           else MarkFalse r (happy r) reason msg m
  | inr b' =>
      (∀ d, d ∈ ds → status_of m d ≠ Some ConditionFalse) ∧
      b' = b || bool_decide (t ∈ ds)
  end.
Proof.
  revert b. induction ds as [|d ds IH]; intros b; simpl.
  - split; [by intros ? ?%elem_of_nil|]. by rewrite orb_false_r.
  - rewrite (IsFalse_status m d).
    destruct (bool_decide (status_of m d = Some ConditionFalse)) eqn:Hd.
    + apply bool_decide_eq_true in Hd. split; [exists d; by split; [left|]|].
      by rewrite IsFalse_status.
    + specialize (IH (b || bool_decide (d = t))).
      destruct (MarkUnknown_loop _ _ _ _ _ _ _) as [m'|b'].
      * destruct IH as [(d' & ? & ?) ?]. split; [|done]. exists d'. split; [by right|done].
      * apply bool_decide_eq_false in Hd.
        destruct IH as [IH ->]. split; [by intros d' [->|?]%elem_of_cons; auto|].
        rewrite <-orb_assoc. f_equal. rewrite <-bool_decide_or. apply bool_decide_ext.
        rewrite elem_of_cons. intuition congruence.
Qed.

Lemma marked_MarkUnknown d reason msg m :
  wf r m → d ∈ dependents r → marked d ConditionUnknown m (MarkUnknown r d reason msg m).
Proof.
  intros Hwf Hd. unfold MarkUnknown.
  set (m1 := SetCondition (new_condition r d ConditionUnknown reason msg) m).
  pose proof (MarkUnknown_loop_spec d reason msg (dependents r) false m1) as Hloop.
  assert (status_of m1 d = Some ConditionUnknown) as Hd1.
  { by apply status_of_new_eq. }
  destruct (MarkUnknown_loop _ _ _ _ _ _ _) as [m'|b'].
  - destruct Hloop as [(d' & Hd' & Hs') ->].
    pose proof (dep_summary_False d' m1 Hd' Hs') as Hsum. case_bool_decide as Hh.
    + assert (∀ t, t ≠ d → status_of m1 t = status_of m t) as Hext.
      { intros t ?. by apply status_of_new_ne. }
      split; [by apply SetCondition_new_wf| |done|auto]. unfold agrees. by rewrite Hsum.
    + unfold MarkFalse. rewrite MarkFalse_types_other by apply Hr. simpl.
      by apply marked_set_happy.
  - destruct Hloop as [HnF ->]. rewrite bool_decide_eq_true_2 by done. simpl.
    apply marked_set_happy; [done..|]. fold m1.
    destruct (dep_summary_cases m1) as [[(d' & Hd' & Hs') _]|[_ [[_ ->]|[HnU _]]]]; [|done|].
    + by destruct (HnF d').
    + by destruct (HnU d).
Qed.
(** *** Initialisation *)

Lemma initializeTerminalCondition_spec t s m :
  wf r m → isTerminal r t = true → known s = true →
  wf r (initializeTerminalCondition t s m) ∧
  ∀ t', status_of (initializeTerminalCondition t s m) t' =
        match status_of m t' with
        | Some x => Some x
        | None => if decide (t' = t) then Some s else None
        end.
Proof.
  intros Hwf Ht Hs. unfold initializeTerminalCondition.
  destruct (GetCondition m t) as [c|] eqn:E.
  - split; [done|]. intros t'. case_decide as Htt; [subst|by destruct (status_of m t')].
    unfold status_of. by rewrite E.
  - split; [by apply SetCondition_wf|]. intros t'. rewrite status_of_SetCondition by done.
    simpl. case_decide as Htt; [subst|by destruct (status_of m t')].
    unfold status_of. by rewrite E.
Qed.

Lemma initialize_dependents_spec s ds m :
  wf r m → (∀ d, d ∈ ds → isTerminal r d = true) → known s = true →
  let m' := foldl (λ m t, initializeTerminalCondition t s m) m ds in
  wf r m' ∧
  ∀ t, status_of m' t =
       match status_of m t with
       | Some x => Some x
       | None => if decide (t ∈ ds) then Some s else None
       end.
Proof.
  revert m. induction ds as [|d ds IH]; intros m Hwf Hds Hs; simpl.
  - split; [done|]. intros t. by destruct (status_of m t).
  - destruct (initializeTerminalCondition_spec d s m) as [Hwf1 Hst]; [done|apply Hds; by left|done|].
    destruct (IH (initializeTerminalCondition d s m)) as [Hwf2 Hst2]; [done| |done|].
    { intros d' ?. apply Hds. by right. }
    split; [done|]. intros t. rewrite Hst2, Hst.
    destruct (status_of m t); [done|]. destruct (decide (t = d)) as [->|].
    + by rewrite decide_True by (by left).
    + apply decide_ext. rewrite elem_of_cons. tauto.
Qed.

(** What missing dependents are initialised to. *)
Definition initial_status m : ConditionStatus :=
  if IsHappy r m then ConditionTrue else ConditionUnknown.

Lemma InitializeConditions_status m :
  wf r m →
  wf r (InitializeConditions r m) ∧
  status_of (InitializeConditions r m) (happy r) =
    Some (default ConditionUnknown (status_of m (happy r))) ∧
  ∀ t, t ≠ happy r →
    status_of (InitializeConditions r m) t =
    match status_of m t with
    | Some s => Some s
    | None => if decide (t ∈ dependents r) then Some (initial_status m) else None
    end.
Proof.
  intros Hwf. unfold InitializeConditions, initial_status, IsHappy, GetTopLevelCondition.
  rewrite IsTrue_status. destruct (GetCondition m (happy r)) as [h|] eqn:E.
  - destruct (initialize_dependents_spec
      (if bool_decide (Status h = ConditionTrue) then ConditionTrue else ConditionUnknown)
      (dependents r) m) as [Hwf' Hst]; [done|apply dep_terminal|by case_bool_decide|].
    assert (status_of m (happy r) = Some (Status h)) as Hh by (unfold status_of; by rewrite E).
    split; [done|]. split; [by rewrite Hst, Hh|]. intros t Ht. rewrite Hst, Hh.
    destruct (status_of m t); [done|].
    by rewrite (bool_decide_ext (Some (Status h) = Some ConditionTrue) (Status h = ConditionTrue))
      by (split; congruence).
  - set (m1 := SetCondition _ m).
    assert (wf r m1) as Hwf1.
    { apply SetCondition_wf; [done| |done]. simpl. by rewrite happy_terminal. }
    destruct (initialize_dependents_spec ConditionUnknown (dependents r) m1)
      as [Hwf' Hst]; [done|apply dep_terminal|done|].
    assert (status_of m (happy r) = None) as Hh by (unfold status_of; by rewrite E).
    simpl. split; [done|]. rewrite Hh. simpl. split.
    + rewrite Hst. unfold m1. rewrite status_of_SetCondition by done. simpl.
      by rewrite decide_True.
    + intros t Ht. rewrite Hst. unfold m1. rewrite status_of_SetCondition by done. simpl.
      by rewrite decide_False.
Qed.

Lemma sound_summary m : wf r m → sound r m ↔ (IsHappy r m = true → dep_summary r m = ConditionTrue).
Proof. intros Hwf. unfold sound. by rewrite dep_summary_True. Qed.

Lemma IsHappy_status m : IsHappy r m = bool_decide (status_of m (happy r) = Some ConditionTrue).
Proof. apply IsTrue_status. Qed.

Lemma agrees_IsHappy m :
  wf r m → agrees r m →
  IsHappy r m = true ↔ ∀ d, d ∈ dependents r → status_of m d = Some ConditionTrue.
Proof.
  intros Hwf Hag. rewrite IsHappy_status, bool_decide_eq_true, Hag, <-dep_summary_True by done.
  split; congruence.
Qed.

Lemma agrees_sound m : wf r m → agrees r m → sound r m.
Proof. intros Hwf Hag Hh. by apply agrees_IsHappy. Qed.

Lemma marked_sound d s m m' : marked d s m m' → sound r m'.
Proof. intros [? ? ? ?]. by apply agrees_sound. Qed.

(** Initialisation keeps a happy condition that agrees in agreement. *)
Lemma InitializeConditions_agrees m : wf r m → agrees r m → agrees r (InitializeConditions r m).
Proof.
  intros Hwf Hag. destruct (InitializeConditions_status m Hwf) as (Hwf' & Hh & Hst).
  unfold agrees in *. rewrite Hh, Hag. simpl. f_equal.
  assert (∀ d, d ∈ dependents r → status_of (InitializeConditions r m) d =
    match status_of m d with Some s => Some s | None => Some (initial_status m) end) as Hdep.
  { intros d Hd. rewrite Hst by (by apply dep_not_happy). by rewrite decide_True. }
  unfold initial_status in Hdep. rewrite IsHappy_status, Hag in Hdep.
  destruct (dep_summary_cases m) as [[(d & Hd & Hs) Heq]|[HnF [[(d & Hd & Hs) Heq]|[HnU Heq]]]];
    rewrite Heq in *.
  - symmetry. apply (dep_summary_False d); [done|]. by rewrite Hdep, Hs.
  - rewrite bool_decide_eq_false_2 in Hdep by done.
    destruct (dep_summary_cases (InitializeConditions r m))
      as [[(d' & Hd' & Hs') _]|[_ [[_ ->]|[HnU' _]]]]; [|done|].
    + rewrite Hdep in Hs' by done. specialize (HnF d' Hd'). by destruct (status_of m d').
    + destruct (HnU' d Hd) as [? HnU'']. destruct HnU''. rewrite Hdep by done. by destruct Hs as [-> | ->].
  - rewrite <-Heq. apply dep_summary_ext. intros d Hd. rewrite Hdep by done.
    destruct (HnU d Hd) as [? _]. by destruct (status_of m d).
Qed.

(** From an empty list every condition becomes Unknown. *)
Lemma InitializeConditions_empty n :
  dependents r ≠ [] →
  wf r (InitializeConditions r (mkManaged [] n)) ∧ agrees r (InitializeConditions r (mkManaged [] n)) ∧
  ∀ d, d ∈ dependents r → status_of (InitializeConditions r (mkManaged [] n)) d = Some ConditionUnknown.
Proof.
  intros Hne. destruct (InitializeConditions_status (mkManaged [] n)) as (Hwf' & Hh & Hst).
  { split; [constructor|by intros ? ?%elem_of_nil..]. }
  assert (∀ d, d ∈ dependents r →
    status_of (InitializeConditions r (mkManaged [] n)) d = Some ConditionUnknown) as Hdep.
  { intros d Hd. rewrite Hst by (by apply dep_not_happy). simpl. by rewrite decide_True. }
  split_and!; [done| |done]. unfold agrees. rewrite Hh. simpl. f_equal.
  destruct (dep_summary_cases (InitializeConditions r (mkManaged [] n)))
    as [[(d' & Hd' & Hs') _]|[_ [[_ ->]|[HnU' _]]]]; [|done|].
  - rewrite Hdep in Hs' by done. congruence.
  - destruct (dependents r) as [|d ds]; [done|]. destruct (HnU' d) as [_ []]; [by left|].
    apply Hdep. by left.
Qed.

(** *** Marking the happy condition itself as Unknown *)
Lemma MarkUnknown_happy_status reason msg m :
  wf r m →
  wf r (MarkUnknown r (happy r) reason msg m) ∧
  (status_of (MarkUnknown r (happy r) reason msg m) (happy r) ≠ Some ConditionTrue) ∧
  ∀ t, t ≠ happy r → status_of (MarkUnknown r (happy r) reason msg m) t = status_of m t.
Proof.
  intros Hwf. unfold MarkUnknown.
  set (m1 := SetCondition (new_condition r (happy r) ConditionUnknown reason msg) m).
  assert (wf r m1) as Hwf1 by (by apply SetCondition_new_wf).
  assert (∀ t, t ≠ happy r → status_of m1 t = status_of m t) as Hext
    by (intros; by apply status_of_new_ne).
  assert (status_of m1 (happy r) = Some ConditionUnknown) as Hh by (by apply status_of_new_eq).
  pose proof (MarkUnknown_loop_spec (happy r) reason msg (dependents r) false m1) as Hloop.
  destruct (MarkUnknown_loop _ _ _ _ _ _ _) as [m'|b'].
  - destruct Hloop as [_ ->]. rewrite Hh, bool_decide_eq_false_2 by done.
    unfold MarkFalse. rewrite MarkFalse_types_other by apply Hr. simpl. split_and!.
    + by apply SetCondition_new_wf.
    + by rewrite status_of_new_eq.
    + intros t Ht. rewrite status_of_new_ne by done. auto.
  - destruct Hloop as [_ ->]. rewrite bool_decide_eq_false_2 by apply Hr. simpl.
    split_and!; [done|by rewrite Hh|done].
Qed.
End happiness.
#[export] Hint Resolve newConditionSet_wf SetCondition_new_wf marked_MarkTrue
  marked_MarkTrueWithReason marked_MarkFalse marked_MarkUnknown marked_sound : ktc.

(** ** Specification: a status per dependent, and happiness computed from them

    The abstract state is a map from the dependents to their statuses; a marking
    sets one entry; the resource is happy when every entry is True. *)
Section refinement.
Context {rt : GoRuntime} (r : ConditionSet) (Hr : set_wf r).

Inductive mark :=
  | MkTrue (t : ConditionType)
  | MkTrueWithReason (t : ConditionType) (reason msg : string)
  | MkFalse (t : ConditionType) (reason msg : string)
  | MkUnknown (t : ConditionType) (reason msg : string).

Definition mark_target (k : mark) : ConditionType :=
  match k with
  | MkTrue t | MkTrueWithReason t _ _ | MkFalse t _ _ | MkUnknown t _ _ => t
  end.

Definition mark_status (k : mark) : ConditionStatus :=
  match k with
  | MkTrue _ | MkTrueWithReason _ _ _ => ConditionTrue
  | MkFalse _ _ _ => ConditionFalse
  | MkUnknown _ _ _ => ConditionUnknown
  end.

Definition run_mark (m : Managed) (k : mark) : Managed :=
  match k with
  | MkTrue t => MarkTrue r t m
  | MkTrueWithReason t reason msg => MarkTrueWithReason r t reason msg m
  | MkFalse t reason msg => MarkFalse r t reason msg m
  | MkUnknown t reason msg => MarkUnknown r t reason msg m
  end.

Definition spec_mark (a : gmap ConditionType ConditionStatus) (k : mark) :=
  <[mark_target k := mark_status k]> a.

Definition spec_happy (a : gmap ConditionType ConditionStatus) : bool :=
  List.forallb (λ d, bool_decide (a !! d = Some ConditionTrue)) (dependents r).

Definition represents (m : Managed) (a : gmap ConditionType ConditionStatus) : Prop :=
  ∀ d, d ∈ dependents r → status_of m d = a !! d.

Lemma run_mark_marked m k :
  wf r m → mark_target k ∈ dependents r →
  marked r (mark_target k) (mark_status k) m (run_mark m k).
Proof. destruct k; simpl; auto with ktc. Qed.

Lemma run_mark_represents m a k :
  wf r m → mark_target k ∈ dependents r → represents m a →
  represents (run_mark m k) (spec_mark a k).
Proof.
  intros Hwf Hk Hrep d Hd. unfold spec_mark.
  destruct (run_mark_marked m k Hwf Hk) as [_ _ Hst Hoth].
  destruct (decide (d = mark_target k)) as [->|Hne].
  - by rewrite lookup_insert_eq.
  - rewrite lookup_insert_ne by done. rewrite Hoth; [by apply Hrep|done|].
    by apply dep_not_happy.
Qed.

Lemma represents_happy m a :
  wf r m → agrees r m → represents m a → IsHappy r m = spec_happy a.
Proof.
  intros Hwf Hag Hrep. apply eq_true_iff_eq. rewrite agrees_IsHappy by done.
  unfold spec_happy. rewrite List.forallb_forall. split.
  - intros H d Hd. rewrite <-list_elem_of_In in Hd. apply bool_decide_eq_true. rewrite <-Hrep; auto.
  - intros H d Hd. rewrite Hrep by done. rewrite list_elem_of_In in Hd.
    by apply H, bool_decide_eq_true in Hd.
Qed.
End refinement.

Lemma wf_empty (r : ConditionSet) (n : nat) : wf r (mkManaged [] n).
Proof. split; [constructor|by intros ? ?%elem_of_nil..]. Qed.
#[export] Hint Resolve wf_empty : ktc.

Lemma foldl_run_mark_wf {rt : GoRuntime} (r : ConditionSet) ks m a :
  set_wf r → wf r m → agrees r m → represents r m a →
  Forall (λ k, mark_target k ∈ dependents r) ks →
  wf r (foldl (run_mark r) m ks) ∧ agrees r (foldl (run_mark r) m ks) ∧
  represents r (foldl (run_mark r) m ks) (foldl spec_mark a ks).
Proof.
  intros Hr. revert m a. induction ks as [|k ks IH]; intros m a Hwf Hag Hrep; [done|].
  intros [Hk Hks]%Forall_cons. simpl.
  destruct (run_mark_marked r Hr m k Hwf Hk). apply IH; auto using run_mark_represents.
Qed.

(** ** Properties *)

(** C25: any non-empty sequence of markings of dependents refines the abstract
    status map: each dependent has the status last given to it, and the resource
    is happy exactly when every dependent's entry in the map is True. *)
Theorem mark_sequence_refines (rt : GoRuntime) (r : ConditionSet) (m : Managed)
    (a : gmap ConditionType ConditionStatus) (k : mark) (ks : list mark) :
  set_wf r → wf r m → represents r m a →
  Forall (λ k, mark_target k ∈ dependents r) (k :: ks) →
  let m' := foldl (run_mark r) m (k :: ks) in
  let a' := foldl spec_mark a (k :: ks) in
  represents r m' a' ∧ IsHappy r m' = spec_happy r a'.
Proof.
  intros Hr Hwf Hrep [Hk Hks]%Forall_cons. simpl.
  destruct (run_mark_marked r Hr m k Hwf Hk).
  destruct (foldl_run_mark_wf r ks (run_mark r m k) (spec_mark a k)) as (? & ? & ?);
    auto using run_mark_represents, represents_happy.
Qed.

Definition demo_set : ConditionSet := NewLivingConditionSet ["A"; "B"; "A"].

Lemma mark_sequence_refines_witness :
  let rt := deterministic_runtime Z.of_nat in
  let ks := [MkFalse "B" "r" "m"; MkTrue "A"; MkTrue "B"] in
  IsHappy demo_set (foldl (run_mark demo_set) (mkManaged [] 0) ks) = true.
Proof.
  intros rt ks.
  destruct (mark_sequence_refines rt demo_set (mkManaged [] 0) ∅ (MkFalse "B" "r" "m")
    [MkTrue "A"; MkTrue "B"]) as [_ H].
  - apply newConditionSet_wf.
  - apply wf_empty.
  - intros d Hd. done.
  - repeat constructor.
  - exact H.
Defined.
