(* ===== verification/ApiTypes.v ===== *)
(** * ApiTypes: the Kubernetes and Knative API objects the program reads and writes

    The records keep the fields of [k8s.io/api], [k8s.io/apimachinery] and
    [knative.dev] types that the program under [src/pkg] sets or inspects; a
    pointer field is an [option], a nil slice is [[]].  The helpers of
    [metav1/controller_ref.go], [schema/group_version.go] and
    [knative.dev/pkg/reconciler/filter.go] that work on them are here too. *)
From S2P Require Import Prelude GoStrings.

(** [url.URL] / [apis.URL]. *)
Record URL := mkURL {
  Scheme : string;
  Host : string;
  Path : string;
  RawQuery : string;
  Fragment : string;
}.
#[export] Instance URL_eq_dec : EqDecision URL.
Proof. solve_decision. Defined.

(** The literal [&apis.URL{Scheme: "http", Host: host}]. *)
Definition http_url (host : string) : URL :=
  {| Scheme := "http"; Host := host; Path := ""; RawQuery := ""; Fragment := "" |}.

Record GroupVersionKind := mkGVK { gvk_Group : string; gvk_Version : string; gvk_Kind : string }.
Record GroupKind := mkGK { gk_Group : string; gk_Kind : string }.
Record GroupResource := mkGR { gr_Group : string; gr_Resource : string }.
Record GroupVersion := mkGV { gv_Group : string; gv_Version : string }.

Definition WithKind (gv : GroupVersion) (kind : string) : GroupVersionKind :=
  mkGVK (gv_Group gv) (gv_Version gv) kind.
Definition gvk_GroupKind (gvk : GroupVersionKind) : GroupKind :=
  mkGK (gvk_Group gvk) (gvk_Kind gvk).
Definition gvk_GroupVersion (gvk : GroupVersionKind) : GroupVersion :=
  mkGV (gvk_Group gvk) (gvk_Version gvk).
Definition gv_String (gv : GroupVersion) : string :=
  if bool_decide (0 < String.length (gv_Group gv))
  then gv_Group gv +:+ "/" +:+ gv_Version gv else gv_Version gv.

Record OwnerReference := mkOwnerReference {
  or_APIVersion : string;
  or_Kind : string;
  or_Name : string;
  or_UID : string;
  or_Controller : option bool;
  or_BlockOwnerDeletion : option bool;
}.
#[export] Instance OwnerReference_eq_dec : EqDecision OwnerReference.
Proof. solve_decision. Defined.

Record ObjectMeta := mkObjectMeta {
  Name : string;
  Namespace : string;
  UID : string;
  ResourceVersion : string;
  Generation : Z;
  DeletionTimestamp : option Z;
  Labels : option (gmap string string);
  Annotations : option (gmap string string);
  OwnerReferences : list OwnerReference;
  Finalizers : list string;
}.
#[export] Instance ObjectMeta_eq_dec : EqDecision ObjectMeta.
Proof. solve_decision. Defined.

(** A composite literal of [ObjectMeta]: the fields not given are zero. *)
Definition new_meta (name namespace : string) (labels : option (gmap string string))
    (owners : list OwnerReference) : ObjectMeta :=
  {| Name := name; Namespace := namespace; UID := ""; ResourceVersion := "";
     Generation := 0; DeletionTimestamp := None; Labels := labels; Annotations := None;
     OwnerReferences := owners; Finalizers := [] |}.

Definition NewControllerRef (owner : ObjectMeta) (gvk : GroupVersionKind) : OwnerReference :=
  {| or_APIVersion := gv_String (gvk_GroupVersion gvk);
     or_Kind := gvk_Kind gvk;
     or_Name := Name owner;
     or_UID := UID owner;
     or_BlockOwnerDeletion := Some true;
     or_Controller := Some true |}.

(** [GetControllerOfNoCopy]: the first owner reference that is a controller. *)
Definition GetControllerOf (controllee : ObjectMeta) : option OwnerReference :=
  List.find (λ ref, bool_decide (or_Controller ref = Some true)) (OwnerReferences controllee).

Definition IsControlledBy (obj owner : ObjectMeta) : bool :=
  match GetControllerOf obj with
  | None => false
  | Some ref => bool_decide (or_UID ref = UID owner)
  end.

(** [types.NamespacedName]. *)
Record NamespacedName := mkNamespacedName { nn_Namespace : string; nn_Name : string }.
#[export] Instance NamespacedName_eq_dec : EqDecision NamespacedName.
Proof. solve_decision. Defined.
#[export] Instance NamespacedName_countable : Countable NamespacedName.
Proof.
  refine (inj_countable' (λ n, (nn_Namespace n, nn_Name n))
    (λ p, mkNamespacedName p.1 p.2) _). by intros [].
Defined.

(** ** Knative duck types *)
Record KReference := mkKReference {
  ref_Kind : string; ref_Namespace : string; ref_Name : string; ref_APIVersion : string }.
#[export] Instance KReference_eq_dec : EqDecision KReference.
Proof. solve_decision. Defined.

Record Destination := mkDestination { dst_Ref : option KReference; dst_URI : option URL }.
#[export] Instance Destination_eq_dec : EqDecision Destination.
Proof. solve_decision. Defined.

Record DeliverySpec := mkDeliverySpec {
  DeadLetterSink : option Destination;
  Retry : option Z;
  BackoffPolicy : option string;
  BackoffDelay : option string;
}.
#[export] Instance DeliverySpec_eq_dec : EqDecision DeliverySpec.
Proof. solve_decision. Defined.

Record SubscriberSpec := mkSubscriberSpec {
  sub_UID : string;
  sub_Generation : Z;
  SubscriberURI : option URL;
  ReplyURI : option URL;
  Delivery : option DeliverySpec;
}.
#[export] Instance SubscriberSpec_eq_dec : EqDecision SubscriberSpec.
Proof. solve_decision. Defined.

Record SubscriberStatus := mkSubscriberStatus {
  ss_UID : string;
  ss_ObservedGeneration : Z;
  ss_Ready : string;
  ss_Message : string;
}.
#[export] Instance SubscriberStatus_eq_dec : EqDecision SubscriberStatus.
Proof. solve_decision. Defined.

(** ** Workloads *)
Record SecretKeySelector := mkSecretKeySelector { sel_Name : string; sel_Key : string }.
#[export] Instance SecretKeySelector_eq_dec : EqDecision SecretKeySelector.
Proof. solve_decision. Defined.

(** [corev1.EnvVar]: a literal value, or a source ([EnvVarSource]). *)
Inductive EnvVarSource :=
  | FieldRef (fieldPath : string)
  | SecretKeyRef (ref : SecretKeySelector).
#[export] Instance EnvVarSource_eq_dec : EqDecision EnvVarSource.
Proof. solve_decision. Defined.

Record EnvVar := mkEnvVar { env_Name : string; env_Value : string; env_ValueFrom : option EnvVarSource }.
#[export] Instance EnvVar_eq_dec : EqDecision EnvVar.
Proof. solve_decision. Defined.

Record ContainerPort := mkContainerPort { cp_Name : string; cp_ContainerPort : Z }.
#[export] Instance ContainerPort_eq_dec : EqDecision ContainerPort.
Proof. solve_decision. Defined.

Record Container := mkContainer {
  ctr_Name : string;
  ctr_Image : string;
  ctr_Env : list EnvVar;
  ctr_Ports : list ContainerPort;
}.
#[export] Instance Container_eq_dec : EqDecision Container.
Proof. solve_decision. Defined.

(** [appsv1.DeploymentCondition]; [dc_Status] is a [corev1.ConditionStatus]. *)
Record DeploymentCondition := mkDeploymentCondition {
  dc_Type : string; dc_Status : string; dc_Reason : string; dc_Message : string }.
#[export] Instance DeploymentCondition_eq_dec : EqDecision DeploymentCondition.
Proof. solve_decision. Defined.

Record PodTemplate := mkPodTemplate {
  pt_Labels : gmap string string;
  pt_Annotations : gmap string string;
  pt_ServiceAccountName : string;
  pt_Containers : list Container;
}.
#[export] Instance PodTemplate_eq_dec : EqDecision PodTemplate.
Proof. solve_decision. Defined.

Record Deployment := mkDeployment {
  d_APIVersion : string;
  d_Kind : string;
  d_meta : ObjectMeta;
  d_Replicas : option Z;
  d_Selector : gmap string string;
  d_Template : PodTemplate;
  d_Conditions : list DeploymentCondition;
}.
#[export] Instance Deployment_eq_dec : EqDecision Deployment.
Proof. solve_decision. Defined.

Record ServicePort := mkServicePort {
  sp_Name : string; sp_Protocol : string; sp_Port : Z; sp_TargetPort : Z }.
#[export] Instance ServicePort_eq_dec : EqDecision ServicePort.
Proof. solve_decision. Defined.

(** [svc_Others] holds every other field that is set ([clusterIP], [sessionAffinity],
    [ports[0].nodePort], ...) by its path, with its value in JSON: the repository never
    sets one, the API server does. *)
Record ServiceSpec := mkServiceSpec {
  svc_Type : string;
  svc_ExternalName : string;
  svc_Selector : option (gmap string string);
  svc_Ports : list ServicePort;
  svc_Others : gmap string string;
}.
#[export] Instance ServiceSpec_eq_dec : EqDecision ServiceSpec.
Proof. solve_decision. Defined.

Record Service := mkService {
  s_APIVersion : string;
  s_Kind : string;
  s_meta : ObjectMeta;
  s_Spec : ServiceSpec;
}.
#[export] Instance Service_eq_dec : EqDecision Service.
Proof. solve_decision. Defined.

Record ServiceAccount := mkServiceAccount { sa_meta : ObjectMeta }.
#[export] Instance ServiceAccount_eq_dec : EqDecision ServiceAccount.
Proof. solve_decision. Defined.

Record RoleRef := mkRoleRef { rr_APIGroup : string; rr_Kind : string; rr_Name : string }.
#[export] Instance RoleRef_eq_dec : EqDecision RoleRef.
Proof. solve_decision. Defined.
Record Subject := mkSubject { sj_Kind : string; sj_Namespace : string; sj_Name : string }.
#[export] Instance Subject_eq_dec : EqDecision Subject.
Proof. solve_decision. Defined.

Record RoleBinding := mkRoleBinding {
  rb_meta : ObjectMeta;
  rb_RoleRef : RoleRef;
  rb_Subjects : list Subject;
}.
#[export] Instance RoleBinding_eq_dec : EqDecision RoleBinding.
Proof. solve_decision. Defined.

(** [corev1.Endpoints]: the ready addresses of each subset. *)
Record Endpoints := mkEndpoints { ep_meta : ObjectMeta; ep_Subsets : list (list string) }.
#[export] Instance Endpoints_eq_dec : EqDecision Endpoints.
Proof. solve_decision. Defined.

(** ** Label filters of the informers *)

(** [mapHasOrDefault]. *)
Definition mapHasOrDefault (m : option (gmap string string)) (key value : string)
    (defaultValue : bool) : bool :=
  match default ∅ m !! key with
  | None => defaultValue
  | Some v => bool_decide (v = value)
  end.

Definition LabelFilterFunc (label value : string) (allowUnset : bool) (obj : ObjectMeta) : bool :=
  mapHasOrDefault (Labels obj) label value allowUnset.

Fixpoint ChainFilterFuncs (funcs : list (ObjectMeta → bool)) (obj : ObjectMeta) : bool :=
  match funcs with
  | [] => true
  | f :: funcs => if f obj then ChainFilterFuncs funcs obj else false
  end.

(** A label selector ([MatchLabels], a service's [Selector]) matches the labels
    that give every one of its keys the selector's value. *)
Definition selects (selector labels : gmap string string) : Prop := selector ⊆ labels.
#[export] Instance selects_dec s l : Decision (selects s l).
Proof. unfold selects. apply _. Defined.
