(* ===== verification/Url.v ===== *)
(** * Url: the texts of URLs

    Models [String] and [Parse] of the package [net/url] as the program uses them:
    [src/pkg/channel/kt/reconciler/controller/lister.go] parses the URL of a probe,
    [deepCopy] of [src/pkg/channel/kt/status/status.go] copies it through its text, and
    [String] of [src/pkg/channel/kt/dispatcher/subscription.go] prints the URLs of a
    subscription.

    A [URL] has the fields that are set here; [Parse] answers [None] for a text it
    rejects and for one that needs the others ([Opaque], [User], [ForceQuery], a
    bracketed IPv6 host, or a [RawPath] or [RawFragment] that is not the escaped text of
    the path or fragment). *)
From Stdlib Require Import Ascii.
From S2P Require Import Prelude GoStrings ApiTypes.

(** ** Escaping *)
Inductive encoding := encodePath | encodeHost | encodeFragment.

Definition in_range (lo hi : N) (c : ascii) : bool := bool_decide (lo ≤ N_of_ascii c ∧ N_of_ascii c ≤ hi)%N.
Definition is_lower (c : ascii) : bool := in_range 97 122 c.
Definition is_upper (c : ascii) : bool := in_range 65 90 c.
Definition is_num (c : ascii) : bool := in_range 48 57 c.
Definition is_alnum (c : ascii) : bool := is_lower c || is_upper c || is_num c.
Definition one_of (s : string) (c : ascii) : bool := bool_decide (c ∈ chars s).

Definition shouldEscape (mode : encoding) (c : ascii) : bool :=
  if is_alnum c || one_of "-_.~" c then false
  else match mode with
       | encodeHost => negb (one_of "!$&'()*+,;=:[]<>" c || bool_decide (c = dquote))
       | encodePath => negb (one_of "$&+,/:;=@" c)
       | encodeFragment => negb (one_of "$&+,/:;=?@!()*" c)
       end.

(** The digits of [%X]. *)
Definition upperhex (n : N) : ascii := ascii_of_N (if decide (n < 10)%N then 48 + n else 55 + n)%N.
Definition unhex (c : ascii) : option N :=
  if is_num c then Some (N_of_ascii c - 48)%N
  else if in_range 65 70 c then Some (N_of_ascii c - 55)%N
  else if in_range 97 102 c then Some (N_of_ascii c - 87)%N
  else None.

Fixpoint escape (mode : encoding) (s : string) : string :=
  match s with
  | EmptyString => EmptyString
  | String c s =>
      if shouldEscape mode c then
        String "%"%char (String (upperhex (N_of_ascii c / 16)) (String (upperhex (N_of_ascii c mod 16)) (escape mode s)))
      else String c (escape mode s)
  end.

(** In a host only bytes beyond ASCII may be escaped, and the percent sign. *)
Definition host_escape_ok (mode : encoding) (h l : N) : bool :=
  match mode with encodeHost => bool_decide (8 ≤ h)%N || bool_decide (h = 2 ∧ l = 5)%N | _ => true end.
Definition host_byte_ok (mode : encoding) (c : ascii) : bool :=
  match mode with encodeHost => bool_decide (128 ≤ N_of_ascii c)%N || negb (shouldEscape encodeHost c) | _ => true end.

Fixpoint unescape (mode : encoding) (s : string) : option string :=
  match s with
  | EmptyString => Some EmptyString
  | String c s =>
      if decide (c = "%"%char) then
        match s with
        | String a (String b s') =>
            h ← unhex a; l ← unhex b;
            if host_escape_ok mode h l then String (ascii_of_N (16 * h + l)) <$> unescape mode s' else None
        | _ => None
        end
      else if host_byte_ok mode c then String c <$> unescape mode s else None
  end.

(** ** [String] *)

(** [EscapedPath] with an empty [RawPath]. *)
Definition EscapedPath (u : URL) : string :=
  if decide (Path u = "*") then "*" else escape encodePath (Path u).

(** The text of [s] before the first [sep], and after it if it is there. *)
Fixpoint cut (sep : ascii) (s : string) : string * option string :=
  match s with
  | EmptyString => ("", None)
  | String c s =>
      if decide (c = sep) then ("", Some s)
      else let (before, after) := cut sep s in (String c before, after)
  end.

(** A first segment with a colon would be taken for a scheme. *)
Definition colon_segment (path : string) : bool := bool_decide (":"%char ∈ chars (cut "/"%char path).1).

Definition url_String (u : URL) : string :=
  let scheme := if decide (Scheme u = "") then "" else Scheme u +:+ ":" in
  let slashes :=
    if decide ((Scheme u ≠ "" ∨ Host u ≠ "") ∧ (Host u ≠ "" ∨ Path u ≠ "")) then "//" else "" in
  let host := escape encodeHost (Host u) in
  let path := EscapedPath u in
  let front := scheme +:+ slashes +:+ host in
  let front :=
    if decide (path ≠ "" ∧ HasPrefix path "/" = false ∧ Host u ≠ "") then front +:+ "/" else front in
  let front := if decide (front = "" ∧ colon_segment path = true) then "./" else front in
  front +:+ path
    +:+ (if decide (RawQuery u = "") then "" else "?" +:+ RawQuery u)
    +:+ (if decide (Fragment u = "") then "" else "#" +:+ escape encodeFragment (Fragment u)).

(** ** [Parse] *)
Definition is_ctl (c : ascii) : bool := bool_decide (N_of_ascii c < 32 ∨ N_of_ascii c = 127)%N.

(** [None] for a text that starts with a colon. *)
Inductive scheme_result := MissingScheme | NoScheme | HasScheme (scheme rest : string).
Fixpoint scheme_from (first : bool) (s : string) : scheme_result :=
  match s with
  | EmptyString => NoScheme
  | String c s =>
      if is_lower c || is_upper c || (negb first && (is_num c || one_of "+-." c)) then
        match scheme_from false s with
        | HasScheme scheme rest => HasScheme (String c scheme) rest
        | _ => NoScheme
        end
      else if decide (c = ":"%char) then (if first then MissingScheme else HasScheme "" s)
      else NoScheme
  end.
Definition getScheme (rawURL : string) : scheme_result := scheme_from true rawURL.

(** [validOptionalPort] of the text after the last colon of a host. *)
Fixpoint optional_port (s : string) : bool :=
  match s with
  | EmptyString => true
  | String c s' => if decide (":"%char ∈ chars s') then optional_port s'
                   else if decide (c = ":"%char) then forallb is_num (chars s') else optional_port s'
  end.

Definition parseHost (host : string) : option string :=
  if HasPrefix host "[" then None
  else if optional_port host then unescape encodeHost host else None.

(** Without user information. *)
Definition parseAuthority (authority : string) : option string :=
  if decide ("@"%char ∈ chars authority) then None else parseHost authority.

Definition setPath (u : URL) (p : string) : option URL :=
  path ← unescape encodePath p;
  if decide (escape encodePath path = p) then Some (mkURL (Scheme u) (Host u) path (RawQuery u) (Fragment u)) else None.

Definition setFragment (u : URL) (f : string) : option URL :=
  frag ← unescape encodeFragment f;
  if decide (escape encodeFragment frag = f) then Some (mkURL (Scheme u) (Host u) (Path u) (RawQuery u) frag) else None.

(** [rest[2:]] of a text that starts with two slashes. *)
Definition after_slashes (rest : string) : string :=
  match rest with String _ (String _ s) => s | _ => "" end.

(** After the scheme. *)
Definition parse_rest (scheme rest : string) : option URL :=
  let (rest, query) := cut "?"%char rest in
  if decide (query = Some "") then None
  else
    let u := mkURL scheme "" "" (default "" query) "" in
    if HasPrefix rest "/" then
      if (negb (bool_decide (scheme = "")) || negb (HasPrefix rest "///")) && HasPrefix rest "//" then
        let (authority, path) := cut "/"%char (after_slashes rest) in
        host ← parseAuthority authority;
        setPath (mkURL scheme host "" (default "" query) "") (match path with Some p => String "/"%char p | None => "" end)
      else setPath u rest
    else if decide (scheme = "") then (if colon_segment rest then None else setPath u rest)
    else if decide (rest = "") then Some u else None.

Definition parse (rawURL : string) : option URL :=
  if existsb is_ctl (chars rawURL) then None
  else if decide (rawURL = "*") then Some (mkURL "" "" "*" "" "")
  else match getScheme rawURL with
       | MissingScheme => None
       | NoScheme => parse_rest "" rawURL
       | HasScheme scheme rest => parse_rest (ToLower scheme) rest
       end.

Definition Parse (rawURL : string) : option URL :=
  let (u, frag) := cut "#"%char rawURL in
  url ← parse u;
  match frag with None | Some EmptyString => Some url | Some f => setFragment url f end.

(** [deepCopy] of [status.go], and [String] of an [apis.URL], which may be nil. *)
Definition deepCopy (u : URL) : option URL := Parse (url_String u).
Definition apis_String (u : option URL) : string := match u with None => "" | Some u => url_String u end.

Example parse_plain : Parse "http://ch-dispatcher.ns/ns/ch" = Some (mkURL "http" "ch-dispatcher.ns" "/ns/ch" "" "").
Proof. vm_compute. reflexivity. Qed.
Example parse_all : Parse "HTTPS://sink:8080/a%20b?x=1&y#f%23" = Some (mkURL "https" "sink:8080" "/a b" "x=1&y" "f#").
Proof. vm_compute. reflexivity. Qed.

(** ** Escaping and back *)

(** A boolean property of bytes is checked on all of them. *)
Lemma forall_ascii (P : ascii → bool) : forallb (λ n, P (ascii_of_nat n)) (seq 0 256) = true → ∀ c, P c = true.
Proof.
  rewrite List.forallb_forall. intros HP c. rewrite <-(ascii_nat_embedding c). apply HP.
  apply in_seq. pose proof (nat_ascii_bounded c). lia.
Qed.

Definition hex_ok (c : ascii) : bool :=
  bool_decide (unhex (upperhex (N_of_ascii c / 16)) = Some (N_of_ascii c / 16)%N) &&
  bool_decide (unhex (upperhex (N_of_ascii c mod 16)) = Some (N_of_ascii c mod 16)%N) &&
  bool_decide (ascii_of_N (16 * (N_of_ascii c / 16) + N_of_ascii c mod 16) = c).

Lemma hex_digits c :
  unhex (upperhex (N_of_ascii c / 16)) = Some (N_of_ascii c / 16)%N ∧
  unhex (upperhex (N_of_ascii c mod 16)) = Some (N_of_ascii c mod 16)%N ∧
  ascii_of_N (16 * (N_of_ascii c / 16) + N_of_ascii c mod 16) = c.
Proof.
  assert (Hc : hex_ok c = true) by (apply forall_ascii; vm_compute; reflexivity).
  unfold hex_ok in Hc. rewrite !andb_true_iff, !bool_decide_eq_true in Hc. naive_solver.
Qed.

Lemma percent_escaped mode c : shouldEscape mode c = false → c ≠ "%"%char.
Proof. intros Hc ->. by destruct mode. Qed.

Lemma unescape_escape mode s : mode ≠ encodeHost → unescape mode (escape mode s) = Some s.
Proof.
  intros Hm. induction s as [|c s IH]; [done|]. cbn [escape]. destruct (shouldEscape mode c) eqn:Hc; cbn [unescape].
  - rewrite decide_True by done. destruct (hex_digits c) as (-> & -> & Hcode). cbn -[N.mul N.add N.div N.modulo].
    rewrite Hcode, IH. by destruct mode.
  - rewrite decide_False by (by eapply percent_escaped). rewrite IH. by destruct mode.
Qed.

(** A host that needs no escape. *)
Definition plain_host (h : string) : bool := forallb (λ c, negb (shouldEscape encodeHost c)) (chars h).

Lemma plain_host_text h : plain_host h = true → escape encodeHost h = h ∧ unescape encodeHost h = Some h.
Proof.
  induction h as [|c h IH]; [done|]. unfold plain_host. cbn [chars forallb]. rewrite andb_true_iff, negb_true_iff.
  intros [Hc Hh]. destruct (IH Hh) as [He Hu]. cbn [escape unescape]. rewrite Hc, decide_False by (by eapply percent_escaped).
  unfold host_byte_ok. rewrite Hc, orb_true_r, He, Hu. done.
Qed.

(** The bytes of an escaped text. *)
Definition escaped_byte (mode : encoding) (c : ascii) : bool :=
  negb (shouldEscape mode c) || bool_decide (c = "%"%char) || is_num c || is_upper c.

Lemma upperhex_byte mode c :
  escaped_byte mode (upperhex (N_of_ascii c / 16)) = true ∧ escaped_byte mode (upperhex (N_of_ascii c mod 16)) = true.
Proof.
  assert (Hc : is_num (upperhex (N_of_ascii c / 16)) || is_upper (upperhex (N_of_ascii c / 16)) = true)
    by (revert c; apply forall_ascii; vm_compute; reflexivity).
  assert (Hc' : is_num (upperhex (N_of_ascii c mod 16)) || is_upper (upperhex (N_of_ascii c mod 16)) = true)
    by (revert c Hc; intros c _; revert c; apply forall_ascii; vm_compute; reflexivity).
  unfold escaped_byte. rewrite <-!orb_assoc, Hc, Hc', !orb_true_r. done.
Qed.

Lemma escape_bytes mode s c : c ∈ chars (escape mode s) → escaped_byte mode c = true.
Proof.
  induction s as [|c' s IH]; [by intros ?%elem_of_nil|]. cbn [escape]. destruct (shouldEscape mode c') eqn:Hc; cbn [chars].
  - destruct (upperhex_byte mode c') as [H1 H2]. rewrite !elem_of_cons. intros [->|[->|[->|?]]]; auto.
    unfold escaped_byte. by rewrite bool_decide_true, orb_true_r.
  - rewrite elem_of_cons. intros [->|?]; [|auto]. unfold escaped_byte. by rewrite Hc.
Qed.

Lemma escape_nil mode s : escape mode s = "" → s = "".
Proof. destruct s; [done|]. cbn [escape]. by destruct (shouldEscape _ _). Qed.

(** ** [Parse] inverts [String] *)
Lemma cut_free sep s : free_of sep s → cut sep s = (s, None).
Proof.
  induction s as [|c s IH]; [done|]. rewrite free_of_cons. intros [Hc Hs]. cbn [cut].
  rewrite decide_False by congruence. by rewrite IH.
Qed.

Lemma cut_at sep s t : free_of sep s → cut sep (s +:+ String sep t) = (s, Some t).
Proof.
  induction s as [|c s IH]; [intros _; change (cut sep (String sep t) = (""%string, Some t)); cbn [cut]; by rewrite decide_True|]. rewrite free_of_cons. intros [Hc Hs].
  rewrite append_cons. cbn [cut]. rewrite decide_False by congruence. by rewrite IH.
Qed.

Definition valid_scheme (s : string) : bool :=
  match s with
  | EmptyString => false
  | String c s => is_lower c && forallb (λ c, is_lower c || is_num c || one_of "+-." c) (chars s)
  end.

(** The URLs the program handles: with a scheme and a plain host; any path and fragment. *)
Record well_formed (u : URL) : Prop := {
  wf_scheme : valid_scheme (Scheme u) = true;
  wf_host : Host u ≠ "" ∧ plain_host (Host u) = true ∧ HasPrefix (Host u) "[" = false ∧ optional_port (Host u) = true;
  wf_path : Path u = "" ∨ HasPrefix (Path u) "/" = true;
  wf_query : forallb (λ c, negb (is_ctl c) && negb (bool_decide (c = "#"%char))) (chars (RawQuery u)) = true;
}.

Definition query_text (u : URL) : string := if decide (RawQuery u = "") then "" else String "?"%char (RawQuery u).
Definition fragment_text (u : URL) : string :=
  if decide (Fragment u = "") then "" else String "#"%char (escape encodeFragment (Fragment u)).

Lemma HasPrefix_cons c s : HasPrefix s (String c "") = true ↔ ∃ t, s = String c t.
Proof.
  unfold HasPrefix. destruct s as [|c' s]; simpl; [naive_solver|]. destruct (ascii_dec c c') as [->|Hne].
  - split; [eauto|]. by destruct s.
  - split; [done|]. intros [t [=]]. congruence.
Qed.

Lemma EscapedPath_wf u : Path u = "" ∨ HasPrefix (Path u) "/" = true →
  EscapedPath u = escape encodePath (Path u) ∧ (EscapedPath u = "" ∨ ∃ p, EscapedPath u = String "/"%char p).
Proof.
  intros Hp. unfold EscapedPath. destruct Hp as [->|[p ->]%HasPrefix_cons]; [by auto|].
  rewrite decide_False by done. split; [done|]. right. by eexists.
Qed.

Lemma url_String_wf u : well_formed u →
  url_String u =
    (Scheme u +:+ String ":"%char ("//" +:+ (Host u +:+ (escape encodePath (Path u) +:+ query_text u)))) +:+ fragment_text u.
Proof.
  intros [Hs (Hh & Hp & _) Hpath _]. destruct (EscapedPath_wf u Hpath) as [Hep Hstart].
  assert (Hne : Scheme u ≠ "") by (intros E; by rewrite E in Hs).
  assert (Hslash : ¬ (EscapedPath u ≠ "" ∧ HasPrefix (EscapedPath u) "/" = false ∧ Host u ≠ "")).
  { intros (H1 & H2 & _). destruct Hstart as [?|[p Hp']]; [done|]. rewrite Hp' in H2.
    assert (HasPrefix (String "/"%char p) "/" = true) by (apply HasPrefix_cons; eauto). congruence. }
  assert (Hauth : (Scheme u ≠ "" ∨ Host u ≠ "") ∧ (Host u ≠ "" ∨ Path u ≠ "")) by auto.
  unfold url_String. cbv zeta. rewrite (decide_False _ _ Hslash), (decide_False _ _ Hne), (decide_True _ _ Hauth).
  rewrite (proj1 (plain_host_text _ Hp)), (decide_False (P:=_ ∧ colon_segment _ = true)) by (intros [H1 _]; by destruct (Scheme u)).
  unfold query_text, fragment_text. rewrite Hep, !append_assoc. f_equal. symmetry. rewrite append_cons, !append_assoc. reflexivity.
Qed.

Lemma ToLower_valid s : forallb (λ c, is_lower c || is_num c || one_of "+-." c) (chars s) = true → ToLower s = s.
Proof.
  induction s as [|c s IH]; [done|]. cbn [chars forallb ToLower]. rewrite andb_true_iff. intros [Hc Hs].
  rewrite (IH Hs). f_equal. revert Hc.
  assert (H : implb (is_lower c || is_num c || one_of "+-." c) (bool_decide (lower_char c = c)) = true)
    by (revert c; apply forall_ascii; vm_compute; reflexivity).
  intros Hc. rewrite Hc in H. by apply bool_decide_eq_true in H.
Qed.

Lemma scheme_from_valid s t :
  forallb (λ c, is_lower c || is_num c || one_of "+-." c) (chars s) = true →
  scheme_from false (s +:+ String ":"%char t) = HasScheme s t.
Proof.
  induction s as [|c s IH]; [done|]. cbn [chars forallb]. rewrite andb_true_iff. intros [Hc Hs].
  rewrite append_cons. cbn [scheme_from]. rewrite (IH Hs). cbn [negb andb].
  destruct (is_lower c), (is_upper c), (is_num c), (one_of "+-." c); done.
Qed.

Lemma getScheme_valid s t :
  valid_scheme s = true → getScheme (s +:+ String ":"%char t) = HasScheme s t ∧ ToLower s = s ∧ s ≠ "".
Proof.
  destruct s as [|c s]; [done|]. cbn [valid_scheme]. rewrite andb_true_iff. intros [Hc Hs]. split_and!; [| |done].
  - unfold getScheme. rewrite append_cons. cbn [scheme_from]. rewrite Hc, (scheme_from_valid _ _ Hs). done.
  - apply ToLower_valid. cbn [chars forallb]. by rewrite Hc, Hs.
Qed.

(** What the bytes of the parts are not. *)
Definition clean (c : ascii) : bool := negb (is_ctl c) && negb (bool_decide (c = "#"%char)).

Lemma clean_bytes (P : ascii → bool) s :
  (∀ c, implb (P c) (clean c) = true) → (∀ c, c ∈ chars s → P c = true) → Forall (λ c, clean c = true) (chars s).
Proof. intros H Hs. apply Forall_forall. intros c Hc%Hs. specialize (H c). by rewrite Hc in H. Qed.

Lemma free_bytes (P : ascii → bool) sep s :
  (∀ c, implb (P c) (negb (bool_decide (c = sep))) = true) → (∀ c, c ∈ chars s → P c = true) → free_of sep s.
Proof.
  intros H Hs Hin. specialize (H sep). rewrite (Hs sep Hin), bool_decide_true in H by done. done.
Qed.

Lemma scheme_bytes s c : valid_scheme s = true → c ∈ chars s → is_lower c || is_num c || one_of "+-." c = true.
Proof.
  destruct s as [|c0 s]; [done|]. cbn [valid_scheme chars]. rewrite andb_true_iff, elem_of_cons. intros [H0 Hs] [->|Hc].
  - by rewrite H0.
  - rewrite List.forallb_forall in Hs. apply Hs. by apply list_elem_of_In.
Qed.

Lemma host_bytes h c : plain_host h = true → c ∈ chars h → negb (shouldEscape encodeHost c) = true.
Proof. unfold plain_host. rewrite List.forallb_forall. intros Hh Hc. apply Hh. by apply list_elem_of_In. Qed.

Lemma clean_no_ctl l : Forall (λ c, clean c = true) l → existsb is_ctl l = false.
Proof.
  induction 1 as [|c l Hc _ IH]; [done|]. cbn [existsb]. rewrite IH. unfold clean in Hc. by destruct (is_ctl c).
Qed.

Lemma clean_free s : Forall (λ c, clean c = true) (chars s) → free_of "#"%char s.
Proof. rewrite Forall_forall. intros H Hin%H. done. Qed.

(** What precedes the fragment. *)
Definition main_text (u : URL) : string :=
  Scheme u +:+ String ":"%char ("//" +:+ (Host u +:+ (escape encodePath (Path u) +:+ query_text u))).

Lemma main_text_clean u : well_formed u → Forall (λ c, clean c = true) (chars (main_text u)).
Proof.
  intros [Hs (_ & Hp & _) _ Hq]. unfold main_text. rewrite chars_append. cbn [chars]. rewrite !chars_append.
  repeat first [apply Forall_app; split|apply Forall_cons; split].
  - eapply clean_bytes; [|intros c; by apply scheme_bytes]. apply forall_ascii. vm_compute. reflexivity.
  - done.
  - done.
  - done.
  - constructor.
  - eapply clean_bytes; [|intros c; by apply host_bytes]. apply forall_ascii. vm_compute. reflexivity.
  - eapply clean_bytes; [|apply escape_bytes]. apply forall_ascii. vm_compute. reflexivity.
  - unfold query_text. case_decide; [constructor|]. cbn [chars]. constructor; [done|].
    rewrite List.forallb_forall in Hq. apply Forall_forall. intros c Hc. apply Hq. by apply list_elem_of_In.
Qed.

Lemma setPath_escaped u p : setPath u (escape encodePath p) = Some (mkURL (Scheme u) (Host u) p (RawQuery u) (Fragment u)).
Proof. unfold setPath. rewrite unescape_escape by done. cbn. by rewrite decide_True. Qed.

Lemma parse_rest_text u : well_formed u →
  parse_rest (Scheme u) ("//" +:+ (Host u +:+ (escape encodePath (Path u) +:+ query_text u))) =
    Some (mkURL (Scheme u) (Host u) (Path u) (RawQuery u) "").
Proof.
  intros [Hs (Hh & Hp & Hb & Hport) Hpath _].
  set (path := escape encodePath (Path u)).
  assert (Hcut : cut "?"%char ("//" +:+ (Host u +:+ (path +:+ query_text u))) =
    ("//" +:+ (Host u +:+ path), if decide (RawQuery u = "") then None else Some (RawQuery u))).
  { assert (Hfree : free_of "?"%char ("//" +:+ (Host u +:+ path))).
    { rewrite !free_of_append. split_and!; [by apply (bool_decide_unpack _); vm_compute| |].
      - eapply free_bytes; [|intros c; by apply host_bytes]. apply forall_ascii. vm_compute. reflexivity.
      - eapply free_bytes; [|apply escape_bytes]. apply forall_ascii. vm_compute. reflexivity. }
    rewrite <-!append_assoc. rewrite <-!append_assoc in Hfree. unfold query_text.
    case_decide; [rewrite append_nil_r; by apply cut_free|by apply cut_at]. }
  unfold parse_rest. rewrite Hcut.
  assert (Hq : default "" (if decide (RawQuery u = "") then None else Some (RawQuery u)) = RawQuery u) by (by case_decide).
  rewrite Hq, decide_False by (case_decide; [done|]; congruence).
  assert (H1 : HasPrefix ("//" +:+ (Host u +:+ path)) "/" = true) by (apply HasPrefix_cons; by eexists).
  assert (H2 : HasPrefix ("//" +:+ (Host u +:+ path)) "//" = true).
  { unfold HasPrefix. simpl. by destruct (Host u +:+ path). }
  rewrite H1, H2, bool_decide_false by (by destruct (Scheme u)). cbn [negb orb andb].
  change (after_slashes ("//" +:+ (Host u +:+ path))) with (Host u +:+ path).
  assert (Hfree : free_of "/"%char (Host u)).
  { eapply free_bytes; [|intros c; by apply host_bytes]. apply forall_ascii. vm_compute. reflexivity. }
  assert (Hauth : parseAuthority (Host u) = Some (Host u)).
  { unfold parseAuthority, parseHost. rewrite Hb, Hport, (proj2 (plain_host_text _ Hp)), decide_False; [done|].
    eapply free_bytes; [|intros c; by apply host_bytes]. apply forall_ascii. vm_compute. reflexivity. }
  destruct Hpath as [Hempty|[p Hp']%HasPrefix_cons].
  - assert (path = "") as -> by (unfold path; by rewrite Hempty). rewrite append_nil_r, (cut_free _ _ Hfree), Hauth. cbn [mbind option_bind].
    change "" with (escape encodePath ""). rewrite setPath_escaped. by rewrite Hempty.
  - assert (path = String "/"%char (escape encodePath p)) as Hpt by (unfold path; by rewrite Hp').
    rewrite Hpt, (cut_at _ _ _ Hfree), Hauth. cbn [mbind option_bind]. rewrite <-Hpt. apply setPath_escaped.
Qed.

Lemma Parse_String u : well_formed u → Parse (url_String u) = Some u.
Proof.
  intros Hwf. rewrite (url_String_wf u Hwf). fold (main_text u). pose proof (main_text_clean u Hwf) as Hclean.
  assert (Hparse : parse (main_text u) = Some (mkURL (Scheme u) (Host u) (Path u) (RawQuery u) "")).
  { unfold parse. rewrite (clean_no_ctl _ Hclean). destruct (getScheme_valid (Scheme u) ("//" +:+ (Host u +:+ (escape encodePath (Path u) +:+ query_text u))))
      as (Hg & Hl & Hne); [apply Hwf|]. rewrite decide_False.
    - unfold main_text. rewrite Hg, Hl. by apply parse_rest_text.
    - pose proof (wf_scheme _ Hwf) as Hs. unfold main_text. destruct (Scheme u) as [|c s]; [done|].
      rewrite append_cons. intros [= -> _]. done. }
  unfold Parse, fragment_text. destruct (decide (Fragment u = "")) as [He|He].
  - rewrite append_nil_r, (cut_free _ _ (clean_free _ Hclean)), Hparse. cbn. rewrite <-He. by destruct u.
  - rewrite (cut_at _ _ _ (clean_free _ Hclean)), Hparse. cbn [mbind option_bind].
    destruct (escape encodeFragment (Fragment u)) as [|c t] eqn:Ht; [by apply escape_nil in Ht|]. rewrite <-Ht.
    unfold setFragment. rewrite unescape_escape by done. cbn. rewrite decide_True by done. by destruct u.
Qed.

(** The text of a URL stays on one line. *)
Lemma url_String_no_ctl u c : well_formed u → c ∈ chars (url_String u) → is_ctl c = false.
Proof.
  intros Hwf. rewrite (url_String_wf u Hwf), chars_append, elem_of_app. fold (main_text u). intros [Hc|Hc].
  - pose proof (main_text_clean u Hwf) as Hm. rewrite Forall_forall in Hm. specialize (Hm c Hc). unfold clean in Hm. by destruct (is_ctl c).
  - unfold fragment_text in Hc. case_decide; [by apply elem_of_nil in Hc|]. cbn [chars] in Hc. apply elem_of_cons in Hc as [->|Hc]; [done|].
    apply escape_bytes in Hc. assert (H' : implb (escaped_byte encodeFragment c) (negb (is_ctl c)) = true)
      by (clear Hc; revert c; apply forall_ascii; vm_compute; reflexivity).
    rewrite Hc in H'. by apply negb_true_iff in H'.
Qed.
