(* ===== verification/Channel.v ===== *)
(** * Channel: the KafkaTopicChannel resource

    Models [src/pkg/apis/messaging] and [src/pkg/apis/messaging/v1alpha1]:
    the types, [SetDefaults], [Validate] and the lifecycle methods of the
    status, on top of the condition manager of [Conditions] and the field errors
    of [FieldError].

    [NumPartitions] is an [int32] and [ReplicationFactor] an [int16], kept as
    [Z]; nothing here computes with them. *)
From Stdlib Require Import Ascii.
From S2P Require Import Prelude GoStrings FieldError Conditions ApiTypes.

(** ** Registration ([register.go]) *)
Definition GroupName : string := "messaging.optum.dev".
Definition KafkaChannelsResource : GroupResource := mkGR GroupName "kafkatopicchannels".
Definition SchemeGroupVersion : GroupVersion := mkGV GroupName "v1alpha1".
Definition Kind (kind : string) : GroupKind := gvk_GroupKind (WithKind SchemeGroupVersion kind).
Definition Resource (resource : string) : GroupResource := mkGR (gv_Group SchemeGroupVersion) resource.

(** ** Types ([kafka_channel_types.go] and the embedded [KafkaAuthSpec]) *)
Record KafkaSASLSpec := mkSASL {
  sasl_Enable : bool;
  sasl_User : option SecretKeySelector;
  sasl_Password : option SecretKeySelector;
  sasl_Type : option SecretKeySelector;
}.
Record KafkaTLSSpec := mkTLS {
  tls_Enable : bool;
  tls_Cert : option SecretKeySelector;
  tls_Key : option SecretKeySelector;
  tls_CACert : option SecretKeySelector;
}.
Record KafkaNetSpec := mkNet { net_SASL : KafkaSASLSpec; net_TLS : KafkaTLSSpec }.
#[export] Instance KafkaSASLSpec_eq_dec : EqDecision KafkaSASLSpec.
Proof. solve_decision. Defined.
#[export] Instance KafkaTLSSpec_eq_dec : EqDecision KafkaTLSSpec.
Proof. solve_decision. Defined.
#[export] Instance KafkaNetSpec_eq_dec : EqDecision KafkaNetSpec.
Proof. solve_decision. Defined.

Record KafkaTopicChannelSpec := mkSpec {
  NumPartitions : Z;
  ReplicationFactor : Z;
  BootstrapServers : list string;
  Net : KafkaNetSpec;
  Topic : string;
  Subscribers : list SubscriberSpec;
  ch_Delivery : option DeliverySpec;
}.
#[export] Instance KafkaTopicChannelSpec_eq_dec : EqDecision KafkaTopicChannelSpec.
Proof. solve_decision. Defined.

(** [ChannelableStatus]; [Address] is [*Addressable], whose [URL] is a pointer. *)
Record KafkaTopicChannelStatus := mkStatus {
  ObservedGeneration : Z;
  Conditions : list Condition;
  Address : option (option URL);
  st_Subscribers : list SubscriberStatus;
}.
#[export] Instance KafkaTopicChannelStatus_eq_dec : EqDecision KafkaTopicChannelStatus.
Proof. solve_decision. Defined.

Record KafkaTopicChannel := mkChannel {
  meta : ObjectMeta;
  Spec : KafkaTopicChannelSpec;
  ch_Status : KafkaTopicChannelStatus;
}.
#[export] Instance KafkaTopicChannel_eq_dec : EqDecision KafkaTopicChannel.
Proof. solve_decision. Defined.

Definition ch_Name (c : KafkaTopicChannel) : string := Name (meta c).
Definition ch_Namespace (c : KafkaTopicChannel) : string := Namespace (meta c).

Definition GetGroupVersionKind (c : KafkaTopicChannel) : GroupVersionKind :=
  WithKind SchemeGroupVersion "KafkaTopicChannel".

(** ** Defaults ([kafka_channel_defaults.go]) *)
Definition DefaultNumPartitions : Z := 1.
Definition DefaultReplicationFactor : Z := 1.
Definition SubscribableDuckVersionAnnotation : string := "messaging.knative.dev/subscribable".

Definition Spec_SetDefaults (cs : KafkaTopicChannelSpec) : KafkaTopicChannelSpec :=
  {| NumPartitions := if decide (NumPartitions cs = 0)%Z then DefaultNumPartitions
                      else NumPartitions cs;
     ReplicationFactor := if decide (ReplicationFactor cs = 0)%Z then DefaultReplicationFactor
                          else ReplicationFactor cs;
     BootstrapServers := BootstrapServers cs; Net := Net cs; Topic := Topic cs;
     Subscribers := Subscribers cs; ch_Delivery := ch_Delivery cs |}.

Definition with_Annotations (m : ObjectMeta) (a : option (gmap string string)) : ObjectMeta :=
  {| Name := Name m; Namespace := Namespace m; UID := UID m;
     ResourceVersion := ResourceVersion m; Generation := Generation m;
     DeletionTimestamp := DeletionTimestamp m; Labels := Labels m; Annotations := a;
     OwnerReferences := OwnerReferences m; Finalizers := Finalizers m |}.

Definition SetDefaults (c : KafkaTopicChannel) : KafkaTopicChannel :=
  let annotations := default ∅ (Annotations (meta c)) in
  {| meta := with_Annotations (meta c)
               (Some (<[SubscribableDuckVersionAnnotation := "v1"]> annotations));
     Spec := Spec_SetDefaults (Spec c);
     ch_Status := ch_Status c |}.

(** ** Validation ([kafka_channel_validation.go]) *)
Definition ScopeAnnotationKey : string := "eventing.knative.dev/scope".

Definition subscriber_error (i : nat) (s : SubscriberSpec) (errs : option FieldError) :
    option FieldError :=
  match ReplyURI s, SubscriberURI s with
  | None, None =>
      let fe := with_Details (ErrMissingField ["replyURI"; "subscriberURI"])
                  "expected at least one of, got none" in
      Also errs [ViaField (ViaField (Some fe) ["subscriber[" +:+ pretty i +:+ "]"]) ["subscribable"]]
  | _, _ => errs
  end.

Fixpoint validate_subscribers (i : nat) (subs : list SubscriberSpec) (errs : option FieldError) :
    option FieldError :=
  match subs with
  | [] => errs
  | s :: subs => validate_subscribers (S i) subs (subscriber_error i s errs)
  end.

Definition Spec_Validate (cs : KafkaTopicChannelSpec) : option FieldError :=
  let errs := None in
  let errs := if bool_decide (NumPartitions cs ≤ 0)%Z
              then Also errs [Some (ErrInvalidValue (itoa (NumPartitions cs)) "numPartitions")]
              else errs in
  let errs := if bool_decide (ReplicationFactor cs ≤ 0)%Z
              then Also errs [Some (ErrInvalidValue (itoa (ReplicationFactor cs)) "replicationFactor")]
              else errs in
  validate_subscribers 0 (Subscribers cs) errs.

Definition Validate (c : KafkaTopicChannel) : option FieldError :=
  let errs := ViaField (Spec_Validate (Spec c)) ["spec"] in
  match Annotations (meta c) with
  | None => errs
  | Some annotations =>
      match annotations !! ScopeAnnotationKey with
      | None => errs
      | Some scope =>
          if bool_decide (scope ≠ "namespace" ∧ scope ≠ "cluster") then
            let iv := with_Details (ErrInvalidValue scope "")
                        "expected either 'cluster' or 'namespace'" in
            Also errs [ViaField (ViaFieldKey (Some iv) "annotations" ScopeAnnotationKey) ["metadata"]]
          else errs
      end
  end.

(** ** Lifecycle ([kafka_channel_lifecycle.go]) *)
Definition KafkaTopicChannelConditionReady : ConditionType := ConditionReady.
Definition KafkaTopicChannelConditionDispatcherReady : ConditionType := "DispatcherReady".
Definition KafkaTopicChannelConditionServiceReady : ConditionType := "ServiceReady".
Definition KafkaTopicChannelConditionEndpointsReady : ConditionType := "EndpointsReady".
Definition KafkaTopicChannelConditionAddressable : ConditionType := "Addressable".
Definition KafkaTopicChannelConditionChannelServiceReady : ConditionType := "ChannelServiceReady".
Definition KafkaTopicChannelConditionTopicReady : ConditionType := "TopicReady".
Definition KafkaTopicChannelConditionConfigReady : ConditionType := "ConfigurationReady".

Definition kc : ConditionSet := NewLivingConditionSet
  [KafkaTopicChannelConditionTopicReady;
   KafkaTopicChannelConditionDispatcherReady;
   KafkaTopicChannelConditionServiceReady;
   KafkaTopicChannelConditionEndpointsReady;
   KafkaTopicChannelConditionAddressable;
   KafkaTopicChannelConditionChannelServiceReady;
   KafkaTopicChannelConditionConfigReady].

(** [GetConditionSet]: the package's condition set (no alternate one is registered). *)
Definition GetConditionSet : ConditionSet := kc.

(** A status in memory, with the clock readings made so far. *)
Record StatusCell := mkCell { status : KafkaTopicChannelStatus; clock : nat }.
#[export] Instance StatusCell_eq_dec : EqDecision StatusCell.
Proof. solve_decision. Defined.

(** [GetConditionSet().Manage(cs)]: the manager's view of the status ... *)
Definition managed (cs : StatusCell) : Managed := mkManaged (Conditions (status cs)) (clock cs).

(** ... and the write back through [SetConditions]. *)
Definition with_managed (cs : StatusCell) (m : Managed) : StatusCell :=
  {| status := {| ObservedGeneration := ObservedGeneration (status cs);
                  Conditions := conditions m;
                  Address := Address (status cs);
                  st_Subscribers := st_Subscribers (status cs) |};
     clock := tick m |}.

Definition with_Address (cs : StatusCell) (a : option (option URL)) : StatusCell :=
  {| status := {| ObservedGeneration := ObservedGeneration (status cs);
                  Conditions := Conditions (status cs);
                  Address := a;
                  st_Subscribers := st_Subscribers (status cs) |};
     clock := clock cs |}.

Section lifecycle.
Context {rt : GoRuntime}.
Implicit Types (cs : StatusCell) (reason msg : string).

Definition manage (f : Managed → Managed) cs : StatusCell := with_managed cs (f (managed cs)).

Definition status_GetCondition cs (t : ConditionType) : option Condition :=
  GetCondition (managed cs) t.

Definition IsReady cs : bool := IsHappy GetConditionSet (managed cs).

Definition Status_InitializeConditions cs : StatusCell :=
  manage (InitializeConditions GetConditionSet) cs.

Definition SetAddress (url : option URL) cs : StatusCell :=
  let cs := match Address (status cs) with
            | None => with_Address cs (Some None)
            | Some _ => cs
            end in
  match url with
  | Some url =>
      manage (MarkTrue GetConditionSet KafkaTopicChannelConditionAddressable)
        (with_Address cs (Some (Some url)))
  | None =>
      manage (MarkFalse GetConditionSet KafkaTopicChannelConditionAddressable "EmptyURL" "URL is nil")
        (with_Address cs (Some None))
  end.

Definition MarkDispatcherFailed reason msg :=
  manage (MarkFalse GetConditionSet KafkaTopicChannelConditionDispatcherReady reason msg).
Definition MarkDispatcherUnknown reason msg :=
  manage (MarkUnknown GetConditionSet KafkaTopicChannelConditionDispatcherReady reason msg).

Definition propagate_condition cs (cond : DeploymentCondition) : StatusCell :=
  if decide (dc_Type cond = "Available") then
    if decide (dc_Status cond = "True") then
      manage (MarkTrue GetConditionSet KafkaTopicChannelConditionDispatcherReady) cs
    else if decide (dc_Status cond = "False") then
      MarkDispatcherFailed "DispatcherDeploymentFalse"
        ("The status of Dispatcher Deployment is False: " +:+ dc_Reason cond +:+ " : " +:+ dc_Message cond) cs
    else if decide (dc_Status cond = "Unknown") then
      MarkDispatcherUnknown "DispatcherDeploymentUnknown"
        ("The status of Dispatcher Deployment is Unknown: " +:+ dc_Reason cond +:+ " : " +:+ dc_Message cond) cs
    else cs
  else cs.

(** [ds] is the list of conditions of the deployment status. *)
Definition PropagateDispatcherStatus (ds : list DeploymentCondition) cs : StatusCell :=
  foldl propagate_condition cs ds.

Definition MarkServiceFailed reason msg :=
  manage (MarkFalse GetConditionSet KafkaTopicChannelConditionServiceReady reason msg).
Definition MarkServiceUnknown reason msg :=
  manage (MarkUnknown GetConditionSet KafkaTopicChannelConditionServiceReady reason msg).
Definition MarkServiceTrue :=
  manage (MarkTrue GetConditionSet KafkaTopicChannelConditionServiceReady).
Definition MarkChannelServiceFailed reason msg :=
  manage (MarkFalse GetConditionSet KafkaTopicChannelConditionChannelServiceReady reason msg).
Definition MarkChannelServiceTrue :=
  manage (MarkTrue GetConditionSet KafkaTopicChannelConditionChannelServiceReady).
Definition MarkEndpointsFailed reason msg :=
  manage (MarkFalse GetConditionSet KafkaTopicChannelConditionEndpointsReady reason msg).
Definition MarkEndpointsTrue :=
  manage (MarkTrue GetConditionSet KafkaTopicChannelConditionEndpointsReady).
Definition MarkTopicTrue :=
  manage (MarkTrue GetConditionSet KafkaTopicChannelConditionTopicReady).
Definition MarkTopicFailed reason msg :=
  manage (MarkFalse GetConditionSet KafkaTopicChannelConditionTopicReady reason msg).
Definition MarkConfigTrue :=
  manage (MarkTrue GetConditionSet KafkaTopicChannelConditionConfigReady).
Definition MarkConfigFailed reason msg :=
  manage (MarkFalse GetConditionSet KafkaTopicChannelConditionConfigReady reason msg).
End lifecycle.

(** ** Field paths *)
Definition plain (p : string) : Prop := free_of "."%char p ∧ p ≠ "" ∧ isIndex p = false.

Lemma foldl_flatten_plain acc ps :
  Forall plain ps → foldl flatten_step acc ps = acc ++ ps.
Proof.
  revert acc. induction ps as [|p ps IH]; intros acc; [by rewrite app_nil_r|].
  intros [(_ & Hne & Hidx) Hps]%Forall_cons. simpl. unfold flatten_step at 2.
  rewrite decide_False, Hidx, andb_false_r, IH by done. by rewrite <-app_assoc.
Qed.

(** Relocating a path of plain components under a plain component prefixes it. *)
Lemma flatten_prefix a p ps :
  plain a → Forall plain (p :: ps) →
  flatten [a; Join "." (p :: ps)] = Join "." (a :: p :: ps).
Proof.
  intros Ha Hps. unfold flatten.
  cbn [List.flat_map]. rewrite (Split_free _ a) by apply Ha.
  rewrite (Split_Join "."%char) by (eapply Forall_impl; [done|by intros ? []]).
  rewrite app_nil_r, foldl_flatten_plain; [done|]. by apply Forall_app; split; [apply Forall_singleton|].
Qed.

Lemma plain_dec_intro p :
  bool_decide (free_of "."%char p) = true → bool_decide (p ≠ "") = true → isIndex p = false → plain p.
Proof. intros ?%bool_decide_eq_true ?%bool_decide_eq_true ?. done. Qed.
Ltac solve_plain := repeat first [apply Forall_cons; split | apply Forall_nil_2 | by apply plain_dec_intro].

Lemma plain_subscriber (i : nat) : plain ("subscriber[" +:+ pretty i +:+ "]").
Proof.
  split_and!; [|done|done]. rewrite !free_of_append. split_and!.
  - by apply (bool_decide_eq_true (free_of "."%char "subscriber[")).
  - apply pretty_nat_free. by intros [? ?].
  - by apply (bool_decide_eq_true (free_of "."%char "]")).
Qed.

Definition subscriber_path (i : nat) (f : string) : string :=
  Join "." ["spec"; "subscribable"; "subscriber[" +:+ pretty i +:+ "]"; f].

Lemma subscriber_relocated (i : nat) f :
  plain f →
  flatten ["spec"; flatten ["subscribable"; flatten ["subscriber[" +:+ pretty i +:+ "]"; f]]]
  = subscriber_path i f.
Proof.
  intros Hf. pose proof (plain_subscriber i) as Hi.
  rewrite (flatten_prefix _ f []) by (solve_plain; done).
  rewrite (flatten_prefix _ _ [f]) by (solve_plain; done).
  rewrite (flatten_prefix _ _ [_; f]) by (solve_plain; done). done.
Qed.

(** ** The violations of a channel, listed directly *)
Definition positive_violation (n : Z) (path : string) : list FieldError :=
  if bool_decide (n ≤ 0)%Z then [ErrInvalidValue (itoa n) path] else [].

Fixpoint subscriber_violations (i : nat) (subs : list SubscriberSpec) : list FieldError :=
  match subs with
  | [] => []
  | s :: subs =>
      (match ReplyURI s, SubscriberURI s with
       | None, None =>
           [mkFieldError "missing field(s)" [subscriber_path i "replyURI"; subscriber_path i "subscriberURI"]
              "expected at least one of, got none" []]
       | _, _ => []
       end) ++ subscriber_violations (S i) subs
  end.

Definition scope_violations (annotations : option (gmap string string)) : list FieldError :=
  match annotations ≫= lookup ScopeAnnotationKey with
  | Some scope =>
      if bool_decide (scope = "namespace" ∨ scope = "cluster") then []
      else [mkFieldError ("invalid value: " +:+ scope)
              ["metadata.annotations.[eventing.knative.dev/scope]"]
              "expected either 'cluster' or 'namespace'" []]
  | None => []
  end.

Definition violations (c : KafkaTopicChannel) : list FieldError :=
  positive_violation (NumPartitions (Spec c)) "spec.numPartitions" ++
  positive_violation (ReplicationFactor (Spec c)) "spec.replicationFactor" ++
  subscriber_violations 0 (Subscribers (Spec c)) ++
  scope_violations (Annotations (meta c)).

Definition valid (c : KafkaTopicChannel) : Prop :=
  (0 < NumPartitions (Spec c))%Z ∧ (0 < ReplicationFactor (Spec c))%Z ∧
  Forall (λ s, is_Some (ReplyURI s) ∨ is_Some (SubscriberURI s)) (Subscribers (Spec c)) ∧
  ∀ scope, Annotations (meta c) ≫= lookup ScopeAnnotationKey = Some scope →
           scope = "namespace" ∨ scope = "cluster".

Lemma append_not_empty s1 s2 : s1 ≠ "" → s1 +:+ s2 ≠ "".
Proof. by destruct s1. Qed.

Lemma validate_subscribers_spec i subs errs :
  reports errs →
  relocate ["spec"] <$> normalized (validate_subscribers i subs errs) =
    (relocate ["spec"] <$> normalized errs) ++ subscriber_violations i subs ∧
  reports (validate_subscribers i subs errs).
Proof.
  revert i errs. induction subs as [|s subs IH]; intros i errs Hrep; simpl; [by rewrite app_nil_r|].
  unfold subscriber_error.
  destruct (ReplyURI s), (SubscriberURI s); try by apply IH.
  destruct (IH (S i) (Also errs [ViaField (ViaField (Some (with_Details
      (ErrMissingField ["replyURI"; "subscriberURI"]) "expected at least one of, got none"))
      ["subscriber[" +:+ pretty i +:+ "]"]) ["subscribable"]])) as [-> Hrep'].
  { apply reports_Also1; [done|]. do 2 apply reports_ViaField. by apply reports_leaf. }
  split; [|done]. rewrite normalized_Also, fmap_app, <-app_assoc. f_equal.
  cbn [List.flat_map]. rewrite app_nil_r, !normalized_ViaField.
  unfold with_Details, ErrMissingField. simpl. unfold relocate. simpl.
  do 2 f_equal.
  by rewrite !subscriber_relocated by (by apply plain_dec_intro).
Qed.

Lemma positive_step (n : Z) f path errs :
  plain f → path = Join "." ["spec"; f] → reports errs →
  let errs' := if bool_decide (n ≤ 0)%Z then Also errs [Some (ErrInvalidValue (itoa n) f)] else errs in
  relocate ["spec"] <$> normalized errs' =
    (relocate ["spec"] <$> normalized errs) ++ positive_violation n path ∧ reports errs'.
Proof.
  intros Hf -> Hrep. unfold positive_violation. case_bool_decide; [|by rewrite app_nil_r].
  split; [|apply reports_Also1; [done|]; by apply reports_leaf, append_not_empty].
  cbn zeta. rewrite normalized_Also, fmap_app. f_equal.
  cbn [List.flat_map]. rewrite app_nil_r. unfold ErrInvalidValue. cbn [normalized normalized_val].
  cbn [fe_Message fe_errors List.flat_map]. rewrite decide_False by (by apply append_not_empty).
  rewrite app_nil_r. unfold relocate. simpl. do 2 f_equal.
  f_equal. apply (flatten_prefix "spec" f []); solve_plain; done.
Qed.

Lemma Validate_violations c :
  normalized (Validate c) = violations c ∧ reports (Validate c).
Proof.
  assert (normalized (ViaField (Spec_Validate (Spec c)) ["spec"]) =
    positive_violation (NumPartitions (Spec c)) "spec.numPartitions" ++
    positive_violation (ReplicationFactor (Spec c)) "spec.replicationFactor" ++
    subscriber_violations 0 (Subscribers (Spec c)) ∧
    reports (ViaField (Spec_Validate (Spec c)) ["spec"])) as [Hspec Hrep].
  { rewrite normalized_ViaField. unfold Spec_Validate.
    destruct (positive_step (NumPartitions (Spec c)) "numPartitions" "spec.numPartitions" None)
      as [H1 R1]; [by apply plain_dec_intro|done|by left|].
    destruct (positive_step (ReplicationFactor (Spec c)) "replicationFactor" "spec.replicationFactor" _
      (plain_dec_intro "replicationFactor" eq_refl eq_refl eq_refl) eq_refl R1) as [H2 R2].
    destruct (validate_subscribers_spec 0 (Subscribers (Spec c)) _ R2) as [H3 R3].
    cbn zeta in *. rewrite H3, H2, H1. split; [by rewrite <-app_assoc|].
    by apply reports_ViaField. }
  unfold Validate, violations, scope_violations.
  destruct (Annotations (meta c)) as [ann|]; simpl; [|by rewrite Hspec, app_nil_r, ?app_assoc].
  destruct (ann !! ScopeAnnotationKey) as [scope|]; [|by rewrite Hspec, app_nil_r].
  case_bool_decide as Hs.
  - rewrite (bool_decide_eq_false_2 (scope = "namespace" ∨ _)) by tauto.
    split; [|apply reports_Also1; [done|]; by apply reports_leaf, append_not_empty].
    rewrite normalized_Also, Hspec. cbn [List.flat_map]. by rewrite <-!app_assoc.
  - rewrite (bool_decide_eq_true_2 (scope = "namespace" ∨ _)).
    + by rewrite Hspec, app_nil_r.
    + destruct (decide (scope = "namespace")), (decide (scope = "cluster")); tauto.
Qed.

Lemma subscriber_violations_nil i subs :
  subscriber_violations i subs = [] ↔
  Forall (λ s, is_Some (ReplyURI s) ∨ is_Some (SubscriberURI s)) subs.
Proof.
  revert i. induction subs as [|s subs IH]; intros i; simpl; [done|].
  rewrite Forall_cons, app_nil, (IH (S i)). apply and_iff_compat_r.
  destruct (ReplyURI s), (SubscriberURI s); split; eauto; try done.
  by intros [[? ?]|[? ?]].
Qed.

Lemma violations_nil c : violations c = [] ↔ valid c.
Proof.
  unfold violations, valid. rewrite !app_nil, subscriber_violations_nil.
  unfold positive_violation, scope_violations.
  assert (∀ n p, (if bool_decide (n ≤ 0)%Z then [ErrInvalidValue (itoa n) p] else []) = [] ↔ (0 < n)%Z) as Hpos.
  { intros n p. case_bool_decide; split; (done || lia). }
  rewrite !Hpos.
  destruct (Annotations (meta c) ≫= lookup ScopeAnnotationKey) as [scope|].
  - case_bool_decide as Hs; split.
    + intros (? & ? & ? & _). split_and!; [done..|]. by intros ? [= <-].
    + by intros (? & ? & ? & _).
    + by intros (_ & _ & _ & ?).
    + intros (? & ? & ? & H). destruct Hs. by apply H.
  - split; intros (? & ? & ? & _); split_and!; done.
Qed.

Lemma Validate_valid c : Validate c = None ↔ valid c.
Proof. destruct (Validate_violations c) as [Hn Hrep]. by rewrite (reports_iff _ Hrep), Hn, violations_nil. Qed.

(** ** Defaults *)
Lemma SetDefaults_partitions c :
  NumPartitions (Spec (SetDefaults c)) ≠ 0%Z ∧ ReplicationFactor (Spec (SetDefaults c)) ≠ 0%Z.
Proof. simpl. by repeat case_decide. Qed.

Lemma SetDefaults_scope c :
  Annotations (meta (SetDefaults c)) ≫= lookup ScopeAnnotationKey =
  Annotations (meta c) ≫= lookup ScopeAnnotationKey.
Proof.
  simpl. destruct (Annotations (meta c)); simpl; by rewrite lookup_insert_ne.
Qed.

(** ** Lifecycle: reachable statuses *)
Section lifecycle_inv.
Context {rt : GoRuntime}.
Implicit Types (cs : StatusCell).

Lemma kc_wf : set_wf kc.
Proof. apply newConditionSet_wf. Qed.

(** One call of a status method; [step_observe_generation] is the reset of the
    happy condition by [reconciler.PreProcessReconcile] on a new generation. *)
(** The same conditions with other transition times. *)
Definition retimed (time : Condition → Z) cs : StatusCell :=
  mkCell (mkStatus (ObservedGeneration (status cs)) ((λ c, with_time c (time c)) <$> Conditions (status cs))
    (Address (status cs)) (st_Subscribers (status cs))) (clock cs).

Inductive lifecycle_step : StatusCell → StatusCell → Prop :=
  | step_init cs : lifecycle_step cs (Status_InitializeConditions cs)
  | step_address url cs : lifecycle_step cs (SetAddress url cs)
  | step_dispatcher_failed reason msg cs : lifecycle_step cs (MarkDispatcherFailed reason msg cs)
  | step_dispatcher_unknown reason msg cs : lifecycle_step cs (MarkDispatcherUnknown reason msg cs)
  | step_propagate ds cs : lifecycle_step cs (PropagateDispatcherStatus ds cs)
  | step_service_failed reason msg cs : lifecycle_step cs (MarkServiceFailed reason msg cs)
  | step_service_unknown reason msg cs : lifecycle_step cs (MarkServiceUnknown reason msg cs)
  | step_service_true cs : lifecycle_step cs (MarkServiceTrue cs)
  | step_channel_service_failed reason msg cs : lifecycle_step cs (MarkChannelServiceFailed reason msg cs)
  | step_channel_service_true cs : lifecycle_step cs (MarkChannelServiceTrue cs)
  | step_endpoints_failed reason msg cs : lifecycle_step cs (MarkEndpointsFailed reason msg cs)
  | step_endpoints_true cs : lifecycle_step cs (MarkEndpointsTrue cs)
  | step_topic_true cs : lifecycle_step cs (MarkTopicTrue cs)
  | step_topic_failed reason msg cs : lifecycle_step cs (MarkTopicFailed reason msg cs)
  | step_config_true cs : lifecycle_step cs (MarkConfigTrue cs)
  | step_config_failed reason msg cs : lifecycle_step cs (MarkConfigFailed reason msg cs)
  | step_observe_generation reason msg cs :
      lifecycle_step cs (manage (MarkUnknown kc ConditionReady reason msg) cs)
  (** what is written besides the conditions: the generation and the statuses of the
      subscribers; the transition times, which the generated reconciler grooms; and the
      clock of the process that writes next *)
  | step_generation gen cs :
      lifecycle_step cs (mkCell (mkStatus gen (Conditions (status cs)) (Address (status cs)) (st_Subscribers (status cs))) (clock cs))
  | step_subscribers subs cs :
      lifecycle_step cs (mkCell (mkStatus (ObservedGeneration (status cs)) (Conditions (status cs)) (Address (status cs)) subs) (clock cs))
  | step_times (time : Condition → Z) cs : lifecycle_step cs (retimed time cs)
  | step_clock n cs : lifecycle_step cs (mkCell (status cs) n).

(** A status as the API server stores it for a channel never reconciled. *)
Definition fresh (n : nat) : StatusCell := mkCell (mkStatus 0 [] None []) n.

Definition addressed cs : Prop := ∃ url, Address (status cs) = Some (Some url).

Record status_inv cs : Prop := {
  inv_wf : wf kc (managed cs);
  inv_sound : sound kc (managed cs);
  inv_address : status_of (managed cs) KafkaTopicChannelConditionAddressable = Some ConditionTrue →
                addressed cs;
}.

Lemma managed_manage f cs : managed (manage f cs) = f (managed cs).
Proof. unfold manage, managed. simpl. by destruct (f _). Qed.

(** A marking of a dependent that is not Addressable keeps the invariant. *)
Lemma manage_mark_inv d s f cs :
  status_inv cs → d ≠ KafkaTopicChannelConditionAddressable →
  marked kc d s (managed cs) (f (managed cs)) → status_inv (manage f cs).
Proof.
  intros [Hwf Hs Ha] Hd Hm. pose proof (marked_sound kc d s _ _ Hm).
  destruct Hm as [? ? ? Hoth]. split; rewrite ?managed_manage; [done|done|].
  rewrite Hoth by done. exact Ha.
Qed.

Lemma managed_with_Address a cs : managed (with_Address cs a) = managed cs.
Proof. done. Qed.

Ltac solve_dep := apply list_elem_of_In; vm_compute; tauto.

Lemma SetAddress_inv url cs : status_inv cs → status_inv (SetAddress url cs).
Proof.
  intros [Hwf Hs Ha]. unfold SetAddress, GetConditionSet.
  set (cs0 := match Address (status cs) with None => _ | Some _ => cs end).
  assert (managed cs0 = managed cs) as Hm by (unfold cs0; by destruct (Address (status cs))).
  assert (KafkaTopicChannelConditionAddressable ∈ dependents kc) as Hdep by solve_dep.
  destruct url as [url|].
  - pose proof (marked_MarkTrue kc kc_wf _ _ Hwf Hdep) as HM.
    split; rewrite ?managed_manage, ?managed_with_Address, ?Hm;
      [apply HM|by eapply marked_sound|]. intros _. by exists url.
  - pose proof (marked_MarkFalse kc kc_wf _ "EmptyURL" "URL is nil" _ Hwf Hdep) as HM.
    split; rewrite ?managed_manage, ?managed_with_Address, ?Hm;
      [apply HM|by eapply marked_sound|]. rewrite (marked_status _ _ _ _ _ HM). done.
Qed.

Lemma mark_op_inv f d s cs :
  status_inv cs → d ∈ dependents kc → d ≠ KafkaTopicChannelConditionAddressable →
  (∀ m, wf kc m → d ∈ dependents kc → marked kc d s m (f m)) → status_inv (manage f cs).
Proof. intros Hi Hd Hne Hf. eapply manage_mark_inv; [done|done|]. apply Hf; [apply Hi|done]. Qed.

(** Close a goal [status_inv (manage (Mark... kc d ...) cs)]. *)
Ltac mark_inv :=
  eapply mark_op_inv; [eassumption| | |];
  [| |intros ? ? ?;
      first [eapply marked_MarkTrue | eapply marked_MarkFalse | eapply marked_MarkUnknown];
      [apply kc_wf|eassumption|eassumption]];
  [solve_dep|done].

Lemma propagate_inv ds cs : status_inv cs → status_inv (PropagateDispatcherStatus ds cs).
Proof.
  revert cs. induction ds as [|c ds IH]; intros cs Hi; [done|]. apply IH.
  unfold propagate_condition, MarkDispatcherFailed, MarkDispatcherUnknown.
  repeat case_decide; try done; mark_inv.
Qed.

Lemma init_inv cs : status_inv cs → status_inv (Status_InitializeConditions cs).
Proof.
  intros [Hwf Hs Ha]. unfold Status_InitializeConditions.
  destruct (InitializeConditions_status kc (managed cs) Hwf) as (Hwf' & Hh & Hst).
  unfold sound in Hs. rewrite IsHappy_status, bool_decide_eq_true in Hs.
  assert (status_of (InitializeConditions kc (managed cs)) (happy kc) = Some ConditionTrue →
          IsHappy kc (managed cs) = true) as Hhappy.
  { rewrite Hh, IsHappy_status, bool_decide_eq_true. by destruct (status_of _ _); simpl; intros [= <-]. }
  split; rewrite ?managed_manage; [done| |].
  - intros H d Hd. rewrite IsHappy_status, bool_decide_eq_true in H. apply Hhappy in H.
    rewrite IsHappy_status, bool_decide_eq_true in H. rewrite Hst by (by apply dep_not_happy; [apply kc_wf|]).
    by rewrite (Hs H d Hd).
  - assert (KafkaTopicChannelConditionAddressable ∈ dependents kc) as Hdep by solve_dep.
    rewrite Hst by done. rewrite decide_True by done.
    destruct (status_of (managed cs) KafkaTopicChannelConditionAddressable) as [x|] eqn:E; [done|].
    unfold initial_status. destruct (IsHappy kc (managed cs)) eqn:E2; [|done].
    rewrite IsHappy_status, bool_decide_eq_true in E2. rewrite (Hs E2 _ Hdep) in E. done.
Qed.

(** Of the conditions only types, statuses and severities matter, and nothing else of
    the status but its address. *)
Lemma GetCondition_retimed (time : Condition → Z) l n n' t :
  GetCondition (mkManaged ((λ c, with_time c (time c)) <$> l) n) t =
  (λ c, with_time c (time c)) <$> GetCondition (mkManaged l n') t.
Proof.
  unfold GetCondition. simpl. induction l as [|c l IH]; simpl; [done|].
  destruct (bool_decide (Type_ c = t)); [done|exact IH].
Qed.

Lemma status_of_retimed (time : Condition → Z) l n n' t :
  status_of (mkManaged ((λ c, with_time c (time c)) <$> l) n) t = status_of (mkManaged l n') t.
Proof. unfold status_of. rewrite (GetCondition_retimed time l n n'). by destruct (GetCondition _ _). Qed.

Lemma retimed_inv (time : Condition → Z) st n n' gen subs :
  status_inv (mkCell st n) →
  status_inv (mkCell (mkStatus gen ((λ c, with_time c (time c)) <$> Conditions st) (Address st) subs) n').
Proof.
  intros [[Hnd Hsev Hknown] Hs Ha]. unfold managed in *. simpl in *. split; unfold managed; simpl.
  - split; unfold types in *; simpl in *.
    + rewrite <-list_fmap_compose. exact Hnd.
    + intros c (c0 & -> & Hc)%list_elem_of_fmap. exact (Hsev c0 Hc).
    + intros c (c0 & -> & Hc)%list_elem_of_fmap. exact (Hknown c0 Hc).
  - intros Hh d Hd. rewrite (status_of_retimed time _ _ n). apply Hs; [|done].
    rewrite IsHappy_status, bool_decide_eq_true in Hh |- *. by rewrite (status_of_retimed time _ _ n) in Hh.
  - rewrite (status_of_retimed time _ _ n). exact Ha.
Qed.

Lemma untimed_inv st n n' gen subs :
  status_inv (mkCell st n) → status_inv (mkCell (mkStatus gen (Conditions st) (Address st) subs) n').
Proof.
  intros Hi. apply (retimed_inv LastTransitionTime _ _ n' gen subs) in Hi.
  assert (Hid : (λ c, with_time c (LastTransitionTime c)) <$> Conditions st = Conditions st); [|by rewrite Hid in Hi].
  clear. induction (Conditions st) as [|c l IH]; [done|]. rewrite fmap_cons, IH. by destruct c.
Qed.

(** What the invariant says of a status, whatever the clock. *)
Definition sane (st : KafkaTopicChannelStatus) : Prop := status_inv (mkCell st 0).

Lemma sane_cell cs : sane (status cs) ↔ status_inv cs.
Proof. destruct cs as [[gen conds a subs] n]. split; apply (untimed_inv (mkStatus gen conds a subs)). Qed.

Lemma lifecycle_step_inv cs cs' : lifecycle_step cs cs' → status_inv cs → status_inv cs'.
Proof.
  intros Hstep Hi. inversion Hstep; subst;
    try (mark_inv; fail).
  - by apply init_inv.
  - by apply SetAddress_inv.
  - by apply propagate_inv.
  - destruct Hi as [Hwf Hs Ha].
    destruct (MarkUnknown_happy_status kc kc_wf reason msg (managed cs) Hwf) as (Hwf' & Hh & Hst).
    split; rewrite ?managed_manage; [done| |].
    + intros H. rewrite IsHappy_status, bool_decide_eq_true in H. by destruct Hh.
    + rewrite Hst by done. exact Ha.
  - destruct cs. by eapply untimed_inv.
  - destruct cs. by eapply untimed_inv.
  - destruct cs as [[] ?]. by eapply retimed_inv.
  - apply sane_cell. by apply sane_cell in Hi.
Qed.

Lemma fresh_inv n : status_inv (fresh n).
Proof. split; [apply wf_empty| |]; done. Qed.

Lemma reachable_inv n cs : rtc lifecycle_step (fresh n) cs → status_inv cs.
Proof. revert cs. apply rtc_ind_r; eauto using fresh_inv, lifecycle_step_inv. Qed.

Lemma lifecycle_reachable_sane n cs : rtc lifecycle_step (fresh n) cs → sane (status cs).
Proof. intros Hr%reachable_inv. by apply sane_cell. Qed.

Lemma ready_status cs :
  status_inv cs → IsReady cs = true →
  addressed cs ∧ ∀ t, t ∈ dependents kc → status_of (managed cs) t = Some ConditionTrue.
Proof.
  intros [Hwf Hs Ha] Hready. split; [|by apply Hs]. apply Ha, Hs; [done|].
  apply list_elem_of_In. vm_compute. tauto.
Qed.
End lifecycle_inv.
#[export] Hint Resolve fresh_inv lifecycle_step_inv : ktc.

(** ** Properties *)

(** C31: validation reports exactly the violations of the channel, in order, each
    at its field path and with its message and details; it returns nil exactly
    for a valid channel (positive counts, a URI per subscriber, a known scope). *)
Theorem Validate_spec (c : KafkaTopicChannel) :
  normalized (Validate c) = violations c ∧ (Validate c = None ↔ valid c).
Proof.
  split; [apply Validate_violations|apply Validate_valid].
Qed.

(** defaulting is idempotent, never leaves a zero count, and keeps the verdict
    of validation except for the zero counts it replaces. *)
Theorem SetDefaults_spec (c : KafkaTopicChannel) :
  SetDefaults (SetDefaults c) = SetDefaults c ∧
  (valid (SetDefaults c) ↔
     (0 ≤ NumPartitions (Spec c))%Z ∧ (0 ≤ ReplicationFactor (Spec c))%Z ∧
     Forall (λ s, is_Some (ReplyURI s) ∨ is_Some (SubscriberURI s)) (Subscribers (Spec c)) ∧
     ∀ scope, Annotations (meta c) ≫= lookup ScopeAnnotationKey = Some scope →
              scope = "namespace" ∨ scope = "cluster").
Proof.
  split.
  - unfold SetDefaults. simpl. f_equal.
    + unfold with_Annotations. simpl. by rewrite insert_insert_eq.
    + unfold Spec_SetDefaults. simpl. f_equal; by repeat case_decide.
  - unfold valid. rewrite SetDefaults_scope.
    change (Subscribers (Spec (SetDefaults c))) with (Subscribers (Spec c)).
    simpl. unfold DefaultNumPartitions, DefaultReplicationFactor.
    repeat case_decide; intuition lia.
Qed.

(** C26: in every status the lifecycle methods and the writes of the reconcilers can
    produce from a fresh one, however often it was written back and read again, a
    Ready channel has all seven dependent conditions True and a non-nil address
    URL, so readers of a ready channel's [Status.Address.URL] cannot panic. *)
Theorem ready_channel_is_addressable (rt : GoRuntime) (n : nat) (cs : StatusCell) :
  rtc lifecycle_step (fresh n) cs → IsReady cs = true →
  addressed cs ∧ ∀ t, t ∈ dependents kc → status_of (managed cs) t = Some ConditionTrue.
Proof. intros Hr%reachable_inv. by apply ready_status. Qed.

Section ready_witness.
#[local] Instance demo_runtime : GoRuntime := deterministic_runtime Z.of_nat.

Definition demo_status : StatusCell :=
  MarkConfigTrue (MarkChannelServiceTrue (SetAddress (Some (http_url "h"))
    (MarkEndpointsTrue (MarkServiceTrue (PropagateDispatcherStatus
      [mkDeploymentCondition "Available" "True" "" ""]
      (MarkTopicTrue (Status_InitializeConditions (fresh 0)))))))).

Lemma demo_status_reachable : rtc lifecycle_step (fresh 0) demo_status.
Proof.
  eapply rtc_l; [apply step_init|]. eapply rtc_l; [apply step_topic_true|].
  eapply rtc_l; [apply step_propagate|]. eapply rtc_l; [apply step_service_true|].
  eapply rtc_l; [apply step_endpoints_true|]. eapply rtc_l; [apply step_address|].
  eapply rtc_l; [apply step_channel_service_true|]. eapply rtc_l; [apply step_config_true|].
  apply rtc_refl.
Defined.

Lemma ready_channel_is_addressable_witness : IsReady demo_status = true ∧ addressed demo_status.
Proof.
  assert (IsReady demo_status = true) as Hready by (vm_compute; reflexivity).
  split; [exact Hready|].
  exact (proj1 (ready_channel_is_addressable demo_runtime 0 demo_status demo_status_reachable Hready)).
Defined.
End ready_witness.
