(* ===== verification/DeepCopy.v ===== *)
(** * DeepCopy: the generated deep copies

    Models [src/pkg/apis/messaging/v1alpha1/zz_generated.deepcopy.go] over a
    heap: pointers and the arrays behind slices are locations, and [*out = *in]
    copies the locations, not what they point at.  The fields of library types
    ([ObjectMeta], [KafkaAuthSpec], [ChannelableSpec], [ChannelableStatus],
    [ListMeta]) are given by the interface [Copies], which says what a
    representation stands for and which cells it uses, with the laws
    [CopiesLaws] of a deep copy; the types of the repository are instances.

    A method [in.DeepCopyInto(out)] is the function from the heap and the struct
    at [in] to the heap and the struct it leaves at [out]. *)
From stdpp Require Import gmap.
From S2P Require Import Prelude GoStrings ApiTypes Conditions Channel.

Record Loc := mkLoc { loc_car : positive }.
#[export] Instance Loc_eq_dec : EqDecision Loc.
Proof. solve_decision. Defined.
#[export] Instance Loc_countable : Countable Loc.
Proof. by apply (inj_countable' loc_car mkLoc); intros []. Defined.
#[export] Program Instance Loc_infinite : Infinite Loc :=
  inj_infinite mkLoc (λ l, Some (loc_car l)) _.
Next Obligation. done. Qed.

(** ** Heaps

    [Stores cell A]: cells can hold values of type [A] (a struct, or the array
    behind a slice). *)
Abbreviation Heap cell := (gmap Loc cell).

Class Stores (cell A : Type) := {
  put : A → cell;
  get : cell → option A;
  get_put : ∀ a, get (put a) = Some a;
}.

Section heap.
Context {cell : Type}.
Implicit Types (h : Heap cell).

Definition load {A} `{!Stores cell A} h (l : Loc) : option A := h !! l ≫= get.
Definition store {A} `{!Stores cell A} h (l : Loc) (a : A) : Heap cell := <[l := put a]> h.

(** [new(T)] and [make([]T, n)]: a fresh cell. *)
Definition alloc {A} `{!Stores cell A} h (a : A) : Heap cell * Loc :=
  let l := base.fresh (dom h : gset Loc) in (store h l a, l).

Definition agree (ls : gset Loc) h h' : Prop := ∀ l, l ∈ ls → h' !! l = h !! l.

Lemma load_store {A} `{!Stores cell A} h l (a : A) : load (store h l a) l = Some a.
Proof. unfold load, store. rewrite lookup_insert_eq. simpl. apply get_put. Qed.

Lemma load_agree {A} `{!Stores cell A} h h' l :
  h' !! l = h !! l → load (A := A) h' l = load h l.
Proof. unfold load. by intros ->. Qed.

Lemma load_allocated {A} `{!Stores cell A} h l (a : A) : load h l = Some a → l ∈ (dom h : gset Loc).
Proof. unfold load. intros (c & Hc & _)%bind_Some. by eapply elem_of_dom_2. Qed.

Lemma agree_grows ls h h' : ls ⊆ (dom h : gset Loc) → h ⊆ h' → agree ls h h'.
Proof.
  intros Hls Hg l Hl. apply Hls, elem_of_dom in Hl as [c Hc]. rewrite Hc.
  by eapply lookup_weaken.
Qed.

Lemma agree_subseteq ls ls' h h' : ls ⊆ ls' → agree ls' h h' → agree ls h h'.
Proof. unfold agree. set_solver. Qed.

Lemma alloc_fresh {A} `{!Stores cell A} h (a : A) : (alloc h a).2 ∉ (dom h : gset Loc).
Proof. apply is_fresh. Qed.

(** Writing to a cell that [h] does not have keeps what [h] has. *)
Lemma store_grows {A} `{!Stores cell A} h h' l (a : A) :
  h ⊆ h' → l ∉ (dom h : gset Loc) → h ⊆ store h' l a.
Proof. intros Hg Hl. apply insert_subseteq_r; [by apply not_elem_of_dom|done]. Qed.
End heap.

(** ** Representations and their copies

    A [T] is a Go value whose references are locations; [reads h t] is the value
    of type [V] that it stands for in the heap [h], if its references lead to
    cells of the right types; [footprint h t] are the cells it reaches. *)
Class Copies (cell T V : Type) := {
  zero : T;
  reads : Heap cell → T → option V;
  footprint : Heap cell → T → gset Loc;
  copy_into : Heap cell → T → Heap cell * T;
}.

(** From a heap [h] to a heap [h'] the value [v] was copied into [t]: the cells
    of [h] are as they were, and the copy uses none of them. *)
Record copied {cell T V} `{!Copies cell T V} (h h' : Heap cell) (t : T) (v : V) : Prop := {
  copied_grows : h ⊆ h';
  copied_reads : reads h' t = Some v;
  copied_fresh : footprint h' t ## dom h;
}.

Class CopiesLaws (cell T V : Type) `{!Copies cell T V} := {
  reads_frame : ∀ h h' (t : T) (v : V), reads h t = Some v → agree (footprint h t) h h' →
    reads h' t = Some v ∧ footprint h' t = footprint h t;
  footprint_allocated : ∀ h (t : T) (v : V), reads h t = Some v → footprint h t ⊆ dom h;
  copy_into_spec : ∀ h (t : T) (v : V), reads h t = Some v →
    copied h (copy_into h t).1 (copy_into h t).2 v;
}.

Section copies.
Context {cell T V : Type} `{!Copies cell T V, !CopiesLaws cell T V}.
Implicit Types (h : Heap cell) (t : T) (v : V).

Lemma reads_grows h h' t v :
  reads h t = Some v → h ⊆ h' → reads h' t = Some v ∧ footprint h' t = footprint h t.
Proof.
  intros Hr Hg. apply reads_frame; [done|]. apply agree_grows; [|done].
  by eapply footprint_allocated.
Qed.

Lemma copied_later h h1 h2 t v :
  copied h h1 t v → h1 ⊆ h2 → copied h h2 t v.
Proof.
  intros [Hg Hr Hf] Hg2. destruct (reads_grows _ _ _ _ Hr Hg2) as [Hr2 Hfp].
  split; [by etrans|done|by rewrite Hfp].
Qed.

Lemma copied_earlier h h1 h2 t v : h ⊆ h1 → copied h1 h2 t v → copied h h2 t v.
Proof.
  intros Hg [Hg1 Hr Hf]. split; [by etrans|done|].
  apply subseteq_dom in Hg. set_solver.
Qed.

(** A write to a cell that was neither in [h] nor reached by the copy. *)
Lemma copied_store {A} `{!Stores cell A} h0 h h' l (a : A) t v :
  copied h h' t v → h0 ⊆ h → l ∈ dom h → l ∉ dom h0 → copied h0 (store h' l a) t v.
Proof.
  intros [Hg Hr Hf] Hg0 Hl Hl0.
  destruct (reads_frame h' (store h' l a) t v Hr) as [Hr' Hfp].
  { intros k Hk. unfold store. apply lookup_insert_ne. set_solver. }
  split; [|done|].
  - apply store_grows; [by etrans|done].
  - rewrite Hfp. apply subseteq_dom in Hg0. set_solver.
Qed.

(** The copy after other cells were added to the heap of the original. *)
Lemma copy_into_later h h1 t v :
  reads h t = Some v → h ⊆ h1 → copied h1 (copy_into h1 t).1 (copy_into h1 t).2 v.
Proof. intros Hr Hg. apply copy_into_spec. by apply (reads_grows h). Qed.
End copies.

Lemma copied_both {cell T1 V1 T2 V2} `{!Copies cell T1 V1, !CopiesLaws cell T1 V1}
    `{!Copies cell T2 V2, !CopiesLaws cell T2 V2} (h h1 h2 : Heap cell) (t1 : T1) (v1 : V1)
    (t2 : T2) (v2 : V2) :
  copied h h1 t1 v1 → copied h1 h2 t2 v2 → copied h h2 t1 v1 ∧ copied h h2 t2 v2.
Proof.
  intros H1 H2. split.
  - eapply copied_later; [done|apply H2].
  - eapply copied_earlier; [apply H1|done].
Qed.

(** *** Isolation

    Who holds a value may write to every cell that it reaches and to the cells
    that he allocates: the first component are the cells he can write to. *)
Inductive holder_step {cell} : gset Loc * Heap cell → gset Loc * Heap cell → Prop :=
  | holder_writes ls (h : Heap cell) l c : l ∈ ls → holder_step (ls, h) (ls, <[l := c]> h)
  | holder_allocates ls (h : Heap cell) l c :
      l ∉ (dom h : gset Loc) → holder_step (ls, h) ({[l]} ∪ ls, <[l := c]> h).

Lemma holder_keeps {cell} (s s' : gset Loc * Heap cell) (X : gset Loc) :
  rtc holder_step s s' → X ## s.1 → X ⊆ dom s.2 → agree X s.2 s'.2.
Proof.
  induction 1 as [s|s1 s2 s3 Hst _ IH]; [by intros ?? l|]. intros Hd HX k Hk.
  destruct Hst as [ls h l c Hl|ls h l c Hl]; simpl in *; rewrite IH by (done || set_solver);
    apply lookup_insert_ne; set_solver.
Qed.

(** Whatever the holder of the copy does, the original stands for the same
    value, and the other way round. *)
Lemma copied_isolated {cell T V} `{!Copies cell T V, !CopiesLaws cell T V}
    (h h' : Heap cell) (t t' : T) (v : V) :
  reads h t = Some v → copied h h' t' v →
  reads h' t = Some v ∧ reads h' t' = Some v ∧
  (∀ ls h'', rtc holder_step (footprint h' t', h') (ls, h'') → reads h'' t = Some v) ∧
  (∀ ls h'', rtc holder_step (footprint h' t, h') (ls, h'') → reads h'' t' = Some v).
Proof.
  intros Hr [Hg Hr' Hf]. pose proof (footprint_allocated _ _ _ Hr) as Ha.
  destruct (reads_grows _ _ _ _ Hr Hg) as [Hr1 Hf1]. split_and!; [done|done| |].
  - intros ls h'' Hrtc. destruct (reads_frame h' h'' t v Hr1); [|done].
    apply (holder_keeps _ _ _ Hrtc); simpl; [set_solver|by eapply footprint_allocated].
  - intros ls h'' Hrtc. destruct (reads_frame h' h'' t' v Hr'); [|done].
    apply (holder_keeps _ _ _ Hrtc); simpl; [set_solver|by eapply footprint_allocated].
Qed.

(** [copy_step H h' t' K]: the next copy of a body, of the part that [H] reads,
    yields [h'] and [t']; [lift_reads H K] reads a part in the later heap;
    [frame_part H Hag] in a heap that agrees on the cells of the whole. *)
Ltac copy_step H h' t' K :=
  match type of H with
  | reads ?h ?t = Some ?v =>
      pose proof (copy_into_spec h t v H) as K;
      destruct (copy_into h t) as [h' t']; cbn [fst snd] in K
  end.
Ltac frame_part H Hag :=
  match type of Hag with agree _ ?h ?h' =>
    destruct (reads_frame h h' _ _ H) as [-> ->];
      [by eapply agree_subseteq; [|exact Hag]; set_solver|]
  end.
Ltac lift_reads H K := eapply reads_grows in H; [destruct H as [H _]|exact (copied_grows _ _ _ _ K)].

(** A type without references: assignment is a deep copy. *)
Section flat.
Context {cell : Type}.

Definition FlatCopies (V : Type) (z : V) : Copies cell V V := {|
  zero := z; reads h v := Some v; footprint h v := ∅; copy_into h v := (h, v) |}.

Lemma FlatCopies_laws V (z : V) : @CopiesLaws cell V V (FlatCopies V z).
Proof. split; simpl; intros; simplify_eq; [done|set_solver|]. by split; simpl; [|done|set_solver]. Qed.
End flat.

(** ** Pointers and slices *)
Section references.
Context {cell T V : Type} `{!Copies cell T V, !CopiesLaws cell T V}.
Implicit Types (h : Heap cell).

(** [DeepCopy] of a type with [DeepCopyInto]: nil for nil, else a copy in a new
    cell.  A pointer of a type leads to a value of that type. *)
Definition DeepCopy `{!Stores cell T} (DeepCopyInto : Heap cell → T → Heap cell * T)
    h (in_ : option Loc) : Heap cell * option Loc :=
  match in_ with
  | None => (h, None)
  | Some l =>
      let '(h, out) := alloc h (zero : T) in
      let '(h, v) := DeepCopyInto h (default zero (load h l)) in
      (store h out v, Some out)
  end.

#[local] Instance PtrCopies `{!Stores cell T} : Copies cell (option Loc) (option V) := {|
  zero := None;
  reads h p := match p with
               | None => Some None
               | Some l => t ← load h l; v ← reads h t; Some (Some v)
               end;
  footprint h p := match p with
                   | None => ∅
                   | Some l => {[l]} ∪ from_option (footprint h) ∅ (load (A := T) h l)
                   end;
  copy_into h p := DeepCopy copy_into h p;
|}.

#[local] Instance PtrCopies_laws `{!Stores cell T} : CopiesLaws cell (option Loc) (option V).
Proof.
  split; cbn [reads footprint copy_into PtrCopies].
  - intros h h' [l|] v Hr Hag; [|done].
    apply bind_Some in Hr as (t & Hl & Hr). rewrite Hl in Hag |- *. simpl in Hag.
    rewrite (load_agree h h' l), Hl by (apply Hag; set_solver). simpl.
    apply bind_Some in Hr as (w & Hw & [= <-]).
    destruct (reads_frame h h' _ _ Hw) as [-> ->]; [|done].
    by eapply agree_subseteq; [|done]; set_solver.
  - intros h [l|] v Hr; [|set_solver].
    apply bind_Some in Hr as (t & Hl & (w & Hw & _)%bind_Some). rewrite Hl. simpl.
    apply load_allocated in Hl. apply footprint_allocated in Hw. set_solver.
  - intros h [l|] v Hr; [|simpl in *; simplify_eq; split; simpl; done || set_solver].
    apply bind_Some in Hr as (t & Hl & (w & Hw & [= <-])%bind_Some). unfold DeepCopy.
    pose proof (alloc_fresh h (zero : T)) as Hf. unfold alloc in *. simpl in Hf.
    set (out := base.fresh _) in *.
    assert (h ⊆ store h out (zero : T)) as Hg by by apply store_grows.
    assert (load (store h out (zero : T)) l = Some t) as ->.
    { rewrite <-Hl. apply load_agree. unfold store.
      apply lookup_insert_ne. intros <-. by apply load_allocated in Hl. }
    simpl. pose proof (copy_into_later _ _ _ _ Hw Hg) as K.
    destruct (copy_into _ t) as [h1 t']; cbn [fst snd] in *.
    assert (copied h (store h1 out t') t' w) as [? Hr' Hfr].
    { eapply copied_store; [exact K|done| |done]. unfold store. set_solver. }
    split; cbn [reads footprint PtrCopies]; [done| |];
      rewrite load_store; simpl; [by rewrite Hr'|set_solver].
Qed.

Lemma DeepCopy_isolated `{!Stores cell T} h (p : option Loc) (v : option V) :
  reads h p = Some v →
  match DeepCopy copy_into h p with
  | (h', None) => p = None ∧ v = None ∧ h' = h
  | (h', q) => is_Some v ∧ reads h' p = Some v ∧ reads h' q = Some v ∧
      (∀ ls h'', rtc holder_step (footprint h' q, h') (ls, h'') → reads h'' p = Some v) ∧
      (∀ ls h'', rtc holder_step (footprint h' p, h') (ls, h'') → reads h'' q = Some v)
  end.
Proof.
  intros Hr. pose proof (copy_into_spec _ _ _ Hr) as K.
  change (DeepCopy copy_into h p) with (copy_into h p).
  destruct p as [l|]; [|by simplify_eq/=].
  assert (is_Some v) as Hv.
  { simpl in Hr. by apply bind_Some in Hr as (? & _ & (? & _ & [= <-])%bind_Some). }
  destruct (copy_into h (Some l)) as [h' [q|]]; cbn [fst snd] in K.
  - split; [done|]. by apply (copied_isolated _ _ _ _ _ Hr K).
  - pose proof (copied_reads _ _ _ _ K) as [= <-]. by destruct Hv.
Qed.
End references.

Section slices.
Context {cell T V : Type} `{!Copies cell T V, !CopiesLaws cell T V, !Stores cell (list T)}.
Implicit Types (h : Heap cell).

Definition array h (l : Loc) : list T := default [] (load h l).

(** The loop [for i := range *in { ( *in)[i].DeepCopyInto(&( *out)[i]) }], from
    index [i] with [n] elements to go. *)
Fixpoint copy_elements (DeepCopyInto : Heap cell → T → Heap cell * T) h (src dst : Loc)
    (i n : nat) : Heap cell :=
  match n with
  | O => h
  | S n =>
      let '(h, c) := DeepCopyInto h (default zero (array h src !! i)) in
      let h := store h dst (<[i := c]> (array h dst)) in
      copy_elements DeepCopyInto h src dst (S i) n
  end.

(** A copy of a slice: nil for nil, else [make] and the loop. *)
Definition copy_slice (DeepCopyInto : Heap cell → T → Heap cell * T) h (items : option Loc) :
    Heap cell * option Loc :=
  match items with
  | None => (h, None)
  | Some src =>
      let len := length (array h src) in
      let '(h, dst) := alloc h (replicate len (zero : T)) in
      (copy_elements DeepCopyInto h src dst 0 len, Some dst)
  end.

#[local] Instance SliceCopies : Copies cell (option Loc) (option (list V)) := {|
  zero := None;
  reads h p := match p with
               | None => Some None
               | Some l => ts ← load h l; vs ← mapM (reads h) ts; Some (Some vs)
               end;
  footprint h p := match p with
                   | None => ∅
                   | Some l => {[l]} ∪ ⋃ (footprint h <$> array h l)
                   end;
  copy_into h p := copy_slice copy_into h p;
|}.

Lemma elements_frame h h' (ts : list T) (vs : list V) :
  Forall2 (λ t v, reads h t = Some v) ts vs → agree (⋃ (footprint h <$> ts)) h h' →
  Forall2 (λ t v, reads h' t = Some v) ts vs ∧ (footprint h' <$> ts) = (footprint h <$> ts).
Proof.
  induction 1 as [|t v ts vs Hr _ IH]; [done|]. csimpl. intros Hag.
  destruct IH as [IH1 IH2]; [by eapply agree_subseteq; [|done]; set_solver|].
  destruct (reads_frame h h' t v Hr) as [Hr' Hf];
    [by eapply agree_subseteq; [|done]; set_solver|].
  split; [by constructor|by rewrite IH2, Hf].
Qed.

Lemma elements_allocated h (ts : list T) (vs : list V) :
  Forall2 (λ t v, reads h t = Some v) ts vs → ⋃ (footprint h <$> ts) ⊆ dom h.
Proof.
  induction 1 as [|t v ts vs Hr _ IH]; csimpl; [set_solver|].
  apply footprint_allocated in Hr. set_solver.
Qed.

(** The elements copied so far: they stand for [vs] and use neither the cells of
    [h0] nor the new array. *)
Definition elements_copied (h0 h : Heap cell) (dst : Loc) (ts : list T) (vs : list V) : Prop :=
  Forall2 (λ t v, reads h t = Some v ∧ footprint h t ## dom h0 ∪ {[dst]}) ts vs.

Lemma elements_copied_store h0 h h1 dst ts vs (a : list T) :
  elements_copied h0 h dst ts vs → h ⊆ h1 → elements_copied h0 (store h1 dst a) dst ts vs.
Proof.
  intros Hts Hg. eapply Forall2_impl; [exact Hts|]. cbn. intros t v [Hr Hf].
  destruct (reads_grows _ _ _ _ Hr Hg) as [Hr1 Hf1].
  destruct (reads_frame h1 (store h1 dst a) t v Hr1) as [-> ->]; [|by rewrite Hf1].
  intros k Hk. unfold store. apply lookup_insert_ne. intros <-. rewrite Hf1 in Hk. set_solver.
Qed.

Lemma elements_copied_reads h0 h dst ts vs :
  elements_copied h0 h dst ts vs → mapM (reads h) ts = Some vs.
Proof. intros H. apply mapM_Some. eapply Forall2_impl; [exact H|]. by intros ?? [??]. Qed.

Lemma elements_copied_fresh h0 h dst ts vs :
  elements_copied h0 h dst ts vs → ⋃ (footprint h <$> ts) ## dom h0.
Proof. induction 1 as [|t v ts vs [_ ?] _ IH]; csimpl; set_solver. Qed.

Lemma copy_elements_spec h0 src dst rest : ∀ vrest pre h done vdone,
  h0 ⊆ h → dst ∉ (dom h0 : gset Loc) →
  load h0 src = Some (pre ++ rest) → length pre = length done →
  Forall2 (λ t v, reads h0 t = Some v) rest vrest →
  load h dst = Some (done ++ replicate (length rest) (zero : T)) →
  elements_copied h0 h dst done vdone →
  let h' := copy_elements copy_into h src dst (length done) (length rest) in
  h0 ⊆ h' ∧ ∃ ts, load h' dst = Some ts ∧ elements_copied h0 h' dst ts (vdone ++ vrest).
Proof.
  induction rest as [|t rest IH]; intros vrest pre h done vdone Hg Hdst Hsrc Hlen Hrest Hload Hdone.
  { inversion Hrest; subst. simpl in *. rewrite app_nil_r in Hload |- *. eauto. }
  inversion Hrest as [|? v ? vs Ht Hrest']; subst. simpl.
  assert (array h src !! length done = Some t) as ->.
  { unfold array. rewrite (load_agree h0 h), Hsrc.
    - simpl. by rewrite <-Hlen, list_lookup_middle.
    - apply (agree_grows {[src]}); [|done|set_solver].
      apply load_allocated in Hsrc. set_solver. }
  simpl. pose proof (copy_into_later _ _ _ _ Ht Hg) as K.
  destruct (copy_into h t) as [h1 t']; cbn [fst snd] in K. destruct K as [Hg1 Hr1 Hf1].
  assert (dst ∈ (dom h : gset Loc)) as Hin by by eapply load_allocated.
  assert (array h1 dst = done ++ replicate (S (length rest)) zero) as ->.
  { unfold array. rewrite (load_agree h h1), Hload; [done|].
    apply (agree_grows {[dst]}); [set_solver|done|set_solver]. }
  rewrite insert_app_r_alt, Nat.sub_diag by lia. simpl.
  destruct (IH vs (pre ++ [t]) (store h1 dst (done ++ t' :: replicate (length rest) zero))
              (done ++ [t']) (vdone ++ [v])) as [Hg' Hts].
  - apply store_grows; [by etrans|done].
  - done.
  - by rewrite <-(assoc_L (++)).
  - by rewrite !length_app, Hlen.
  - done.
  - rewrite load_store. by rewrite <-(assoc_L (++)).
  - apply Forall2_app; [by eapply elements_copied_store|]. apply Forall2_cons; split; [|done].
    apply subseteq_dom in Hg.
    destruct (reads_frame h1 (store h1 dst (done ++ t' :: replicate (length rest) zero)) t' v Hr1)
      as [-> ->]; [|split; [done|set_solver]].
    intros k Hk. unfold store. apply lookup_insert_ne. set_solver.
  - rewrite !length_app, Nat.add_1_r in Hts, Hg'. rewrite <-(assoc_L (++)) in Hts. done.
Qed.

#[local] Instance SliceCopies_laws : CopiesLaws cell (option Loc) (option (list V)).
Proof.
  split; cbn [reads footprint copy_into SliceCopies].
  - intros h h' [l|] v Hr Hag; [|done].
    apply bind_Some in Hr as (ts & Hl & (vs & Hvs%mapM_Some & [= <-])%bind_Some).
    unfold array in *. rewrite Hl in Hag |- *. simpl in Hag.
    rewrite (load_agree h h' l), Hl by (apply Hag; set_solver). simpl.
    destruct (elements_frame h h' _ _ Hvs) as [Hvs' ->];
      [by eapply agree_subseteq; [|done]; set_solver|].
    by apply mapM_Some in Hvs' as ->.
  - intros h [l|] v Hr; [|set_solver].
    apply bind_Some in Hr as (ts & Hl & (vs & Hvs%mapM_Some & [= <-])%bind_Some).
    unfold array. rewrite Hl. simpl. apply load_allocated in Hl.
    apply elements_allocated in Hvs. set_solver.
  - intros h [l|] v Hr; [|simpl in *; simplify_eq; split; simpl; done || set_solver].
    apply bind_Some in Hr as (ts & Hl & (vs & Hvs%mapM_Some & [= <-])%bind_Some).
    unfold copy_slice. assert (array h l = ts) as -> by (unfold array; by rewrite Hl).
    pose proof (alloc_fresh h (replicate (length ts) (zero : T))) as Hf.
    unfold alloc in *. simpl in Hf. set (dst := base.fresh _) in *.
    destruct (copy_elements_spec h l dst ts vs [] (store h dst (replicate (length ts) zero)) [] [])
      as [Hg (ts' & Hl' & Hc)]; try done.
    { by apply store_grows. }
    { apply load_store. }
    { constructor. }
    simpl in Hg, Hl', Hc. cbn [fst snd]. set (h' := copy_elements _ _ _ _ _ _) in *.
    split; cbn [reads footprint SliceCopies]; [done| |]; unfold array; rewrite Hl'; simpl.
    + by rewrite (elements_copied_reads _ _ _ _ _ Hc).
    + pose proof (elements_copied_fresh _ _ _ _ _ Hc). set_solver.
Qed.
End slices.

(** ** The types of the repository in memory ([kafka_channel_types.go]) *)
Record TypeMeta := mkTypeMeta { tm_Kind : string; tm_APIVersion : string }.
#[export] Instance TypeMeta_eq_dec : EqDecision TypeMeta.
Proof. solve_decision. Defined.
Definition zero_TypeMeta : TypeMeta := mkTypeMeta "" "".

Record SpecRep (A C : Type) := mkSpecRep {
  rep_NumPartitions : Z;
  rep_ReplicationFactor : Z;
  rep_KafkaAuthSpec : A;
  rep_Topic : string;
  rep_ChannelableSpec : C;
}.
Record StatusRep (U : Type) := mkStatusRep { rep_ChannelableStatus : U }.
Record ChannelRep (M A C U : Type) := mkChannelRep {
  rep_TypeMeta : TypeMeta;
  rep_ObjectMeta : M;
  rep_Spec : SpecRep A C;
  rep_Status : StatusRep U;
}.
(** [Items] is nil or the array behind the slice. *)
Record ListRep (L : Type) := mkListRep {
  rep_ListTypeMeta : TypeMeta;
  rep_ListMeta : L;
  rep_Items : option Loc;
}.
Arguments mkSpecRep {A C}. Arguments rep_NumPartitions {A C}. Arguments rep_Topic {A C}.
Arguments rep_ReplicationFactor {A C}. Arguments rep_KafkaAuthSpec {A C}.
Arguments rep_ChannelableSpec {A C}.
Arguments mkStatusRep {U}. Arguments rep_ChannelableStatus {U}.
Arguments mkChannelRep {M A C U}. Arguments rep_TypeMeta {M A C U}.
Arguments rep_ObjectMeta {M A C U}. Arguments rep_Spec {M A C U}. Arguments rep_Status {M A C U}.
Arguments mkListRep {L}. Arguments rep_ListTypeMeta {L}. Arguments rep_ListMeta {L}.
Arguments rep_Items {L}.

(** What the library parts of a spec stand for. *)
Abbreviation AuthValue := (list string * KafkaNetSpec)%type.
Abbreviation ChannelableValue := (list SubscriberSpec * option DeliverySpec)%type.

Section generated.
Context {cell M A C U L LV : Type}.
Context `{metas : !Copies cell M ObjectMeta, !CopiesLaws cell M ObjectMeta}.
Context `{auths : !Copies cell A AuthValue, !CopiesLaws cell A AuthValue}.
Context `{specs : !Copies cell C ChannelableValue, !CopiesLaws cell C ChannelableValue}.
Context `{statuses : !Copies cell U KafkaTopicChannelStatus, !CopiesLaws cell U KafkaTopicChannelStatus}.
Context `{lists : !Copies cell L LV, !CopiesLaws cell L LV}.
Implicit Types (h : Heap cell).

(** *** [DeepCopyInto] *)
Definition KafkaTopicChannelSpec_DeepCopyInto h (in_ : SpecRep A C) : Heap cell * SpecRep A C :=
  let out := in_ in
  let '(h, auth) := copy_into h (rep_KafkaAuthSpec in_) in
  let out := mkSpecRep (rep_NumPartitions out) (rep_ReplicationFactor out) auth
               (rep_Topic out) (rep_ChannelableSpec out) in
  let '(h, channelable) := copy_into h (rep_ChannelableSpec in_) in
  let out := mkSpecRep (rep_NumPartitions out) (rep_ReplicationFactor out)
               (rep_KafkaAuthSpec out) (rep_Topic out) channelable in
  (h, out).

Definition KafkaTopicChannelStatus_DeepCopyInto h (in_ : StatusRep U) :
    Heap cell * StatusRep U :=
  let out := in_ in
  let '(h, channelable) := copy_into h (rep_ChannelableStatus in_) in
  let out := mkStatusRep channelable in
  (h, out).

Definition KafkaTopicChannel_DeepCopyInto h (in_ : ChannelRep M A C U) :
    Heap cell * ChannelRep M A C U :=
  let out := in_ in
  let out := mkChannelRep (rep_TypeMeta in_) (rep_ObjectMeta out) (rep_Spec out)
               (rep_Status out) in
  let '(h, m) := copy_into h (rep_ObjectMeta in_) in
  let out := mkChannelRep (rep_TypeMeta out) m (rep_Spec out) (rep_Status out) in
  let '(h, spec) := KafkaTopicChannelSpec_DeepCopyInto h (rep_Spec in_) in
  let out := mkChannelRep (rep_TypeMeta out) (rep_ObjectMeta out) spec (rep_Status out) in
  let '(h, status) := KafkaTopicChannelStatus_DeepCopyInto h (rep_Status in_) in
  let out := mkChannelRep (rep_TypeMeta out) (rep_ObjectMeta out) (rep_Spec out) status in
  (h, out).

(** *** What the structs stand for *)
Definition reads_Spec h (s : SpecRep A C) : option KafkaTopicChannelSpec :=
  '(servers, net) ← reads h (rep_KafkaAuthSpec s);
  '(subscribers, delivery) ← reads h (rep_ChannelableSpec s);
  Some {| NumPartitions := rep_NumPartitions s; ReplicationFactor := rep_ReplicationFactor s;
          BootstrapServers := servers; Net := net; Topic := rep_Topic s;
          Subscribers := subscribers; ch_Delivery := delivery |}.

#[export] Instance SpecCopies : Copies cell (SpecRep A C) KafkaTopicChannelSpec := {|
  zero := mkSpecRep 0 0 zero "" zero;
  reads := reads_Spec;
  footprint h s := footprint h (rep_KafkaAuthSpec s) ∪ footprint h (rep_ChannelableSpec s);
  copy_into := KafkaTopicChannelSpec_DeepCopyInto;
|}.

#[export] Instance StatusCopies : Copies cell (StatusRep U) KafkaTopicChannelStatus := {|
  zero := mkStatusRep zero;
  reads h s := reads h (rep_ChannelableStatus s);
  footprint h s := footprint h (rep_ChannelableStatus s);
  copy_into := KafkaTopicChannelStatus_DeepCopyInto;
|}.

Definition reads_Channel h (c : ChannelRep M A C U) : option (TypeMeta * KafkaTopicChannel) :=
  m ← reads h (rep_ObjectMeta c);
  spec ← reads h (rep_Spec c);
  status ← reads h (rep_Status c);
  Some (rep_TypeMeta c, {| meta := m; Spec := spec; ch_Status := status |}).

#[export] Instance ChannelCopies : Copies cell (ChannelRep M A C U) (TypeMeta * KafkaTopicChannel) := {|
  zero := mkChannelRep zero_TypeMeta zero zero zero;
  reads := reads_Channel;
  footprint h c := footprint h (rep_ObjectMeta c) ∪ footprint h (rep_Spec c) ∪
                   footprint h (rep_Status c);
  copy_into := KafkaTopicChannel_DeepCopyInto;
|}.

#[export] Instance SpecCopies_laws : CopiesLaws cell (SpecRep A C) KafkaTopicChannelSpec.
Proof.
  split; cbn [reads footprint copy_into SpecCopies]; unfold reads_Spec;
    intros h; [intros h'|..]; intros t v ([ss n] & Ha & ([sb d] & Hc & [= <-])%bind_Some)%bind_Some.
  - intros Hag.
    frame_part Ha Hag.
    frame_part Hc Hag.
    done.
  - apply footprint_allocated in Ha, Hc. set_solver.
  - unfold KafkaTopicChannelSpec_DeepCopyInto.
    copy_step Ha h1 a' K1. lift_reads Hc K1. copy_step Hc h2 c' K2.
    destruct (copied_both _ _ _ _ _ _ _ K1 K2) as [[? Hr1 ?] [? Hr2 ?]].
    split; simpl; [done|unfold reads_Spec; simpl; by rewrite Hr1, Hr2|set_solver].
Qed.

#[export] Instance StatusCopies_laws : CopiesLaws cell (StatusRep U) KafkaTopicChannelStatus.
Proof.
  split; cbn [reads footprint copy_into StatusCopies].
  - intros. by apply reads_frame.
  - intros. by eapply footprint_allocated.
  - intros h t v Hs. unfold KafkaTopicChannelStatus_DeepCopyInto.
    copy_step Hs h1 s' K. by destruct K.
Qed.

#[export] Instance ChannelCopies_laws :
  CopiesLaws cell (ChannelRep M A C U) (TypeMeta * KafkaTopicChannel).
Proof.
  split; cbn [reads footprint copy_into ChannelCopies]; unfold reads_Channel;
    intros h; [intros h'|..];
    intros t v (m & Hm & (sp & Hs & (st & Ht & [= <-])%bind_Some)%bind_Some)%bind_Some.
  - intros Hag.
    frame_part Hm Hag.
    frame_part Hs Hag.
    frame_part Ht Hag.
    done.
  - apply footprint_allocated in Hm, Hs, Ht. set_solver.
  - unfold KafkaTopicChannel_DeepCopyInto.
    change KafkaTopicChannelSpec_DeepCopyInto with (copy_into (Copies := SpecCopies)).
    change KafkaTopicChannelStatus_DeepCopyInto with (copy_into (Copies := StatusCopies)).
    copy_step Hm h1 m' K1. lift_reads Hs K1. lift_reads Ht K1.
    copy_step Hs h2 s' K2. lift_reads Ht K2. copy_step Ht h3 t' K3.
    destruct (copied_both _ _ _ _ _ _ _ K1 K2) as [K1' K2'].
    destruct (copied_both _ _ _ _ _ _ _ K1' K3) as [[? Hr1 ?] [? Hr3 ?]].
    destruct (copied_both _ _ _ _ _ _ _ K2' K3) as [[? Hr2 ?] _].
    split; cbn [reads footprint ChannelCopies fst snd rep_ObjectMeta rep_Spec rep_Status];
      [done| |set_solver].
    unfold reads_Channel; cbn [rep_ObjectMeta rep_Spec rep_Status rep_TypeMeta].
    by rewrite Hr1, Hr2, Hr3.
Qed.

(** *** Lists and pointers to the types of the file *)
Section pointers.
Context `{!Stores cell (ChannelRep M A C U), !Stores cell (list (ChannelRep M A C U))}.
Context `{!Stores cell (SpecRep A C), !Stores cell (StatusRep U), !Stores cell (ListRep L)}.

Definition KafkaTopicChannelList_DeepCopyInto h (in_ : ListRep L) : Heap cell * ListRep L :=
  let out := in_ in
  let out := mkListRep (rep_ListTypeMeta in_) (rep_ListMeta out) (rep_Items out) in
  let '(h, lm) := copy_into h (rep_ListMeta in_) in
  let out := mkListRep (rep_ListTypeMeta out) lm (rep_Items out) in
  let '(h, items) := copy_slice KafkaTopicChannel_DeepCopyInto h (rep_Items in_) in
  let out := mkListRep (rep_ListTypeMeta out) (rep_ListMeta out) items in
  (h, out).

#[local] Existing Instances SliceCopies SliceCopies_laws PtrCopies PtrCopies_laws.

Definition ItemsCopies : Copies cell (option Loc) (option (list (TypeMeta * KafkaTopicChannel))) :=
  SliceCopies (T := ChannelRep M A C U).

#[export] Instance ListCopies :
  Copies cell (ListRep L) (TypeMeta * LV * option (list (TypeMeta * KafkaTopicChannel))) := {|
  zero := mkListRep zero_TypeMeta zero None;
  reads h l := lm ← reads h (rep_ListMeta l);
               items ← reads (Copies := ItemsCopies) h (rep_Items l);
               Some (rep_ListTypeMeta l, lm, items);
  footprint h l := footprint h (rep_ListMeta l) ∪
                   footprint (Copies := ItemsCopies) h (rep_Items l);
  copy_into := KafkaTopicChannelList_DeepCopyInto;
|}.

#[export] Instance ListCopies_laws :
  CopiesLaws cell (ListRep L) (TypeMeta * LV * option (list (TypeMeta * KafkaTopicChannel))).
Proof.
  split; cbn [reads footprint copy_into ListCopies]; intros h; [intros h'|..];
    intros t v (m & Hm & (items & Hi & [= <-])%bind_Some)%bind_Some.
  - intros Hag.
    frame_part Hm Hag.
    frame_part Hi Hag.
    done.
  - apply footprint_allocated in Hm, Hi. set_solver.
  - unfold KafkaTopicChannelList_DeepCopyInto.
    change (copy_slice KafkaTopicChannel_DeepCopyInto) with (copy_into (Copies := ItemsCopies)).
    copy_step Hm h1 m' K1. lift_reads Hi K1. copy_step Hi h2 i' K2.
    destruct (copied_both _ _ _ _ _ _ _ K1 K2) as [[? Hr1 ?] [? Hr2 ?]].
    split; cbn [reads footprint ListCopies fst snd rep_ListMeta rep_Items rep_ListTypeMeta];
      [done| |set_solver].
    by rewrite Hr1, Hr2.
Qed.

Definition KafkaTopicChannel_DeepCopy : Heap cell → option Loc → Heap cell * option Loc :=
  DeepCopy KafkaTopicChannel_DeepCopyInto.
Definition KafkaTopicChannelSpec_DeepCopy : Heap cell → option Loc → Heap cell * option Loc :=
  DeepCopy KafkaTopicChannelSpec_DeepCopyInto.
Definition KafkaTopicChannelStatus_DeepCopy : Heap cell → option Loc → Heap cell * option Loc :=
  DeepCopy KafkaTopicChannelStatus_DeepCopyInto.
Definition KafkaTopicChannelList_DeepCopy : Heap cell → option Loc → Heap cell * option Loc :=
  DeepCopy KafkaTopicChannelList_DeepCopyInto.

(** A [runtime.Object]: the nil interface, or a pointer of one of the two types,
    which may itself be nil. *)
Inductive Object :=
  | nil_Object
  | Channel_Object (p : option Loc)
  | List_Object (p : option Loc).

Definition KafkaTopicChannel_DeepCopyObject h (in_ : option Loc) : Heap cell * Object :=
  let '(h, c) := KafkaTopicChannel_DeepCopy h in_ in
  match c with Some _ => (h, Channel_Object c) | None => (h, nil_Object) end.

Definition KafkaTopicChannelList_DeepCopyObject h (in_ : option Loc) : Heap cell * Object :=
  let '(h, c) := KafkaTopicChannelList_DeepCopy h in_ in
  match c with Some _ => (h, List_Object c) | None => (h, nil_Object) end.

(** ** Properties *)
Abbreviation ChannelPtr := (PtrCopies (T := ChannelRep M A C U)).
Abbreviation ListPtr := (PtrCopies (T := ListRep L)).

(** C30: [DeepCopyObject] of a nil channel is the nil interface (not an interface
    holding a nil pointer), without any effect.  Of a channel it is a channel with
    the same kind, metadata, spec and status in cells of its own: whatever is
    written through the copy, also to what is allocated later, the original
    (which the informer's cache shares among its readers) stands for what it
    did, and the copy survives every write through the original. *)
Theorem channel_copy_is_isolated h p tc :
  reads (Copies := ChannelPtr) h p = Some tc →
  let '(h', o) := KafkaTopicChannel_DeepCopyObject h p in
  match tc with
  | None => p = None ∧ h' = h ∧ o = nil_Object
  | Some _ => ∃ q, o = Channel_Object (Some q) ∧
      reads (Copies := ChannelPtr) h' p = Some tc ∧
      reads (Copies := ChannelPtr) h' (Some q) = Some tc ∧
      (∀ ls h'', rtc holder_step (footprint (Copies := ChannelPtr) h' (Some q), h') (ls, h'') →
         reads (Copies := ChannelPtr) h'' p = Some tc) ∧
      (∀ ls h'', rtc holder_step (footprint (Copies := ChannelPtr) h' p, h') (ls, h'') →
         reads (Copies := ChannelPtr) h'' (Some q) = Some tc)
  end.
Proof.
  intros Hr. pose proof (DeepCopy_isolated _ _ _ Hr) as K.
  unfold KafkaTopicChannel_DeepCopyObject, KafkaTopicChannel_DeepCopy.
  change (copy_into (Copies := ChannelCopies)) with KafkaTopicChannel_DeepCopyInto in K.
  destruct (DeepCopy _ h p) as [h' [q|]].
  - destruct K as ([? ->] & K). by exists q.
  - by destruct K as (-> & -> & ->).
Qed.

(** the same of a list of channels, with all its items: no item of the copy
    shares a cell with an item of the list. *)
Theorem list_copy_is_isolated h p tc :
  reads (Copies := ListPtr) h p = Some tc →
  let '(h', o) := KafkaTopicChannelList_DeepCopyObject h p in
  match tc with
  | None => p = None ∧ h' = h ∧ o = nil_Object
  | Some _ => ∃ q, o = List_Object (Some q) ∧
      reads (Copies := ListPtr) h' p = Some tc ∧
      reads (Copies := ListPtr) h' (Some q) = Some tc ∧
      (∀ ls h'', rtc holder_step (footprint (Copies := ListPtr) h' (Some q), h') (ls, h'') →
         reads (Copies := ListPtr) h'' p = Some tc) ∧
      (∀ ls h'', rtc holder_step (footprint (Copies := ListPtr) h' p, h') (ls, h'') →
         reads (Copies := ListPtr) h'' (Some q) = Some tc)
  end.
Proof.
  intros Hr. pose proof (DeepCopy_isolated _ _ _ Hr) as K.
  unfold KafkaTopicChannelList_DeepCopyObject, KafkaTopicChannelList_DeepCopy.
  change (copy_into (Copies := ListCopies)) with KafkaTopicChannelList_DeepCopyInto in K.
  destruct (DeepCopy _ h p) as [h' [q|]].
  - destruct K as ([? ->] & K). by exists q.
  - by destruct K as (-> & -> & ->).
Qed.
End pointers.
End generated.

(** ** An instance

    Every library part is a struct whose contents sit behind one reference. *)
Section boxed.
Context {cell V : Type} `{!Stores cell V}.

Definition BoxedCopies : Copies cell Loc V := {|
  zero := mkLoc 1;
  reads h l := load h l;
  footprint h l := {[l]};
  copy_into h l := match load (A := V) h l with None => (h, l) | Some v => alloc h v end;
|}.

Lemma BoxedCopies_laws : @CopiesLaws cell Loc V BoxedCopies.
Proof.
  split; simpl; intros h.
  - intros h' t v Hr Hag. by rewrite (load_agree h h' t) by (apply Hag; set_solver).
  - intros t v ?%load_allocated. set_solver.
  - intros t v ->. pose proof (alloc_fresh h v) as Hf. unfold alloc in *. simpl in *.
    split; simpl; [by apply store_grows|apply load_store|set_solver].
Qed.
End boxed.

Inductive DemoCell :=
  | CellMeta (m : ObjectMeta) | CellAuth (a : AuthValue) | CellChannelable (c : ChannelableValue)
  | CellStatus (s : KafkaTopicChannelStatus)
  | CellChannel (c : ChannelRep Loc Loc Loc Loc) | CellItems (cs : list (ChannelRep Loc Loc Loc Loc))
  | CellList (l : ListRep ()).

Program Instance DemoCell_meta : Stores DemoCell ObjectMeta :=
  {| put := CellMeta; get c := match c with CellMeta x => Some x | _ => None end |}.
Solve All Obligations with done.
Program Instance DemoCell_auth : Stores DemoCell AuthValue :=
  {| put := CellAuth; get c := match c with CellAuth x => Some x | _ => None end |}.
Solve All Obligations with done.
Program Instance DemoCell_channelable : Stores DemoCell ChannelableValue :=
  {| put := CellChannelable; get c := match c with CellChannelable x => Some x | _ => None end |}.
Solve All Obligations with done.
Program Instance DemoCell_status : Stores DemoCell KafkaTopicChannelStatus :=
  {| put := CellStatus; get c := match c with CellStatus x => Some x | _ => None end |}.
Solve All Obligations with done.
Program Instance DemoCell_channel : Stores DemoCell (ChannelRep Loc Loc Loc Loc) :=
  {| put := CellChannel; get c := match c with CellChannel x => Some x | _ => None end |}.
Solve All Obligations with done.
Program Instance DemoCell_items : Stores DemoCell (list (ChannelRep Loc Loc Loc Loc)) :=
  {| put := CellItems; get c := match c with CellItems x => Some x | _ => None end |}.
Solve All Obligations with done.
Program Instance DemoCell_list : Stores DemoCell (ListRep ()) :=
  {| put := CellList; get c := match c with CellList x => Some x | _ => None end |}.
Solve All Obligations with done.

Section demo.
#[local] Existing Instances BoxedCopies BoxedCopies_laws.
#[local] Instance unit_copies : Copies DemoCell () () := FlatCopies () ().
#[local] Instance unit_copies_laws : CopiesLaws DemoCell () () := FlatCopies_laws () ().

Definition demo_meta : ObjectMeta := {| Name := "c"; Namespace := "ns"; UID := "u";
  ResourceVersion := "1"; Generation := 1; DeletionTimestamp := None; Labels := None;
  Annotations := Some {["k" := "v"]}; OwnerReferences := []; Finalizers := [] |}.
Definition demo_net : KafkaNetSpec := mkNet (mkSASL false None None None) (mkTLS false None None None).
Definition demo_rep : ChannelRep Loc Loc Loc Loc :=
  mkChannelRep (mkTypeMeta "KafkaTopicChannel" "messaging.optum.dev/v1alpha1") (mkLoc 2)
    (mkSpecRep 3 1 (mkLoc 3) "t" (mkLoc 4)) (mkStatusRep (mkLoc 5)).
Definition demo_list : ListRep () := mkListRep zero_TypeMeta () (Some (mkLoc 7)).
Definition demo_heap : Heap DemoCell :=
  {[ mkLoc 1 := CellChannel demo_rep; mkLoc 2 := CellMeta demo_meta;
     mkLoc 3 := CellAuth (["kafka:9092"], demo_net); mkLoc 4 := CellChannelable ([], None);
     mkLoc 5 := CellStatus (mkStatus 0 [] None []); mkLoc 6 := CellList demo_list;
     mkLoc 7 := CellItems [demo_rep; demo_rep] ]}.
Definition demo_value : TypeMeta * KafkaTopicChannel :=
  (mkTypeMeta "KafkaTopicChannel" "messaging.optum.dev/v1alpha1",
   {| meta := demo_meta;
      Spec := mkSpec 3 1 ["kafka:9092"] demo_net "t" [] None;
      ch_Status := mkStatus 0 [] None [] |}).

(** The copy of the channel is at a new location, and an annotation set through
    it is not seen through the original. *)
Example copy_annotation :
  let '(h, o) := KafkaTopicChannel_DeepCopyObject demo_heap (Some (mkLoc 1)) in
  match o with
  | Channel_Object (Some q) => q ≠ mkLoc 1 ∧
      match load (A := ChannelRep Loc Loc Loc Loc) h q with
      | Some c => rep_ObjectMeta c ≠ mkLoc 2
      | None => False
      end
  | _ => False
  end.
Proof. vm_compute. done. Qed.

Lemma channel_copy_is_isolated_witness :
  ∃ q, (KafkaTopicChannel_DeepCopyObject demo_heap (Some (mkLoc 1))).2 = Channel_Object (Some q).
Proof.
  pose proof (channel_copy_is_isolated demo_heap (Some (mkLoc 1)) (Some demo_value)) as H.
  specialize (H ltac:(vm_compute; reflexivity)).
  destruct (KafkaTopicChannel_DeepCopyObject demo_heap (Some (mkLoc 1))) as [h' o].
  destruct H as (q & Ho & _). exists q. exact Ho.
Defined.

Lemma list_copy_is_isolated_witness :
  ∃ q, (KafkaTopicChannelList_DeepCopyObject demo_heap (Some (mkLoc 6))).2 = List_Object (Some q).
Proof.
  pose proof (list_copy_is_isolated demo_heap (Some (mkLoc 6))
    (Some (zero_TypeMeta, (), Some [demo_value; demo_value]))) as H.
  specialize (H ltac:(vm_compute; reflexivity)).
  destruct (KafkaTopicChannelList_DeepCopyObject demo_heap (Some (mkLoc 6))) as [h' o].
  destruct H as (q & Ho & _). exists q. exact Ho.
Defined.
End demo.
