(* ===== verification/Sender.v ===== *)
(** * Sender: sending one event over HTTP with retries

    Models [vendor/knative.dev/eventing/pkg/kncloudevents/message_sender.go] and
    [utils.go], [PassThroughHeaders] of [eventing/pkg/utils/headers.go] and the
    retry loop of [hashicorp/go-retryablehttp] that [SendWithRetries] runs.

    The network is a parameter (class [HttpClient]): the answer to the [n]-th
    request may depend on [n] and on the request.  What the program does to the
    network is the state [Net]: the requests sent, the pauses made between them
    and the response bodies closed, each in order.  The loop of the retrying
    client pauses under [context.Background()], which is never done. *)
From S2P Require Import Prelude GoStrings ApiTypes.
Local Open Scope Z_scope.

(** ** Retry configuration *)

(** [CheckRetry] and [Backoff] are closures in the code; the ones the program
    builds are kept as data, with the captured delay in nanoseconds. *)
Inductive CheckRetryPolicy := NeverRetry | RetryIfGreaterThan300.
#[export] Instance CheckRetryPolicy_eq_dec : EqDecision CheckRetryPolicy.
Proof. solve_decision. Defined.

Inductive Backoff :=
  | NoBackoff
  | ExponentialBackoff (delay : Z)
  | LinearBackoff (delay : Z).
#[export] Instance Backoff_eq_dec : EqDecision Backoff.
Proof. solve_decision. Defined.

Record RetryConfig := mkRetryConfig {
  RetryMax : Z;
  rc_BackoffDelay : option string;
  rc_BackoffPolicy : option string;
  rc_CheckRetry : CheckRetryPolicy;
  rc_Backoff : Backoff;
}.
#[export] Instance RetryConfig_eq_dec : EqDecision RetryConfig.
Proof. solve_decision. Defined.

Definition noRetries : RetryConfig := mkRetryConfig 0 None None NeverRetry NoBackoff.
Definition NoRetries : RetryConfig := noRetries.

(** [period.Parse] followed by [Duration], in nanoseconds, or the parse error. *)
Class PeriodParser := { parse_period : string → string + Z }.

(** [switch *spec.BackoffPolicy]: an unknown policy keeps the default. *)
Definition backoff_of_policy (policy : string) (delayDuration : Z) : Backoff :=
  if decide (policy = "exponential") then ExponentialBackoff delayDuration
  else if decide (policy = "linear") then LinearBackoff delayDuration
  else rc_Backoff NoRetries.

Definition RetryConfigFromDeliverySpec `{PeriodParser} (spec : DeliverySpec) :
    res string RetryConfig :=
  let retryMax := match Retry spec with Some r => r | None => RetryMax NoRetries end in
  let cfg := mkRetryConfig retryMax (BackoffDelay spec) (BackoffPolicy spec) RetryIfGreaterThan300 in
  match BackoffPolicy spec, BackoffDelay spec with
  | Some policy, Some d =>
      match parse_period d with
      | inl err => Err ("failed to parse Spec.BackoffDelay: " +:+ err)
      | inr delayDuration => Ok (cfg (backoff_of_policy policy delayDuration))
      end
  | _, _ => Ok (cfg (rc_Backoff NoRetries))
  end.

(** ** Messages, requests and responses *)
Inductive Encoding := EncodingBinary | EncodingStructured | EncodingEvent | EncodingUnknown.
#[export] Instance Encoding_eq_dec : EqDecision Encoding.
Proof. solve_decision. Defined.

(** A [binding.Message]: its encoding, the bytes it holds, and the response
    (by index) whose body it reads, if it does. *)
Record Message := mkMessage {
  ReadEncoding : Encoding;
  m_payload : string;
  m_body : option nat;
}.
#[export] Instance Message_eq_dec : EqDecision Message.
Proof. solve_decision. Defined.

Abbreviation Headers := (gmap string (list string)).

(** A transformer [AddExtension key value]. *)
Abbreviation Extension := (string * string)%type.

Record Request := mkRequest {
  rq_url : URL;
  rq_message : Message;
  rq_extensions : list Extension;
  rq_header : Headers;
}.
#[export] Instance Request_eq_dec : EqDecision Request.
Proof. solve_decision. Defined.

(** [rs_read] is the outcome of one [Read] of the body. *)
Record Response := mkResponse {
  StatusCode : Z;
  rs_header : Headers;
  rs_encoding : Encoding;
  rs_payload : string;
  rs_read : string + string;
}.
#[export] Instance Response_eq_dec : EqDecision Response.
Proof. solve_decision. Defined.

(** The HTTP client and the CloudEvents encoder. [check_url] is the error of
    [NewRequestWithContext], [write_request] that of [http.WriteRequest] or the
    headers it sets, [from_request] the error of [retryablehttp.FromRequest],
    [answer n] the outcome of the [n]-th request, and [exp2_overflow n] the
    conversion to [int64] of a [2 ^ n] beyond its range. *)
Class HttpClient := {
  check_url : URL → option string;
  write_request : Message → list Extension → string + Headers;
  from_request : Request → option string;
  answer : nat → Request → string + Response;
  exp2_overflow : Z → Z;
}.

Record Net := mkNet {
  sent : list Request;
  waits : list Z;
  closed : list nat;
}.
#[export] Instance Net_eq_dec : EqDecision Net.
Proof. solve_decision. Defined.

(** A response with its index. *)
Abbreviation Answer := (string + (nat * Response))%type.

Section sender.
Context `{HttpClient}.
Implicit Types (st : Net) (req : Request) (rc : RetryConfig).

Definition sends req st : Net := mkNet (sent st ++ [req]) (waits st) (closed st).
Definition waits_for (d : Z) st : Net := mkNet (sent st) (waits st ++ [d]) (closed st).
Definition closes (i : nat) st : Net := mkNet (sent st) (waits st) (closed st ++ [i]).

(** One exchange of [http.Client.Do], which closes the body of the request, whatever the answer is.  The
    retrying client gives each of its attempts a reader of its own over the bytes of the body, so that nothing
    else is closed; [Send] passes on the body of the request, which is that of the response its
    message reads. *)
Definition exchange req st : Answer * Net :=
  let n := length (sent st) in
  (match answer n req with inl e => inl e | inr r => inr (n, r) end, sends req st).

Definition close_body req st : Net :=
  match m_body (rq_message req) with None => st | Some i => closes i st end.

Definition Send req st : Answer * Net :=
  let (a, st) := exchange req st in (a, close_body req st).

(** [RetryIfGreaterThan300], the decision only; the error it returns is [err]. *)
Definition retry_if_300 (a : Answer) : bool :=
  match a with
  | inl _ => true
  | inr (_, response) => negb (bool_decide (StatusCode response < 300 ∧ StatusCode response ≠ -1))
  end.

Definition shouldRetry (p : CheckRetryPolicy) (a : Answer) : bool :=
  match p with NeverRetry => false | RetryIfGreaterThan300 => retry_if_300 a end.

(** [time.Duration(math.Exp2(float64(n)))]. *)
Definition exp2_duration (n : Z) : Z := if decide (n < 63) then 2 ^ n else exp2_overflow n.

Definition backoff (b : Backoff) (attemptNum : Z) : Z :=
  match b with
  | NoBackoff => 0
  | ExponentialBackoff delay => wrap64 (delay * exp2_duration attemptNum)
  | LinearBackoff delay => wrap64 (delay * attemptNum)
  end.

Definition drainBody (a : Answer) st : Net :=
  match a with inl _ => st | inr (i, _) => closes i st end.

(** The loop of [retryablehttp.Client.Do]: [i] retries were made and [remain]
    is [max 0 (RetryMax - i)].  With the [ErrorHandler] of [SendWithRetries] and
    [CheckRetry] returning the error it was given, every exit of the loop hands
    the last answer to the caller. *)
Fixpoint Do_loop (remain : nat) (i : Z) rc req st : Answer * Net :=
  let (a, st) := exchange req st in
  if shouldRetry (rc_CheckRetry rc) a then
    match remain with
    | O => (a, st)
    | S remain => Do_loop remain (i + 1) rc req (waits_for (backoff (rc_Backoff rc) i) (drainBody a st))
    end
  else (a, st).

Definition SendWithRetries req (config : option RetryConfig) st : Answer * Net :=
  match config with
  | None => Send req st
  | Some config =>
      match from_request req with
      | Some err => (inl err, st)
      | None => Do_loop (Z.to_nat (RetryMax config)) 0 config req st
      end
  end.

(** ** Headers *)
Definition forwardHeaders : list string := ["x-request-id"].
Definition forwardPrefixes : list string := ["knative-"].

Definition forwarded (n : string) : bool :=
  let lower := ToLower n in
  bool_decide (lower ∈ forwardHeaders) || existsb (HasPrefix lower) forwardPrefixes.

Definition PassThroughHeaders (headers : Headers) : Headers :=
  filter (λ kv, forwarded kv.1 = true) headers.

Definition WriteHTTPRequestWithAdditionalHeaders (message : Message) (url : URL)
    (additionalHeaders : Headers) (transformers : list Extension) : string + Request :=
  match write_request message transformers with
  | inl err => inl err
  | inr h => inr (mkRequest url message transformers (additionalHeaders ∪ h))
  end.
End sender.

(** ** The retry loop, in closed form *)
Section retry_spec.
Context `{HttpClient}.
Implicit Types (st : Net) (req : Request) (rc : RetryConfig).

(** The [n]-th answer, tagged with its index. *)
Definition answer_at (n : nat) req : Answer :=
  match answer n req with inl e => inl e | inr r => inr (n, r) end.

(** The responses among the [k] answers from the [n]-th on. *)
Definition responses_from (n k : nat) req : list nat :=
  omap (λ j, match answer j req with inl _ => None | inr _ => Some j end) (seq n k).

(** The network after [S k] attempts, all but the last one retried. *)
Definition after_attempts (k : nat) (i : Z) (b : Backoff) req st : Net :=
  mkNet (sent st ++ replicate (S k) req)
        (waits st ++ (backoff b <$> seqZ i (Z.of_nat k)))
        (closed st ++ responses_from (length (sent st)) k req).

(** [k] is the number of retries made when at most [remain] are allowed. *)
Definition retries_made (p : CheckRetryPolicy) (remain k : nat) req st : Prop :=
  let n := length (sent st) in
  (k ≤ remain)%nat ∧
  (∀ j, (j < k)%nat → shouldRetry p (answer_at (n + j) req) = true) ∧
  (k = remain ∨ shouldRetry p (answer_at (n + k) req) = false).

Lemma exchange_eq req st : exchange req st = (answer_at (length (sent st)) req, sends req st).
Proof. done. Qed.

Lemma sent_drainBody a st : sent (drainBody a st) = sent st.
Proof. by destruct a as [|[]]. Qed.

Lemma after_attempts_0 i b req st : after_attempts 0 i b req st = sends req st.
Proof. unfold after_attempts, sends, responses_from. simpl. by rewrite !app_nil_r. Qed.

Lemma after_attempts_S k i b req st :
  after_attempts k (i + 1) b req
    (waits_for (backoff b i) (drainBody (answer_at (length (sent st)) req) (sends req st))) =
  after_attempts (S k) i b req st.
Proof.
  unfold after_attempts, responses_from, answer_at, drainBody, waits_for, sends, closes.
  rewrite (seqZ_cons i (Z.of_nat (S k))) by lia.
  replace (Z.succ i) with (i + 1) by lia. replace (Z.pred (Z.of_nat (S k))) with (Z.of_nat k) by lia.
  change (seq (length (sent st)) (S k)) with (length (sent st) :: seq (S (length (sent st))) k).
  cbn [omap list_omap].
  destruct (answer (length (sent st)) req) eqn:E; simpl;
    rewrite ?E, length_app, Nat.add_1_r, <-!app_assoc; done.
Qed.

Lemma no_retries_made p remain req st :
  remain = 0%nat ∨ shouldRetry p (answer_at (length (sent st)) req) = false →
  retries_made p remain 0 req st.
Proof.
  intros Hstop. split; [lia|split; [lia|]]. rewrite Nat.add_0_r.
  destruct Hstop as [->|?]; auto.
Qed.

Lemma Do_loop_spec rc remain : ∀ i req st,
  ∃ k, retries_made (rc_CheckRetry rc) remain k req st ∧
       Do_loop remain i rc req st =
         (answer_at (length (sent st) + k) req, after_attempts k i (rc_Backoff rc) req st).
Proof.
  induction remain as [|remain IH]; intros i req st; cbn [Do_loop]; rewrite exchange_eq;
    destruct (shouldRetry _ _) eqn:E.
  - exists 0%nat. rewrite after_attempts_0, Nat.add_0_r. split; [apply no_retries_made; auto|done].
  - exists 0%nat. rewrite after_attempts_0, Nat.add_0_r. split; [apply no_retries_made; auto|done].
  - set (st' := waits_for _ _).
    assert (Hlen : length (sent st') = S (length (sent st))).
    { unfold st'. cbn [sent waits_for]. rewrite sent_drainBody. simpl. rewrite length_app. simpl. lia. }
    destruct (IH (i + 1) req st') as (k & (Hk & Hretry & Hlast) & Heq).
    exists (S k). rewrite Heq. unfold st' at 2. rewrite after_attempts_S.
    rewrite Hlen in Hretry, Hlast. rewrite Hlen.
    replace (length (sent st) + S k)%nat with (S (length (sent st)) + k)%nat by lia.
    split; [|done]. split_and!; [lia| |destruct Hlast as [->|?]; [by left|right]].
    + intros [|j] Hj; [by rewrite Nat.add_0_r|].
      replace (length (sent st) + S j)%nat with (S (length (sent st)) + j)%nat by lia.
      apply Hretry. lia.
    + by replace (length (sent st) + S k)%nat with (S (length (sent st)) + k)%nat by lia.
  - exists 0%nat. rewrite after_attempts_0, Nat.add_0_r. split; [apply no_retries_made; auto|done].
Qed.
End retry_spec.

(** ** Pauses of a delivery specification *)

(** The pause the API documents before retry [j + 1]: [delay * 2^j] for an
    exponential policy, [delay * j] for a linear one, none for another one. *)
Definition documented_pause (policy : string) (delay j : Z) : Z :=
  if decide (policy = "exponential") then delay * 2 ^ j
  else if decide (policy = "linear") then delay * j
  else 0.

Lemma backoff_documented `{HttpClient} policy delay r j :
  0 ≤ delay → 0 ≤ r < 63 → delay * 2 ^ r < 2 ^ 63 → 0 ≤ j < r →
  backoff (backoff_of_policy policy delay) j = documented_pause policy delay j.
Proof.
  intros Hd Hr Hmax Hj. unfold backoff_of_policy, documented_pause.
  assert (2 ^ j ≤ 2 ^ r) by (apply Z.pow_le_mono_r; lia).
  assert (j < 2 ^ j) by (apply Z.pow_gt_lin_r; lia).
  case_decide; simpl; [|case_decide; simpl; [|done]].
  - unfold exp2_duration. rewrite decide_True by lia. apply wrap64_id. nia.
  - apply wrap64_id. nia.
Qed.

Lemma retries_made_all `{HttpClient} remain k req st :
  (∀ n, retry_if_300 (answer_at n req) = true) →
  retries_made RetryIfGreaterThan300 remain k req st → k = remain.
Proof. intros Hall (_ & _ & [?|Hk]); [done|]. simpl in Hk. by rewrite Hall in Hk. Qed.

(** ** Properties *)

(** C23: sending with a retry configuration makes [k] retries, where [k] is the
    first attempt the policy accepts or the configured maximum; it returns the
    last answer, pauses between attempts as the backoff says and closes the body
    of every response it gives up. *)
Theorem SendWithRetries_spec `{HttpClient} (rc : RetryConfig) (req : Request) (st : Net) :
  from_request req = None →
  ∃ k, retries_made (rc_CheckRetry rc) (Z.to_nat (RetryMax rc)) k req st ∧
       SendWithRetries req (Some rc) st =
         (answer_at (length (sent st) + k) req, after_attempts k 0 (rc_Backoff rc) req st).
Proof. intros Hreq. simpl. rewrite Hreq. apply Do_loop_spec. Qed.

(** C40: a delivery specification with [r] retries whose requests all fail sends
    the request exactly [r + 1] times, with the documented pauses in between, as
    long as the longest of them fits in an [int64]. *)
Theorem delivery_retry_schedule `{PeriodParser, HttpClient} (spec : DeliverySpec)
    (rc : RetryConfig) (r delay : Z) (policy d : string) (req : Request) (st : Net) :
  Retry spec = Some r → BackoffPolicy spec = Some policy → BackoffDelay spec = Some d →
  parse_period d = inr delay → 0 ≤ delay → 0 ≤ r < 63 → delay * 2 ^ r < 2 ^ 63 →
  RetryConfigFromDeliverySpec spec = Ok rc →
  from_request req = None →
  (∀ n, retry_if_300 (answer_at n req) = true) →
  sent (SendWithRetries req (Some rc) st).2 = sent st ++ replicate (S (Z.to_nat r)) req ∧
  waits (SendWithRetries req (Some rc) st).2 =
    waits st ++ (documented_pause policy delay <$> seqZ 0 r).
Proof.
  intros Hr Hp Hd Hparse Hdelay Hrange Hmax Hrc Hreq Hall.
  unfold RetryConfigFromDeliverySpec in Hrc. rewrite Hr, Hp, Hd, Hparse in Hrc. injection Hrc as <-.
  simpl. rewrite Hreq.
  destruct (Do_loop_spec (mkRetryConfig r (Some d) (Some policy) RetryIfGreaterThan300
    (backoff_of_policy policy delay)) (Z.to_nat r) 0 req st) as (k & Hk & ->).
  apply retries_made_all in Hk as ->; [|done]. simpl. split; [done|].
  rewrite Z2Nat.id by lia. f_equal. apply list_fmap_ext. intros i j Hj.
  apply lookup_seqZ in Hj as [-> ?]. eapply backoff_documented; eauto; lia.
Qed.

(** A network whose first two answers are failures, and a parser of one delay. *)
Definition demo_client : HttpClient := {|
  check_url _ := None;
  write_request _ _ := inr ∅;
  from_request _ := None;
  answer n _ := if decide (n = 0)%nat then inl "connection refused"
                else if decide (n = 1)%nat then inr (mkResponse 503 ∅ EncodingUnknown "" (inr "busy"))
                else inr (mkResponse 202 ∅ EncodingUnknown "" (inr ""));
  exp2_overflow _ := 0;
|}.
Definition down_client : HttpClient := {|
  check_url _ := None;
  write_request _ _ := inr ∅;
  from_request _ := None;
  answer _ _ := inl "connection refused";
  exp2_overflow _ := 0;
|}.
Definition demo_parser : PeriodParser := {|
  parse_period s := if decide (s = "PT1S") then inr 1000000000 else inl "not a period";
|}.
Definition demo_request : Request :=
  mkRequest (http_url "sub.ns.svc") (mkMessage EncodingBinary "e1" None) [] ∅.

Lemma SendWithRetries_spec_witness :
  let rc := mkRetryConfig 5 None None RetryIfGreaterThan300 (LinearBackoff 10) in
  ∃ k, retries_made (H:=demo_client) RetryIfGreaterThan300 5 k demo_request (mkNet [] [] []) ∧
       SendWithRetries (H:=demo_client) demo_request (Some rc) (mkNet [] [] []) =
         (answer_at (H:=demo_client) k demo_request,
          after_attempts (H:=demo_client) k 0 (LinearBackoff 10) demo_request (mkNet [] [] [])).
Proof. intros rc. exact (SendWithRetries_spec (H:=demo_client) rc demo_request (mkNet [] [] []) eq_refl). Defined.

Lemma delivery_retry_schedule_witness :
  let spec := mkDeliverySpec None (Some 3) (Some "exponential") (Some "PT1S") in
  ∃ rc, RetryConfigFromDeliverySpec (H:=demo_parser) spec = Ok rc ∧
  let st' := (SendWithRetries (H:=down_client) demo_request (Some rc) (mkNet [] [] [])).2 in
  length (sent st') = 4%nat ∧ waits st' = [1000000000; 2000000000; 4000000000].
Proof.
  intros spec. eexists. split; [reflexivity|]. intros st'.
  destruct (delivery_retry_schedule (H:=demo_parser) (H0:=down_client) spec _ 3 1000000000
    "exponential" "PT1S" demo_request (mkNet [] [] [])
    eq_refl eq_refl eq_refl eq_refl ltac:(lia) ltac:(lia) ltac:(lia) eq_refl eq_refl
    (λ n, eq_refl)) as [Hs Hw].
  unfold st'. split; [by rewrite Hs|by rewrite Hw].
Defined.
