(* ===== verification/MessageDispatcher.v ===== *)
(** * MessageDispatcher: destination, reply and dead letter of one event

    Models [vendor/knative.dev/eventing/pkg/channel/message_dispatcher.go] and
    [attributes/knative_error.go]: an event goes to the destination, the
    response event to the reply, and whatever cannot be delivered to the dead
    letter sink.  Error values are data ([dispatch_error]) instead of their
    rendering; [Finish] of a message closes the response body it reads. *)
From S2P Require Import Prelude GoStrings ApiTypes Sender.
Local Open Scope Z_scope.

Definition KnativeErrorCodeExtensionKey : string := "knativeerrorcode".
Definition KnativeErrorDataExtensionKey : string := "knativeerrordata".
Definition KnativeErrorDataExtensionMaxLength : nat := 1024.

Definition KnativeErrorTransformers (code : Z) (data : string) : list Extension :=
  let data := if bool_decide (KnativeErrorDataExtensionMaxLength < String.length data)%nat
              then String.substring 0 KnativeErrorDataExtensionMaxLength data else data in
  [(KnativeErrorCodeExtensionKey, itoa code); (KnativeErrorDataExtensionKey, data)].

(** [DispatchExecutionInfo], without the duration. *)
Record DispatchExecutionInfo := mkExecInfo { ResponseCode : Z; ResponseBody : string }.
#[export] Instance DispatchExecutionInfo_eq_dec : EqDecision DispatchExecutionInfo.
Proof. solve_decision. Defined.

Definition NoResponse : Z := -1.
Definition StatusInternalServerError : Z := 500.

(** The errors [executeRequest] and the dispatcher return. *)
Inductive request_error :=
  | BadRequest (err : string)
  | SendFailed (err : string)
  | UnexpectedStatus (code : Z).
Inductive dispatch_error :=
  | DestinationFailed (destination : URL) (err : request_error)
  | DestinationAndDeadLetterFailed (destination : URL) (err : request_error)
      (deadLetter : URL) (deadLetterErr : request_error)
  | ReplyFailed (reply : URL) (err : request_error)
  | ReplyAndDeadLetterFailed (reply : URL) (err : request_error)
      (deadLetter : URL) (deadLetterErr : request_error).
#[export] Instance request_error_eq_dec : EqDecision request_error.
Proof. solve_decision. Defined.
#[export] Instance dispatch_error_eq_dec : EqDecision dispatch_error.
Proof. solve_decision. Defined.

(** [isFailure]. *)
Definition isFailure (statusCode : Z) : bool := bool_decide (statusCode < 200 ∨ 300 ≤ statusCode).

Definition supportedSchemes : list string := ["http"; "https"].

Definition sanitizeURL (u : option URL) : option URL :=
  match u with
  | None => None
  | Some u =>
      if bool_decide (Scheme u ∈ supportedSchemes) then Some u
      else Some {| Scheme := "http"; Host := Host u; Path := "/"; RawQuery := ""; Fragment := "" |}
  end.

(** What [executeRequest] returns besides the context. *)
Record Outcome := mkOutcome {
  o_message : option Message;
  o_headers : Headers;
  o_info : DispatchExecutionInfo;
  o_err : option request_error;
}.

Section dispatcher.
Context `{HttpClient}.
Implicit Types (st : Net) (m : Message) (h : Headers).

Definition dispatchExecutionInfoTransformers (info : DispatchExecutionInfo) : list Extension :=
  KnativeErrorTransformers (ResponseCode info) (ResponseBody info).

(** The body excerpt kept for a failure: one read of at most 1024 bytes. *)
Definition failure_body (r : Response) : string :=
  match rs_read r with
  | inl err => "dispatch error: " +:+ err
  | inr data => String.substring 0 KnativeErrorDataExtensionMaxLength data
  end.

Definition executeRequest (url : URL) m (additionalHeaders : Headers)
    (configs : option RetryConfig) (transformers : list Extension) st : Outcome * Net :=
  let fresh := mkExecInfo NoResponse "" in
  match check_url url with
  | Some err => (mkOutcome None ∅ fresh (Some (BadRequest err)), st)
  | None =>
  match WriteHTTPRequestWithAdditionalHeaders m url additionalHeaders transformers with
  | inl err => (mkOutcome None ∅ fresh (Some (BadRequest err)), st)
  | inr req =>
      let (response, st) := SendWithRetries req configs st in
      match response with
      | inl err =>
          (mkOutcome None ∅ (mkExecInfo StatusInternalServerError ("dispatch error: " +:+ err))
             (Some (SendFailed err)), st)
      | inr (i, response) =>
          if isFailure (StatusCode response) then
            (mkOutcome None ∅ (mkExecInfo (StatusCode response) (failure_body response))
               (Some (UnexpectedStatus (StatusCode response))), closes i st)
          else if decide (rs_encoding response = EncodingUnknown) then
            (mkOutcome None ∅ (mkExecInfo (StatusCode response) "") None, closes i st)
          else
            (mkOutcome (Some (mkMessage (rs_encoding response) (rs_payload response) (Some i)))
               (PassThroughHeaders (rs_header response))
               (mkExecInfo (StatusCode response) "") None, st)
      end
  end
  end.

(** [msg.Finish(nil)] for the messages to finish, in order. *)
Definition Finish m st : Net :=
  match m_body m with None => st | Some i => closes i st end.
Definition finish_all (ms : list Message) st : Net := foldl (λ st m, Finish m st) st ms.

(** Send the original message to the dead letter sink with the knative error
    extensions; both failures are reported when it fails too. *)
Definition to_deadLetter (deadLetter : option URL) (failed : request_error → dispatch_error)
    (both : request_error → URL → request_error → dispatch_error)
    m h (configs : option RetryConfig) (info : DispatchExecutionInfo) (err : request_error)
    (messagesToFinish : list Message) st :
    (DispatchExecutionInfo * option dispatch_error) * Net :=
  match deadLetter with
  | None => ((info, Some (failed err)), finish_all messagesToFinish st)
  | Some dl =>
      let (o, st) := executeRequest dl m h configs (dispatchExecutionInfoTransformers info) st in
      match o_err o with
      | Some dlErr => ((o_info o, Some (both err dl dlErr)), finish_all messagesToFinish st)
      | None => ((o_info o, None), finish_all (messagesToFinish ++ option_list (o_message o)) st)
      end
  end.

(** Forward the response (or the original message, without destination). *)
Definition to_reply (reply deadLetter : option URL) m (responseMessage : option Message)
    (responseHeaders : Headers) (configs : option RetryConfig)
    (info : option DispatchExecutionInfo) (messagesToFinish : list Message) st :
    (option DispatchExecutionInfo * option dispatch_error) * Net :=
  match responseMessage with
  | None => ((info, None), finish_all messagesToFinish st)
  | Some responseMessage =>
      let messagesToFinish := messagesToFinish ++ [responseMessage] in
      match reply with
      | None => ((info, None), finish_all messagesToFinish st)
      | Some reply =>
          let (o, st) := executeRequest reply responseMessage responseHeaders configs [] st in
          match o_err o with
          | Some err =>
              let '((i, e), st) :=
                to_deadLetter deadLetter (ReplyFailed reply) (ReplyAndDeadLetterFailed reply)
                  m responseHeaders configs (o_info o) err messagesToFinish st in
              ((Some i, e), st)
          | None =>
              ((Some (o_info o), None), finish_all (messagesToFinish ++ option_list (o_message o)) st)
          end
      end
  end.

Definition DispatchMessageWithRetries m (additionalHeaders : Headers)
    (destination reply deadLetter : option URL) (retriesConfig : option RetryConfig) st :
    (option DispatchExecutionInfo * option dispatch_error) * Net :=
  let destination := sanitizeURL destination in
  let reply := sanitizeURL reply in
  let deadLetter := sanitizeURL deadLetter in
  match destination with
  | Some destination =>
      let (o, st) := executeRequest destination m additionalHeaders retriesConfig [] st in
      match o_err o with
      | Some err =>
          let '((i, e), st) :=
            to_deadLetter deadLetter (DestinationFailed destination)
              (DestinationAndDeadLetterFailed destination)
              m additionalHeaders retriesConfig (o_info o) err [m] st in
          ((Some i, e), st)
      | None =>
          to_reply reply deadLetter m (o_message o) (o_headers o) retriesConfig
            (Some (o_info o)) [m] st
      end
  | None =>
      to_reply reply deadLetter m (Some m) additionalHeaders retriesConfig None [] st
  end.

Definition DispatchMessage m (additionalHeaders : Headers)
    (destination reply deadLetter : option URL) st :=
  DispatchMessageWithRetries m additionalHeaders destination reply deadLetter None st.
End dispatcher.

(** ** One request with its retries *)
Section execute_spec.
Context `{HttpClient}.
Implicit Types (st : Net) (m : Message) (o : Outcome).

(** The indices of the responses to the requests [reqs], sent from the [n]-th on. *)
Fixpoint answered (n : nat) (reqs : list Request) : list nat :=
  match reqs with
  | [] => []
  | r :: reqs =>
      (match answer n r with inl _ => [] | inr _ => [n] end) ++ answered (S n) reqs
  end.

Definition accepted (a : Answer) : Prop :=
  match a with inl _ => False | inr (_, r) => 200 ≤ StatusCode r < 300 end.

Lemma isFailure_false code : isFailure code = false ↔ 200 ≤ code < 300.
Proof. unfold isFailure. rewrite bool_decide_eq_false. lia. Qed.

#[export] Instance accepted_dec a : Decision (accepted a).
Proof. destruct a as [|[? r]]; simpl; apply _. Defined.

(** The answer to the last request was a success. *)
Definition last_accepted st : Prop :=
  match last (sent st) with
  | None => False
  | Some req => accepted (answer_at (length (sent st) - 1) req)
  end.

(** The most often one request may be sent. *)
Definition attempts (cfg : option RetryConfig) : nat :=
  match cfg with None => 1 | Some rc => S (Z.to_nat (RetryMax rc)) end.

(** No request is refused before it reaches the network. *)
Definition local_ok : Prop :=
  (∀ u, check_url u = None) ∧ (∀ m ext, ∃ h, write_request m ext = inr h) ∧
  (∀ r, from_request r = None).

Definition message_body (mo : option Message) : list nat :=
  match mo with None => [] | Some m => option_list (m_body m) end.

(** The bodies that go out with the requests [rs] and are closed by the client, without retries. *)
Definition posted (cfg : option RetryConfig) (rs : list Request) : list nat :=
  match cfg with None => omap (λ rq, m_body (rq_message rq)) rs | Some _ => [] end.

Lemma posted_app cfg rs1 rs2 : posted cfg (rs1 ++ rs2) = posted cfg rs1 ++ posted cfg rs2.
Proof. destruct cfg; [done|]. apply omap_app. Qed.

(** [st'] extends [st] by the requests [rs], whose responses are all closed
    except the ones in [pending], and the bodies they carry too. *)
Record extends (cfg : option RetryConfig) (st : Net) (rs : list Request) (pending : list nat) (st' : Net) : Prop := {
  ext_sent : sent st' = sent st ++ rs;
  ext_closed : closed st' ++ pending ≡ₚ closed st ++ answered (length (sent st)) rs ++ posted cfg rs;
}.

Lemma answered_app n l1 l2 :
  answered n (l1 ++ l2) = answered n l1 ++ answered (n + length l1) l2.
Proof.
  revert n. induction l1 as [|r l1 IH]; intros n; simpl; [by rewrite Nat.add_0_r|].
  by rewrite IH, Nat.add_succ_comm, app_assoc.
Qed.

Lemma answered_ge n rs i : i ∈ answered n rs → (n ≤ i)%nat.
Proof.
  revert n. induction rs as [|r rs IH]; intros n; simpl; [by intros ?%elem_of_nil|].
  rewrite elem_of_app. intros [Hi|Hi%IH]; [|lia]. destruct (answer n r); [by apply elem_of_nil in Hi|].
  apply list_elem_of_singleton in Hi. lia.
Qed.

Lemma answered_NoDup n rs : NoDup (answered n rs).
Proof.
  revert n. induction rs as [|r rs IH]; intros n; simpl; [constructor|].
  apply NoDup_app. split_and!; [destruct (answer n r); [constructor|apply NoDup_singleton]| |apply IH].
  intros i Hi Hi'%answered_ge. destruct (answer n r); [by apply elem_of_nil in Hi|].
  apply list_elem_of_singleton in Hi. lia.
Qed.

Lemma answered_replicate n k req : answered n (replicate k req) = responses_from n k req.
Proof.
  unfold responses_from. revert n. induction k as [|k IH]; intros n; [done|].
  simpl. rewrite IH. by destruct (answer n req).
Qed.

Lemma extends_refl cfg st : extends cfg st [] [] st.
Proof. split; [by rewrite app_nil_r|]. by destruct cfg. Qed.

Lemma extends_trans cfg st1 st2 st3 rs1 rs2 p1 p2 :
  extends cfg st1 rs1 p1 st2 → extends cfg st2 rs2 p2 st3 → extends cfg st1 (rs1 ++ rs2) (p1 ++ p2) st3.
Proof.
  intros [Hs1 Hc1] [Hs2 Hc2]. split; [by rewrite Hs2, Hs1, app_assoc|].
  rewrite answered_app, posted_app. rewrite Hs1, length_app in Hc2.
  assert (H3 : closed st3 ++ p1 ++ p2 ≡ₚ (closed st2 ++ p1) ++ answered (length (sent st1) + length rs1) rs2 ++ posted cfg rs2).
  { rewrite (Permutation_app_comm p1), app_assoc, Hc2, <-!app_assoc. f_equiv.
    rewrite app_assoc. by rewrite Permutation_app_comm. }
  rewrite H3, Hc1. solve_Permutation.
Qed.

(** Closing a pending response. *)
Lemma extends_close cfg st rs i p st' :
  extends cfg st rs (i :: p) st' → extends cfg st rs p (closes i st').
Proof. intros [Hs Hc]. split; [done|]. simpl. by rewrite <-app_assoc. Qed.

Lemma extends_perm cfg st rs p p' st' : p ≡ₚ p' → extends cfg st rs p st' → extends cfg st rs p' st'.
Proof. intros Hp [Hs Hc]. split; [done|]. by rewrite <-Hp. Qed.

Lemma last_accepted_snoc rs req st st' :
  sent st' = sent st ++ rs ++ [req] →
  last_accepted st' ↔ accepted (answer_at (length (sent st) + length rs) req).
Proof.
  intros Hs. unfold last_accepted. rewrite Hs, app_assoc, last_snoc.
  rewrite !length_app. simpl. by replace (_ + _ + 1 - 1)%nat with (length (sent st) + length rs)%nat by lia.
Qed.

(** [SendWithRetries]: either refused locally or [S k] attempts. *)
Lemma SendWithRetries_cases req cfg st a st' :
  SendWithRetries req cfg st = (a, st') →
  (st' = st ∧ ∃ e, a = inl e ∧ ∃ r, from_request r = Some e) ∨
  ∃ k, (S k ≤ attempts cfg)%nat ∧ sent st' = sent st ++ replicate (S k) req ∧
       a = answer_at (length (sent st) + k) req ∧
       closed st' = closed st ++ answered (length (sent st)) (replicate k req) ++ posted cfg (replicate (S k) req).
Proof.
  destruct cfg as [rc|]; simpl.
  - destruct (from_request req) as [e|] eqn:E; [intros [= <- <-]; left; eauto|].
    destruct (Do_loop_spec rc (Z.to_nat (RetryMax rc)) 0 req st) as (k & (Hk & _ & _) & ->).
    intros [= <- <-]. right. exists k. rewrite answered_replicate. simpl. rewrite app_nil_r. split_and!; [lia|done..].
  - unfold Send. rewrite exchange_eq. intros [= <- <-]. right. exists 0%nat. simpl. rewrite Nat.add_0_r.
    unfold close_body. destruct (m_body (rq_message req)); simpl; rewrite ?app_nil_r; auto.
Qed.

(** What one [executeRequest] does. *)
Record executed (url : URL) m (ext : list Extension) (cfg : option RetryConfig) st
    (rs : list Request) o st' : Prop := {
  ex_extends : extends cfg st rs (message_body (o_message o)) st';
  ex_ok : o_err o = None ↔ rs ≠ [] ∧ last_accepted st';
  ex_sends : local_ok → rs ≠ [];
  ex_message : is_Some (o_message o) → o_err o = None;
  ex_carries : Forall (λ rq, rq_message rq = m) rs;
  ex_body i : i ∈ message_body (o_message o) → i ∈ answered (length (sent st)) rs;
}.

Lemma executed_refused url m ext cfg st o :
  o_message o = None → is_Some (o_err o) → ¬ local_ok → executed url m ext cfg st [] o st.
Proof.
  intros Hm [e He] Hl. split; try done.
  - rewrite Hm. apply extends_refl.
  - rewrite He. split; [done|by intros [? _]].
  - rewrite Hm. by intros [].
  - rewrite Hm. by intros i ?%elem_of_nil.
Qed.

(** The requests sent are [S k] copies of [req]; [o] reflects the last answer. *)
Lemma executed_sent url m ext cfg st k req a st' st'' o :
  rq_message req = m →
  sent st' = sent st ++ replicate (S k) req →
  closed st' = closed st ++ answered (length (sent st)) (replicate k req) ++ posted cfg (replicate (S k) req) →
  a = answer_at (length (sent st) + k) req →
  sent st'' = sent st' →
  closed st'' ++ message_body (o_message o) ≡ₚ
    closed st' ++ match a with inl _ => [] | inr (i, _) => [i] end →
  message_body (o_message o) ⊆ match a with inl _ => [] | inr (i, _) => [i] end →
  (o_err o = None ↔ accepted a) → (is_Some (o_message o) → o_err o = None) →
  executed url m ext cfg st (replicate (S k) req) o st''.
Proof.
  intros Hrq Hs Hc Ha Hs' Hc' Hsub Hok Hm.
  assert (Hans : answered (length (sent st)) (replicate (S k) req) =
    answered (length (sent st)) (replicate k req) ++ match a with inl _ => [] | inr (i, _) => [i] end).
  { rewrite replicate_S_end, answered_app, length_replicate. f_equal. subst a. unfold answer_at. simpl. by destruct (answer _ req). }
  split; [split| | | | |].
  - by rewrite Hs', Hs.
  - rewrite Hc', Hc, Hans. solve_Permutation.
  - rewrite Hok, Ha. rewrite <-Hs' in Hs. rewrite replicate_S_end in Hs.
    rewrite (last_accepted_snoc (replicate k req) req st st'' Hs), length_replicate.
    split; [|by intros [_ ?]]. intros ?. split; [done|done].
  - done.
  - done.
  - apply Forall_forall. by intros rq [-> _]%elem_of_replicate.
  - intros i Hi. rewrite Hans. apply elem_of_app. right. by apply Hsub.
Qed.

Lemma executeRequest_executed url m h cfg ext st o st' :
  executeRequest url m h cfg ext st = (o, st') → ∃ rs, executed url m ext cfg st rs o st'.
Proof.
  unfold executeRequest, WriteHTTPRequestWithAdditionalHeaders.
  destruct (check_url url) as [e|] eqn:Hu.
  { intros [= <- <-]. exists []. apply executed_refused; [done..|].
    intros (Hl & _ & _). by rewrite Hl in Hu. }
  destruct (write_request m ext) as [e|hd] eqn:Hw.
  { intros [= <- <-]. exists []. apply executed_refused; [done..|].
    intros (_ & Hl & _). destruct (Hl m ext) as [? Hw2]. congruence. }
  set (req := mkRequest url m ext (h ∪ hd)).
  destruct (SendWithRetries req cfg st) as [a st1] eqn:Hsend.
  apply SendWithRetries_cases in Hsend as [(-> & e & -> & r & Hr)|(k & Hk & Hs & Ha & Hc)].
  { intros [= <- <-]. exists []. apply executed_refused; [done..|].
    intros (_ & _ & Hl). by rewrite Hl in Hr. }
  intros Heq. exists (replicate (S k) req).
  eapply (executed_sent _ _ _ _ _ k req a st1); try done;
    (destruct a as [e|[i r]]; [injection Heq as <- <-; first [done|by intros []|set_solver]|]);
    (destruct (isFailure _) eqn:Hf; [|case_decide]; injection Heq as <- <-; simpl;
      rewrite <-?isFailure_false, ?Hf, ?app_nil_r; first [done|by intros []|set_solver]).
Qed.
End execute_spec.

(** ** The whole dispatch *)
Section dispatch_spec.
Context `{HttpClient}.
Implicit Types (st : Net) (m : Message) (o : Outcome).

Definition bodies (ms : list Message) : list nat := omap m_body ms.

Lemma finish_all_closed ms st :
  finish_all ms st = mkNet (sent st) (waits st) (closed st ++ bodies ms).
Proof.
  unfold finish_all, bodies. revert st.
  induction ms as [|m ms IH]; intros st; simpl; [by destruct st; simpl; rewrite app_nil_r|].
  rewrite IH. unfold Finish. destruct (m_body m); simpl; [|done]. by rewrite <-app_assoc.
Qed.

Lemma extends_finish_all cfg st rs ms st' :
  extends cfg st rs (bodies ms) st' → extends cfg st rs [] (finish_all ms st').
Proof.
  intros [Hs Hc]. rewrite finish_all_closed. split; [done|]. simpl. by rewrite app_nil_r.
Qed.

Lemma last_accepted_finish_all ms st : last_accepted (finish_all ms st) ↔ last_accepted st.
Proof. unfold last_accepted. by rewrite finish_all_closed. Qed.

Lemma last_accepted_sent st st' : sent st' = sent st → last_accepted st' → last_accepted st.
Proof. unfold last_accepted. by intros ->. Qed.

Lemma failed_no_message (mo : option Message) (e : option request_error) :
  (is_Some mo → e = None) → e ≠ None → mo = None.
Proof. intros Hm He. destruct mo; [|done]. by destruct He; apply Hm. Qed.

Lemma bodies_app l1 l2 : bodies (l1 ++ l2) = bodies l1 ++ bodies l2.
Proof. apply omap_app. Qed.

Lemma bodies_option mo : bodies (option_list mo) = message_body mo.
Proof. destruct mo as [m|]; [|done]. unfold bodies. simpl. by destruct (m_body m). Qed.

Lemma to_deadLetter_spec dl failed both m h cfg info err ms st0 rs st i e st' :
  extends cfg st0 rs (bodies ms) st →
  to_deadLetter dl failed both m h cfg info err ms st = ((i, e), st') →
  ∃ rs', extends cfg st0 (rs ++ rs') [] st' ∧ Forall (λ rq, rq_message rq = m) rs' ∧
         (e = None ↔ rs' ≠ [] ∧ last_accepted st') ∧
         (local_ok → is_Some dl → rs' ≠ []).
Proof.
  intros Hext. unfold to_deadLetter. destruct dl as [dl|].
  - destruct (executeRequest _ _ _ _ _ _) as [o st1] eqn:Hex.
    apply executeRequest_executed in Hex as [rs' [Hext' Hok Hsends Hmsg Hcar _]].
    pose proof (extends_trans _ _ _ _ _ _ _ _ Hext Hext') as Hboth.
    rewrite <-bodies_option, <-bodies_app in Hboth.
    destruct (o_err o) as [dlErr|] eqn:He; intros [= <- <- <-]; exists rs'.
    + rewrite (failed_no_message _ _ Hmsg), app_nil_r in Hboth by done.
      split_and!; [by apply extends_finish_all|done| |by auto].
      rewrite last_accepted_finish_all, <-Hok. done.
    + split_and!; [by apply extends_finish_all|done| |by auto].
      rewrite last_accepted_finish_all, <-Hok. done.
  - intros [= <- <- <-]. exists []. rewrite app_nil_r.
    split_and!; [by apply extends_finish_all|done|by split; [|intros []]|by intros _ []].
Qed.

Lemma to_reply_spec reply dl m mo h cfg info ms st0 rs st i e st' :
  extends cfg st0 rs (bodies ms ++ message_body mo) st →
  to_reply reply dl m mo h cfg info ms st = ((i, e), st') →
  ∃ rs2 rs3, extends cfg st0 (rs ++ rs2 ++ rs3) [] st' ∧
    Forall (λ rq, mo = Some (rq_message rq)) rs2 ∧ Forall (λ rq, rq_message rq = m) rs3 ∧
    (mo = None ∨ reply = None → rs2 ++ rs3 = []) ∧
    (e = None ↔ mo = None ∨ reply = None ∨ (rs2 ++ rs3 ≠ [] ∧ last_accepted st')) ∧
    (local_ok → is_Some mo → is_Some reply → rs2 ++ rs3 ≠ []).
Proof.
  intros Hext. unfold to_reply. destruct mo as [resp|].
  2:{ intros [= <- <- <-]. exists [], []. simpl in Hext. rewrite !app_nil_r in *.
      split_and!; [by apply extends_finish_all|done|done|done|by split; auto|by intros _ []]. }
  assert (Hb : bodies ms ++ message_body (Some resp) = bodies (ms ++ [resp])).
  { rewrite bodies_app. by f_equal. }
  rewrite Hb in Hext. destruct reply as [reply|].
  2:{ intros [= <- <- <-]. exists [], []. rewrite !app_nil_r.
      split_and!; [by apply extends_finish_all|done|done|done|by split; auto|
        by intros _ _ []]. }
  destruct (executeRequest _ _ _ _ _ _) as [o st1] eqn:Hex.
  apply executeRequest_executed in Hex as [rs2 [Hext' Hok Hsends Hmsg Hcar _]].
  assert (Hcar' : Forall (λ rq, Some resp = Some (rq_message rq)) rs2) by (eapply Forall_impl; [exact Hcar|]; by intros rq ->).
  pose proof (extends_trans _ _ _ _ _ _ _ _ Hext Hext') as Hboth.
  destruct (o_err o) as [err|] eqn:He.
  - rewrite (failed_no_message _ _ Hmsg) in Hboth by done. simpl in Hboth. rewrite app_nil_r in Hboth.
    destruct (to_deadLetter _ _ _ _ _ _ _ _ _ _) as [[i3 e3] st3] eqn:Hdl.
    eapply to_deadLetter_spec in Hdl as (rs3 & Hext3 & Hcar3 & Hok3 & Hs3); [|exact Hboth].
    intros [= <- <- <-]. exists rs2, rs3. rewrite app_assoc.
    split_and!; [done|done|done|by intros [?|?]| |].
    + rewrite Hok3. split; [intros [Hne ?]; right; right; split; [|done]; by destruct rs2|].
      intros [?|[?|[Hne Hl]]]; [done|done|]. split; [|done]. intros ->.
      rewrite app_nil_r in Hne. cut (Some err = None); [done|].
      apply Hok. split; [done|]. eapply last_accepted_sent; [|exact Hl].
      destruct Hext3 as [-> _], Hboth as [-> _]. by rewrite app_nil_r.
    + intros Hl _ _. specialize (Hsends Hl). by destruct rs2.
  - intros [= <- <- <-]. exists rs2, []. rewrite !app_nil_r.
    rewrite <-bodies_option, <-bodies_app in Hboth.
    split_and!; [by apply extends_finish_all|done|done|by intros [?|?]| |].
    + rewrite last_accepted_finish_all, <-Hok. split; [by auto|done].
    + by intros Hl _ _; apply Hsends.
Qed.

(** The requests [rs] of a dispatch, their responses and its verdict. *)
Record dispatched cfg (destination reply : option URL) st (e : option dispatch_error) (rs : list Request) st' : Prop := {
  di_extends : extends cfg st rs [] st';
  di_carries : Forall (λ rq, ∀ i, m_body (rq_message rq) = Some i → i ∈ answered (length (sent st)) rs) rs;
  di_none : destination = None → reply = None → e = None;
  di_delivered : e = None →
    (destination = None ∧ reply = None) ∨ (rs ≠ [] ∧ last_accepted st');
  di_accepted : local_ok → rs ≠ [] → last_accepted st' → e = None;
  di_sends : local_ok → is_Some destination ∨ is_Some reply → rs ≠ [];
}.

Lemma DispatchMessageWithRetries_dispatched m h destination reply deadLetter cfg st i e st' :
  m_body m = None →
  DispatchMessageWithRetries m h destination reply deadLetter cfg st = ((i, e), st') →
  ∃ rs, dispatched cfg (sanitizeURL destination) (sanitizeURL reply) st e rs st'.
Proof.
  intros Hm. unfold DispatchMessageWithRetries.
  generalize (sanitizeURL destination) (sanitizeURL reply) (sanitizeURL deadLetter).
  clear destination reply deadLetter. intros destination reply deadLetter.
  assert (Hbm : bodies [m] = []) by (unfold bodies; simpl; by rewrite Hm).
  assert (Hown : ∀ n rs rs', Forall (λ rq, rq_message rq = m) rs →
    Forall (λ rq, ∀ i, m_body (rq_message rq) = Some i → i ∈ answered n rs') rs).
  { intros n rs rs' Hrs. eapply Forall_impl; [exact Hrs|]. intros rq ->. by rewrite Hm. }
  destruct destination as [destination|].
  2:{ intros Hr. eapply (to_reply_spec _ _ _ _ _ _ _ _ st []) in Hr as
        (rs2 & rs3 & Hext & Hcar2 & Hcar3 & _ & He & Hs).
      2:{ simpl. rewrite Hm. apply extends_refl. }
      exists (rs2 ++ rs3). split; simpl; [done| | | | |].
      - apply Forall_app. split; apply Hown; [|done]. eapply Forall_impl; [exact Hcar2|]. by intros rq [= ->].
      - intros _ ->. apply He. auto.
      - intros Hnone. apply He in Hnone as [?|[?|[??]]]; [done|by left|by right].
      - intros _ ??. apply He. auto.
      - intros Hlo [[]|?]; [done|]. by apply Hs. }
  destruct (executeRequest _ _ _ _ _ _) as [o st1] eqn:Hex.
  apply executeRequest_executed in Hex as [rs1 [Hext1 Hok Hsends Hmsg Hcar1 Hbody]].
  destruct (o_err o) as [err|] eqn:Heo.
  - destruct (to_deadLetter _ _ _ _ _ _ _ _ _ _) as [[i3 e3] st3] eqn:Hdl.
    rewrite (failed_no_message _ _ Hmsg) in Hext1 by done.
    eapply to_deadLetter_spec in Hdl as (rs3 & Hext3 & Hcar3 & He & Hs); [|by rewrite Hbm].
    intros [= <- <- <-]. exists (rs1 ++ rs3).
    split; [done| |done| | |]; simpl.
    + apply Forall_app. split; by apply Hown.
    + intros Hnone. apply He in Hnone as [??]. right. split; [|done]. by destruct rs1.
    + intros _ Hne Hlast. apply He. split; [|done]. intros ->. rewrite app_nil_r in Hne.
      cut (Some err = None); [done|]. apply Hok. split; [done|].
      eapply last_accepted_sent; [|exact Hlast].
      destruct Hext3 as [-> _], Hext1 as [-> _]. by rewrite app_nil_r.
    + intros Hlo _. specialize (Hsends Hlo). by destruct rs1.
  - intros Hr. destruct Hok as [Hok _]. destruct (Hok eq_refl) as [Hne1 Hlast1].
    eapply (to_reply_spec _ _ _ _ _ _ _ _ st rs1) in Hr as
      (rs2 & rs3 & Hext & Hcar2 & Hcar3 & Hnil & He & Hs); [|by rewrite Hbm].
    exists (rs1 ++ rs2 ++ rs3). split; [done| |done| | |].
    + rewrite !Forall_app. split_and!; [by apply Hown| |by apply Hown].
      eapply Forall_impl; [exact Hcar2|]. intros rq Hrq i' Hi'. rewrite Hrq in Hbody. rewrite answered_app.
      apply elem_of_app. left. apply Hbody. simpl. rewrite Hi'. apply list_elem_of_here.
    + intros Hnone. right. split; [by destruct rs1|].
      assert (Hcase : rs2 ++ rs3 = [] ∨ last_accepted st').
      { apply He in Hnone as [?|[?|[??]]]; auto. }
      destruct Hcase as [Hz|?]; [|done]. eapply last_accepted_sent; [|exact Hlast1].
      destruct Hext as [-> _], Hext1 as [-> _]. by rewrite Hz, app_nil_r.
    + intros Hlo _ Hlast. apply He. destruct (o_message o) eqn:Emo; [|by left].
      destruct reply eqn:Er; [|by right; left]. right. right. split; [|done]. by apply Hs.
    + intros _ _. by destruct rs1.
Qed.
End dispatch_spec.

(** ** Who gets what *)

(** The request of one leg of a dispatch. *)
Record Target := mkTarget {
  t_url : URL;
  t_message : Message;
  t_extensions : list Extension;
  t_headers : Headers;
}.

Section routes.
Context `{HttpClient}.
Implicit Types (st : Net) (m : Message) (a : Answer) (cfg : option RetryConfig).

(** The requests [rs] of a leg: none, or the same one at least once. *)
Definition reaches cfg (t : option Target) (rs : list Request) : Prop :=
  match t with
  | None => rs = []
  | Some t => ∃ k hd, rs = replicate (S k) (mkRequest (t_url t) (t_message t) (t_extensions t) (t_headers t ∪ hd)) ∧
      (S k ≤ attempts cfg)%nat ∧ write_request (t_message t) (t_extensions t) = inr hd
  end.

(** The answer to the last of the requests [rs], the first of which is the [n]-th. *)
Definition final_answer (n : nat) (rs : list Request) : option Answer :=
  (λ req, answer_at (n + length rs - 1) req) <$> last rs.

(** The event of a response, and the headers to pass on with it. *)
Definition event_of a : option Message :=
  match a with
  | inl _ => None
  | inr (i, r) =>
      if decide (200 ≤ StatusCode r < 300 ∧ rs_encoding r ≠ EncodingUnknown)
      then Some (mkMessage (rs_encoding r) (rs_payload r) (Some i)) else None
  end.
Definition headers_of a : Headers :=
  match a with inl _ => ∅ | inr (_, r) => PassThroughHeaders (rs_header r) end.

Definition refused (a : option Answer) : option Answer :=
  a ← a; if decide (accepted a) then None else Some a.

(** The extensions of a dead letter: the status and the start of the body. *)
Definition error_extensions a : list Extension :=
  match a with
  | inl err => KnativeErrorTransformers 500 ("dispatch error: " +:+ err)
  | inr (_, r) => KnativeErrorTransformers (StatusCode r) (failure_body r)
  end.

(** [executeRequest] when nothing is refused locally. *)
Lemma executeRequest_reaches url m h cfg ext st o st' :
  local_ok → executeRequest url m h cfg ext st = (o, st') →
  ∃ rs a, sent st' = sent st ++ rs ∧ reaches cfg (Some (mkTarget url m ext h)) rs ∧
    final_answer (length (sent st)) rs = Some a ∧ o_message o = event_of a ∧
    (is_Some (o_message o) → o_headers o = headers_of a) ∧
    if decide (accepted a) then o_err o = None
    else is_Some (o_err o) ∧ dispatchExecutionInfoTransformers (o_info o) = error_extensions a.
Proof.
  intros (Hurl & Hwrite & Hreq). unfold executeRequest, WriteHTTPRequestWithAdditionalHeaders.
  rewrite Hurl. destruct (Hwrite m ext) as [hd Hw]. rewrite Hw.
  destruct (SendWithRetries _ cfg st) as [a st1] eqn:Hsend.
  apply SendWithRetries_cases in Hsend as [(_ & e & _ & r & Hr)|(k & Hk & Hs & Ha & _)]; [by rewrite Hreq in Hr|].
  intros Heq. eexists (replicate (S k) _), a.
  assert (Hst : sent st' = sent st1).
  { destruct a as [e|[i r]]; [|destruct (isFailure _); [|case_decide]]; by injection Heq as <- <-. }
  split; [by rewrite Hst|]. split; [by eexists k, hd|]. split.
  { unfold final_answer. rewrite replicate_S_end, last_snoc. cbn [fmap option_fmap option_map].
    f_equal. rewrite Ha, length_app, length_replicate. f_equal. simpl. lia. }
  clear Ha Hs Hst. destruct a as [e|[i r]]; [injection Heq as <- <-; split_and!; [done..|by intros []|done]|].
  destruct (isFailure (StatusCode r)) eqn:Hf; cbn [accepted event_of] in *.
  { assert (¬ 200 ≤ StatusCode r < 300) by (rewrite <-isFailure_false, Hf; done).
    injection Heq as <- <-. rewrite !decide_False by tauto. split_and!; [done|by intros []|done|done]. }
  apply isFailure_false in Hf. case_decide as Henc; injection Heq as <- <-; simpl.
  - rewrite decide_False by tauto. rewrite decide_True by done. split_and!; [done|by intros []|done].
  - rewrite !decide_True by done. done.
Qed.

Lemma to_deadLetter_reaches dl failed both m h cfg info err ms st i e st' a :
  local_ok → dispatchExecutionInfoTransformers info = error_extensions a →
  to_deadLetter dl failed both m h cfg info err ms st = ((i, e), st') →
  ∃ rs, sent st' = sent st ++ rs ∧
    reaches cfg (u ← dl; Some (mkTarget u m (error_extensions a) h)) rs.
Proof.
  intros Hlo Hinfo. unfold to_deadLetter. destruct dl as [dl|].
  - rewrite Hinfo. destruct (executeRequest _ _ _ _ _ _) as [o st1] eqn:Hex.
    apply executeRequest_reaches in Hex as (rs & a' & Hs & Hr & _); [|done].
    intros Heq. exists rs. split; [|done].
    destruct (o_err o); injection Heq as <- <- <-; by rewrite finish_all_closed.
  - intros [= <- <- <-]. exists []. rewrite finish_all_closed, app_nil_r. done.
Qed.

Lemma to_reply_reaches reply dl m mo h cfg info ms st i e st' :
  local_ok → to_reply reply dl m mo h cfg info ms st = ((i, e), st') →
  ∃ rs2 rs3, sent st' = sent st ++ rs2 ++ rs3 ∧
    reaches cfg (u ← reply; r ← mo; Some (mkTarget u r [] h)) rs2 ∧
    reaches cfg (u ← dl; a ← refused (final_answer (length (sent st)) rs2);
                 Some (mkTarget u m (error_extensions a) h)) rs3.
Proof.
  intros Hlo. unfold to_reply.
  assert (Hnone : ∀ ms, sent (finish_all ms st) = sent st ++ [] ++ [] ∧ reaches cfg None [] ∧
    reaches cfg (u ← dl; a ← refused (final_answer (length (sent st)) []); Some (mkTarget u m (error_extensions a) h)) []).
  { intros ms'. rewrite finish_all_closed, !app_nil_r. split_and!; [done..|by destruct dl]. }
  destruct mo as [resp|]; [|intros [= <- <- <-]; exists [], []; by destruct reply].
  destruct reply as [reply|]; [|intros [= <- <- <-]; by exists [], []].
  destruct (executeRequest _ _ _ _ _ _) as [o st1] eqn:Hex.
  apply executeRequest_reaches in Hex as (rs2 & a & Hs & Hr & Ha & _ & _ & Hcase); [|done].
  unfold refused. destruct (decide (accepted a)) as [Hacc|Hacc].
  - rewrite Hcase. intros [= <- <- <-]. exists rs2, []. rewrite finish_all_closed, app_nil_r.
    split_and!; [done..|]. rewrite Ha. simpl. rewrite decide_True by done. by destruct dl.
  - destruct Hcase as [[err Herr] Hinfo]. rewrite Herr.
    destruct (to_deadLetter _ _ _ _ _ _ _ _ _ _) as [[i3 e3] st3] eqn:Hdl.
    eapply to_deadLetter_reaches in Hdl as (rs3 & Hs3 & Hr3); [|done..].
    intros [= <- <- <-]. exists rs2, rs3. rewrite Hs3, Hs, app_assoc. split_and!; [done..|].
    rewrite Ha. simpl. rewrite decide_False by done. done.
Qed.
End routes.

Lemma dispatch_success_iff `{HttpClient} (m : Message) (h : Headers)
    (destination reply deadLetter : option URL) (cfg : option RetryConfig) (st st' : Net)
    (i : option DispatchExecutionInfo) (e : option dispatch_error) :
  m_body m = None → local_ok →
  DispatchMessageWithRetries m h destination reply deadLetter cfg st = ((i, e), st') →
  e = None ↔ (destination = None ∧ reply = None) ∨
             (length (sent st) < length (sent st') ∧ last_accepted st')%nat.
Proof.
  intros Hm Hlo Hd.
  apply DispatchMessageWithRetries_dispatched in Hd as (rs & Hd); [|done].
  assert (Hn : ∀ u, sanitizeURL u = None ↔ u = None) by (intros []; simpl; by repeat case_match).
  assert (Hlen : (length (sent st) < length (sent st'))%nat ↔ rs ≠ []).
  { destruct Hd as [[-> _] _ _ _ _ _]. rewrite (length_app (sent st)).
    destruct rs; simpl; [split; [lia|done]|split; [done|lia]]. }
  rewrite Hlen, <-(Hn destination), <-(Hn reply). split.
  - apply (di_delivered _ _ _ _ _ _ _ Hd).
  - intros [[??]|[??]]; [by eapply di_none|by eapply di_accepted].
Qed.

Lemma DispatchMessageWithRetries_routes `{HttpClient} (m : Message) (h : Headers)
    (destination reply deadLetter : option URL) (cfg : option RetryConfig) (st st' : Net)
    (i : option DispatchExecutionInfo) (e : option dispatch_error) :
  local_ok →
  DispatchMessageWithRetries m h destination reply deadLetter cfg st = ((i, e), st') →
  ∃ rs1 rs2 rs3, sent st' = sent st ++ rs1 ++ rs2 ++ rs3 ∧
    let a1 := final_answer (length (sent st)) rs1 in
    let a2 := final_answer (length (sent st) + length rs1) rs2 in
    let response := match a1 with None => Some m | Some a => event_of a end in
    let headers := match a1 with None => h | Some a => headers_of a end in
    reaches cfg (u ← sanitizeURL destination; Some (mkTarget u m [] h)) rs1 ∧
    reaches cfg (u ← sanitizeURL reply; r ← response; Some (mkTarget u r [] headers)) rs2 ∧
    reaches cfg
      (u ← sanitizeURL deadLetter;
       match refused a1, refused a2 with
       | Some a, _ => Some (mkTarget u m (error_extensions a) h)
       | None, Some a => Some (mkTarget u m (error_extensions a) headers)
       | None, None => None
       end) rs3.
Proof.
  intros Hlo. unfold DispatchMessageWithRetries.
  generalize (sanitizeURL destination) (sanitizeURL reply) (sanitizeURL deadLetter).
  clear destination reply deadLetter. intros destination reply deadLetter.
  destruct destination as [destination|].
  2:{ intros Hr. apply to_reply_reaches in Hr as (rs2 & rs3 & Hs & Hr2 & Hr3); [|done].
      exists [], rs2, rs3. split_and!; [done|done|done|]. cbn -[reaches]. rewrite Nat.add_0_r.
      by destruct deadLetter; [destruct (refused _)|]. }
  destruct (executeRequest _ _ _ _ _ _) as [o st1] eqn:Hex.
  apply executeRequest_reaches in Hex as (rs1 & a & Hs & Hr & Ha & Hm & Hh & Hcase); [|done].
  destruct (decide (accepted a)) as [Hacc|Hacc].
  - rewrite Hcase. intros Hrep. apply to_reply_reaches in Hrep as (rs2 & rs3 & Hs' & Hr2 & Hr3); [|done].
    exists rs1, rs2, rs3. split; [by rewrite Hs', Hs, <-app_assoc|]. rewrite Ha. cbn zeta.
    unfold refused at 1. simpl. rewrite decide_True by done. rewrite Hs, length_app in Hr3. rewrite Hm in Hr2.
    split; [done|]. destruct (event_of a) as [r|] eqn:He.
    + rewrite Hh in Hr2, Hr3 by (by rewrite Hm). split; [done|].
      by destruct deadLetter; [destruct (refused _)|].
    + assert (rs2 = []) as -> by (by destruct reply).
      split; [by destruct reply|]. by destruct deadLetter.
  - destruct Hcase as [[err Herr] Hinfo]. rewrite Herr.
    destruct (to_deadLetter _ _ _ _ _ _ _ _ _ _) as [[i3 e3] st3] eqn:Hdl.
    eapply to_deadLetter_reaches in Hdl as (rs3 & Hs3 & Hr3); [|done..].
    intros [= <- <- <-]. exists rs1, [], rs3. split; [by rewrite Hs3, Hs, <-app_assoc|]. rewrite Ha. cbn zeta.
    unfold refused at 1. simpl. rewrite decide_False by done. split; [done|].
    assert (Hev : event_of a = None).
    { destruct a as [|[? r]]; [done|]. simpl in *. by rewrite decide_False by tauto. }
    rewrite Hev. split; [by destruct reply|done].
Qed.

(** ** Properties *)

(** the dispatcher reports success exactly when there was nothing to contact
    or the last request it sent was accepted with a 2xx status: an event is never
    reported delivered when its last recipient refused it, and never reported
    lost when the dead letter sink took it. *)
Theorem dispatch_success `{HttpClient} (m : Message) (h : Headers)
    (destination reply deadLetter : option URL) (cfg : option RetryConfig) (st st' : Net)
    (i : option DispatchExecutionInfo) (e : option dispatch_error) :
  m_body m = None → local_ok →
  DispatchMessageWithRetries m h destination reply deadLetter cfg st = ((i, e), st') →
  e = None ↔ (destination = None ∧ reply = None) ∨
             (length (sent st) < length (sent st') ∧ last_accepted st')%nat.
Proof. apply dispatch_success_iff. Qed.

(** C8: who gets what in a dispatch, when no request is refused locally.  The
    event goes to the destination, if there is one.  The event of an accepted
    response, or the event itself without a destination, goes to the reply, with
    the headers that are passed on.  When the last answer of one of the two was
    no success, the original event goes to the dead letter sink, carrying the
    status and the body of that answer.  Each is sent at least once and at most
    [RetryMax + 1] times, and nothing else is. *)
Theorem dispatch_routes `{HttpClient} (m : Message) (h : Headers)
    (destination reply deadLetter : option URL) (cfg : option RetryConfig) (st st' : Net)
    (i : option DispatchExecutionInfo) (e : option dispatch_error) :
  local_ok →
  DispatchMessageWithRetries m h destination reply deadLetter cfg st = ((i, e), st') →
  ∃ rs1 rs2 rs3, sent st' = sent st ++ rs1 ++ rs2 ++ rs3 ∧
    let a1 := final_answer (length (sent st)) rs1 in
    let a2 := final_answer (length (sent st) + length rs1) rs2 in
    let response := match a1 with None => Some m | Some a => event_of a end in
    let headers := match a1 with None => h | Some a => headers_of a end in
    reaches cfg (u ← sanitizeURL destination; Some (mkTarget u m [] h)) rs1 ∧
    reaches cfg (u ← sanitizeURL reply; r ← response; Some (mkTarget u r [] headers)) rs2 ∧
    reaches cfg
      (u ← sanitizeURL deadLetter;
       match refused a1, refused a2 with
       | Some a, _ => Some (mkTarget u m (error_extensions a) h)
       | None, Some a => Some (mkTarget u m (error_extensions a) headers)
       | None, None => None
       end) rs3.
Proof. apply DispatchMessageWithRetries_routes. Qed.

(** C34: when a dispatch returns, the body of every response it received was
    closed: once, and, when the dispatch has no retry configuration, once more by the client
    for each request that carried it, the reply.  No other body was closed. *)
Theorem dispatch_closes_responses `{HttpClient} (m : Message) (h : Headers)
    (destination reply deadLetter : option URL) (cfg : option RetryConfig) (st st' : Net)
    (i : option DispatchExecutionInfo) (e : option dispatch_error) :
  m_body m = None →
  DispatchMessageWithRetries m h destination reply deadLetter cfg st = ((i, e), st') →
  let requests := drop (length (sent st)) (sent st') in
  let responses := answered (length (sent st)) requests in
  closed st' ≡ₚ closed st ++ responses ++ posted cfg requests ∧ posted cfg requests ⊆ responses ∧ NoDup responses.
Proof.
  intros Hm Hd.
  apply DispatchMessageWithRetries_dispatched in Hd as (rs & Hd); [|done].
  destruct Hd as [[Hs Hc] Hcar _ _ _ _]. rewrite app_nil_r in Hc. cbv zeta.
  rewrite Hs, drop_app_length. split_and!; [done| |apply answered_NoDup].
  intros j Hj. unfold posted in Hj. destruct cfg; [by apply elem_of_nil in Hj|].
  apply list_elem_of_omap in Hj as (rq & Hrq & Hj). rewrite Forall_forall in Hcar. by eapply Hcar.
Qed.

(** An event whose destination is down for good goes to the dead letter sink. *)
Definition sink_client : HttpClient := {|
  check_url _ := None;
  write_request _ _ := inr ∅;
  from_request _ := None;
  answer _ r := if decide (Host (rq_url r) = "dls") then inr (mkResponse 202 ∅ EncodingUnknown "" (inr ""))
                else inr (mkResponse 503 ∅ EncodingUnknown "" (inr "busy"));
  exp2_overflow _ := 0;
|}.
Definition demo_message : Message := mkMessage EncodingBinary "e1" None.
Definition demo_dispatch :=
  DispatchMessageWithRetries (H:=sink_client) demo_message ∅ (Some (http_url "sub")) None
    (Some (http_url "dls")) (Some (mkRetryConfig 1 None None RetryIfGreaterThan300 NoBackoff))
    (mkNet [] [] []).

Example demo_dispatch_requests :
  (λ r, (Host (rq_url r), rq_extensions r)) <$> sent demo_dispatch.2 =
  [("sub", []); ("sub", []);
   ("dls", [("knativeerrorcode", "503"); ("knativeerrordata", "busy")])].
Proof. vm_compute. reflexivity. Qed.

Lemma dispatch_success_witness :
  demo_dispatch.1.2 = None ↔ (Some (http_url "sub") = None ∧ @None URL = None) ∨
  (0 < length (sent demo_dispatch.2) ∧ last_accepted (H:=sink_client) demo_dispatch.2)%nat.
Proof.
  apply (dispatch_success (H:=sink_client) demo_message ∅ (Some (http_url "sub")) None
    (Some (http_url "dls")) (Some (mkRetryConfig 1 None None RetryIfGreaterThan300 NoBackoff))
    (mkNet [] [] []) demo_dispatch.2 demo_dispatch.1.1 demo_dispatch.1.2 eq_refl).
  - split; [done|]. split; [by eexists|done].
  - by vm_compute.
Defined.

Lemma dispatch_routes_witness :
  ∃ rs1 rs2 rs3, sent demo_dispatch.2 = rs1 ++ rs2 ++ rs3 ∧
    reaches (H:=sink_client) (Some (mkRetryConfig 1 None None RetryIfGreaterThan300 NoBackoff))
      (Some (mkTarget (http_url "sub") demo_message [] ∅)) rs1.
Proof.
  destruct (dispatch_routes (H:=sink_client) demo_message ∅ (Some (http_url "sub")) None
    (Some (http_url "dls")) (Some (mkRetryConfig 1 None None RetryIfGreaterThan300 NoBackoff))
    (mkNet [] [] []) demo_dispatch.2 demo_dispatch.1.1 demo_dispatch.1.2) as (rs1 & rs2 & rs3 & Hs & Hr & _).
  - split; [done|]. split; [by eexists|done].
  - by vm_compute.
  - exists rs1, rs2, rs3. split; [exact Hs|exact Hr].
Defined.

(** An event with a reply and no retries: the answer of the destination is an event. *)
Definition reply_client : HttpClient := {|
  check_url _ := None;
  write_request _ _ := inr ∅;
  from_request _ := None;
  answer n _ := inr (mkResponse 202 ∅ (if decide (n = 0)%nat then EncodingBinary else EncodingUnknown) "" (inr ""));
  exp2_overflow _ := 0;
|}.
Definition demo_reply :=
  DispatchMessageWithRetries (H:=reply_client) demo_message ∅ (Some (http_url "sub")) (Some (http_url "reply"))
    None None (mkNet [] [] []).

Lemma dispatch_closes_responses_witness : closed demo_reply.2 ≡ₚ [0; 1; 0]%nat.
Proof.
  apply (dispatch_closes_responses (H:=reply_client) demo_message ∅ (Some (http_url "sub")) (Some (http_url "reply"))
    None None (mkNet [] [] []) demo_reply.2 demo_reply.1.1 demo_reply.1.2 eq_refl).
  by vm_compute.
Defined.
