(* ===== verification/KafkaSubscription.v ===== *)
(** * KafkaSubscription: which partitions of which subscription are ready

    Models [src/pkg/channel/kt/dispatcher/kafka_subscription.go] (the object the
    dispatcher, the consumer handlers and the status endpoint share for one
    channel) and the subscription types of [subscription.go], [config.go] and
    [vendor/knative.dev/eventing/pkg/channel/fanout].  [SetReady] runs under the
    write lock of the object, so it is one atomic update. *)
From Stdlib Require Import Ascii.
From S2P Require Import Prelude GoStrings ApiTypes Url Sender.

(** ** Subscriptions *)

(** [fanout.Subscription]. *)
Record FanoutSubscription := mkFanout {
  Subscriber : option URL;
  Reply : option URL;
  DeadLetter : option URL;
  fo_RetryConfig : option RetryConfig;
}.
#[export] Instance FanoutSubscription_eq_dec : EqDecision FanoutSubscription.
Proof. solve_decision. Defined.

(** [dispatcher.Subscription], and its zero value. *)
Record Subscription := mkSubscription { s_UID : string; s_fanout : FanoutSubscription }.
#[export] Instance Subscription_eq_dec : EqDecision Subscription.
Proof. solve_decision. Defined.
Definition zero_Subscription : Subscription := mkSubscription "" (mkFanout None None None None).

(** [String] of a subscription: a line for its UID and one for every URL it has. *)
Definition newline : ascii := ascii_of_nat 10.
Definition url_line (label : string) (u : option URL) : string :=
  match u with None => "" | Some u => label +:+ (url_String u +:+ String newline "") end.
Definition Subscription_String (sub : Subscription) : string :=
  "UID: " +:+ (s_UID sub +:+ String newline
    (url_line "Subscriber: " (Subscriber (s_fanout sub)) +:+
     (url_line "Reply: " (Reply (s_fanout sub)) +:+ url_line "DeadLetter: " (DeadLetter (s_fanout sub))))).

Record ChannelConfig := mkChannelConfig {
  cc_Namespace : string;
  cc_Name : string;
  cc_HostName : string;
  cc_Subscriptions : list Subscription;
}.

Definition SubscriptionsUIDs (cc : ChannelConfig) : list string := s_UID <$> cc_Subscriptions cc.

(** ** The shared object *)
Record KafkaSubscription := mkKafkaSubscription {
  subs : gset string;
  channelReadySubscriptions : gmap string (gset Z);
}.
#[export] Instance KafkaSubscription_eq_dec : EqDecision KafkaSubscription.
Proof. solve_decision. Defined.

Definition NewKafkaSubscription : KafkaSubscription := mkKafkaSubscription ∅ ∅.

Definition with_ready (ks : KafkaSubscription) (m : gmap string (gset Z)) : KafkaSubscription :=
  {| subs := subs ks; channelReadySubscriptions := m |}.

Definition SetReady (subID : string) (partition : Z) (ready : bool) (ks : KafkaSubscription) :
    KafkaSubscription :=
  let m := channelReadySubscriptions ks in
  if ready then
    match m !! subID with
    | Some ps => with_ready ks (<[subID := {[partition]} ∪ ps]> m)
    | None => with_ready ks (<[subID := {[partition]}]> m)
    end
  else
    match m !! subID with
    | Some ps =>
        let ps := ps ∖ {[partition]} in
        if decide (size ps = 0) then with_ready ks (delete subID m)
        else with_ready ks (<[subID := ps]> m)
    | None => ks
    end.

(** ** Refinement to a set of ready (subscription, partition) pairs *)
Definition ready_at (ks : KafkaSubscription) (id : string) (p : Z) : Prop :=
  ∃ ps, channelReadySubscriptions ks !! id = Some ps ∧ p ∈ ps.

(** The object stores no empty partition set. *)
Definition no_empty (ks : KafkaSubscription) : Prop :=
  ∀ id ps, channelReadySubscriptions ks !! id = Some ps → ps ≠ ∅.

Definition ready_represents (ks : KafkaSubscription) (a : gset (string * Z)) : Prop :=
  ∀ id p, (id, p) ∈ a ↔ ready_at ks id p.

Definition spec_SetReady (id : string) (p : Z) (ready : bool) (a : gset (string * Z)) :=
  if ready then {[(id, p)]} ∪ a else a ∖ {[(id, p)]}.

Lemma SetReady_subs id p b ks : subs (SetReady id p b ks) = subs ks.
Proof. unfold SetReady. by repeat case_match. Qed.

Lemma size_zero_empty (ps : gset Z) : size ps = 0 ↔ ps = ∅.
Proof. split; [intros ?%size_empty_inv; by apply leibniz_equiv|intros ->; apply size_empty]. Qed.

Lemma ready_at_set ks id p :
  ready_at ks id p ↔ p ∈ default ∅ (channelReadySubscriptions ks !! id).
Proof.
  unfold ready_at. destruct (channelReadySubscriptions ks !! id) as [ps|]; simpl.
  - split; [by intros (? & [= <-] & ?)|eauto].
  - split; [by intros (? & ? & _)|by intros ?%not_elem_of_empty].
Qed.

Lemma SetReady_lookup id p b ks id' :
  default ∅ (channelReadySubscriptions (SetReady id p b ks) !! id') =
  let ps := default ∅ (channelReadySubscriptions ks !! id') in
  if decide (id = id') then (if b then {[p]} ∪ ps else ps ∖ {[p]}) else ps.
Proof.
  unfold SetReady. destruct (decide (id = id')) as [<-|Hne].
  - destruct b, (channelReadySubscriptions ks !! id) as [ps|] eqn:E; simpl.
    + by rewrite lookup_insert_eq.
    + rewrite lookup_insert_eq. set_solver.
    + case_decide as Hsz; simpl; [|by rewrite lookup_insert_eq].
      apply size_zero_empty in Hsz. by rewrite lookup_delete_eq.
    + rewrite E. set_solver.
  - destruct b, (channelReadySubscriptions ks !! id) as [ps|] eqn:E; simpl;
      try case_decide; simpl; by rewrite ?lookup_insert_ne, ?lookup_delete_ne.
Qed.

Lemma SetReady_ready_at id p b ks id' p' :
  ready_at (SetReady id p b ks) id' p' ↔
  if b then (id', p') = (id, p) ∨ ready_at ks id' p'
  else (id', p') ≠ (id, p) ∧ ready_at ks id' p'.
Proof.
  rewrite (ready_at_set (SetReady _ _ _ _)), SetReady_lookup. cbn zeta.
  assert (Hr := ready_at_set ks id' p'). case_decide as Hid; [subst|].
  - assert (Hp : (id', p') = (id', p) ↔ p' = p) by (split; [by intros [= ->]|by intros ->]).
    destruct b; [rewrite elem_of_union|rewrite elem_of_difference];
      rewrite elem_of_singleton, Hp; tauto.
  - assert (Hp : (id', p') ≠ (id, p)) by (intros [= <- _]; done). destruct b; tauto.
Qed.

Lemma SetReady_no_empty id p b ks : no_empty ks → no_empty (SetReady id p b ks).
Proof.
  unfold no_empty, SetReady. intros H id' ps'.
  destruct b, (channelReadySubscriptions ks !! id) as [ps|] eqn:E; simpl; [| | |by apply H].
  - rewrite lookup_insert. case_decide; [intros [= <-]; set_solver|by apply H].
  - rewrite lookup_insert. case_decide; [intros [= <-]; set_solver|by apply H].
  - case_decide as Hsz; simpl.
    + rewrite lookup_delete. case_decide; [done|by apply H].
    + rewrite lookup_insert. case_decide; [|by apply H]. intros [= <-] Hempty.
      by rewrite Hempty, size_empty in Hsz.
Qed.

Lemma SetReady_represents id p b ks a :
  ready_represents ks a → ready_represents (SetReady id p b ks) (spec_SetReady id p b a).
Proof.
  intros H id' p'. rewrite SetReady_ready_at. specialize (H id' p').
  unfold spec_SetReady. destruct b; set_solver.
Qed.
#[export] Hint Resolve SetReady_no_empty SetReady_represents : ktc.

(** One [SetReady] call, as an event. *)
Record ready_event := mkReady { re_id : string; re_partition : Z; re_ready : bool }.
Definition run_ready (ks : KafkaSubscription) (e : ready_event) : KafkaSubscription :=
  SetReady (re_id e) (re_partition e) (re_ready e) ks.
Definition spec_ready (a : gset (string * Z)) (e : ready_event) : gset (string * Z) :=
  spec_SetReady (re_id e) (re_partition e) (re_ready e) a.

(** ** Properties *)

(** after any sequence of readiness reports the object holds exactly the
    pairs last reported ready, lists a subscription exactly when one of its
    partitions is ready, and leaves the set of subscriptions alone. *)
Theorem SetReady_sequence_refines (ks : KafkaSubscription) (a : gset (string * Z))
    (es : list ready_event) :
  ready_represents ks a → no_empty ks →
  let ks' := foldl run_ready ks es in
  ready_represents ks' (foldl spec_ready a es) ∧
  (∀ id, is_Some (channelReadySubscriptions ks' !! id) ↔ ∃ p, (id, p) ∈ foldl spec_ready a es) ∧
  subs ks' = subs ks.
Proof.
  intros Hrep Hne.
  assert (ready_represents (foldl run_ready ks es) (foldl spec_ready a es) ∧
          no_empty (foldl run_ready ks es) ∧ subs (foldl run_ready ks es) = subs ks)
    as (Hrep' & Hne' & Hsubs).
  { revert ks a Hrep Hne. induction es as [|e es IH]; intros ks a Hrep Hne; [done|]. simpl.
    destruct (IH (run_ready ks e) (spec_ready a e)) as (? & ? & ->);
      [unfold run_ready, spec_ready; auto with ktc..|].
    split_and!; [done|done|apply SetReady_subs]. }
  split_and!; [done| |done]. intros id. split.
  - intros [ps Hps]. destruct (set_choose_L ps) as [p Hp]; [by eapply Hne'|].
    exists p. apply Hrep'. by exists ps.
  - intros [p Hp]. apply Hrep' in Hp as (ps & ? & _). eauto.
Qed.

Lemma SetReady_sequence_refines_witness :
  let es := [mkReady "a" 0 true; mkReady "a" 1 true; mkReady "b" 0 true; mkReady "b" 0 false] in
  ready_represents (foldl run_ready NewKafkaSubscription es) (foldl spec_ready ∅ es) ∧
  channelReadySubscriptions (foldl run_ready NewKafkaSubscription es) !! "b" = None.
Proof.
  intros es. split; [|vm_compute; reflexivity].
  apply (SetReady_sequence_refines NewKafkaSubscription ∅ es).
  - intros id p. split; [by intros ?%not_elem_of_empty|by intros (? & ? & _)].
  - by intros id ps.
Defined.

(** ** The text of a subscription *)
Lemma url_line_inj c l u1 u2 r1 r2 :
  free_of newline (String c l) →
  (∀ u, u1 = Some u → well_formed u) → (∀ u, u2 = Some u → well_formed u) →
  (∀ t, r1 ≠ String c t) → (∀ t, r2 ≠ String c t) →
  url_line (String c l) u1 +:+ r1 = url_line (String c l) u2 +:+ r2 → u1 = u2 ∧ r1 = r2.
Proof.
  intros Hl H1 H2 Hr1 Hr2. unfold url_line.
  assert (Hfree : ∀ u, well_formed u → free_of newline (String c l +:+ url_String u)).
  { intros u Hu. apply free_of_append. split; [done|]. intros Hin. by apply (url_String_no_ctl u) in Hin. }
  destruct u1 as [u1|], u2 as [u2|].
  - specialize (H1 _ eq_refl). specialize (H2 _ eq_refl).
    assert (Hline : ∀ u r, (String c l +:+ (url_String u +:+ String newline "")) +:+ r = (String c l +:+ url_String u) +:+ String newline r).
    { intros u r. by rewrite <-append_assoc, append_assoc, (append_cons newline). }
    rewrite !Hline. intros [Heq ->]%append_sep_inj; [|by apply Hfree..]. split; [|done].
    apply (f_equal chars) in Heq. rewrite !chars_append in Heq. apply app_inv_head, chars_inj in Heq.
    apply (f_equal Parse) in Heq. rewrite !Parse_String in Heq by done. done.
  - intros Heq. by destruct (Hr2 _ (eq_sym Heq)).
  - intros Heq. by destruct (Hr1 _ Heq).
  - done.
Qed.

(** The logged text of a subscription tells its UID and its URLs. *)
Theorem Subscription_String_determines s1 s2
    (uid1 : free_of newline (s_UID s1)) (uid2 : free_of newline (s_UID s2))
    (urls1 : ∀ u, u ∈ [Subscriber (s_fanout s1); Reply (s_fanout s1); DeadLetter (s_fanout s1)] → ∀ v, u = Some v → well_formed v)
    (urls2 : ∀ u, u ∈ [Subscriber (s_fanout s2); Reply (s_fanout s2); DeadLetter (s_fanout s2)] → ∀ v, u = Some v → well_formed v) :
  Subscription_String s1 = Subscription_String s2 →
  s_UID s1 = s_UID s2 ∧ Subscriber (s_fanout s1) = Subscriber (s_fanout s2) ∧
  Reply (s_fanout s1) = Reply (s_fanout s2) ∧ DeadLetter (s_fanout s1) = DeadLetter (s_fanout s2).
Proof.
  unfold Subscription_String. intros Heq. apply (f_equal chars) in Heq. rewrite !(chars_append "UID: ") in Heq.
  apply app_inv_head, chars_inj, append_sep_inj in Heq as [-> Heq]; [|done..]. split; [done|].
  assert (Hd : ∀ u t c, c ≠ "D"%char → url_line "DeadLetter: " u ≠ String c t) by (intros [u|] t c Hc [= ?]; congruence).
  assert (Hr : ∀ u u' t, url_line "Reply: " u +:+ url_line "DeadLetter: " u' ≠ String "S"%char t)
    by (intros [u|] [u'|] t [=]).
  apply url_line_inj in Heq as [-> Heq]; [|by apply (bool_decide_unpack _); vm_compute|apply urls1; set_solver|apply urls2; set_solver|by intros t; apply Hr..].
  split; [done|].
  apply url_line_inj in Heq as [-> Heq]; [|by apply (bool_decide_unpack _); vm_compute|apply urls1; set_solver|apply urls2; set_solver|by intros t; apply Hd..].
  split; [done|]. rewrite <-(append_nil_r (url_line _ _)) in Heq. rewrite <-(append_nil_r (url_line _ (DeadLetter (s_fanout s2)))) in Heq.
  apply url_line_inj in Heq as [-> _]; [done|by apply (bool_decide_unpack _); vm_compute|apply urls1; set_solver|apply urls2; set_solver|done..].
Qed.
