(* ===== verification/Consumer.v ===== *)
(** * Consumer: one Kafka consumer group and its message handler

    Models [vendor/knative.dev/eventing-kafka/pkg/common/consumer]
    ([consumer_handler.go], [consumer_factory.go]), the offset marking of
    [sarama]'s sessions, and [consumer_message_handler.go] of
    [src/pkg/channel/kt/dispatcher].

    The class [KafkaConsumerHandler] is the Go interface of that name and
    [HandlerLaws] is what a session relies on; the session is proved against
    the class, and [consumerMessageHandler] is shown to be an instance.  A
    handler runs in a state [W] shared by the goroutines of the session.

    [ConsumeClaim] is the work of one goroutine when its errors are taken; the goroutines of
    a session, which block on the error channel while it is full, interleave in
    [group_step].  What reads that channel is in [ErrorChannels]. *)
From S2P Require Import Prelude GoStrings ApiTypes Sender MessageDispatcher KafkaSubscription.
Local Open Scope Z_scope.

(** [sarama.ConsumerMessage]. *)
Record ConsumerMessage := mkConsumerMessage {
  cm_Topic : string;
  cm_Partition : Z;
  cm_Offset : Z;
  cm_Value : string;
  cm_Headers : list (string * string);
}.
#[export] Instance ConsumerMessage_eq_dec : EqDecision ConsumerMessage.
Proof. solve_decision. Defined.

(** ** The interface between a session and the handler of its messages *)
Class KafkaConsumerHandler (W E : Type) := {
  Handle : ConsumerMessage → W → (bool * option E) * W;
  handler_SetReady : Z → bool → W → W;
  GetConsumerGroup : string;
}.

Class HandlerLaws (W E : Type) {handler : KafkaConsumerHandler W E} (ready : W → Z → Prop) := {
  (** handling a message does not touch readiness, *)
  Handle_ready m w p : ready (Handle m w).2 p ↔ ready w p;
  (** a report sets the readiness of one partition, *)
  handler_SetReady_ready p b w p' :
    ready (handler_SetReady p b w) p' ↔ if decide (p = p') then b = true else ready w p';
  (** and exactly the messages handled without error are to be marked. *)
  Handle_verdict m w : (Handle m w).1.1 = true ↔ (Handle m w).1.2 = None;
}.

(** ** A session ([consumer_handler.go], sarama's [consumerGroupSession]) *)

(** [offsets] is the next offset of each claimed partition ([pom.offset]),
    [errors] every error sent to the error channel so far, in order. *)
Record Session (W E : Type) := mkSession {
  world : W;
  offsets : gmap Z Z;
  errors : list E;
}.
Arguments mkSession {W E}.
Arguments world {W E}.
Arguments offsets {W E}.
Arguments errors {W E}.

Section session.
Context {W E : Type} `{KafkaConsumerHandler W E}.
Implicit Types (s : Session W E) (m : ConsumerMessage) (p : Z).

Definition with_world (w : W) s : Session W E := mkSession w (offsets s) (errors s).

(** [partitionOffsetManager.MarkOffset] of the partition's manager, if any. *)
Definition MarkOffset p (offset : Z) s : Session W E :=
  match offsets s !! p with
  | None => s
  | Some cur =>
      if decide (cur < offset) then mkSession (world s) (<[p := offset]> (offsets s)) (errors s)
      else s
  end.

Definition MarkMessage m s : Session W E := MarkOffset (cm_Partition m) (cm_Offset m + 1) s.

Definition session_SetReady p (b : bool) s : Session W E :=
  with_world (handler_SetReady p b (world s)) s.

Definition push_error (e : E) s : Session W E :=
  mkSession (world s) (offsets s) (errors s ++ [e]).

Definition mark_handled (mustMark : bool) m s : Session W E :=
  if mustMark then MarkMessage m s else s.

(** The rest of an iteration once the error channel has taken [e]. *)
Definition report_failure p m (mustMark : bool) (e : E) s : Session W E :=
  mark_handled mustMark m (session_SetReady p false (push_error e s)).

(** A whole iteration of the loop of [ConsumeClaim] on partition [p].  Its send on
    the error channel blocks while the channel is full: this is what the iteration
    does once the send has gone through; [group_step] below has the two halves as
    steps of their own, with the channel between them. *)
Definition consume_message p s m : Session W E :=
  let '((mustMark, err), w) := Handle m (world s) in
  match err with
  | Some e => report_failure p m mustMark e (with_world w s)
  | None => mark_handled mustMark m (with_world w s)
  end.

(** [ConsumeClaim]: [msgs] are the messages the claim delivers until its channel
    is closed. *)
Definition ConsumeClaim p (msgs : list ConsumerMessage) s : Session W E :=
  foldl (consume_message p) (session_SetReady p true s) msgs.

(** [Setup] and [Cleanup]; [Claims] maps a topic to its claimed partitions. *)
Definition Setup s : Session W E := s.

Definition Cleanup `{GoRuntime} (n : nat) (Claims : gmap string (list Z)) s : Session W E :=
  foldl (λ s tps, foldl (λ s p, session_SetReady p false s) s tps.2) s
    (range_order n (map_to_list Claims)).

(** ** The goroutines of a session

    Each claimed partition is consumed by its own goroutine.  [pending] are the
    claims not started yet, [running] the messages left to the goroutines that run,
    [sending] the goroutines at [consumer.errors <- err]: the message, its verdict
    and the error.  The channel has a buffer of 10 ([StartConsumerGroup]), which
    holds the errors sent that are not [taken] yet; a send on the full channel
    blocks until the reader takes one. *)
Record Group := mkGroup {
  session : Session W E;
  pending : gmap Z (list ConsumerMessage);
  running : gmap Z (list ConsumerMessage);
  sending : gmap Z (ConsumerMessage * bool * E);
  taken : nat;
}.

Definition errors_capacity : nat := 10.
Definition has_room (g : Group) : Prop := (length (errors (session g)) < taken g + errors_capacity)%nat.

Inductive group_step (g : Group) : Group → Prop :=
  | step_start p msgs :
      pending g !! p = Some msgs →
      group_step g (mkGroup (session_SetReady p true (session g))
                      (delete p (pending g)) (<[p := msgs]> (running g)) (sending g) (taken g))
  | step_handled p m msgs mustMark w :
      running g !! p = Some (m :: msgs) → sending g !! p = None →
      Handle m (world (session g)) = ((mustMark, None), w) →
      group_step g (mkGroup (mark_handled mustMark m (with_world w (session g))) (pending g)
                      (<[p := msgs]> (running g)) (sending g) (taken g))
  | step_failed p m msgs mustMark e w :
      running g !! p = Some (m :: msgs) → sending g !! p = None →
      Handle m (world (session g)) = ((mustMark, Some e), w) →
      group_step g (mkGroup (with_world w (session g)) (pending g)
                      (<[p := msgs]> (running g)) (<[p := (m, mustMark, e)]> (sending g)) (taken g))
  | step_sent p m mustMark e :
      sending g !! p = Some (m, mustMark, e) → has_room g →
      group_step g (mkGroup (report_failure p m mustMark e (session g)) (pending g)
                      (running g) (delete p (sending g)) (taken g))
  | step_taken :
      (taken g < length (errors (session g)))%nat →
      group_step g (mkGroup (session g) (pending g) (running g) (sending g) (S (taken g)))
  | step_finish p :
      running g !! p = Some [] → sending g !! p = None →
      group_step g (mkGroup (session g) (pending g) (delete p (running g)) (sending g) (taken g)).
End session.
Arguments Group : clear implicits.

(** ** The loop of [StartConsumerGroup] *)

(** The results of [consumerGroup.Consume]: [ErrClosedConsumerGroup], another
    error, or [nil]. *)
Inductive consume_result (E : Type) :=
  | ErrClosedConsumerGroup
  | ConsumeErr (e : E)
  | ConsumeOk.
Arguments ErrClosedConsumerGroup {E}.
Arguments ConsumeErr {E} e.
Arguments ConsumeOk {E}.

(** [Consume i] is the result of the [i]-th session and [done i] tells whether
    the context is cancelled right after it. The loop is unbounded in the code:
    [None] is running out of fuel. *)
Fixpoint consume_loop {E} (Consume : nat → consume_result E) (done : nat → bool)
    (fuel i : nat) : option (list E) :=
  match fuel with
  | O => None
  | S fuel =>
      match Consume i with
      | ErrClosedConsumerGroup => Some []
      | r =>
          let errorCh := match r with ConsumeErr e => [e] | _ => [] end in
          if done i then Some errorCh
          else (app errorCh) <$> consume_loop Consume done fuel (S i)
      end
  end.

(** ** [consumerMessageHandler] ([consumer_message_handler.go]) *)

(** The CloudEvents binding of Kafka messages: which content types are
    structured formats and which spec versions are known. *)
Class KafkaBinding := { format_known : string → bool; version_known : string → bool }.

(** [NewMessageFromConsumerMessage] with [ReadEncoding]: the last content type
    header decides, then the version header. *)
Definition lower_headers (cm : ConsumerMessage) : gmap string string :=
  foldl (λ h kv, <[ToLower kv.1 := kv.2]> h) ∅ (cm_Headers cm).

Definition NewMessageFromConsumerMessage `{KafkaBinding} (cm : ConsumerMessage) : Message :=
  let headers := lower_headers cm in
  let contentType := default "" (headers !! "content-type") in
  let encoding :=
    if format_known contentType then EncodingStructured
    else if version_known (default "" (headers !! "ce_specversion")) then EncodingBinary
    else EncodingUnknown in
  mkMessage encoding (cm_Value cm) None.

Inductive handle_error :=
  | UnknownEncoding
  | DispatchFailed (e : dispatch_error).

(** The state of a handler: the network, and the shared subscription object. *)
Record HandlerWorld := mkWorld { hw_net : Net; hw_obj : KafkaSubscription }.

Record consumerMessageHandler := mkHandler {
  h_sub : Subscription;
  h_consumerGroup : string;
}.

Section handler.
Context `{HttpClient, KafkaBinding}.
Implicit Types (c : consumerMessageHandler) (w : HandlerWorld).

(** No statement of [Handle] panics in the model, so its [recover] is idle. *)
Definition cmh_Handle c (cm : ConsumerMessage) w : (bool * option handle_error) * HandlerWorld :=
  let message := NewMessageFromConsumerMessage cm in
  if decide (ReadEncoding message = EncodingUnknown) then ((false, Some UnknownEncoding), w)
  else
    let sub := s_fanout (h_sub c) in
    let '((_, err), net) :=
      DispatchMessageWithRetries message ∅ (Subscriber sub) (Reply sub) (DeadLetter sub)
        (fo_RetryConfig sub) (hw_net w) in
    ((bool_decide (err = None), DispatchFailed <$> err), mkWorld net (hw_obj w)).

Definition cmh_SetReady c (partition : Z) (ready : bool) w : HandlerWorld :=
  mkWorld (hw_net w) (SetReady (s_UID (h_sub c)) partition ready (hw_obj w)).

Definition cmh_GetConsumerGroup c : string := h_consumerGroup c.

#[export] Instance consumerMessageHandler_interface c : KafkaConsumerHandler HandlerWorld handle_error := {|
  Handle := cmh_Handle c;
  handler_SetReady := cmh_SetReady c;
  GetConsumerGroup := cmh_GetConsumerGroup c;
|}.

(** Partition [p] of the handler's subscription is ready in the shared object. *)
Definition cmh_ready c w (p : Z) : Prop := ready_at (hw_obj w) (s_UID (h_sub c)) p.

#[export] Instance consumerMessageHandler_laws c :
  HandlerLaws HandlerWorld handle_error (handler := consumerMessageHandler_interface c) (cmh_ready c).
Proof.
  split.
  - intros m w p. simpl. unfold cmh_Handle, cmh_ready. case_decide; [done|]. by repeat case_match.
  - intros p b w p'. simpl. unfold cmh_ready, cmh_SetReady. simpl. rewrite SetReady_ready_at.
    case_decide as Hp; [subst|]; destruct b; naive_solver.
  - intros m w. simpl. unfold cmh_Handle. case_decide; [done|]. repeat case_match; simpl.
    rewrite bool_decide_eq_true. match goal with |- ?o = None ↔ _ => destruct o end; done.
Qed.
End handler.

(** ** One claim, in closed form *)
Section claim.
Context {W E : Type} {handler : KafkaConsumerHandler W E} {ready : W → Z → Prop}.
Context `{!HandlerLaws W E ready}.
Implicit Types (s : Session W E) (m : ConsumerMessage) (p : Z).

(** The verdicts of the handler on the messages of a claim, in order. *)
Fixpoint results p (msgs : list ConsumerMessage) s : list (ConsumerMessage * option E) :=
  match msgs with
  | [] => []
  | m :: msgs => (m, (Handle m (world s)).1.2) :: results p msgs (consume_message p s m)
  end.

(** The next offset after marking the messages [ms]. *)
Definition next_offset (cur : Z) (ms : list ConsumerMessage) : Z :=
  foldl (λ o m, Z.max o (cm_Offset m + 1)) cur ms.

Definition delivered (rs : list (ConsumerMessage * option E)) : list ConsumerMessage :=
  omap (λ r, match r.2 with None => Some r.1 | Some _ => None end) rs.

Lemma world_MarkOffset p o s : world (MarkOffset p o s) = world s.
Proof. unfold MarkOffset. by repeat case_match. Qed.

Lemma errors_MarkOffset p o s : errors (MarkOffset p o s) = errors s.
Proof. unfold MarkOffset. by repeat case_match. Qed.

Lemma offsets_MarkOffset p o s p' :
  offsets (MarkOffset p o s) !! p' =
  if decide (p = p') then Z.max o <$> offsets s !! p' else offsets s !! p'.
Proof.
  unfold MarkOffset. destruct (decide (p = p')) as [<-|Hp].
  - destruct (offsets s !! p) as [cur|] eqn:Hcur; simpl; [|done].
    case_decide; simpl; [rewrite lookup_insert_eq|rewrite Hcur]; f_equal; lia.
  - repeat case_match; simpl; rewrite ?lookup_insert_ne; done.
Qed.

Lemma session_SetReady_ready p b s p' :
  ready (world (session_SetReady p b s)) p' ↔
  if decide (p = p') then b = true else ready (world s) p'.
Proof. apply handler_SetReady_ready. Qed.

Lemma world_mark_handled b m s : world (mark_handled b m s) = world s.
Proof. unfold mark_handled. destruct b; [apply world_MarkOffset|done]. Qed.

Lemma errors_mark_handled b m s : errors (mark_handled b m s) = errors s.
Proof. unfold mark_handled. destruct b; [apply errors_MarkOffset|done]. Qed.

Lemma offsets_mark_handled b m s p' :
  offsets (mark_handled b m s) !! p' =
  if decide (cm_Partition m = p' ∧ b = true) then Z.max (cm_Offset m + 1) <$> offsets s !! p' else offsets s !! p'.
Proof.
  unfold mark_handled, MarkMessage. destruct b; [rewrite offsets_MarkOffset|by rewrite decide_False by naive_solver].
  destruct (decide (cm_Partition m = p')); [rewrite decide_True|rewrite decide_False]; naive_solver.
Qed.

Lemma report_failure_ready p m b e s p' :
  ready (world (report_failure p m b e s)) p' ↔ p' ≠ p ∧ ready (world s) p'.
Proof.
  unfold report_failure. rewrite world_mark_handled, session_SetReady_ready. simpl. case_decide; naive_solver.
Qed.

Lemma Handle_ok_marks m w w' b : Handle m w = ((b, None), w') → b = true.
Proof. pose proof (Handle_verdict (ready := ready) m w) as [_ Hv]. intros Hh. rewrite Hh in Hv. by apply Hv. Qed.

Lemma Handle_failed_unmarked m w w' b e : Handle m w = ((b, Some e), w') → b = false.
Proof.
  intros Hh. pose proof (Handle_verdict (ready := ready) m w) as Hv. rewrite Hh in Hv. simpl in Hv.
  destruct b; [|done]. by destruct Hv as [Hv _]; discriminate (Hv eq_refl).
Qed.

Lemma consume_message_ready p s m p' :
  ready (world (consume_message p s m)) p' ↔
  ready (world s) p' ∧ (p' = p → (Handle m (world s)).1.2 = None).
Proof.
  unfold consume_message. pose proof (Handle_ready m (world s) p') as Hr.
  destruct (Handle m (world s)) as [[b [e|]] w]; simpl in *.
  - rewrite report_failure_ready. simpl. naive_solver.
  - rewrite world_mark_handled. simpl. naive_solver.
Qed.

Lemma consume_message_errors p s m :
  errors (consume_message p s m) = errors s ++ option_list (Handle m (world s)).1.2.
Proof.
  unfold consume_message, report_failure. destruct (Handle m (world s)) as [[b [e|]] w];
    rewrite errors_mark_handled; simpl; by rewrite ?app_nil_r.
Qed.

Lemma consume_message_offsets p s m p' :
  offsets (consume_message p s m) !! p' =
  if decide (cm_Partition m = p' ∧ (Handle m (world s)).1.2 = None)
  then Z.max (cm_Offset m + 1) <$> offsets s !! p' else offsets s !! p'.
Proof.
  unfold consume_message, report_failure. destruct (Handle m (world s)) as [[b [e|]] w] eqn:Hh; simpl;
    rewrite offsets_mark_handled; simpl.
  - apply Handle_failed_unmarked in Hh as ->. by rewrite !decide_False by naive_solver.
  - apply Handle_ok_marks in Hh as ->. destruct (decide (cm_Partition m = p'));
      [rewrite !decide_True|rewrite !decide_False]; naive_solver.
Qed.

Lemma consume_messages_ready p msgs : ∀ s p',
  ready (world (foldl (consume_message p) s msgs)) p' ↔
  ready (world s) p' ∧ (p' = p → Forall (λ r, r.2 = None) (results p msgs s)).
Proof.
  induction msgs as [|m msgs IH]; intros s p'; simpl; [naive_solver|].
  rewrite IH, consume_message_ready, Forall_cons. naive_solver.
Qed.

Lemma consume_messages_errors p msgs : ∀ s,
  errors (foldl (consume_message p) s msgs) = errors s ++ omap snd (results p msgs s).
Proof.
  induction msgs as [|m msgs IH]; intros s; simpl; [by rewrite app_nil_r|].
  rewrite IH, consume_message_errors, <-app_assoc.
  destruct (Handle m (world s)) as [[b [e|]] w]; done.
Qed.

Lemma consume_messages_offsets p msgs : ∀ s p',
  Forall (λ m, cm_Partition m = p) msgs →
  offsets (foldl (consume_message p) s msgs) !! p' =
  if decide (p' = p)
  then (λ cur, next_offset cur (delivered (results p msgs s))) <$> offsets s !! p'
  else offsets s !! p'.
Proof.
  induction msgs as [|m msgs IH]; intros s p' Hall; simpl.
  - case_decide; [|done]. by destruct (offsets s !! p').
  - apply Forall_cons in Hall as [Hm Hall]. rewrite IH by done. rewrite consume_message_offsets.
    case_decide as Hp; [subst p'|rewrite decide_False by naive_solver; done].
    destruct ((Handle m (world s)).1.2) as [e|] eqn:He; simpl.
    + by rewrite decide_False by naive_solver.
    + rewrite decide_True by done. destruct (offsets s !! p); simpl; [|done].
      f_equal. unfold next_offset, delivered. simpl. by rewrite Z.max_comm.
Qed.
End claim.

(** ** All interleavings of a session *)
Section group.
Context {W E : Type} {handler : KafkaConsumerHandler W E} {ready : W → Z → Prop}.
Context `{!HandlerLaws W E ready}.
Implicit Types (s : Session W E) (m : ConsumerMessage) (p : Z) (g : Group W E).

(** The messages of partition [p] not handled yet. *)
Definition left_of g p : option (list ConsumerMessage) :=
  match running g !! p with Some msgs => Some msgs | None => pending g !! p end.

Definition increasing (msgs : list ConsumerMessage) : Prop :=
  StronglySorted (λ m m', cm_Offset m < cm_Offset m') msgs.

(** A claim: the messages of one partition, in offset order, from the next
    offset on. *)
Definition claim_ok p (cur : Z) (msgs : list ConsumerMessage) : Prop :=
  Forall (λ m, cm_Partition m = p ∧ cur ≤ cm_Offset m) msgs ∧ increasing msgs.

Record group_inv g : Prop := {
  gi_pending p msgs : pending g !! p = Some msgs →
    running g !! p = None ∧ ¬ ready (world (session g)) p;
  gi_sending p m b e : sending g !! p = Some (m, b, e) → is_Some (running g !! p) ∧ b = false;
  gi_left p msgs : left_of g p = Some msgs →
    ∃ cur, offsets (session g) !! p = Some cur ∧ claim_ok p cur msgs;
  gi_ready p msgs : errors (session g) = [] → running g !! p = Some msgs →
    ready (world (session g)) p;
  gi_taken : (taken g ≤ length (errors (session g)))%nat;
}.

(** The number of steps a group can still make is below [group_work]: a message is
    handled, its error is sent and then taken. *)
Definition work (extra : nat) (ms : gmap Z (list ConsumerMessage)) : nat :=
  map_fold (λ _ l n, (3 * length l + extra + n)%nat) 0%nat ms.
Definition group_work g : nat :=
  (work 2 (pending g) + work 1 (running g) + 2 * size (sending g) + (length (errors (session g)) - taken g))%nat.

Lemma work_insert extra ms p l :
  ms !! p = None → work extra (<[p:=l]> ms) = (3 * length l + extra + work extra ms)%nat.
Proof.
  intros Hp. unfold work. rewrite map_fold_insert_L; [done| |done].
  intros. lia.
Qed.

Lemma work_delete extra ms p l :
  ms !! p = Some l → work extra ms = (3 * length l + extra + work extra (delete p ms))%nat.
Proof.
  intros Hp. rewrite <-(insert_delete_id ms p l Hp) at 1.
  apply work_insert. apply lookup_delete_eq.
Qed.

Lemma work_update extra ms p l l' :
  ms !! p = Some l → (work extra (<[p:=l']> ms) + 3 * length l = work extra ms + 3 * length l')%nat.
Proof.
  intros Hp. rewrite (work_delete extra ms p l Hp), <-insert_delete_eq, work_insert;
    [lia|apply lookup_delete_eq].
Qed.

Lemma group_step_work g g' :
  group_inv g → group_step g g' → (group_work g' < group_work g)%nat.
Proof.
  intros Hinv Hstep. pose proof (gi_taken _ Hinv) as Ht. unfold group_work.
  destruct Hstep as [p msgs Hp|p m msgs b w Hp Hs Hh|p m msgs b e w Hp Hs Hh|p m b e Hs Hroom|Hlt|p Hp Hs]; simpl.
  - destruct (gi_pending _ Hinv _ _ Hp) as [Hr _].
    rewrite (work_delete 2 _ _ _ Hp), work_insert by done. lia.
  - rewrite errors_mark_handled. pose proof (work_update 1 _ _ _ msgs Hp) as Hw. simpl in *. lia.
  - pose proof (work_update 1 _ _ _ msgs Hp) as Hw. rewrite map_size_insert_None by done. simpl in *. lia.
  - unfold report_failure. rewrite errors_mark_handled, map_size_delete, Hs. simpl. rewrite length_app. simpl.
    assert (size (sending g) ≠ 0%nat) by (intros Hz%map_size_empty_inv; by rewrite Hz in Hs). lia.
  - lia.
  - rewrite (work_delete 1 _ _ _ Hp). simpl. lia.
Qed.

Lemma claim_ok_tail p cur m msgs : claim_ok p cur (m :: msgs) →
  claim_ok p cur msgs ∧ claim_ok p (Z.max (cm_Offset m + 1) cur) msgs ∧ cm_Partition m = p.
Proof.
  intros [[[Hm Hcur] Hall]%Forall_cons Hs]. apply StronglySorted_inv in Hs as [Hs Hlt].
  split_and!; [done| |done]. split; [|done].
  apply Forall_forall. intros m' Hm'. rewrite Forall_forall in Hall, Hlt.
  destruct (Hall _ Hm'). specialize (Hlt _ Hm'). split; [done|lia].
Qed.

(** Marking a handled message of [p] keeps the claims: only the offset of [p] moves. *)
Lemma mark_handled_claim p b s m msgs :
  (∃ cur, offsets s !! p = Some cur ∧ claim_ok p cur (m :: msgs)) →
  ∃ cur, offsets (mark_handled b m s) !! p = Some cur ∧ claim_ok p cur msgs.
Proof.
  intros (cur & Hcur & Hclaim). apply claim_ok_tail in Hclaim as (H1 & H2 & Hm).
  rewrite offsets_mark_handled, Hcur. case_decide; simpl; eauto.
Qed.

Lemma left_of_running ss pe ru se t p msgs p' :
  left_of (mkGroup ss pe (<[p:=msgs]> ru) se t) p' =
  if decide (p = p') then Some msgs else left_of (mkGroup ss pe ru se t) p'.
Proof. unfold left_of. simpl. rewrite lookup_insert. by case_decide. Qed.

Lemma claim_start_inv g p msgs :
  group_inv g → pending g !! p = Some msgs →
  group_inv (mkGroup (session_SetReady p true (session g)) (delete p (pending g)) (<[p := msgs]> (running g)) (sending g) (taken g)).
Proof.
  intros Hinv Hp. destruct (gi_pending _ Hinv _ _ Hp) as [Hr Hnr]. split.
  - intros p' msgs' Hp'. simpl in Hp'. apply lookup_delete_Some in Hp' as [Hne Hp'].
    destruct (gi_pending _ Hinv _ _ Hp') as [? Hnr'].
    cbn [running session]. rewrite session_SetReady_ready, lookup_insert_ne, decide_False; done.
  - intros p' m b e Hs. destruct (gi_sending _ Hinv _ _ _ _ Hs) as [Hrun ?]. split; [|done].
    simpl. rewrite lookup_insert. case_decide; [by eexists|done].
  - intros p' msgs'. rewrite left_of_running. unfold session_SetReady. simpl. case_decide as Hpp.
    + intros [= <-]. subst p'. apply (gi_left _ Hinv). unfold left_of. by rewrite Hr.
    + intros Hl. apply (gi_left _ Hinv). revert Hl. unfold left_of. simpl. by rewrite lookup_delete_ne.
  - intros p' msgs' He Hl. cbn [running session] in *.
    rewrite session_SetReady_ready. case_decide as Hpp; [done|].
    rewrite lookup_insert_ne in Hl by done. by eapply (gi_ready _ Hinv).
  - apply (gi_taken _ Hinv).
Qed.

(** The first message of a running claim leaves it: the session keeps the errors and
    the readiness, and moves at most the offset of the claim. *)
Lemma handled_inv g p m msgs b w se :
  group_inv g → running g !! p = Some (m :: msgs) → (∀ p', ready w p' ↔ ready (world (session g)) p') →
  (∀ p' m' b' e', se !! p' = Some (m', b', e') → p' = p ∧ b' = false ∨ sending g !! p' = Some (m', b', e')) →
  group_inv (mkGroup (mark_handled b m (with_world w (session g))) (pending g) (<[p := msgs]> (running g)) se (taken g)).
Proof.
  intros Hinv Hp Hw Hse.
  assert (Hleft : left_of g p = Some (m :: msgs)) by (unfold left_of; by rewrite Hp).
  apply (gi_left _ Hinv) in Hleft. pose proof Hleft as (cur & _ & Hclaim).
  apply claim_ok_tail in Hclaim as (_ & _ & Hm).
  split; cbn [pending running session sending taken]; rewrite ?world_mark_handled, ?errors_mark_handled; simpl.
  - intros p' msgs' Hp'. destruct (gi_pending _ Hinv _ _ Hp') as [Hr Hnr].
    rewrite lookup_insert_ne by congruence. by rewrite Hw.
  - intros p' m' b' e' Hs. rewrite lookup_insert. destruct (Hse _ _ _ _ Hs) as [[-> ?]|Hs'].
    + by rewrite decide_True.
    + destruct (gi_sending _ Hinv _ _ _ _ Hs') as [? ?]. by case_decide.
  - intros p' msgs'. rewrite left_of_running. case_decide as Hpp.
    + intros [= <-]. subst p'. by apply mark_handled_claim.
    + intros Hl. rewrite offsets_mark_handled, decide_False by naive_solver. apply (gi_left _ Hinv). exact Hl.
  - intros p' msgs' He Hl. rewrite Hw. rewrite lookup_insert in Hl. case_decide; [subst|]; by eapply (gi_ready _ Hinv).
  - apply (gi_taken _ Hinv).
Qed.

Lemma sent_inv g p m b e :
  group_inv g → sending g !! p = Some (m, b, e) →
  group_inv (mkGroup (report_failure p m b e (session g)) (pending g) (running g) (delete p (sending g)) (taken g)).
Proof.
  intros Hinv Hs. destruct (gi_sending _ Hinv _ _ _ _ Hs) as [[l Hrun] ->]. split; cbn [pending running session sending taken].
  - intros p' msgs' Hp'. destruct (gi_pending _ Hinv _ _ Hp') as [Hr Hnr]. split; [done|].
    rewrite (report_failure_ready (ready := ready)). naive_solver.
  - intros p' m' b' e' Hs'%lookup_delete_Some. apply (gi_sending _ Hinv _ m' _ e'). apply Hs'.
  - apply (gi_left _ Hinv).
  - intros p' msgs' He. exfalso. unfold report_failure in He. rewrite errors_mark_handled in He. by apply app_eq_nil in He as [_ ?].
  - unfold report_failure. rewrite errors_mark_handled. simpl. rewrite length_app. pose proof (gi_taken _ Hinv). simpl. lia.
Qed.

Lemma finish_inv g p :
  group_inv g → running g !! p = Some [] → sending g !! p = None →
  group_inv (mkGroup (session g) (pending g) (delete p (running g)) (sending g) (taken g)).
Proof.
  intros Hinv Hp Hs. split; cbn [pending running session sending taken].
  - intros p' msgs' Hp'. destruct (gi_pending _ Hinv _ _ Hp') as [Hr Hnr].
    split; [|done]. rewrite lookup_delete. by case_decide.
  - intros p' m b e Hs'. rewrite lookup_delete_ne by congruence. by apply (gi_sending _ Hinv) in Hs'.
  - intros p' msgs' Hl. apply (gi_left _ Hinv). revert Hl. unfold left_of. simpl.
    rewrite lookup_delete. case_decide; [subst|done]. rewrite Hp. intros Hp'.
    by destruct (gi_pending _ Hinv _ _ Hp') as [? _]; congruence.
  - intros p' msgs' He Hl. apply lookup_delete_Some in Hl as [_ Hl]. by eapply (gi_ready _ Hinv).
  - apply (gi_taken _ Hinv).
Qed.

Lemma group_step_inv g g' : group_inv g → group_step g g' → group_inv g'.
Proof.
  intros Hinv Hstep.
  destruct Hstep as [p msgs Hp|p m msgs b w Hp Hs Hh|p m msgs b e w Hp Hs Hh|p m b e Hs Hroom|Hlt|p Hp Hs].
  - by apply claim_start_inv.
  - apply handled_inv; [done..| |naive_solver]. intros p'.
    pose proof (Handle_ready m (world (session g)) p') as Hr. by rewrite Hh in Hr.
  - apply (handled_inv g p m msgs false); [done..| |].
    + intros p'. pose proof (Handle_ready m (world (session g)) p') as Hr. by rewrite Hh in Hr.
    + intros p' m' b' e' [[-> [= <- <- <-]]|[_ ?]]%lookup_insert_Some; [left|by right].
      split; [done|]. by eapply (Handle_failed_unmarked (ready := ready)).
  - by apply sent_inv.
  - destruct Hinv. by split; simpl; [..|lia].
  - by apply finish_inv.
Qed.

Lemma group_steps_inv g g' : group_inv g → rtc group_step g g' → group_inv g'.
Proof. intros Hinv Hsteps. induction Hsteps; [done|]. eauto using group_step_inv. Qed.
End group.

(** ** Properties *)
Section properties.
Context {W E : Type} {handler : KafkaConsumerHandler W E} {ready : W → Z → Prop}.
Context `{!HandlerLaws W E ready}.
Implicit Types (s : Session W E) (m : ConsumerMessage) (p : Z) (g : Group W E).

Lemma next_offset_app cur l1 l2 : next_offset cur (l1 ++ l2) = next_offset (next_offset cur l1) l2.
Proof. apply foldl_app. Qed.

Lemma next_offset_ge cur ms : cur ≤ next_offset cur ms.
Proof. unfold next_offset. revert cur. induction ms as [|m ms IH]; intros cur; simpl; [done|]. specialize (IH (Z.max cur (cm_Offset m + 1))). lia. Qed.

Lemma next_offset_elem cur ms m : m ∈ ms → cm_Offset m < next_offset cur ms.
Proof.
  intros Hm. apply list_elem_of_split in Hm as (l1 & l2 & ->).
  rewrite next_offset_app. change (next_offset ?o (m :: l2)) with (next_offset (Z.max o (cm_Offset m + 1)) l2).
  pose proof (next_offset_ge (Z.max (next_offset cur l1) (cm_Offset m + 1)) l2). lia.
Qed.

(** consuming a claim reports each handler error once and in order, leaves
    the partition ready exactly when no message failed, moves its next offset
    past exactly the delivered messages, and touches no other partition. *)
Theorem ConsumeClaim_spec p (msgs : list ConsumerMessage) s :
  Forall (λ m, cm_Partition m = p) msgs →
  let s0 := session_SetReady p true s in
  let rs := results p msgs s0 in
  let s' := ConsumeClaim p msgs s in
  errors s' = errors s ++ omap snd rs ∧
  (ready (world s') p ↔ Forall (λ r, r.2 = None) rs) ∧
  offsets s' !! p = (λ cur, next_offset cur (delivered rs)) <$> offsets s !! p ∧
  (∀ p', p' ≠ p → (ready (world s') p' ↔ ready (world s) p') ∧ offsets s' !! p' = offsets s !! p').
Proof.
  intros Hall s0 rs s'. unfold s', ConsumeClaim, rs. fold s0. split_and!.
  - by rewrite consume_messages_errors.
  - rewrite consume_messages_ready. unfold s0. rewrite session_SetReady_ready, decide_True by done. naive_solver.
  - by rewrite consume_messages_offsets, decide_True by done.
  - intros p' Hp'. rewrite consume_messages_ready, consume_messages_offsets, decide_False by done.
    unfold s0. rewrite session_SetReady_ready, decide_False by done. naive_solver.
Qed.

(** C12: in every interleaving of the goroutines of a session, a message not
    handled yet is at or beyond the next offset of its partition (it will be
    delivered again, never lost), no partition is ready before its consumer
    starts, and as long as no error was reported every running one is ready. *)
Theorem session_keeps_unhandled_messages g0 g :
  group_inv (ready := ready) g0 → rtc group_step g0 g →
  (∀ p msgs m, left_of g p = Some msgs → m ∈ msgs →
     ∃ cur, offsets (session g) !! p = Some cur ∧ cur ≤ cm_Offset m) ∧
  (∀ p, is_Some (pending g !! p) → ¬ ready (world (session g)) p) ∧
  (∀ p, errors (session g) = [] → is_Some (running g !! p) → ready (world (session g)) p).
Proof.
  intros Hinv Hsteps. eapply group_steps_inv in Hsteps; [|done]. split_and!.
  - intros p msgs m Hl Hm. apply (gi_left _ Hsteps) in Hl as (cur & ? & [Hall _]).
    rewrite Forall_forall in Hall. exists cur. split; [done|]. by apply Hall.
  - intros p [msgs Hp]. by apply (gi_pending _ Hsteps) in Hp as [_ ?].
  - intros p He [msgs Hp]. by eapply (gi_ready _ Hsteps).
Qed.

(** A session never deadlocks on its error channel and comes to an end: as long as the
    reader takes the errors, every run has at most [group_work] steps, and one is
    possible until every claim is consumed, every error sent and taken.  What is stuck
    without the reader is a goroutine that has an error to send while 10 wait. *)
Theorem session_terminates g0 :
  group_inv (ready := ready) g0 →
  (∀ n g, nsteps group_step n g0 g → n ≤ group_work g0)%nat ∧
  (∀ g, rtc group_step g0 g →
     (pending g = ∅ ∧ running g = ∅ ∧ sending g = ∅ ∧ taken g = length (errors (session g))) ∨
     ∃ g', group_step g g').
Proof.
  intros Hinv. split.
  - intros n. revert g0 Hinv. induction n as [|n IH]; intros g0 Hinv g Hn; [lia|].
    inversion Hn as [|? ? g1 ? Hstep Hrest]; subst.
    pose proof (group_step_work _ _ Hinv Hstep).
    specialize (IH g1 (group_step_inv _ _ Hinv Hstep) g Hrest). lia.
  - intros g Hg. pose proof (group_steps_inv _ _ Hinv Hg) as I. pose proof (gi_taken _ I) as Ht.
    destruct (decide (taken g < length (errors (session g)))%nat) as [Hlt|Hge]; [right; eexists; by apply step_taken|].
    destruct (map_choose_or_empty (sending g)) as [(p & ((m & b) & e) & Hs)|Hse].
    { right. eexists. apply (step_sent g p m b e); [done|]. unfold has_room, errors_capacity. lia. }
    destruct (map_choose_or_empty (running g)) as [(p & msgs & Hp)|Hru].
    { right. assert (Hs : sending g !! p = None) by by rewrite Hse.
      destruct msgs as [|m msgs]; [eexists; by apply (step_finish g p)|].
      destruct (Handle m (world (session g))) as [[b [e|]] w] eqn:Hh; eexists;
        [by eapply step_failed|by eapply step_handled]. }
    destruct (map_choose_or_empty (pending g)) as [(p & msgs & Hp)|Hpe].
    { right. eexists. by apply (step_start g p msgs). }
    left. split_and!; try done. lia.
Qed.

(** Leaving a session makes exactly the claimed partitions not ready. *)
Theorem Cleanup_unready `{GoRuntime} (n : nat) (Claims : gmap string (list Z)) s p :
  ready (world (Cleanup n Claims s)) p ↔
  ready (world s) p ∧ ¬ ∃ topic ps, Claims !! topic = Some ps ∧ p ∈ ps.
Proof.
  assert (Hps : ∀ ps s, ready (world (foldl (λ s p, session_SetReady p false s) s ps)) p ↔
                        ready (world s) p ∧ p ∉ ps).
  { induction ps as [|p' ps IH]; intros s'; cbn [foldl]; [set_solver|].
    rewrite IH, session_SetReady_ready, not_elem_of_cons. case_decide; naive_solver. }
  unfold Cleanup.
  assert (Hl : ∀ l s, ready (world (foldl (λ s tps, foldl (λ s p, session_SetReady p false s) s tps.2) s l)) p ↔
                      ready (world s) p ∧ ¬ ∃ (topic : string) (ps : list Z), (topic, ps) ∈ l ∧ p ∈ ps).
  { induction l as [|[t ps] l IH]; intros s'; cbn [foldl].
    - split; [intros ?; split; [done|]|by intros [? _]]. by intros (? & ? & ?%elem_of_nil & _).
    - rewrite IH, Hps. setoid_rewrite elem_of_cons. simpl. naive_solver. }
  rewrite Hl. setoid_rewrite range_order_perm. by setoid_rewrite elem_of_map_to_list.
Qed.

(** A message whose handling failed is not delivered again once a later
    message of the same claim is: the next offset is beyond it. *)
Theorem failed_message_passed_over p s l1 l2 m m' e (cur : Z) :
  let msgs := l1 ++ m :: l2 in
  let rs := results p msgs (session_SetReady p true s) in
  Forall (λ m, cm_Partition m = p) msgs →
  increasing msgs → (m, Some e) ∈ rs → (m', None) ∈ rs → m' ∈ l2 →
  offsets s !! p = Some cur →
  ∃ next, offsets (ConsumeClaim p msgs s) !! p = Some next ∧ cm_Offset m < next.
Proof.
  intros msgs rs Hall Hinc _ Hm' Hin Hcur. unfold ConsumeClaim.
  rewrite consume_messages_offsets, decide_True by done.
  change (offsets (session_SetReady p true s)) with (offsets s). rewrite Hcur. simpl.
  eexists. split; [done|].
  assert (Hlt : cm_Offset m < cm_Offset m').
  { unfold increasing, msgs in Hinc. apply StronglySorted_app_1_r in Hinc.
    apply StronglySorted_inv in Hinc as [_ Hf]. rewrite Forall_forall in Hf. by apply Hf. }
  assert (Hd : m' ∈ delivered rs).
  { unfold delivered. apply list_elem_of_omap. by exists (m', None). }
  pose proof (next_offset_elem cur _ _ Hd). fold msgs. fold rs. lia.
Qed.
End properties.

(** The errors of the sessions before the [k]-th. *)
Definition consume_errors {E} (Consume : nat → consume_result E) (i k : nat) : list E :=
  omap (λ j, match Consume j with ConsumeErr e => Some e | _ => None end) (seq i k).

Lemma consume_loop_end {E} (Consume : nat → consume_result E) (done : nat → bool) k : ∀ i fuel,
  (k < fuel)%nat →
  (∀ j, (j < k)%nat → Consume (i + j)%nat ≠ ErrClosedConsumerGroup ∧ done (i + j)%nat = false) →
  (Consume (i + k)%nat = ErrClosedConsumerGroup ∨ done (i + k)%nat = true) →
  consume_loop Consume done fuel i = Some (consume_errors Consume i (S k)).
Proof.
  induction k as [|k IH]; intros i [|fuel] Hfuel Hrun Hend; try lia; simpl.
  - rewrite Nat.add_0_r in Hend. unfold consume_errors. simpl.
    destruct (Consume i); [done| |]; (destruct Hend as [?|Hend]; [done|by rewrite Hend]).
  - destruct (Hrun 0%nat) as [Hc Hd]; [lia|]. rewrite Nat.add_0_r in Hc, Hd.
    assert (Hrec : consume_loop Consume done fuel (S i) = Some (consume_errors Consume (S i) (S k))).
    { apply IH; [lia| |by rewrite <-Nat.add_succ_comm in Hend].
      intros j Hj. rewrite Nat.add_succ_comm. apply Hrun. lia. }
    rewrite Hrec, Hd. unfold consume_errors. cbn [seq omap list_omap fmap option_fmap option_map].
    by destruct (Consume i).
Qed.

(** the goroutine of a consumer group runs sessions until the group is closed
    or its context cancelled, at the first session after which that holds, and
    forwards exactly the errors of the sessions it ran. *)
Theorem consume_loop_terminates {E} (Consume : nat → consume_result E) (done : nat → bool) (k : nat) :
  (Consume k = ErrClosedConsumerGroup ∨ done k = true) →
  ∃ last, (last ≤ k)%nat ∧
    ∀ fuel, (k < fuel)%nat →
      consume_loop Consume done fuel 0 = Some (consume_errors Consume 0 (S last)).
Proof.
  intros Hk.
  set (P j := Consume j = ErrClosedConsumerGroup ∨ done j = true).
  assert (HP : ∀ j, Decision (P j)).
  { intros j. unfold P. destruct (done j) eqn:Hd, (Consume j) eqn:Hc;
      first [left; by auto|right; intros [?|?]; congruence]. }
  assert (Hfirst : ∃ last, (last ≤ k)%nat ∧ P last ∧ ∀ j, (j < last)%nat → ¬ P j).
  { induction k as [k IH] using lt_wf_ind.
    destruct (decide (Exists P (seq 0 k))) as [Hex|Hnex].
    - apply Exists_exists in Hex as (j & Hj%elem_of_seq & HPj).
      destruct (IH j) as (last & ? & ?); [lia|done|]. exists last. split; [lia|done].
    - exists k. split; [lia|]. split; [done|]. intros j Hj HPj. apply Hnex, Exists_exists.
      exists j. split; [|done]. apply elem_of_seq. lia. }
  destruct Hfirst as (last & Hlast & HPl & Hmin). exists last. split; [done|].
  intros fuel Hfuel. apply consume_loop_end; [lia| |done].
  intros j Hj. specialize (Hmin j Hj). unfold P in Hmin. simpl.
  split; [tauto|]. destruct (done j); tauto.
Qed.

(** the handler of a subscription marks a Kafka message as consumed exactly
    when it is a CloudEvent that there was nobody to send to or whose last
    recipient (subscriber, reply or dead letter sink) accepted it with a 2xx. *)
Theorem Handle_marks_delivered `{HttpClient, KafkaBinding} (c : consumerMessageHandler)
    (cm : ConsumerMessage) (w : HandlerWorld) :
  local_ok →
  let sub := s_fanout (h_sub c) in
  let '((mustMark, err), w') := cmh_Handle c cm w in
  mustMark = true ↔
    ReadEncoding (NewMessageFromConsumerMessage cm) ≠ EncodingUnknown ∧
    ((Subscriber sub = None ∧ Reply sub = None) ∨
     (length (sent (hw_net w)) < length (sent (hw_net w')) ∧ last_accepted (hw_net w'))%nat).
Proof.
  intros Hlo sub. unfold cmh_Handle. case_decide as Henc; [by split; [|intros [? _]]|].
  destruct (DispatchMessageWithRetries _ _ _ _ _ _ _) as [[i e] net] eqn:Hd.
  apply dispatch_success_iff in Hd; [|done|done]. rewrite bool_decide_eq_true, Hd. tauto.
Qed.

(** ** Witnesses *)
Definition demo_binding : KafkaBinding := {|
  format_known s := bool_decide (s = "application/cloudevents+json");
  version_known s := bool_decide (s = "1.0");
|}.
Definition demo_cm (offset : Z) (version : string) : ConsumerMessage :=
  mkConsumerMessage "topic" 0 offset "payload" [("ce_specversion", version)].
Definition demo_sub (host : string) : Subscription :=
  mkSubscription "u1" (mkFanout (Some (http_url host)) None None None).
Definition demo_handler : consumerMessageHandler := mkHandler (demo_sub "dls") "kafka.ns.ch.u1".
#[local] Instance demo_interface : KafkaConsumerHandler HandlerWorld handle_error :=
  consumerMessageHandler_interface (H := sink_client) (H0 := demo_binding) demo_handler.
#[local] Instance demo_laws : HandlerLaws HandlerWorld handle_error (cmh_ready demo_handler) :=
  consumerMessageHandler_laws (H := sink_client) (H0 := demo_binding) demo_handler.
Definition demo_session : Session HandlerWorld handle_error :=
  mkSession (mkWorld (mkNet [] [] []) NewKafkaSubscription) {[0 := 7]} [].
(** A bad message (unknown encoding) followed by a good one. *)
Definition demo_claim : list ConsumerMessage := [demo_cm 7 "0.0"; demo_cm 8 "1.0"].

Lemma ConsumeClaim_spec_witness :
  let s' := ConsumeClaim 0 demo_claim demo_session in
  errors s' = [UnknownEncoding] ∧ offsets s' !! 0 = Some 9 ∧ ¬ cmh_ready demo_handler (world s') 0.
Proof.
  cbv zeta. destruct (ConsumeClaim_spec (ready := cmh_ready demo_handler) 0 demo_claim demo_session)
    as (He & Hr & Ho & _); [by repeat constructor|].
  split_and!; [by rewrite He; vm_compute|by rewrite Ho; vm_compute|].
  rewrite Hr. intros Hall. apply Forall_cons in Hall as [Hbad _]. discriminate Hbad.
Defined.

Lemma failed_message_passed_over_witness :
  ∃ next, offsets (ConsumeClaim 0 demo_claim demo_session) !! 0 = Some next ∧ 7 < next.
Proof.
  apply (failed_message_passed_over (ready := cmh_ready demo_handler) 0 demo_session [] [demo_cm 8 "1.0"]
    (demo_cm 7 "0.0") (demo_cm 8 "1.0") UnknownEncoding 7).
  - by repeat constructor.
  - repeat constructor; by vm_compute.
  - apply list_elem_of_here.
  - apply list_elem_of_further, list_elem_of_here.
  - apply list_elem_of_here.
  - reflexivity.
Defined.

Definition demo_group : Group HandlerWorld handle_error :=
  mkGroup demo_session {[0 := demo_claim]} ∅ ∅ 0.

Lemma demo_group_inv : group_inv (ready := cmh_ready demo_handler) demo_group.
Proof.
  split.
  - intros p msgs _. split; [done|]. by intros (? & ? & _).
  - intros p m b e Hs. simpl in Hs. by rewrite lookup_empty in Hs.
  - intros p msgs. unfold left_of. simpl. rewrite lookup_empty.
    intros [<- <-]%lookup_singleton_Some. exists 7. split; [done|].
    split; repeat constructor; by vm_compute.
  - intros p msgs _ Hr. simpl in Hr. by rewrite lookup_empty in Hr.
  - done.
Qed.

(** The claim has started; its first message has failed; its error was sent. *)
Definition demo_started : Group HandlerWorld handle_error :=
  mkGroup (session_SetReady 0 true demo_session) ∅ {[0 := demo_claim]} ∅ 0.
Definition demo_failed : Group HandlerWorld handle_error :=
  mkGroup (session demo_started) ∅ {[0 := [demo_cm 8 "1.0"]]} {[0 := (demo_cm 7 "0.0", false, UnknownEncoding)]} 0.
Definition demo_halfway : Group HandlerWorld handle_error :=
  mkGroup (consume_message 0 (session demo_started) (demo_cm 7 "0.0")) ∅ {[0 := [demo_cm 8 "1.0"]]} ∅ 0.

Lemma demo_halfway_reached : rtc group_step demo_group demo_halfway.
Proof.
  apply (rtc_l _ _ demo_started).
  - apply (step_start demo_group 0 demo_claim). reflexivity.
  - apply (rtc_l _ _ demo_failed).
    + by apply (step_failed demo_started 0 (demo_cm 7 "0.0") [demo_cm 8 "1.0"] false UnknownEncoding).
    + apply rtc_once. apply (step_sent demo_failed 0 (demo_cm 7 "0.0") false UnknownEncoding); [reflexivity|].
      vm_compute. lia.
Qed.

Lemma session_keeps_unhandled_messages_witness :
  ∃ cur, offsets (session demo_halfway) !! 0 = Some cur ∧ cur ≤ 8.
Proof.
  destruct (session_keeps_unhandled_messages (ready := cmh_ready demo_handler) demo_group demo_halfway
    demo_group_inv demo_halfway_reached) as (Hkeep & _).
  apply (Hkeep 0 [demo_cm 8 "1.0"] (demo_cm 8 "1.0")); [reflexivity|apply list_elem_of_here].
Defined.

Lemma consume_loop_terminates_witness :
  let Consume n := if decide (n = 2)%nat then ErrClosedConsumerGroup else ConsumeErr n in
  ∃ last, (last ≤ 2)%nat ∧ ∀ fuel, (2 < fuel)%nat →
    consume_loop Consume (λ _, false) fuel 0 = Some (consume_errors Consume 0 (S last)).
Proof. intros Consume. apply (consume_loop_terminates Consume (λ _, false) 2). by left. Defined.

Lemma Handle_marks_delivered_witness :
  (cmh_Handle (H := sink_client) (H0 := demo_binding) demo_handler (demo_cm 8 "1.0")
     (world demo_session)).1.1 = true.
Proof.
  assert (Hlo : local_ok (H := sink_client)) by (split; [done|]; split; [by eexists|done]).
  apply (Handle_marks_delivered (H := sink_client) (H0 := demo_binding) demo_handler
    (demo_cm 8 "1.0") (world demo_session) Hlo).
  split; [by vm_compute|]. right. split; [vm_compute; lia|by vm_compute].
Defined.
