(* ===== verification/ErrorChannels.v ===== *)
(** * ErrorChannels: the goroutines behind one consumer group

    Models the concurrency of
    [vendor/knative.dev/eventing-kafka/pkg/common/consumer/consumer_factory.go]
    ([StartConsumerGroup], [Errors], [mergeErrorChannels], [Close]), the errors that
    [ConsumeClaim] sends ([consumer_handler.go]), [Close] of sarama's group, and the
    reader of the errors in [subscribe] ([src/pkg/channel/kt/dispatcher/dispatcher.go]).

    The goroutines are the consume loop, one per claim of the running session, those of
    sarama that report an error ([handleError], which checks that the group is open and
    then sends), one forwarder per merged channel, the one that closes the merged
    channel, the reader that logs, and the caller of [Close].  They interleave in one
    step relation; a send on a closed channel, or closing one twice, panics
    ([s_panicked]), which ends the process.  What sarama decides (the claims of a
    session, its result, its own errors) is left open.

    [Close] does not wait for the goroutines that are between the check and the send of
    [handleError]: one that sends after the channel was closed panics
    ([report_races_close]).  It is the only panic ([error_channels_safe]). *)
From S2P Require Import Prelude GoStrings.

(** ** Channels *)
Section channels.
Context {E : Type}.

Record Chan := mkChan { ch_cap : nat; ch_buf : list E; ch_closed : bool }.
Definition make_chan (cap : nat) : Chan := mkChan cap [] false.

Inductive send_result := Sent (c : Chan) | SendBlocks | SendPanics.
Definition chan_send (e : E) (c : Chan) : send_result :=
  if ch_closed c then SendPanics
  else if decide (length (ch_buf c) < ch_cap c) then Sent (mkChan (ch_cap c) (ch_buf c ++ [e]) false)
  else SendBlocks.

Inductive recv_result := Received (e : E) (c : Chan) | RecvBlocks | RecvEnds.
Definition chan_recv (c : Chan) : recv_result :=
  match ch_buf c with
  | e :: buf => Received e (mkChan (ch_cap c) buf (ch_closed c))
  | [] => if ch_closed c then RecvEnds else RecvBlocks
  end.

(** [None] is the panic of closing a closed channel. *)
Definition chan_close (c : Chan) : option Chan :=
  if ch_closed c then None else Some (mkChan (ch_cap c) (ch_buf c) true).

(** ** [mergeErrorChannels]

    One lane per merged channel: the channel, the goroutine that forwards it to the
    unbuffered [out], and what went through so far: the errors sent to the channel,
    passed on to [out], and taken by another receiver. *)
Inductive Forwarder := Waiting | Holding (e : E) | Finished.
Record Lane := mkLane {
  l_chan : Chan;
  l_fwd : Forwarder;
  l_sent : list E;
  l_passed : list E;
  l_drained : list E;
}.

Definition mergeErrorChannels (channels : list Chan) : list Lane :=
  (λ c, mkLane c Waiting [] [] []) <$> channels.

(** A step of a forwarder; [Some e] is the error it passes to the receiver. *)
Inductive forward_step : Lane → option E → Lane → Prop :=
  | forward_takes l e c :
      l_fwd l = Waiting → chan_recv (l_chan l) = Received e c →
      forward_step l None (mkLane c (Holding e) (l_sent l) (l_passed l) (l_drained l))
  | forward_passes l e :
      l_fwd l = Holding e →
      forward_step l (Some e) (mkLane (l_chan l) Waiting (l_sent l) (l_passed l ++ [e]) (l_drained l))
  | forward_ends l :
      l_fwd l = Waiting → chan_recv (l_chan l) = RecvEnds →
      forward_step l None (mkLane (l_chan l) Finished (l_sent l) (l_passed l) (l_drained l)).

Inductive lane_result := LaneSent (l : Lane) | LaneBlocks | LanePanics.
Definition lane_send (e : E) (l : Lane) : lane_result :=
  match chan_send e (l_chan l) with
  | Sent c => LaneSent (mkLane c (l_fwd l) (l_sent l ++ [e]) (l_passed l) (l_drained l))
  | SendBlocks => LaneBlocks
  | SendPanics => LanePanics
  end.
Definition lane_close (l : Lane) : option Lane :=
  (λ c, mkLane c (l_fwd l) (l_sent l) (l_passed l) (l_drained l)) <$> chan_close (l_chan l).
Definition lane_drain (l : Lane) : option Lane :=
  match chan_recv (l_chan l) with
  | Received e c => Some (mkLane c (l_fwd l) (l_sent l) (l_passed l) (l_drained l ++ [e]))
  | _ => None
  end.

(** ** The group *)

(** Where the loop of [StartConsumerGroup] is: before [Consume], past its check that
    the group is open, in a session (it holds the lock of the group), sending its
    error, at the [select], or returned. *)
Inductive Phase := Between | Entering | InSession | SendingErr (e : E) | Selecting | Returned.

(** The result of [Consume]. *)
Inductive session_result := SessionClosed | SessionErr (e : E) | SessionOk.

Record Sys := mkSys {
  s_phase : Phase;
  (** the errors that the goroutine of a claim has still to send *)
  s_claims : gmap Z (list E);
  (** the context of the group is cancelled; [c.closed] of sarama's group is closed *)
  s_cancelled : bool;
  s_closed : bool;
  (** sarama's channel and the channel of the handlers, in this order *)
  s_lanes : list Lane;
  s_out_closed : bool;
  s_reader_ended : bool;
  s_log : list E;
  s_panicked : bool;
  (** [Close] has left the group, which takes its lock *)
  s_left : bool;
  (** the errors of the goroutines of sarama that have found the group open and have
      not sent yet *)
  s_reporting : list E;
}.

Definition group_lane : nat := 0.
Definition handler_lane : nat := 1.

(** [StartConsumerGroup] and the first call of [Errors] in [subscribe]: the errors
    of the handlers have a buffer of 10, [ChannelBufferSize] (256 by default) is
    sarama's; of an unbuffered channel of sarama only the dropping is modelled. *)
Definition errorCh_capacity : nat := 10.
Definition start (ChannelBufferSize : nat) : Sys :=
  mkSys Between ∅ false false
    (mergeErrorChannels [make_chan ChannelBufferSize; make_chan errorCh_capacity]) false false [] false false [].

Definition with_phase (p : Phase) (s : Sys) : Sys :=
  mkSys p (s_claims s) (s_cancelled s) (s_closed s) (s_lanes s) (s_out_closed s) (s_reader_ended s) (s_log s) (s_panicked s)
    (s_left s) (s_reporting s).
Definition with_claims (cs : gmap Z (list E)) (s : Sys) : Sys :=
  mkSys (s_phase s) cs (s_cancelled s) (s_closed s) (s_lanes s) (s_out_closed s) (s_reader_ended s) (s_log s) (s_panicked s)
    (s_left s) (s_reporting s).
Definition with_lane (i : nat) (l : Lane) (s : Sys) : Sys :=
  mkSys (s_phase s) (s_claims s) (s_cancelled s) (s_closed s) (<[i := l]> (s_lanes s)) (s_out_closed s)
    (s_reader_ended s) (s_log s) (s_panicked s) (s_left s) (s_reporting s).
Definition log_error (e : E) (s : Sys) : Sys :=
  mkSys (s_phase s) (s_claims s) (s_cancelled s) (s_closed s) (s_lanes s) (s_out_closed s) (s_reader_ended s)
    (s_log s ++ [e]) (s_panicked s) (s_left s) (s_reporting s).
Definition panicked (s : Sys) : Sys :=
  mkSys (s_phase s) (s_claims s) (s_cancelled s) (s_closed s) (s_lanes s) (s_out_closed s) (s_reader_ended s) (s_log s) true
    (s_left s) (s_reporting s).
(** What the caller of [Close] and the goroutines of sarama change. *)
Definition with_group (cancelled closed left : bool) (reporting : list E) (s : Sys) : Sys :=
  mkSys (s_phase s) (s_claims s) cancelled closed (s_lanes s) (s_out_closed s) (s_reader_ended s) (s_log s) (s_panicked s)
    left reporting.
Definition with_reporting (es : list E) (s : Sys) : Sys :=
  with_group (s_cancelled s) (s_closed s) (s_left s) es s.
Definition with_out (out_closed reader_ended : bool) (s : Sys) : Sys :=
  mkSys (s_phase s) (s_claims s) (s_cancelled s) (s_closed s) (s_lanes s) out_closed reader_ended (s_log s) (s_panicked s)
    (s_left s) (s_reporting s).

(** The loop returns: its [defer] closes [errorCh]. *)
Definition return_closing (s : Sys) : Sys :=
  match s_lanes s !! handler_lane ≫= lane_close with
  | Some l => with_phase Returned (with_lane handler_lane l s)
  | None => panicked s
  end.

Definition after_session (r : session_result) (s : Sys) : Sys :=
  match r with
  | SessionClosed => return_closing s
  | SessionErr e => with_phase (SendingErr e) s
  | SessionOk => with_phase Selecting s
  end.

Definition all_finished (s : Sys) : Prop := ∀ l, l ∈ s_lanes s → l_fwd l = Finished.

Inductive goroutine_step (s : Sys) : Sys → Prop :=
  (** the consume loop: [Consume] checks that the group is open, takes its lock and
      starts a session; it fails when the client is closed or Kafka is unavailable; a
      claim started after the group was closed ends at once *)
  | step_closed_group :
      s_phase s = Between → s_closed s = true → goroutine_step s (after_session SessionClosed s)
  | step_enter :
      s_phase s = Between → s_closed s = false → goroutine_step s (with_phase Entering s)
  | step_enter_fails r :
      s_phase s = Entering → r ≠ SessionOk → goroutine_step s (after_session r s)
  | step_session claims :
      s_phase s = Entering → (s_closed s = true → claims = ∅) →
      goroutine_step s (with_phase InSession (with_claims claims s))
  | step_session_ends r :
      s_phase s = InSession → s_claims s = ∅ → goroutine_step s (after_session r s)
  | step_send_error e l l' :
      s_phase s = SendingErr e → s_lanes s !! handler_lane = Some l → lane_send e l = LaneSent l' →
      goroutine_step s (with_phase Selecting (with_lane handler_lane l' s))
  | step_send_error_panics e l :
      s_phase s = SendingErr e → s_lanes s !! handler_lane = Some l → lane_send e l = LanePanics →
      goroutine_step s (panicked s)
  | step_select_done : s_phase s = Selecting → s_cancelled s = true → goroutine_step s (return_closing s)
  | step_select_default : s_phase s = Selecting → s_cancelled s = false → goroutine_step s (with_phase Between s)
  (** the goroutines of the claims *)
  | step_claim_sends p e es l l' :
      s_claims s !! p = Some (e :: es) → s_lanes s !! handler_lane = Some l → lane_send e l = LaneSent l' →
      goroutine_step s (with_claims (<[p := es]> (s_claims s)) (with_lane handler_lane l' s))
  | step_claim_panics p e es l :
      s_claims s !! p = Some (e :: es) → s_lanes s !! handler_lane = Some l → lane_send e l = LanePanics →
      goroutine_step s (panicked s)
  | step_claim_ends p : s_claims s !! p = Some [] → goroutine_step s (with_claims (delete p (s_claims s)) s)
  (** [handleError]: the check, and the send, which drops the error when the channel
      is full *)
  | step_report_check e :
      s_closed s = false → goroutine_step s (with_reporting (s_reporting s ++ [e]) s)
  | step_report_sends i e l l' :
      s_reporting s !! i = Some e → s_lanes s !! group_lane = Some l → lane_send e l = LaneSent l' →
      goroutine_step s (with_lane group_lane l' (with_reporting (delete i (s_reporting s)) s))
  | step_report_drops i e l :
      s_reporting s !! i = Some e → s_lanes s !! group_lane = Some l → lane_send e l = LaneBlocks →
      goroutine_step s (with_reporting (delete i (s_reporting s)) s)
  | step_report_panics i e l :
      s_reporting s !! i = Some e → s_lanes s !! group_lane = Some l → lane_send e l = LanePanics →
      goroutine_step s (panicked s)
  (** [Close]: cancel, close the group, leave it (no session holds its lock then), and
      close and drain sarama's channel *)
  | step_cancel :
      s_cancelled s = false → goroutine_step s (with_group true (s_closed s) (s_left s) (s_reporting s) s)
  | step_close_group :
      s_cancelled s = true → s_closed s = false →
      goroutine_step s (with_group true true (s_left s) (s_reporting s) s)
  | step_leave :
      s_closed s = true → s_left s = false → s_phase s ≠ InSession →
      goroutine_step s (with_group (s_cancelled s) true true (s_reporting s) s)
  | step_close_errors l l' :
      s_left s = true → s_lanes s !! group_lane = Some l → lane_close l = Some l' →
      goroutine_step s (with_lane group_lane l' s)
  | step_drain l l' :
      s_left s = true → s_lanes s !! group_lane = Some l → lane_drain l = Some l' →
      goroutine_step s (with_lane group_lane l' s)
  (** the merge, and the reader of its output *)
  | step_forward i l l' :
      s_lanes s !! i = Some l → forward_step l None l' → goroutine_step s (with_lane i l' s)
  | step_pass i l l' e :
      s_lanes s !! i = Some l → forward_step l (Some e) l' → s_out_closed s = false → s_reader_ended s = false →
      goroutine_step s (log_error e (with_lane i l' s))
  | step_pass_panics i l l' e :
      s_lanes s !! i = Some l → forward_step l (Some e) l' → s_out_closed s = true → goroutine_step s (panicked s)
  | step_out_closes :
      all_finished s → s_out_closed s = false → goroutine_step s (with_out true (s_reader_ended s) s)
  | step_reader_ends :
      s_out_closed s = true → s_reader_ended s = false → goroutine_step s (with_out true true s).

(** A panic ends the process. *)
Definition sys_step (s s' : Sys) : Prop := s_panicked s = false ∧ goroutine_step s s'.
End channels.
Arguments Chan : clear implicits.
Arguments Lane : clear implicits.
Arguments Sys : clear implicits.
Arguments Forwarder : clear implicits.
Arguments Phase : clear implicits.

(** ** Invariants *)
Section invariants.
Context {E : Type}.
Implicit Types (l : Lane E) (s : Sys E).

(** The error in the hands of a forwarder. *)
Definition held l : list E := match l_fwd l with Holding e => [e] | _ => [] end.

Record lane_ok l : Prop := {
  lo_sent : l_sent l ≡ₚ l_drained l ++ l_passed l ++ held l ++ ch_buf (l_chan l);
  lo_order : l_drained l = [] → l_sent l = l_passed l ++ held l ++ ch_buf (l_chan l);
  lo_room : length (ch_buf (l_chan l)) ≤ ch_cap (l_chan l);
  lo_finished : l_fwd l = Finished → ch_closed (l_chan l) = true ∧ ch_buf (l_chan l) = [];
}.

Lemma lane_ok_new c : ch_buf c = [] → lane_ok (mkLane c Waiting [] [] []).
Proof. intros Hb. split; simpl; rewrite ?Hb; simpl; [done|done|lia|done]. Qed.

Lemma lane_send_ok e l l' :
  lane_ok l → lane_send e l = LaneSent l' →
  lane_ok l' ∧ ch_closed (l_chan l) = false ∧ ch_closed (l_chan l') = false ∧ l_fwd l' = l_fwd l ∧ l_passed l' = l_passed l ∧
  l_drained l' = l_drained l ∧ ch_cap (l_chan l') = ch_cap (l_chan l) ∧ ch_buf (l_chan l') = ch_buf (l_chan l) ++ [e].
Proof.
  intros [Hs Ho Hr Hf]. unfold lane_send, chan_send. destruct (ch_closed (l_chan l)) eqn:Hc; [done|].
  case_decide; [|done]. intros [= <-]. unfold held in *. split_and!; try done. split; unfold held in *; simpl.
  - rewrite Hs. by rewrite !(assoc_L (++)).
  - intros Hd. rewrite (Ho Hd). by rewrite !(assoc_L (++)).
  - rewrite length_app. simpl. lia.
  - intros Hfin. destruct (Hf Hfin). congruence.
Qed.

Lemma lane_send_panics e l : lane_send e l = LanePanics → ch_closed (l_chan l) = true.
Proof. unfold lane_send, chan_send. destruct (ch_closed (l_chan l)); [done|]. by case_decide. Qed.

Lemma lane_close_ok l l' :
  lane_ok l → lane_close l = Some l' →
  lane_ok l' ∧ ch_closed (l_chan l) = false ∧ ch_closed (l_chan l') = true ∧ l_fwd l' = l_fwd l ∧ l_passed l' = l_passed l ∧
  l_drained l' = l_drained l ∧ ch_cap (l_chan l') = ch_cap (l_chan l) ∧ ch_buf (l_chan l') = ch_buf (l_chan l).
Proof.
  intros [Hs Ho Hr Hf]. unfold lane_close, chan_close. destruct (ch_closed (l_chan l)) eqn:Hc; [done|].
  intros [= <-]. split_and!; try done. split; unfold held in *; simpl; try done. intros Hfin. destruct (Hf Hfin). congruence.
Qed.

Lemma lane_close_open l : ch_closed (l_chan l) = false → is_Some (lane_close l).
Proof. unfold lane_close, chan_close. intros ->. by eexists. Qed.

Lemma lane_drain_ok l l' :
  lane_ok l → lane_drain l = Some l' →
  lane_ok l' ∧ ch_closed (l_chan l') = ch_closed (l_chan l) ∧ l_fwd l' = l_fwd l ∧ l_passed l' = l_passed l ∧
  ∃ e, ch_buf (l_chan l) = e :: ch_buf (l_chan l') ∧ l_drained l' = l_drained l ++ [e].
Proof.
  intros [Hs Ho Hr Hf]. unfold lane_drain, chan_recv. destruct (ch_buf (l_chan l)) as [|e b] eqn:Hb; [by destruct (ch_closed _)|].
  intros [= <-]. unfold held in *. split_and!; try done; [|by exists e]. split; unfold held in *; simpl.
  - rewrite Hs. rewrite <-(assoc_L (++)). f_equiv.
    simpl. rewrite !(assoc_L (++)). symmetry. apply Permutation_middle.
  - by intros [_ ?]%app_eq_nil.
  - simpl in Hr. lia.
  - intros Hfin. by destruct (Hf Hfin).
Qed.

Lemma forward_step_ok l o l' :
  lane_ok l → forward_step l o l' →
  lane_ok l' ∧ ch_closed (l_chan l') = ch_closed (l_chan l) ∧ l_passed l' = l_passed l ++ option_list o ∧
  l_drained l' = l_drained l ∧ ch_cap (l_chan l') = ch_cap (l_chan l) ∧ l_fwd l ≠ Finished.
Proof.
  intros [Hs Ho Hr Hf] Hst. unfold held in *. destruct Hst as [l e c Hw Hrecv|l e Hh|l Hw Hrecv]; simpl.
  - unfold chan_recv in Hrecv. destruct (ch_buf (l_chan l)) as [|e' b] eqn:Hb; [by destruct (ch_closed _)|].
    injection Hrecv as -> <-. rewrite Hw in *. rewrite app_nil_r. split_and!; try done.
    split; unfold held in *; simpl; [done|done|simpl in Hr; lia|done].
  - rewrite Hh in *. split_and!; try done. split; unfold held in *; simpl; [|intros Hd; rewrite (Ho Hd)|done|done];
      [rewrite Hs|]; by rewrite <-!(assoc_L (++)).
  - unfold chan_recv in Hrecv. destruct (ch_buf (l_chan l)) eqn:Hb; [|done]. destruct (ch_closed (l_chan l)) eqn:Hc; [|done].
    rewrite Hw in *. rewrite app_nil_r. split_and!; try done. split; unfold held in *; simpl; rewrite ?Hb; try done.
Qed.

(** The facts of the two lanes and of the loop that every step preserves. *)
Record sys_inv (g h : Lane E) s : Prop := {
  si_lanes : s_lanes s = [g; h];
  si_group : lane_ok g;
  si_handler : lane_ok h;
  si_never_drained : l_drained h = [];
  si_room : ch_cap (l_chan h) = errorCh_capacity;
  si_returned : ch_closed (l_chan h) = true ↔ s_phase s = Returned;
  si_claims : s_phase s ≠ InSession → s_claims s = ∅;
  si_group_closed : ch_closed (l_chan g) = true → s_left s = true;
  si_left : s_left s = true → s_closed s = true;
  si_drained : l_drained g ≠ [] → s_closed s = true;
  si_cancelled : s_closed s = true → s_cancelled s = true;
  si_out : s_out_closed s = true → l_fwd g = Finished ∧ l_fwd h = Finished;
  si_reader : s_reader_ended s = true → s_out_closed s = true;
  si_log : s_log s ≡ₚ l_passed g ++ l_passed h;
  si_panic : s_panicked s = true → ch_closed (l_chan g) = true ∧ s_reporting s ≠ [];
}.

Lemma start_inv n : ∃ g h, sys_inv g h (start (E:=E) n).
Proof.
  eexists _, _. split; try done; simpl; try (by apply lane_ok_new); try done.
Qed.

Lemma return_closing_inv g h s :
  sys_inv g h s → s_phase s ≠ Returned → s_claims s = ∅ → ∃ h', sys_inv g h' (return_closing s) ∧ s_lanes (return_closing s) = [g; h'] ∧ l_fwd h' = l_fwd h ∧
    ch_buf (l_chan h') = ch_buf (l_chan h) ∧ return_closing s = with_phase Returned (with_lane handler_lane h' s).
Proof.
  intros I Hp Hc. unfold return_closing. rewrite (si_lanes _ _ _ I). simpl.
  assert (Ho : ch_closed (l_chan h) = false).
  { apply not_true_iff_false. by intros ?%(si_returned _ _ _ I). }
  destruct (lane_close_open h Ho) as [h' Hh']. rewrite Hh'. exists h'.
  destruct (lane_close_ok _ _ (si_handler _ _ _ I) Hh') as (Hok & _ & Hcl & Hf & Hpa & Hd & Hcap & Hb).
  destruct I. split_and!; try done; simpl; [|by rewrite si_lanes0].
  split; simpl; rewrite ?Hf, ?Hpa, ?Hd, ?Hcap, ?Hcl; try done.
  by rewrite si_lanes0.
Qed.

Lemma two_lanes g h l i : [g; h] !! i = Some l → (i = group_lane ∧ l = g) ∨ (i = handler_lane ∧ l = h).
Proof. destruct i as [|[|]]; simpl; intros [= <-]; auto. Qed.

(** Replacing the lane of sarama, or the one of the handlers. *)
Lemma with_group_inv g h s g' :
  sys_inv g h s → lane_ok g' → l_passed g' = l_passed g →
  (ch_closed (l_chan g') = true → s_left s = true) → s_panicked s = false →
  (l_drained g' ≠ [] → s_closed s = true) → (l_fwd g = Finished → l_fwd g' = Finished) →
  sys_inv g' h (with_lane group_lane g' s).
Proof.
  intros [] Hok Hp Hc Hcalm Hd Hf. split; simpl; rewrite ?Hp; try done; [by rewrite si_lanes0| |congruence].
  intros Ho. destruct (si_out0 Ho). auto.
Qed.

Lemma with_handler_inv g h s h' :
  sys_inv g h s → lane_ok h' → l_passed h' = l_passed h → l_drained h' = l_drained h →
  ch_closed (l_chan h') = ch_closed (l_chan h) → ch_cap (l_chan h') = ch_cap (l_chan h) →
  (l_fwd h = Finished → l_fwd h' = Finished) →
  sys_inv g h' (with_lane handler_lane h' s).
Proof.
  intros [] Hok Hp Hd Hc Hcap Hf. split; simpl; rewrite ?Hp, ?Hd, ?Hc, ?Hcap; try done; [by rewrite si_lanes0|].
  intros Ho. destruct (si_out0 Ho). auto.
Qed.

Lemma pass_inv g h s i l l' e :
  sys_inv g h s → s_lanes s !! i = Some l → forward_step l (Some e) l' → s_out_closed s = false →
  ∃ g' h', sys_inv g' h' (log_error e (with_lane i l' s)).
Proof.
  intros [] Hl Hst Ho. rewrite si_lanes0 in Hl. destruct (two_lanes _ _ _ _ Hl) as [[-> ->]|[-> ->]].
  - destruct (forward_step_ok _ _ _ si_group0 Hst) as (Hok & Hc & Hp & Hd & Hcap & _). exists l', h.
    split; simpl; rewrite ?Hc, ?Hd; try done; [by rewrite si_lanes0|congruence|].
    rewrite si_log0, Hp. simpl. rewrite <-!(assoc_L (++)). f_equiv. apply Permutation_app_comm.
  - destruct (forward_step_ok _ _ _ si_handler0 Hst) as (Hok & Hc & Hp & Hd & Hcap & _). exists g, l'.
    split; simpl; rewrite ?Hc, ?Hd, ?Hcap; try done; [by rewrite si_lanes0|congruence|].
    rewrite si_log0, Hp. simpl. by rewrite <-!(assoc_L (++)).
Qed.

Lemma with_phase_inv g h s p :
  sys_inv g h s → s_phase s ≠ Returned → p ≠ Returned → p ≠ InSession → s_claims s = ∅ →
  sys_inv g h (with_phase p s).
Proof.
  intros [] Hp Hr Hi Hc. split; simpl; try done; naive_solver.
Qed.

Lemma after_session_inv g h s r :
  sys_inv g h s → s_phase s ≠ Returned → s_claims s = ∅ → ∃ h', sys_inv g h' (after_session r s).
Proof.
  intros I Hp Hc. destruct r; simpl; [|exists h; by apply with_phase_inv..].
  destruct (return_closing_inv g h s I Hp Hc) as (h' & H & _). by exists h'.
Qed.

(** A send on the channel of the handlers. *)
Lemma handler_send_inv g h s e l l' :
  sys_inv g h s → s_lanes s !! handler_lane = Some l → lane_send e l = LaneSent l' →
  sys_inv g l' (with_lane handler_lane l' s).
Proof.
  intros I Hl Hs. rewrite (si_lanes _ _ _ I) in Hl. injection Hl as <-.
  destruct (lane_send_ok _ _ _ (si_handler _ _ _ I) Hs) as (? & ? & ? & ? & ? & ? & ? & ?).
  apply (with_handler_inv g h); congruence.
Qed.

Lemma handler_send_calm g h s e l :
  sys_inv g h s → s_phase s ≠ Returned → s_lanes s !! handler_lane = Some l → lane_send e l ≠ LanePanics.
Proof.
  intros I Hp Hl Hs. rewrite (si_lanes _ _ _ I) in Hl. injection Hl as <-.
  apply lane_send_panics in Hs. by apply (si_returned _ _ _ I) in Hs.
Qed.

Lemma forward_inv g h s i l l' :
  sys_inv g h s → s_panicked s = false → s_lanes s !! i = Some l → forward_step l None l' →
  ∃ g' h', sys_inv g' h' (with_lane i l' s).
Proof.
  intros I Hcalm Hl Hst. rewrite (si_lanes _ _ _ I) in Hl. destruct (two_lanes _ _ _ _ Hl) as [[-> ->]|[-> ->]].
  - destruct (forward_step_ok _ _ _ (si_group _ _ _ I) Hst) as (? & Hc & Hp & Hd & ? & ?).
    exists l', h. rewrite app_nil_r in Hp.
    apply (with_group_inv g); try done; rewrite ?Hc, ?Hd; [apply (si_group_closed _ _ _ I)|apply (si_drained _ _ _ I)].
  - destruct (forward_step_ok _ _ _ (si_handler _ _ _ I) Hst) as (? & Hc & Hp & Hd & ? & ?).
    exists g, l'. rewrite app_nil_r in Hp. by apply (with_handler_inv g h).
Qed.

Lemma all_finished_iff g h s : s_lanes s = [g; h] → all_finished s ↔ l_fwd g = Finished ∧ l_fwd h = Finished.
Proof.
  intros Hl. unfold all_finished. rewrite Hl. split.
  - intros Hf. split; apply Hf; set_solver.
  - intros [Hg Hh] l [->|[->|[]%not_elem_of_nil]%elem_of_cons]%elem_of_cons; done.
Qed.

(** What [Close] and the goroutines of sarama change. *)
Lemma with_group_fields_inv g h s c cl le es :
  sys_inv g h s → s_panicked s = false → (s_closed s = true → cl = true) → (cl = true → c = true) →
  (le = true → cl = true) → (s_left s = true → le = true) →
  sys_inv g h (with_group c cl le es s).
Proof. intros [] Hcalm Hcl Hc Hle Hl. split; simpl; try done; try congruence; auto. Qed.

Lemma with_reporting_inv g h s es :
  sys_inv g h s → s_panicked s = false → sys_inv g h (with_reporting es s).
Proof.
  intros I Hcalm. apply with_group_fields_inv; try done; [apply (si_cancelled _ _ _ I)|apply (si_left _ _ _ I)].
Qed.

(** A send on the channel of sarama, whose group the goroutine found open. *)
Lemma group_send_inv g h s i e l l' :
  sys_inv g h s → s_panicked s = false → s_lanes s !! group_lane = Some l → lane_send e l = LaneSent l' →
  sys_inv l' h (with_lane group_lane l' (with_reporting (delete i (s_reporting s)) s)).
Proof.
  intros I Hcalm Hl Hs. rewrite (si_lanes _ _ _ I) in Hl. injection Hl as <-.
  destruct (lane_send_ok _ _ _ (si_group _ _ _ I) Hs) as (? & ? & ? & ? & ? & ? & ? & ?).
  apply (with_group_inv g); simpl; try congruence; [by apply with_reporting_inv|].
  intros Hd. apply (si_drained _ _ _ I). congruence.
Qed.

Lemma group_panic_inv g h s i e l :
  sys_inv g h s → s_reporting s !! i = Some e → s_lanes s !! group_lane = Some l → lane_send e l = LanePanics →
  sys_inv g h (panicked s).
Proof.
  intros I Hi Hl Hs. rewrite (si_lanes _ _ _ I) in Hl. injection Hl as <-.
  apply lane_send_panics in Hs. destruct I. split; simpl; try done.
  intros _. split; [done|]. intros Hnil. by rewrite Hnil in Hi.
Qed.

Lemma group_close_inv g h s l l' :
  sys_inv g h s → s_panicked s = false → s_left s = true → s_lanes s !! group_lane = Some l →
  lane_close l = Some l' ∨ lane_drain l = Some l' →
  sys_inv l' h (with_lane group_lane l' s).
Proof.
  intros I Hcalm Hle Hl Hs. pose proof (si_left _ _ _ I Hle). rewrite (si_lanes _ _ _ I) in Hl. injection Hl as <-.
  destruct Hs as [Hs|Hs].
  - destruct (lane_close_ok _ _ (si_group _ _ _ I) Hs) as (? & ? & ? & ? & ? & ? & ? & ?).
    apply (with_group_inv g); congruence.
  - destruct (lane_drain_ok _ _ (si_group _ _ _ I) Hs) as (? & ? & ? & ? & ? & ? & ?).
    apply (with_group_inv g); congruence.
Qed.

(** No forwarder holds an error once the merged channel is closed. *)
Lemma pass_calm g h s i l l' e :
  sys_inv g h s → s_lanes s !! i = Some l → forward_step l (Some e) l' → s_out_closed s = false.
Proof.
  intros I Hi Hst. apply not_true_iff_false. intros Ho. rewrite (si_lanes _ _ _ I) in Hi.
  destruct (si_out _ _ _ I Ho), (two_lanes _ _ _ _ Hi) as [[-> ->]|[-> ->]]; inversion Hst; congruence.
Qed.

Lemma session_inv g h s cs :
  sys_inv g h s → s_phase s = Entering → sys_inv g h (with_phase InSession (with_claims cs s)).
Proof. intros [] Hp. split; simpl; try done. by rewrite si_returned0, Hp. Qed.

Lemma claims_in_session g h s p es : sys_inv g h s → s_claims s !! p = Some es → s_phase s = InSession.
Proof.
  intros I Hp. destruct (s_phase s) eqn:Hph; try done; rewrite (si_claims _ _ _ I) in Hp by congruence; done.
Qed.

Lemma idle_claims g h s p : sys_inv g h s → s_phase s = p → p ≠ InSession → s_claims s = ∅.
Proof. intros I <-. apply (si_claims _ _ _ I). Qed.

Lemma with_claims_inv g h s cs :
  sys_inv g h s → s_phase s = InSession → sys_inv g h (with_claims cs s).
Proof. intros [] Hp. by split; simpl. Qed.

Lemma inv_step g h s s' : sys_inv g h s → sys_step s s' → ∃ g' h', sys_inv g' h' s'.
Proof.
  intros I [Hcalm Hst]. pose proof (idle_claims g h s) as Hidle.
  destruct Hst as [Hp Hc|Hp Hc|r Hp Hr|claims Hp Hc|r Hp Hc|e l l' Hp Hl Hs|e l Hp Hl Hs|Hp Hc|Hp Hc
    |p e es l l' Hp Hl Hs|p e es l Hp Hl Hs|p Hp|e Hc|i e l l' Hi Hl Hs|i e l Hi Hl Hs|i e l Hi Hl Hs
    |Hc|Hc Hcl|Hcl Hle Hp|l l' Hle Hl Hs|l l' Hle Hl Hs|i l l' Hl Hst|i l l' e Hl Hst Ho Hr|i l l' e Hl Hst Ho|Hf Ho|Ho Hr].
  - destruct (after_session_inv g h s SessionClosed I) as [h' ?]; [congruence|by eapply Hidle|eauto].
  - exists g, h. apply with_phase_inv; try congruence. by eapply Hidle.
  - destruct (after_session_inv g h s r I) as [h' ?]; [congruence|by eapply Hidle|eauto].
  - exists g, h. by apply session_inv.
  - destruct (after_session_inv g h s r I) as [h' ?]; eauto. congruence.
  - exists g, l'. apply with_phase_inv; simpl; try congruence; [|by eapply Hidle]. by eapply handler_send_inv.
  - destruct (handler_send_calm g h s e l I); congruence.
  - destruct (return_closing_inv g h s I) as (h' & ? & _); [congruence|by eapply Hidle|eauto].
  - exists g, h. apply with_phase_inv; try congruence. by eapply Hidle.
  - exists g, l'. apply with_claims_inv; [by eapply handler_send_inv|exact (claims_in_session _ _ _ _ _ I Hp)].
  - destruct (handler_send_calm g h s e l I); [|done..]. eapply claims_in_session in Hp; [congruence|done].
  - exists g, h. apply with_claims_inv; [done|by eapply claims_in_session].
  - exists g, h. by apply with_reporting_inv.
  - exists l', h. by eapply group_send_inv.
  - exists g, h. by apply with_reporting_inv.
  - exists g, h. by eapply group_panic_inv.
  - exists g, h. apply with_group_fields_inv; try done. apply (si_left _ _ _ I).
  - exists g, h. apply with_group_fields_inv; try done.
  - exists g, h. apply with_group_fields_inv; try done. intros _. by apply (si_cancelled _ _ _ I).
  - exists l', h. eapply group_close_inv; eauto.
  - exists l', h. eapply group_close_inv; eauto.
  - by eapply forward_inv.
  - by eapply pass_inv.
  - pose proof (pass_calm _ _ _ _ _ _ _ I Hl Hst). congruence.
  - exists g, h. apply (all_finished_iff g h) in Hf; [|apply (si_lanes _ _ _ I)]. destruct I. by split.
  - exists g, h. destruct I. split; simpl; auto.
Qed.

Lemma group_reachable_inv n s : rtc sys_step (start n) s → ∃ g h, sys_inv g h s.
Proof.
  revert s. apply (rtc_ind_r (R:=sys_step) (λ s, ∃ g h, sys_inv g h s)); [apply start_inv|].
  intros x y _ Hst (g & h & I). by eapply inv_step.
Qed.

(** ** After [Close] *)

Definition fwd_weight (f : Forwarder E) : nat := match f with Waiting => 1 | Holding _ => 2 | Finished => 0 end.
Definition lane_weight l : nat := 2 * length (ch_buf (l_chan l)) + fwd_weight (l_fwd l).
Definition phase_weight (p : Phase E) : nat :=
  match p with Entering => 11 | InSession => 10 | SendingErr _ => 9 | Selecting => 5 | Between => 4 | Returned => 0 end.
Definition claims_weight (cs : gmap Z (list E)) : nat :=
  sum_list_with (λ kv, S (3 * length kv.2)) (map_to_list cs).
Definition pending (b : bool) : nat := if b then 0 else 1.

(** An upper bound on the steps that a closed group has left. *)
Definition weight s : nat :=
  phase_weight (s_phase s) + claims_weight (s_claims s) + sum_list_with lane_weight (s_lanes s) +
  match s_lanes s !! group_lane with Some g => pending (ch_closed (l_chan g)) | None => 0 end +
  3 * length (s_reporting s) + pending (s_left s) + pending (s_out_closed s) + pending (s_reader_ended s).

Lemma claims_weight_delete (cs : gmap Z (list E)) p es :
  cs !! p = Some es → claims_weight cs = S (3 * length es) + claims_weight (delete p cs).
Proof. intros Hp. unfold claims_weight. by rewrite <-(map_to_list_delete cs p es Hp). Qed.

Lemma claims_weight_send (cs : gmap Z (list E)) p e es :
  cs !! p = Some (e :: es) → claims_weight cs = 3 + claims_weight (<[p := es]> cs).
Proof.
  intros Hp. rewrite (claims_weight_delete _ _ _ Hp), (claims_weight_delete (<[p := es]> cs) p es) by apply lookup_insert_eq.
  rewrite delete_insert_eq. simpl. lia.
Qed.

Lemma chan_recv_ends (c : Chan E) : ch_closed c = true → ch_buf c = [] → chan_recv c = RecvEnds.
Proof. unfold chan_recv. by intros -> ->. Qed.

Lemma forward_weight l o l' : forward_step l o l' → lane_weight l' < lane_weight l ∧ ch_closed (l_chan l') = ch_closed (l_chan l).
Proof.
  intros [l1 e c Hw Hr|l1 e Hh|l1 Hw Hr]; unfold lane_weight; simpl.
  - rewrite Hw. unfold chan_recv in Hr. destruct (ch_buf (l_chan l1)) eqn:Hb; [by destruct (ch_closed _)|].
    injection Hr as -> <-. simpl. split; [lia|done].
  - rewrite Hh. simpl. split; [lia|done].
  - rewrite Hw. simpl. split; [lia|done].
Qed.

Lemma return_closing_weight g h s :
  sys_inv g h s → s_phase s ≠ Returned → s_claims s = ∅ →
  weight (return_closing s) + phase_weight (s_phase s) = weight s.
Proof.
  intros I Hp Hc. destruct (return_closing_inv g h s I Hp Hc) as (h' & _ & _ & Hf & Hb & ->).
  unfold weight, lane_weight. simpl. rewrite (si_lanes _ _ _ I). simpl. rewrite Hf, Hb. lia.
Qed.

Lemma lane_weight_send e l l' : lane_send e l = LaneSent l' → lane_weight l' = 2 + lane_weight l.
Proof.
  unfold lane_send, chan_send, lane_weight. destruct (ch_closed _); [done|]. case_decide; [|done].
  intros [= <-]. simpl. rewrite length_app. simpl. lia.
Qed.

(** The weight when the lane of sarama, or the one of the handlers, is replaced. *)
Lemma weight_group g h s l' :
  s_lanes s = [g; h] →
  weight (with_lane group_lane l' s) + (lane_weight g + pending (ch_closed (l_chan g))) =
  weight s + (lane_weight l' + pending (ch_closed (l_chan l'))).
Proof. intros Hl. unfold weight. simpl. rewrite Hl. simpl. lia. Qed.

Lemma weight_handler g h s l' :
  s_lanes s = [g; h] → weight (with_lane handler_lane l' s) + lane_weight h = weight s + lane_weight l'.
Proof. intros Hl. unfold weight. simpl. rewrite Hl. simpl. lia. Qed.

Lemma weight_phase p s : weight (with_phase p s) + phase_weight (s_phase s) = weight s + phase_weight p.
Proof. unfold weight. simpl. lia. Qed.

Lemma weight_claims cs s : weight (with_claims cs s) + claims_weight (s_claims s) = weight s + claims_weight cs.
Proof. unfold weight. simpl. lia. Qed.

Lemma weight_reporting es s : weight (with_reporting es s) + 3 * length (s_reporting s) = weight s + 3 * length es.
Proof. unfold weight. simpl. lia. Qed.

Lemma weight_report i e s :
  s_reporting s !! i = Some e → weight (with_reporting (delete i (s_reporting s)) s) + 3 = weight s.
Proof.
  intros Hi. pose proof (weight_reporting (delete i (s_reporting s)) s) as Hw.
  rewrite length_delete in Hw by by eexists. apply lookup_lt_Some in Hi. lia.
Qed.

Lemma weight_after_session g h s r :
  sys_inv g h s → s_phase s ≠ Returned → s_claims s = ∅ →
  weight (after_session r s) + phase_weight (s_phase s) ≤ weight s + 9 ∧
  (r = SessionClosed → weight (after_session r s) + phase_weight (s_phase s) = weight s).
Proof.
  intros I Hp Hc. destruct r; simpl.
  - pose proof (return_closing_weight g h s I Hp Hc). lia.
  - pose proof (weight_phase (SendingErr e) s). simpl in *. split; [lia|done].
  - pose proof (weight_phase Selecting s). simpl in *. split; [lia|done].
Qed.

Lemma handler_send_weight g h s e l l' :
  sys_inv g h s → s_lanes s !! handler_lane = Some l → lane_send e l = LaneSent l' →
  weight (with_lane handler_lane l' s) = weight s + 2.
Proof.
  intros I Hl Hs. pose proof (weight_handler g h s l' (si_lanes _ _ _ I)) as Hw.
  rewrite (si_lanes _ _ _ I) in Hl. injection Hl as <-. rewrite (lane_weight_send _ _ _ Hs) in Hw. lia.
Qed.

Lemma group_send_weight g h s i e l l' :
  sys_inv g h s → s_reporting s !! i = Some e → s_lanes s !! group_lane = Some l → lane_send e l = LaneSent l' →
  weight (with_lane group_lane l' (with_reporting (delete i (s_reporting s)) s)) < weight s.
Proof.
  intros I Hi Hl Hs. pose proof (weight_report i e s Hi) as Hr.
  pose proof (weight_group g h (with_reporting (delete i (s_reporting s)) s) l' (si_lanes _ _ _ I)) as Hw.
  rewrite (si_lanes _ _ _ I) in Hl. injection Hl as <-. rewrite (lane_weight_send _ _ _ Hs) in Hw.
  destruct (lane_send_ok _ _ _ (si_group _ _ _ I) Hs) as (_ & Ho & Ho' & _). rewrite Ho, Ho' in Hw. lia.
Qed.

Lemma group_close_weight g h s l l' :
  sys_inv g h s → s_lanes s !! group_lane = Some l → lane_close l = Some l' ∨ lane_drain l = Some l' →
  weight (with_lane group_lane l' s) < weight s.
Proof.
  intros I Hl Hs. pose proof (weight_group g h s l' (si_lanes _ _ _ I)) as Hw.
  rewrite (si_lanes _ _ _ I) in Hl. injection Hl as <-. unfold lane_weight in Hw. destruct Hs as [Hs|Hs].
  - destruct (lane_close_ok _ _ (si_group _ _ _ I) Hs) as (_ & Ho & Hc & Hf & _ & _ & _ & Hb).
    rewrite Ho, Hc, Hf, Hb in Hw. simpl in Hw. lia.
  - destruct (lane_drain_ok _ _ (si_group _ _ _ I) Hs) as (_ & Hc & Hf & _ & e & Hb & _).
    rewrite Hc, Hf, Hb in Hw. simpl in Hw. lia.
Qed.

Lemma forward_step_weight g h s i l o l' :
  sys_inv g h s → s_lanes s !! i = Some l → forward_step l o l' → weight (with_lane i l' s) < weight s.
Proof.
  intros I Hi Hst. destruct (forward_weight _ _ _ Hst) as [Hlt Hc]. pose proof (si_lanes _ _ _ I) as Hl. rewrite Hl in Hi.
  destruct (two_lanes _ _ _ _ Hi) as [[-> ->]|[-> ->]].
  - pose proof (weight_group g h s l' Hl) as Hw. rewrite Hc in Hw. lia.
  - pose proof (weight_handler g h s l' Hl). lia.
Qed.

Lemma weight_log e s : weight (log_error e s) = weight s.
Proof. done. Qed.

(** Once the group is closed, every step that does not panic lowers the weight. *)
Lemma weight_step g h s s' :
  sys_inv g h s → s_closed s = true → sys_step s s' →
  s_closed s' = true ∧ (s_panicked s' = false → weight s' < weight s).
Proof.
  intros I Hclosed [Hcalm Hst]. pose proof (si_cancelled _ _ _ I Hclosed) as Hcan. pose proof (idle_claims g h s) as Hidle.
  assert (Hback : ∀ p, s_phase s = p → p ≠ Returned → s_claims s = ∅ →
    s_closed (return_closing s) = true ∧ weight (return_closing s) + phase_weight p = weight s).
  { intros p <- Hp Hc. split; [|by eapply return_closing_weight].
    by destruct (return_closing_inv g h s I Hp Hc) as (? & _ & _ & _ & _ & ->). }
  assert (Hafter : ∀ r p, s_phase s = p → p ≠ Returned → s_claims s = ∅ → s_closed (after_session r s) = true).
  { intros r p Hp Hn Hc. destruct r; simpl; [by eapply Hback|done..]. }
  destruct Hst as [Hp Hc|Hp Hc|r Hp Hr|claims Hp Hc|r Hp Hc|e l l' Hp Hl Hs|e l Hp Hl Hs|Hp Hc|Hp Hc
    |p e es l l' Hp Hl Hs|p e es l Hp Hl Hs|p Hp|e Hc|i e l l' Hi Hl Hs|i e l Hi Hl Hs|i e l Hi Hl Hs
    |Hc|Hc Hcl|Hcl Hle Hp|l l' Hle Hl Hs|l l' Hle Hl Hs|i l l' Hl Hst|i l l' e Hl Hst Ho Hr|i l l' e Hl Hst Ho|Hf Ho|Ho Hr];
    try congruence; try (split; [done|discriminate]).
  - destruct (Hback Between) as [? Hw]; [done..|by eapply Hidle|]. cbn [phase_weight after_session] in *. split; [done|lia].
  - pose proof (Hidle _ I Hp ltac:(done)) as Hce.
    destruct (weight_after_session g h s r I) as [Hw _]; [congruence|done|]. rewrite Hp in Hw. cbn [s_phase s_claims with_lane phase_weight] in Hw.
    split; [by eapply Hafter|lia].
  - split; [done|]. rewrite (Hc Hclosed). pose proof (weight_claims ∅ s) as Hw.
    pose proof (weight_phase InSession (with_claims ∅ s)) as Hw'. rewrite (Hidle _ I Hp ltac:(done)) in Hw.
    cbn [s_phase with_claims] in Hw'. rewrite Hp in Hw'. cbn [phase_weight] in Hw'. lia.
  - destruct (weight_after_session g h s r I) as [Hw _]; [congruence|done|]. rewrite Hp in Hw. cbn [s_phase s_claims with_lane phase_weight] in Hw.
    split; [by eapply Hafter|lia].
  - split; [done|]. pose proof (weight_phase Selecting (with_lane handler_lane l' s)) as Hw. cbn [s_phase s_claims with_lane phase_weight] in Hw.
    rewrite Hp, (handler_send_weight _ _ _ _ _ _ I Hl Hs) in Hw. cbn [phase_weight] in Hw. lia.
  - destruct (Hback Selecting) as [? Hw]; [done..|by eapply Hidle|]. cbn [phase_weight after_session] in *. split; [done|lia].
  - split; [done|]. pose proof (weight_claims (<[p := es]> (s_claims s)) (with_lane handler_lane l' s)) as Hw. cbn [s_phase s_claims with_lane phase_weight] in Hw.
    rewrite (claims_weight_send _ _ _ _ Hp), (handler_send_weight _ _ _ _ _ _ I Hl Hs) in Hw. lia.
  - split; [done|]. pose proof (weight_claims (delete p (s_claims s)) s) as Hw. rewrite (claims_weight_delete _ _ _ Hp) in Hw. lia.
  - split; [done|]. intros _. by eapply group_send_weight.
  - split; [done|]. pose proof (weight_report i e s Hi). lia.
  - split; [done|]. unfold weight. simpl. rewrite Hle. simpl. lia.
  - split; [done|]. intros _. eapply group_close_weight; eauto.
  - split; [done|]. intros _. eapply group_close_weight; eauto.
  - split; [done|]. intros _. by eapply forward_step_weight.
  - split; [done|]. intros _. rewrite weight_log. by eapply forward_step_weight.
  - split; [done|]. unfold weight. simpl. rewrite Ho. simpl. lia.
  - split; [done|]. unfold weight. simpl. rewrite Ho, Hr. simpl. lia.
Qed.

Record final s : Prop := {
  f_returned : s_phase s = Returned;
  f_claims : s_claims s = ∅;
  f_reported : s_reporting s = [];
  f_left : s_left s = true;
  f_forwarders : all_finished s;
  f_out : s_out_closed s = true;
  f_reader : s_reader_ended s = true;
}.

#[local] Instance finished_dec (f : Forwarder E) : Decision (f = Finished).
Proof. refine (match f with Finished => left _ | _ => right _ end); congruence. Defined.

(** A forwarder whose channel has an error or is closed can move. *)
Lemma forwarder_moves g h s i l :
  sys_inv g h s → s_lanes s !! i = Some l → l_fwd l ≠ Finished →
  ch_buf (l_chan l) ≠ [] ∨ ch_closed (l_chan l) = true → ∃ s', goroutine_step s s'.
Proof.
  intros I Hl Hf Hc. destruct (l_fwd l) as [|e|] eqn:Hw; [| |done].
  - destruct (ch_buf (l_chan l)) as [|e b] eqn:Hb.
    + eexists. eapply step_forward; [done|]. apply forward_ends; [done|]. apply chan_recv_ends; naive_solver.
    + eexists. eapply step_forward; [done|]. eapply forward_takes; [done|]. unfold chan_recv. by rewrite Hb.
  - destruct (s_out_closed s) eqn:Ho.
    + eexists. eapply step_pass_panics; [done|by apply forward_passes|done].
    + eexists. eapply step_pass; [done|by apply forward_passes|done|].
      apply not_true_iff_false. intros ?%(si_reader _ _ _ I). congruence.
Qed.

(** A goroutine that sends to the handlers' channel is never stuck for good. *)
Lemma sender_moves g h s e :
  sys_inv g h s → (∀ l', lane_send e h = LaneSent l' → ∃ s', goroutine_step s s') →
  (lane_send e h = LanePanics → ∃ s', goroutine_step s s') → ∃ s', goroutine_step s s'.
Proof.
  intros I Hs Hp. destruct (lane_send e h) as [l'| |] eqn:Hsend; [by eapply Hs| |by apply Hp].
  unfold lane_send, chan_send in Hsend. destruct (ch_closed (l_chan h)) eqn:Hc; [done|].
  case_decide as Hd; [done|]. rewrite (si_room _ _ _ I) in Hd.
  apply (forwarder_moves g h s handler_lane h I); [by rewrite (si_lanes _ _ _ I)| |left].
  - intros Hf. destruct (lo_finished _ (si_handler _ _ _ I) Hf). congruence.
  - intros Hb. rewrite Hb in Hd. unfold errorCh_capacity in Hd. simpl in Hd. lia.
Qed.

Lemma reporter_moves g h s e es : sys_inv g h s → s_reporting s = e :: es → ∃ s', goroutine_step s s'.
Proof.
  intros I He. assert (Hi : s_reporting s !! 0 = Some e) by by rewrite He.
  assert (Hg : s_lanes s !! group_lane = Some g) by by rewrite (si_lanes _ _ _ I).
  destruct (lane_send e g) eqn:Hs; eexists; [by eapply step_report_sends|by eapply step_report_drops|by eapply step_report_panics].
Qed.

(** What is left when the loop has returned and [Close] has left the group. *)
Lemma merge_progress g h s :
  sys_inv g h s → s_phase s = Returned → s_left s = true → s_reporting s = [] → final s ∨ ∃ s', goroutine_step s s'.
Proof.
  intros I Hp Hle Hrep. pose proof (si_lanes _ _ _ I) as Hl.
  assert (Hh : s_lanes s !! handler_lane = Some h) by by rewrite Hl.
  assert (Hg : s_lanes s !! group_lane = Some g) by by rewrite Hl.
  pose proof (proj2 (si_returned _ _ _ I) Hp) as Hhc.
  destruct (ch_closed (l_chan g)) eqn:Hgc;
    [|right; destruct (lane_close_open g Hgc) as [g' ?]; eexists; by eapply step_close_errors].
  destruct (decide (l_fwd g = Finished ∧ l_fwd h = Finished)) as [Hf|Hf].
  - apply (all_finished_iff g h s Hl) in Hf. destruct (s_out_closed s) eqn:Ho; [|right; eexists; by apply step_out_closes].
    destruct (s_reader_ended s) eqn:Hr; [|right; eexists; by apply step_reader_ends].
    left. split; try done. apply (si_claims _ _ _ I). congruence.
  - right. destruct (decide (l_fwd g = Finished)) as [Hgf|Hgf].
    + apply (forwarder_moves g h s handler_lane h); auto.
    + apply (forwarder_moves g h s group_lane g); auto.
Qed.

Lemma progress g h s : sys_inv g h s → s_closed s = true → final s ∨ ∃ s', goroutine_step s s'.
Proof.
  intros I Hclosed. pose proof (si_cancelled _ _ _ I Hclosed) as Hcan.
  assert (Hh : s_lanes s !! handler_lane = Some h) by by rewrite (si_lanes _ _ _ I).
  destruct (s_phase s) as [| | |e| |] eqn:Hp.
  - right. eexists. by apply step_closed_group.
  - right. eexists. by apply (step_enter_fails s SessionClosed).
  - right. destruct (decide (s_claims s = ∅)) as [Hc|(p & [|e es] & Hc)%map_choose].
    + eexists. by apply (step_session_ends s SessionOk).
    + eexists. by eapply step_claim_ends.
    + apply (sender_moves g h s e I); intros; eexists; [by eapply step_claim_sends|by eapply step_claim_panics].
  - right. apply (sender_moves g h s e I); intros; eexists; [by eapply step_send_error|by eapply step_send_error_panics].
  - right. eexists. by apply step_select_done.
  - destruct (s_left s) eqn:Hle; [|right; eexists; apply step_leave; congruence].
    destruct (s_reporting s) as [|e es] eqn:Hrep; [by eapply merge_progress|right; by eapply reporter_moves].
Qed.

Lemma panicked_stuck s : s_panicked s = true → sn sys_step s.
Proof. intros Hp. constructor. intros s' [Hcalm _]. congruence. Qed.

Lemma closed_terminates g h s : sys_inv g h s → s_closed s = true → sn sys_step s.
Proof.
  remember (weight s) as w eqn:Hw. revert g h s Hw.
  induction w as [w IH] using lt_wf_ind. intros g h s -> I Hc. constructor. intros s' Hst.
  destruct (weight_step g h s s' I Hc Hst) as [Hc' Hlt]. destruct (inv_step g h s s' I Hst) as (g' & h' & I').
  destruct (s_panicked s') eqn:Hp; [by apply panicked_stuck|]. by eapply IH; [apply Hlt|..].
Qed.

(** After [Close] no report starts. *)
Lemma closed_step n s s' :
  rtc sys_step (start n) s → s_closed s = true → sys_step s s' →
  s_closed s' = true ∧ (s_reporting s = [] → s_reporting s' = []).
Proof.
  intros Hr Hc Hst. destruct (group_reachable_inv n s Hr) as (g & h & I). split; [by eapply weight_step|].
  intros Hrep. destruct Hst as [_ Hst]. destruct Hst; simpl; try done; try congruence; rewrite ?Hrep; try done;
    repeat match goal with r : session_result |- _ => destruct r end; simpl; try done; unfold return_closing;
    by destruct (_ ≫= _).
Qed.

Lemma closed_rtc n s s' :
  rtc sys_step (start n) s → s_closed s = true → rtc sys_step s s' →
  s_closed s' = true ∧ (s_reporting s = [] → s_reporting s' = []).
Proof.
  intros Hr Hc Hr'. induction Hr' as [|x y z Hxy _ IH]; [done|].
  destruct (closed_step n x y Hr Hc Hxy) as [Hc' Hrep]. destruct IH as [? Hz]; [by eapply rtc_r|done|]. auto.
Qed.

(** What the invariant says of a group in which every goroutine has ended. *)
Lemma final_accounting g h s :
  sys_inv g h s → l_fwd g = Finished → l_fwd h = Finished →
  s_log s ≡ₚ l_passed g ++ l_sent h ∧ l_sent g ≡ₚ l_drained g ++ l_passed g.
Proof.
  intros I Hg Hh. rewrite (si_log _ _ _ I), (lo_order _ (si_handler _ _ _ I) (si_never_drained _ _ _ I)), (lo_sent _ (si_group _ _ _ I)).
  destruct (lo_finished _ (si_group _ _ _ I) Hg) as [_ ->], (lo_finished _ (si_handler _ _ _ I) Hh) as [_ ->].
  unfold held. rewrite Hg, Hh, !app_nil_r. done.
Qed.

(** C38: In every interleaving of the goroutines of a consumer group the only panic is
    the race of sarama's [handleError] with [Close]: the group is closed, [Close] has
    left it and closed sarama's channel, and an error whose goroutine found the group
    open before is still to be sent; nobody else sends on a closed channel and none is
    closed twice.  The channel of the handlers never holds more than its 10 errors and
    delivers them in the order they were sent, none lost; an error that sarama sent is
    logged unless [Close] drained it; and once the reader in [subscribe] has ended,
    every error that a handler or the loop sent was logged exactly once. *)
Theorem error_channels_safe (n : nat) s (Hr : rtc sys_step (start n) s) :
  ∃ g h, s_lanes s = [g; h] ∧
    (s_panicked s = true →
       s_closed s = true ∧ s_left s = true ∧ ch_closed (l_chan g) = true ∧ s_reporting s ≠ []) ∧
    length (ch_buf (l_chan h)) ≤ errorCh_capacity ∧
    l_sent h = l_passed h ++ held h ++ ch_buf (l_chan h) ∧
    l_sent g ≡ₚ l_drained g ++ l_passed g ++ held g ++ ch_buf (l_chan g) ∧
    (s_closed s = false → l_drained g = []) ∧
    s_log s ≡ₚ l_passed g ++ l_passed h ∧
    (s_reader_ended s = true → s_log s ≡ₚ l_passed g ++ l_sent h ∧ l_sent g ≡ₚ l_drained g ++ l_passed g).
Proof.
  destruct (group_reachable_inv n s Hr) as (g & h & I). exists g, h. split_and!.
  - apply (si_lanes _ _ _ I).
  - intros [Hg ?]%(si_panic _ _ _ I). pose proof (si_group_closed _ _ _ I Hg) as Hle.
    split_and!; try done. by apply (si_left _ _ _ I).
  - rewrite <-(si_room _ _ _ I). apply (lo_room _ (si_handler _ _ _ I)).
  - apply (lo_order _ (si_handler _ _ _ I)), (si_never_drained _ _ _ I).
  - apply (lo_sent _ (si_group _ _ _ I)).
  - intros Hc. destruct (l_drained g) eqn:Hd; [done|].
    assert (Hn : s_closed s = true) by (apply (si_drained _ _ _ I); by rewrite Hd). congruence.
  - apply (si_log _ _ _ I).
  - intros He%(si_reader _ _ _ I)%(si_out _ _ _ I). destruct He. by apply final_accounting.
Qed.

(** C36: once the group is closed, every interleaving ends.  It ends either in the panic of
    a report that raced [Close], or when the consume loop has returned and the goroutines
    of the claims, the reports, both forwarders and the reader have ended: then the
    merged channel is closed and every error that was sent has been logged or, for
    sarama's, drained by [Close].  If no report was under way when the group was closed,
    it is the latter: nothing leaks and nothing panics. *)
Theorem close_leaks_nothing (n : nat) s (Hr : rtc sys_step (start n) s) (Hc : s_closed s = true) :
  sn sys_step s ∧
  ∀ s', rtc sys_step s s' →
    (s_reporting s = [] → s_panicked s' = false) ∧
    (nf sys_step s' →
      s_panicked s' = true ∧ s_reporting s' ≠ [] ∨
      final s' ∧ s_panicked s' = false ∧
      ∃ g h, s_lanes s' = [g; h] ∧ ch_closed (l_chan g) = true ∧ ch_closed (l_chan h) = true ∧
        s_log s' ≡ₚ l_passed g ++ l_sent h ∧ l_sent g ≡ₚ l_drained g ++ l_passed g).
Proof.
  destruct (group_reachable_inv n s Hr) as (g & h & I). split; [by eapply closed_terminates|].
  intros s' Hr'. destruct (closed_rtc n s s' Hr Hc Hr') as [Hc' Hrep].
  destruct (group_reachable_inv n s') as (g' & h' & I'); [by etrans|]. split.
  - intros Hnone%Hrep. apply not_true_iff_false. by intros [_ ?]%(si_panic _ _ _ I').
  - intros Hnf. destruct (s_panicked s') eqn:Hp; [left; split; [done|]; by apply (si_panic _ _ _ I')|right].
    destruct (progress g' h' s' I' Hc') as [Hf|[? ?]]; [|by destruct Hnf; eexists]. split; [done|]. split; [done|]. exists g', h'.
    pose proof (si_lanes _ _ _ I') as Hl. destruct (proj1 (all_finished_iff g' h' s' Hl) (f_forwarders _ Hf)) as [Hg Hh].
    destruct (lo_finished _ (si_group _ _ _ I') Hg) as [? _], (lo_finished _ (si_handler _ _ _ I') Hh) as [? _].
    split; [done|]. split; [done|]. split; [done|]. by apply final_accounting.
Qed.
End invariants.

(** ** A run: one session with one claim, which sends an error before [Close] *)
Section run.
Definition run_claims : gmap Z (list string) := {[ 0%Z := ["offset out of range"] ]}.

(** The group has been closed while the claim still has its error to send. *)
Definition closed_in_session : Sys string :=
  mkSys InSession run_claims true true (s_lanes (start 1)) false false [] false false [].
Definition error_lane (f : Forwarder string) (buf passed : list string) (closed : bool) : Lane string :=
  mkLane (mkChan 10 buf closed) f ["offset out of range"] passed [].
Definition silent_lane (f : Forwarder string) (closed : bool) : Lane string := mkLane (mkChan 1 [] closed) f [] [] [].
Definition all_ended : Sys string :=
  mkSys Returned ∅ true true [silent_lane Finished true; error_lane Finished [] ["offset out of range"] true] true true
    ["offset out of range"] false true [].

Ltac run_step c := eapply rtc_l; [split; [reflexivity|c]|].

Lemma run_closes : rtc sys_step (start 1) closed_in_session.
Proof.
  run_step ltac:(by apply step_enter). run_step ltac:(by apply (step_session _ run_claims)).
  run_step ltac:(by apply step_cancel). run_step ltac:(by apply step_close_group). apply rtc_refl.
Qed.

Lemma run_ends : rtc sys_step closed_in_session all_ended.
Proof.
  run_step ltac:(by eapply (step_claim_sends _ 0%Z)). run_step ltac:(by eapply (step_claim_ends _ 0%Z)).
  run_step ltac:(by eapply (step_forward _ handler_lane); [reflexivity|eapply forward_takes]).
  run_step ltac:(by eapply (step_pass _ handler_lane); [reflexivity|by eapply forward_passes| |]).
  run_step ltac:(by apply (step_session_ends _ SessionOk)).
  run_step ltac:(by apply step_select_done). run_step ltac:(by apply step_leave).
  run_step ltac:(by eapply step_close_errors).
  run_step ltac:(by eapply (step_forward _ handler_lane); [reflexivity|by eapply forward_ends]).
  run_step ltac:(by eapply (step_forward _ group_lane); [reflexivity|by eapply forward_ends]).
  run_step ltac:(apply step_out_closes; [by eapply all_finished_iff|done]).
  run_step ltac:(by apply step_reader_ends). apply rtc_refl.
Qed.

Lemma all_ended_stuck : nf sys_step all_ended.
Proof.
  intros [s' [_ Hst]]. inversion Hst; subst; simpl in *; try done; try (by simplify_eq/=);
    repeat match goal with i : nat |- _ => destruct i as [|i]; simplify_eq/= end;
    by match goal with H : forward_step _ _ _ |- _ => inversion H end.
Qed.

Lemma error_channels_safe_witness :
  rtc sys_step (start 1) all_ended ∧
  ∃ g h, s_lanes all_ended = [g; h] ∧ l_sent h = ["offset out of range"] ∧ s_log all_ended ≡ₚ l_passed g ++ l_sent h.
Proof.
  assert (Hr : rtc sys_step (start 1) all_ended) by (etrans; [apply run_closes|apply run_ends]).
  split; [exact Hr|]. destruct (error_channels_safe 1 all_ended Hr) as (g & h & Hl & _ & _ & _ & _ & _ & _ & Hend).
  exists g, h. split; [exact Hl|]. destruct (Hend eq_refl) as [Hlog _].
  injection Hl as <- <-. split; [reflexivity|exact Hlog].
Defined.

Lemma close_leaks_nothing_witness :
  sn sys_step closed_in_session ∧ rtc sys_step closed_in_session all_ended ∧ s_panicked all_ended = false ∧ final all_ended.
Proof.
  destruct (close_leaks_nothing 1 closed_in_session run_closes eq_refl) as [Hsn Hend].
  split; [exact Hsn|]. split; [exact run_ends|]. destruct (Hend all_ended run_ends) as [Hcalm Hnf].
  split; [by apply Hcalm|]. destruct (Hnf all_ended_stuck) as [[? _]|[Hf _]]; [discriminate|exact Hf].
Defined.

(** The race: a goroutine of sarama finds the group open, [Close] cancels, closes,
    leaves and closes sarama's channel, and the send of the goroutine panics. *)
Theorem report_races_close (e : string) :
  ∃ s, rtc sys_step (start 1) s ∧ s_panicked s = true ∧ s_phase s = Between ∧ s_reporting s = [e].
Proof.
  eexists. split; [|split; [|split]].
  - run_step ltac:(by apply (step_report_check _ e)). run_step ltac:(by apply step_cancel).
    run_step ltac:(by apply step_close_group). run_step ltac:(by apply step_leave).
    run_step ltac:(by eapply step_close_errors). run_step ltac:(by eapply (step_report_panics _ 0)).
    apply rtc_refl.
  - reflexivity.
  - reflexivity.
  - reflexivity.
Qed.
End run.
