(* ===== verification/Dispatcher.v ===== *)
(** * Dispatcher: the consumer groups of the channels of one dispatcher pod

    Models [src/pkg/channel/kt/dispatcher/dispatcher.go].  A pointer to a
    [KafkaSubscription] is a location of [objects]; a started consumer group is
    a handle of [open_groups] until it is closed.  [ReconcileConsumers] and the
    second half of [CleanupChannel] run under [consumerUpdateLock], so each is
    one transition; the handlers of the running groups write the shared objects
    in between ([SetReady_at]).

    The Kafka cluster is a parameter: the [n]-th creation and the [n]-th closing
    of a consumer group may fail.  The relation [represents] ties the three maps,
    the objects and the open groups to one abstract map from subscription UIDs to
    channel and subscription. *)
From Stdlib Require Import Ascii.
From S2P Require Import Prelude GoStrings ApiTypes Sender KafkaSubscription.

Class KafkaCluster := {
  start_error : nat → string → option string;
  close_error : nat → string → option string;
}.

(** [eventingchannels.ChannelReference]. *)
Record ChannelReference := mkChannelReference { cr_Namespace : string; cr_Name : string }.
#[export] Instance ChannelReference_eq_dec : EqDecision ChannelReference.
Proof. solve_decision. Defined.

(** A started consumer group with its handler ([consumerMessageHandler]): the
    subscription it serves and the shared object it reports to. *)
Record ConsumerGroup := mkConsumerGroup {
  cg_groupID : string;
  cg_topics : list string;
  cg_sub : Subscription;
  cg_kafkaSubscription : nat;
}.
#[export] Instance ConsumerGroup_eq_dec : EqDecision ConsumerGroup.
Proof. solve_decision. Defined.

Record KafkaDispatcher := mkDispatcher {
  hostToChannelMap : gmap string ChannelReference;
  channelSubscriptions : gmap NamespacedName nat;
  subsConsumerGroups : gmap string nat;
  subscriptions : gmap string Subscription;
  topicFunc : string;
  (** the heap of [KafkaSubscription] objects and the groups not closed yet *)
  objects : gmap nat KafkaSubscription;
  open_groups : gmap nat ConsumerGroup;
  (** allocations, creations, closings and [range] loops so far *)
  next : nat;
  starts : nat;
  closings : nat;
  ranges : nat;
}.

(** The dispatcher [NewDispatcher] builds, with empty maps. *)
Definition empty_dispatcher (topic : string) : KafkaDispatcher :=
  mkDispatcher ∅ ∅ ∅ ∅ topic ∅ ∅ 0 0 0 0.

(** ** Field updates *)
Definition with_hosts (d : KafkaDispatcher) m :=
  mkDispatcher m (channelSubscriptions d) (subsConsumerGroups d) (subscriptions d) (topicFunc d)
    (objects d) (open_groups d) (next d) (starts d) (closings d) (ranges d).
Definition with_channels (d : KafkaDispatcher) m :=
  mkDispatcher (hostToChannelMap d) m (subsConsumerGroups d) (subscriptions d) (topicFunc d)
    (objects d) (open_groups d) (next d) (starts d) (closings d) (ranges d).
Definition with_groups (d : KafkaDispatcher) m :=
  mkDispatcher (hostToChannelMap d) (channelSubscriptions d) m (subscriptions d) (topicFunc d)
    (objects d) (open_groups d) (next d) (starts d) (closings d) (ranges d).
Definition with_subscriptions (d : KafkaDispatcher) m :=
  mkDispatcher (hostToChannelMap d) (channelSubscriptions d) (subsConsumerGroups d) m (topicFunc d)
    (objects d) (open_groups d) (next d) (starts d) (closings d) (ranges d).
Definition with_objects (d : KafkaDispatcher) m :=
  mkDispatcher (hostToChannelMap d) (channelSubscriptions d) (subsConsumerGroups d) (subscriptions d)
    (topicFunc d) m (open_groups d) (next d) (starts d) (closings d) (ranges d).
Definition ranged (d : KafkaDispatcher) :=
  mkDispatcher (hostToChannelMap d) (channelSubscriptions d) (subsConsumerGroups d) (subscriptions d)
    (topicFunc d) (objects d) (open_groups d) (next d) (starts d) (closings d) (S (ranges d)).

(** [NewKafkaSubscription]: a new object. *)
Definition new_object (d : KafkaDispatcher) : nat * KafkaDispatcher :=
  (next d,
   mkDispatcher (hostToChannelMap d) (channelSubscriptions d) (subsConsumerGroups d)
     (subscriptions d) (topicFunc d) (<[next d := NewKafkaSubscription]> (objects d))
     (open_groups d) (S (next d)) (starts d) (closings d) (ranges d)).

(** [subs.Insert] and [subs.Delete] on the object at [l]. *)
Definition with_subs (f : gset string → gset string) (ks : KafkaSubscription) : KafkaSubscription :=
  mkKafkaSubscription (f (subs ks)) (channelReadySubscriptions ks).
Definition alter_subs (f : gset string → gset string) (l : nat) (d : KafkaDispatcher) :=
  with_objects d (alter (with_subs f) l (objects d)).

(** [SetReady] of a handler on the object it holds. *)
Definition SetReady_at (l : nat) (uid : string) (partition : Z) (ready : bool) (d : KafkaDispatcher) :=
  with_objects d (alter (SetReady uid partition ready) l (objects d)).

Section operations.
Context `{KafkaCluster} `{GoRuntime}.
Implicit Types (d : KafkaDispatcher) (ref : NamespacedName) (sub : Subscription).

(** [fmt.Sprintf] of ["kafka.%s.%s.%s"]. *)
Definition groupID ref (uid : string) : string :=
  "kafka." +:+ nn_Namespace ref +:+ "." +:+ nn_Name ref +:+ "." +:+ uid.

(** [kafkaConsumerFactory.StartConsumerGroup]. *)
Definition StartConsumerGroup (g : ConsumerGroup) d : (string + nat) * KafkaDispatcher :=
  match start_error (starts d) (cg_groupID g) with
  | Some err =>
      (inl err,
       mkDispatcher (hostToChannelMap d) (channelSubscriptions d) (subsConsumerGroups d)
         (subscriptions d) (topicFunc d) (objects d) (open_groups d)
         (next d) (S (starts d)) (closings d) (ranges d))
  | None =>
      (inr (next d),
       mkDispatcher (hostToChannelMap d) (channelSubscriptions d) (subsConsumerGroups d)
         (subscriptions d) (topicFunc d) (objects d) (<[next d := g]> (open_groups d))
         (S (next d)) (S (starts d)) (closings d) (ranges d))
  end.

(** [consumerGroup.Close]: the group stops consuming, whatever it returns. *)
Definition Close (h : nat) d : option string * KafkaDispatcher :=
  (match open_groups d !! h with
   | None => None
   | Some g => close_error (closings d) (cg_groupID g)
   end,
   mkDispatcher (hostToChannelMap d) (channelSubscriptions d) (subsConsumerGroups d)
     (subscriptions d) (topicFunc d) (objects d) (delete h (open_groups d))
     (next d) (starts d) (S (closings d)) (ranges d)).

(** Get or create the object of the channel. *)
Definition get_or_create ref d : nat * KafkaDispatcher :=
  match channelSubscriptions d !! ref with
  | Some l => (l, d)
  | None =>
      let (l, d) := new_object d in
      (l, with_channels d (<[ref := l]> (channelSubscriptions d)))
  end.

Definition subscribe ref sub d : option string * KafkaDispatcher :=
  let topicName := topicFunc d in
  let (kafkaSubscription, d) := get_or_create ref d in
  let handler := mkConsumerGroup (groupID ref (s_UID sub)) [topicName] sub kafkaSubscription in
  let (consumerGroup, d) := StartConsumerGroup handler d in
  match consumerGroup with
  | inl err => (Some err, d)
  | inr consumerGroup =>
      let d := alter_subs (λ s, {[s_UID sub]} ∪ s) kafkaSubscription d in
      let d := with_subscriptions d (<[s_UID sub := sub]> (subscriptions d)) in
      (None, with_groups d (<[s_UID sub := consumerGroup]> (subsConsumerGroups d)))
  end.

(** The subscription UIDs of the object at [l]. *)
Definition subs_at d (l : nat) : gset string :=
  match objects d !! l with Some ks => subs ks | None => ∅ end.

Definition unsubscribe ref sub d : option string * KafkaDispatcher :=
  let d := with_subscriptions d (delete (s_UID sub) (subscriptions d)) in
  match channelSubscriptions d !! ref with
  | None => (None, d)
  | Some l =>
      let d := alter_subs (λ s, s ∖ {[s_UID sub]}) l d in
      let d := if decide (size (subs_at d l) = 0)
               then with_channels d (delete ref (channelSubscriptions d)) else d in
      match subsConsumerGroups d !! s_UID sub with
      | Some consumerGroup =>
          Close consumerGroup (with_groups d (delete (s_UID sub) (subsConsumerGroups d)))
      | None => (None, d)
      end
  end.

(** [d.subscriptions[uid]]: the zero value when absent. *)
Definition subscription_of d (uid : string) : Subscription :=
  default zero_Subscription (subscriptions d !! uid).

(** The [subs] of the channel's object; the empty set without one. *)
Definition existingSubs d ref : gset string :=
  match channelSubscriptions d !! ref with Some l => subs_at d l | None => ∅ end.

(** [toAddSubs]: a later duplicate of a UID replaces an earlier one. *)
Definition toAddSubs (toAdd : gset string) (specs : list Subscription) : gmap string Subscription :=
  foldl (λ m sub, if decide (s_UID sub ∈ toAdd) then <[s_UID sub := sub]> m else m) ∅ specs.

(** The loop over [toAddSubs]; [failed] is [failedToSubscribe]. *)
Definition subscribe_step ref (st : gmap string string * KafkaDispatcher)
    (us : string * Subscription) : gmap string string * KafkaDispatcher :=
  let '(failed, d) := st in
  match subscribe ref us.2 d with
  | (Some err, d) => (<[us.1 := err]> failed, d)
  | (None, d) => (failed, d)
  end.

(** The loop over [toRemoveSubs]: errors are only logged. *)
Definition unsubscribe_step ref d (uid : string) : KafkaDispatcher :=
  (unsubscribe ref (subscription_of d uid) d).2.

Definition ReconcileConsumers (config : ChannelConfig) d :
    option (gmap string string) * KafkaDispatcher :=
  let channelNamespacedName := mkNamespacedName (cc_Namespace config) (cc_Name config) in
  let existing := existingSubs d channelNamespacedName in
  let newSubs : gset string := list_to_set (SubscriptionsUIDs config) in
  let toRemove := existing ∖ newSubs in
  let toAdd := toAddSubs (newSubs ∖ existing) (cc_Subscriptions config) in
  let (failedToSubscribe, d) :=
    foldl (subscribe_step channelNamespacedName) (∅, ranged d)
      (range_order (ranges d) (map_to_list toAdd)) in
  let d := foldl (unsubscribe_step channelNamespacedName) (ranged d)
             (range_order (ranges d) (elements toRemove)) in
  (if decide (size failedToSubscribe = 0) then None else Some failedToSubscribe, d).

(** [UpdateError.Error]. *)
Definition UpdateError_Error (n : nat) (k : gmap string string) : string :=
  Join "," ((λ ue, "subscription " +:+ ue.1 +:+ ": " +:+ ue.2) <$> range_order n (map_to_list k)).

Definition duplicate_host_error (host : string) (old : ChannelReference) (config : ChannelConfig) : string :=
  "duplicate hostName found. Each channel must have a unique host header. HostName:" +:+ host +:+
  ", channel:" +:+ cr_Namespace old +:+ "." +:+ cr_Name old +:+
  ", channel:" +:+ cc_Namespace config +:+ "." +:+ cc_Name config.

Definition RegisterChannelHost (config : ChannelConfig) d : option string * KafkaDispatcher :=
  match hostToChannelMap d !! cc_HostName config with
  | None =>
      (None, with_hosts d (<[cc_HostName config :=
                mkChannelReference (cc_Namespace config) (cc_Name config)]> (hostToChannelMap d)))
  | Some old =>
      if bool_decide (cr_Namespace old = cc_Namespace config ∧ cr_Name old = cc_Name config)
      then (None, d)
      else (Some (duplicate_host_error (cc_HostName config) old config), d)
  end.

(** The loop of [CleanupChannel]: it stops at the first error. *)
Fixpoint cleanup_loop ref (uids : list string) d : option string * KafkaDispatcher :=
  match uids with
  | [] => (None, d)
  | s :: uids =>
      match unsubscribe ref (subscription_of d s) d with
      | (Some err, d) => (Some err, d)
      | (None, d) => cleanup_loop ref uids d
      end
  end.

Definition CleanupChannel (name namespace hostname : string) d : option string * KafkaDispatcher :=
  let channelRef := mkNamespacedName namespace name in
  let d := with_hosts d (delete hostname (hostToChannelMap d)) in
  match channelSubscriptions d !! channelRef with
  | None => (None, d)
  | Some l =>
      cleanup_loop channelRef (range_order (ranges d) (elements (subs_at d l))) (ranged d)
  end.

Definition getChannelReferenceFromHost (host : string) d : res string ChannelReference :=
  match hostToChannelMap d !! host with
  | None => Err ("cannot map host to channel: " +:+ host)
  | Some cr => Ok cr
  end.
End operations.

(** ** What the dispatcher consumes *)

(** The abstract state: every consumed subscription UID with its channel and the
    subscription its handler was created with. *)
Abbreviation Consumed := (gmap string (NamespacedName * Subscription)).

Record represents (d : KafkaDispatcher) (A : Consumed) : Prop := {
  rp_subs : subscriptions d = snd <$> A;
  rp_uid uid ref sub : A !! uid = Some (ref, sub) → s_UID sub = uid;
  rp_channel ref uid : uid ∈ existingSubs d ref ↔ ∃ sub, A !! uid = Some (ref, sub);
  rp_object ref l : channelSubscriptions d !! ref = Some l → is_Some (objects d !! l);
  rp_inj ref1 ref2 l : channelSubscriptions d !! ref1 = Some l →
    channelSubscriptions d !! ref2 = Some l → ref1 = ref2;
  rp_groups uid ref sub : A !! uid = Some (ref, sub) →
    ∃ h l, subsConsumerGroups d !! uid = Some h ∧ channelSubscriptions d !! ref = Some l ∧
           open_groups d !! h = Some (mkConsumerGroup (groupID ref uid) [topicFunc d] sub l);
  rp_consumed uid h : subsConsumerGroups d !! uid = Some h → is_Some (A !! uid);
  rp_no_leak h g : open_groups d !! h = Some g → ∃ uid, subsConsumerGroups d !! uid = Some h;
  rp_fresh_group h g : open_groups d !! h = Some g → h < next d;
  rp_fresh_object l ks : objects d !! l = Some ks → l < next d;
}.

Section refinement.
Context `{KafkaCluster} `{GoRuntime}.
Implicit Types (d : KafkaDispatcher) (ref : NamespacedName) (sub : Subscription) (A : Consumed).

Lemma represents_empty topic : represents (empty_dispatcher topic) ∅.
Proof.
  split; try (intros *; simpl; rewrite ?lookup_empty; done).
  intros ref uid. unfold existingSubs. simpl. rewrite lookup_empty. split; [set_solver|].
  intros [sub Hs]. by rewrite lookup_empty in Hs.
Qed.

(** The host map, the clocks of the loops and the readiness of the objects are
    not part of the relation. *)
Lemma represents_hosts d m A : represents d A → represents (with_hosts d m) A.
Proof. by intros []. Qed.
Lemma represents_ranged d A : represents d A → represents (ranged d) A.
Proof. by intros []. Qed.

Lemma represents_SetReady_at l uid p b d A :
  represents d A → represents (SetReady_at l uid p b d) A.
Proof.
  intros [Hs Hu Hc Ho Hi Hg Hd Hl Hfg Hfo]. unfold SetReady_at. split; try done; simpl.
  - intros ref uid'. rewrite <-Hc. unfold existingSubs, subs_at. simpl. case_match; [|done].
    rewrite lookup_alter. case_decide as Hll; [subst|done].
    destruct (objects d !! _); simpl; [|done]. by rewrite SetReady_subs.
  - intros ref l' Hl'. apply Ho in Hl' as [ks Hks]. rewrite lookup_alter. case_decide; subst; rewrite Hks; simpl; eauto.
  - intros l' ks'. rewrite lookup_alter. case_decide; [subst|apply Hfo].
    destruct (objects d !! l') eqn:E; [|done]. intros _. by eapply Hfo.
Qed.

Lemma existingSubs_alter f l d ref :
  is_Some (objects d !! l) →
  existingSubs (alter_subs f l d) ref =
  if decide (channelSubscriptions d !! ref = Some l)
  then f (existingSubs d ref) else existingSubs d ref.
Proof.
  intros [ks Hks]. unfold existingSubs, subs_at, alter_subs. simpl.
  destruct (channelSubscriptions d !! ref) as [l'|]; [|by rewrite decide_False].
  rewrite lookup_alter. destruct (decide (l = l')) as [<-|Hne].
  - rewrite decide_True by done. by rewrite Hks.
  - by rewrite decide_False by congruence.
Qed.

(** [get_or_create] only adds an empty object. *)
Lemma get_or_create_spec ref d l d' A :
  represents d A → get_or_create ref d = (l, d') →
  represents d' A ∧ channelSubscriptions d' !! ref = Some l ∧
  subsConsumerGroups d' = subsConsumerGroups d ∧ open_groups d' = open_groups d ∧
  topicFunc d' = topicFunc d ∧ hostToChannelMap d' = hostToChannelMap d ∧ starts d' = starts d.
Proof.
  intros HA. unfold get_or_create. destruct (channelSubscriptions d !! ref) as [l0|] eqn:Href.
  { by intros [= <- <-]. }
  intros [= <- <-]. pose proof HA as [Hs Hu Hc Ho Hi Hg Hd Hl Hfg Hfo].
  assert (Hnext : objects d !! next d = None).
  { destruct (objects d !! next d) eqn:E; [|done]. apply Hfo in E. lia. }
  split; [|by simpl; rewrite lookup_insert_eq]. split; try done; simpl.
  - intros ref' uid. rewrite <-Hc. unfold existingSubs, subs_at. simpl.
    rewrite lookup_insert. case_decide as Hr; [subst ref'|].
    + rewrite lookup_insert_eq, Href. done.
    + destruct (channelSubscriptions d !! ref') as [l'|] eqn:El; [|done].
      rewrite lookup_insert_ne; [done|]. intros <-. apply Ho in El as [??]. congruence.
  - intros ref' l'. rewrite lookup_insert. case_decide as Hr.
    + intros [= <-]. rewrite lookup_insert_eq. eauto.
    + intros Hl'. apply Ho in Hl' as [??]. rewrite lookup_insert. case_decide; eauto.
  - intros ref1 ref2 l'. rewrite !lookup_insert. repeat case_decide; subst; try done; [| |by apply Hi].
    + intros [= <-] Hl2. apply Ho in Hl2 as [??]. congruence.
    + intros Hl1 [= <-]. apply Ho in Hl1 as [??]. congruence.
  - intros uid ref' sub Hx. destruct (Hg _ _ _ Hx) as (h & l' & ? & ? & ?). exists h, l'.
    rewrite lookup_insert_ne by congruence. done.
  - intros h g Hx. apply Hfg in Hx. lia.
  - intros l' ks. rewrite lookup_insert. case_decide; [subst; lia|]. intros Hx. apply Hfo in Hx. lia.
Qed.

(** The UIDs of the channels after one was added to the object of [ref]. *)
Lemma existingSubs_subscribed ref sub d A l :
  represents d A → channelSubscriptions d !! ref = Some l → A !! s_UID sub = None →
  ∀ ref' uid, uid ∈ existingSubs (alter_subs (λ s, {[s_UID sub]} ∪ s) l d) ref' ↔
    ∃ sub', (<[s_UID sub := (ref, sub)]> A) !! uid = Some (ref', sub').
Proof.
  intros HA Hl Hnew ref' uid. destruct (rp_object _ _ HA _ _ Hl) as [ks Hks].
  rewrite existingSubs_alter by eauto. setoid_rewrite lookup_insert_Some. case_decide as Hr.
  - assert (ref' = ref) as -> by (by eapply (rp_inj _ _ HA)).
    rewrite elem_of_union, elem_of_singleton, (rp_channel _ _ HA). split.
    + intros [->|[sub' Hx]]; [by exists sub; left|]. exists sub'. right.
      split; [|done]. intros <-. congruence.
    + intros (sub' & [[<- _]|[_ Hx]]); eauto.
  - rewrite (rp_channel _ _ HA). split.
    + intros [sub' Hx]. exists sub'. right. split; [|done]. intros <-. congruence.
    + intros (sub' & [[_ [= <- _]]|[_ Hx]]); [congruence|eauto].
Qed.

(** Subscribing to a UID nobody consumes adds it, or leaves the rest alone. *)
Lemma subscribe_spec ref sub d A e d' :
  represents d A → A !! s_UID sub = None → subscribe ref sub d = (e, d') →
  hostToChannelMap d' = hostToChannelMap d ∧ topicFunc d' = topicFunc d ∧
  e = start_error (starts d) (groupID ref (s_UID sub)) ∧ starts d' = S (starts d) ∧
  represents d' (match e with None => <[s_UID sub := (ref, sub)]> A | Some _ => A end).
Proof.
  intros HA Hnew. unfold subscribe. destruct (get_or_create ref d) as [l d1] eqn:Hgc.
  eapply get_or_create_spec in Hgc as (HA1 & Hl1 & Hcg & Hog & Htp & Hh & Hst); [|done].
  unfold StartConsumerGroup. simpl. rewrite Hst.
  destruct (start_error _ _) as [err|] eqn:Hstart; intros [= <- <-]; simpl.
  { split_and!; try done. pose proof HA1 as []. by split. }
  split_and!; try done. pose proof HA1 as [Hs Hu Hc Ho Hi Hg Hd Hl Hfg Hfo].
  assert (Hnog : open_groups d1 !! next d1 = None).
  { destruct (open_groups d1 !! next d1) eqn:E; [|done]. apply Hfg in E. lia. }
  destruct (Ho _ _ Hl1) as [ks Hks]. split; simpl.
  - rewrite fmap_insert. by rewrite Hs.
  - intros uid ref' sub'. rewrite lookup_insert_Some.
    intros [[<- [= <- <-]]|[_ Hx]]; [done|by eapply Hu].
  - intros ref' uid. apply (existingSubs_subscribed ref sub d1 A l HA1 Hl1 Hnew).
  - intros ref' l' Hx. apply Ho in Hx as [ks' Hks']. rewrite lookup_alter. case_decide; subst; rewrite Hks'; simpl; eauto.
  - done.
  - intros uid ref' sub'. rewrite lookup_insert_Some. intros [[<- [= <- <-]]|[Hne Hx]].
    + exists (next d1), l. rewrite !lookup_insert_eq. by rewrite Htp.
    + destruct (Hg _ _ _ Hx) as (h & l' & Hh' & Hl' & Hgr). exists h, l'.
      rewrite !lookup_insert_ne; [done| |done]. congruence.
  - intros uid h. rewrite lookup_insert_Some.
    intros [[<- _]|[Hne Hx]]; [by rewrite lookup_insert_eq|].
    rewrite lookup_insert_ne by done. by eapply Hd.
  - intros h g. rewrite lookup_insert_Some. intros [[<- _]|[Hne Hx]].
    + exists (s_UID sub). by rewrite lookup_insert_eq.
    + destruct (Hl _ _ Hx) as [uid Huid]. exists uid. rewrite lookup_insert_ne; [done|].
      intros <-. apply Hd in Huid as [? ?]. congruence.
  - intros h g. rewrite lookup_insert_Some. intros [[<- _]|[_ Hx]]; [lia|]. apply Hfg in Hx. lia.
  - intros l' ks'. rewrite lookup_alter. case_decide; [subst; rewrite Hks|];
      intros Hx; [apply Hfo in Hks|apply Hfo in Hx]; lia.
Qed.
End refinement.

(** ** Unsubscribing *)
Section unsubscribing.
Context `{KafkaCluster} `{GoRuntime}.
Implicit Types (d : KafkaDispatcher) (ref : NamespacedName) (sub : Subscription) (A : Consumed).

Lemma size_zero_gset (X : gset string) : size X = 0 ↔ X = ∅.
Proof. split; [intros ?%size_empty_inv; by apply leibniz_equiv|intros ->; apply size_empty]. Qed.

Lemma difference_singleton_empty (X : gset string) (a : string) : X ∖ {[a]} = ∅ ↔ X ⊆ {[a]}.
Proof.
  split; [|set_solver]. intros Hempty x Hx. destruct (decide (x = a)) as [->|Hne]; [set_solver|].
  assert (Hin : x ∈ X ∖ {[a]}) by set_solver. rewrite Hempty in Hin. set_solver.
Qed.

(** The maps after [unsubscribe] of a consumed UID. *)
Lemma unsubscribe_eq ref sub d A l h :
  represents d A → A !! s_UID sub = Some (ref, sub) →
  channelSubscriptions d !! ref = Some l → subsConsumerGroups d !! s_UID sub = Some h →
  ∃ e cs, unsubscribe ref sub d = (e,
    mkDispatcher (hostToChannelMap d) cs (delete (s_UID sub) (subsConsumerGroups d))
      (delete (s_UID sub) (subscriptions d)) (topicFunc d)
      (alter (with_subs (λ s, s ∖ {[s_UID sub]})) l (objects d)) (delete h (open_groups d))
      (next d) (starts d) (S (closings d)) (ranges d)) ∧
    e = close_error (closings d) (groupID ref (s_UID sub)) ∧
    (∀ ref', cs !! ref' = if decide (ref' = ref ∧ existingSubs d ref ⊆ {[s_UID sub]})
                          then None else channelSubscriptions d !! ref').
Proof.
  intros HA Hsub Hl Hh. unfold unsubscribe. simpl. rewrite Hl.
  destruct (rp_object _ _ HA _ _ Hl) as [ks Hks].
  destruct (rp_groups _ _ HA _ _ _ Hsub) as (h' & l' & Hh' & _ & Hg).
  assert (h' = h) as -> by congruence.
  assert (Hsize : size (subs_at (alter_subs (λ s, s ∖ {[s_UID sub]}) l
                     (with_subscriptions d (delete (s_UID sub) (subscriptions d)))) l) = 0 ↔
                  existingSubs d ref ⊆ {[s_UID sub]}).
  { rewrite size_zero_gset. unfold existingSubs, subs_at. rewrite Hl. simpl.
    rewrite lookup_alter_eq, Hks. apply difference_singleton_empty. }
  destruct (decide (size _ = 0)) as [Hz|Hz]; simpl; rewrite Hh; unfold Close; simpl; rewrite Hg; simpl;
    eexists _, _; (split; [reflexivity|]); (split; [done|]); intros ref'.
  - apply Hsize in Hz. destruct (decide (ref' = ref)) as [->|Hr].
    + by rewrite lookup_delete_eq, decide_True.
    + rewrite lookup_delete_ne, decide_False by naive_solver. done.
  - rewrite decide_False; [done|]. intros [_ ?%Hsize]. done.
Qed.

(** The UIDs that the channels have after a subscription is taken away and an
    object left without any is dropped. *)
Lemma existingSubs_unsubscribed ref sub d A l cs h :
  represents d A → channelSubscriptions d !! ref = Some l →
  (∀ ref', cs !! ref' =
     if decide (ref' = ref ∧ existingSubs d ref ⊆ {[s_UID sub]}) then None else channelSubscriptions d !! ref') →
  ∀ ref',
  existingSubs (mkDispatcher (hostToChannelMap d) cs
    (delete (s_UID sub) (subsConsumerGroups d)) (delete (s_UID sub) (subscriptions d)) (topicFunc d)
    (alter (with_subs (λ s, s ∖ {[s_UID sub]})) l (objects d)) (delete h (open_groups d))
    (next d) (starts d) (S (closings d)) (ranges d)) ref' =
  if decide (ref' = ref) then existingSubs d ref' ∖ {[s_UID sub]} else existingSubs d ref'.
Proof.
  intros HA Hcl Hcs ref'. destruct (rp_object _ _ HA _ _ Hcl) as [ks Hks].
  unfold existingSubs, subs_at. simpl. rewrite Hcs. destruct (decide (ref' = ref)) as [->|Hr].
  - rewrite Hcl. destruct (decide (_ ∧ _)) as [[_ Hsub1]|_].
    + unfold existingSubs, subs_at in Hsub1. rewrite Hcl in Hsub1. set_solver.
    + by rewrite lookup_alter_eq, Hks.
  - rewrite decide_False by naive_solver. destruct (channelSubscriptions d !! ref') as [l'|] eqn:El; [|done].
    rewrite lookup_alter_ne; [done|]. intros <-. apply Hr. by eapply (rp_inj _ _ HA).
Qed.

Lemma unsubscribe_spec ref sub d A e d' :
  represents d A → A !! s_UID sub = Some (ref, sub) → unsubscribe ref sub d = (e, d') →
  represents d' (delete (s_UID sub) A) ∧ hostToChannelMap d' = hostToChannelMap d ∧
  e = close_error (closings d) (groupID ref (s_UID sub)) ∧ closings d' = S (closings d).
Proof.
  intros HA Hsub. pose proof HA as [Hs Hu Hc Ho Hi Hg Hd Hl Hfg Hfo].
  destruct (Hg _ _ _ Hsub) as (h & l & Hh & Hcl & Hog).
  destruct (unsubscribe_eq ref sub d A l h HA Hsub Hcl Hh) as (e' & cs & -> & -> & Hcs).
  intros [= <- <-]. split; [|done]. destruct (Ho _ _ Hcl) as [ks Hks].
  assert (Hcs_some : ∀ ref' l', cs !! ref' = Some l' → channelSubscriptions d !! ref' = Some l').
  { intros ref' l'. rewrite Hcs. by destruct (decide _). }
  split; simpl.
  - by rewrite fmap_delete, Hs.
  - intros uid ref' sub'. rewrite lookup_delete_Some. intros [_ ?]. by eapply Hu.
  - intros ref' uid.
    rewrite (existingSubs_unsubscribed ref sub d A l cs h HA Hcl Hcs). setoid_rewrite lookup_delete_Some.
    destruct (decide (ref' = ref)) as [->|Hr].
    + rewrite elem_of_difference, elem_of_singleton, Hc. naive_solver.
    + rewrite Hc. split; [|naive_solver]. intros [sub' Hx]. exists sub'. split; [|done].
      intros <-. congruence.
  - intros ref' l' Hx. apply Hcs_some, Ho in Hx as [ks' Hks'].
    rewrite lookup_alter. destruct (decide (l = l')); subst; rewrite Hks'; simpl; eauto.
  - intros ref1 ref2 l' H1 H2. eapply Hi; by apply Hcs_some.
  - intros uid ref' sub'. rewrite lookup_delete_Some. intros [Hne Hx].
    destruct (Hg _ _ _ Hx) as (h' & l' & Hh' & Hl' & Hog').
    assert (h' ≠ h).
    { intros ->. rewrite Hog in Hog'. injection Hog' as _ Hsubs _.
      apply Hne. rewrite Hsubs. by eapply Hu. }
    exists h', l'. rewrite !lookup_delete_ne by done. split_and!; [done| |done].
    rewrite Hcs, decide_False; [done|]. intros [-> Hsub1].
    assert (Huid : uid ∈ existingSubs d ref) by (apply Hc; eauto).
    apply Hsub1 in Huid. set_solver.
  - intros uid h'. rewrite !lookup_delete_Some. intros [Hne Hx]. rewrite lookup_delete_ne by done. by eapply Hd.
  - intros h' g. rewrite lookup_delete_Some. intros [Hne Hx]. destruct (Hl _ _ Hx) as [uid Huid].
    exists uid. rewrite lookup_delete_ne; [done|]. intros <-. congruence.
  - intros h' g. rewrite lookup_delete_Some. intros [_ Hx]. by eapply Hfg.
  - intros l' ks'. rewrite lookup_alter. destruct (decide (l = l')); [subst; rewrite Hks|apply Hfo].
    intros _. by eapply Hfo.
Qed.

(** Looking the subscription up first, as both loops do. *)
Lemma subscription_of_consumed d A uid ref sub :
  represents d A → A !! uid = Some (ref, sub) → subscription_of d uid = sub ∧ s_UID sub = uid.
Proof.
  intros HA Hx. unfold subscription_of. rewrite (rp_subs _ _ HA), lookup_fmap, Hx. simpl.
  split; [done|]. by eapply rp_uid.
Qed.

Lemma unsubscribe_uid ref uid d A e d' :
  represents d A → (∃ sub, A !! uid = Some (ref, sub)) →
  unsubscribe ref (subscription_of d uid) d = (e, d') →
  represents d' (delete uid A) ∧ hostToChannelMap d' = hostToChannelMap d ∧
  e = close_error (closings d) (groupID ref uid) ∧ closings d' = S (closings d).
Proof.
  intros HA [sub Hx] Hun. destruct (subscription_of_consumed _ _ _ _ _ HA Hx) as [Hsub Huid].
  rewrite Hsub in Hun. rewrite <-Huid in Hx. rewrite <-Huid. by eapply unsubscribe_spec.
Qed.
End unsubscribing.

(** ** Reconciling the consumers of a channel *)
Section reconciling.
Context `{KafkaCluster} `{GoRuntime}.
Implicit Types (d : KafkaDispatcher) (ref : NamespacedName) (sub : Subscription) (A : Consumed).

(** The subscriptions a configuration asks for, the last one of each UID. *)
Definition wanted (specs : list Subscription) : gmap string Subscription :=
  foldl (λ m sub, <[s_UID sub := sub]> m) ∅ specs.

(** What the dispatcher should consume after reconciling the channel [ref] to
    [new], when the groups of [failed] could not be started. *)
Definition spec_reconcile ref (new : gmap string Subscription) (failed : gset string) A : Consumed :=
  filter (λ x, ¬ (x.2.1 = ref ∧ x.1 ∉ dom new)) A ∪
  ((λ sub, (ref, sub)) <$> filter (λ x, x.1 ∉ failed) new).

Lemma wanted_snoc specs sub : wanted (specs ++ [sub]) = <[s_UID sub := sub]> (wanted specs).
Proof. unfold wanted. by rewrite foldl_app. Qed.

Lemma wanted_uid specs uid sub : wanted specs !! uid = Some sub → s_UID sub = uid.
Proof.
  induction specs as [|sub' specs IH] using rev_ind; [done|].
  rewrite wanted_snoc, lookup_insert_Some. intros [[? <-]|[_ ?]]; auto.
Qed.

Lemma wanted_in specs uid sub : wanted specs !! uid = Some sub → sub ∈ specs.
Proof.
  induction specs as [|sub' specs IH] using rev_ind; [done|]. rewrite wanted_snoc, lookup_insert_Some, elem_of_app.
  intros [[_ <-]|[_ ?]]; [right; by apply list_elem_of_singleton|auto].
Qed.

Lemma dom_wanted specs : dom (wanted specs) = list_to_set (s_UID <$> specs).
Proof.
  induction specs as [|sub specs IH] using rev_ind; [done|].
  rewrite wanted_snoc, dom_insert_L, IH, fmap_app, list_to_set_app_L. set_solver.
Qed.

Lemma toAddSubs_lookup toAdd specs uid :
  toAddSubs toAdd specs !! uid = if decide (uid ∈ toAdd) then wanted specs !! uid else None.
Proof.
  unfold toAddSubs. induction specs as [|sub specs IH] using rev_ind; [by case_decide|].
  rewrite foldl_app, wanted_snoc. simpl. destruct (decide (s_UID sub ∈ toAdd)) as [Hin|Hnin];
    rewrite ?lookup_insert, IH; repeat case_decide; subst; try done.
Qed.

Lemma spec_reconcile_lookup ref new failed A uid :
  spec_reconcile ref new failed A !! uid =
  match A !! uid with
  | Some (ref', sub) => if decide (ref' = ref ∧ uid ∉ dom new)
                        then (if decide (uid ∈ failed) then None
                              else (λ sub, (ref, sub)) <$> new !! uid)
                        else Some (ref', sub)
  | None => if decide (uid ∈ failed) then None else (λ sub, (ref, sub)) <$> new !! uid
  end.
Proof.
  unfold spec_reconcile. rewrite lookup_union, lookup_fmap, !map_lookup_filter.
  destruct (A !! uid) as [[ref' sub]|]; simpl.
  - destruct (decide (ref' = ref ∧ uid ∉ dom new)) as [Hr|Hr]; simpl.
    + rewrite option_guard_False by tauto. destruct (new !! uid); simpl; [|by case_decide].
      destruct (decide (uid ∈ failed)); [rewrite option_guard_False by tauto|rewrite option_guard_True by done]; done.
    + rewrite option_guard_True by done. by destruct (_ <$> _).
  - destruct (new !! uid); simpl; [|by case_decide].
    destruct (decide (uid ∈ failed)); [rewrite option_guard_False by tauto|rewrite option_guard_True by done]; done.
Qed.

(** The first loop: each UID is either started or reported as failed. *)
Lemma subscribe_loop ref l : ∀ failed d A failed' d',
  represents d A → NoDup l.*1 →
  (∀ uid sub, (uid, sub) ∈ l → s_UID sub = uid ∧ A !! uid = None ∧ failed !! uid = None) →
  foldl (subscribe_step ref) (failed, d) l = (failed', d') →
  hostToChannelMap d' = hostToChannelMap d ∧
  (∀ uid, uid ∉ l.*1 → failed' !! uid = failed !! uid) ∧
  (∀ uid e, failed' !! uid = Some e →
     failed !! uid = Some e ∨ ∃ n, start_error n (groupID ref uid) = Some e) ∧
  ∃ A', represents d' A' ∧
    (∀ uid, uid ∉ l.*1 → A' !! uid = A !! uid) ∧
    (∀ uid sub, (uid, sub) ∈ l →
       A' !! uid = match failed' !! uid with Some _ => None | None => Some (ref, sub) end).
Proof.
  induction l as [|[uid0 sub0] l IH]; intros failed d A failed' d' HA Hnd Hl; simpl.
  { intros [= <- <-]. split_and!; [done|done|auto|]. exists A. split_and!; [done|done|].
    by intros ??[]%elem_of_nil. }
  rewrite fmap_cons in Hnd. apply NoDup_cons in Hnd as [Hnin Hnd].
  destruct (Hl uid0 sub0) as (Huid0 & HA0 & Hf0); [by left|]. subst uid0.
  destruct (subscribe ref sub0 d) as [e d1] eqn:Hsub.
  eapply subscribe_spec in Hsub as (Hh1 & _ & He & _ & HA1); [|done|done].
  set (A1 := match e with None => <[s_UID sub0 := (ref, sub0)]> A | Some _ => A end) in HA1.
  assert (HA1ne : ∀ uid, uid ≠ s_UID sub0 → A1 !! uid = A !! uid).
  { intros uid Hne. unfold A1. destruct e; [done|]. by rewrite lookup_insert_ne. }
  intros Hfold.
  assert (Hfold' : foldl (subscribe_step ref)
      (match e with Some err => <[s_UID sub0 := err]> failed | None => failed end, d1) l = (failed', d')).
  { by destruct e. }
  clear Hfold.
  apply IH with (A := A1) in Hfold' as (Hh & Hfr & Herr & A' & HA' & HAfr & HAl); [|done|done|].
  2:{ intros uid sub Hin. destruct (Hl uid sub) as (? & ? & ?); [by right|].
      assert (uid ≠ s_UID sub0).
      { intros ->. apply Hnin. by apply (list_elem_of_fmap_2 fst _ (s_UID sub0, sub)). }
      split_and!; [done|by rewrite HA1ne|destruct e; by rewrite ?lookup_insert_ne]. }
  split_and!; [congruence| | |].
  - intros uid [Hne Hn]%not_elem_of_cons. rewrite Hfr by done. destruct e; by rewrite ?lookup_insert_ne.
  - intros uid err Hx. apply Herr in Hx as [Hx|?]; [|by right].
    destruct e as [e|]; [|by left]. rewrite lookup_insert_Some in Hx.
    destruct Hx as [[<- <-]|[_ ?]]; [right; eauto|by left].
  - exists A'. split; [done|]. split.
    + intros uid [Hne Hn]%not_elem_of_cons. by rewrite HAfr, HA1ne.
    + intros uid sub [[= -> ->]|Hin]%elem_of_cons; [|by apply HAl].
      rewrite HAfr, Hfr by done. unfold A1. destruct e; [by rewrite lookup_insert_eq|].
      by rewrite lookup_insert_eq, Hf0.
Qed.

(** The second loop. *)
Lemma unsubscribe_loop ref l : ∀ d A,
  represents d A → NoDup l → (∀ uid, uid ∈ l → ∃ sub, A !! uid = Some (ref, sub)) →
  let d' := foldl (unsubscribe_step ref) d l in
  hostToChannelMap d' = hostToChannelMap d ∧ represents d' (filter (λ x, x.1 ∉ l) A).
Proof.
  induction l as [|uid l IH]; intros d A HA Hnd Hl; simpl.
  { split; [done|]. rewrite map_filter_id; [done|]. intros. by apply not_elem_of_nil. }
  apply NoDup_cons in Hnd as [Hnin Hnd]. unfold unsubscribe_step at 2 4.
  destruct (unsubscribe ref (subscription_of d uid) d) as [e d1] eqn:Hun.
  eapply unsubscribe_uid in Hun as (HA1 & Hh1 & _ & _); [|done|by apply Hl; left].
  destruct (IH d1 (delete uid A)) as [Hh HA']; [done|done| |].
  { intros uid' Hin. destruct (Hl uid') as [sub Hs]; [by right|]. exists sub.
    rewrite lookup_delete_ne; [done|]. by intros ->. }
  simpl. split; [congruence|]. eapply eq_ind; [exact HA'|].
  apply map_eq. intros uid'. rewrite !map_lookup_filter, lookup_delete.
  case_decide as Hu; [subst uid'|]; simpl.
  - destruct (A !! uid); simpl; [|done]. rewrite option_guard_False; [done|]. intros Hn. apply Hn. by left.
  - destruct (A !! uid'); simpl; [|done]. unfold guard. repeat case_decide; set_solver.
Qed.
End reconciling.

(** ** The operations, against the abstract state *)
Section operations_spec.
Context `{KafkaCluster} `{GoRuntime}.
Implicit Types (d : KafkaDispatcher) (ref : NamespacedName) (sub : Subscription) (A : Consumed).

Definition channel_of (config : ChannelConfig) : NamespacedName :=
  mkNamespacedName (cc_Namespace config) (cc_Name config).

(** No subscription of [config] is consumed for another channel: subscription
    UIDs are unique in the cluster. *)
Definition unshared (config : ChannelConfig) A : Prop :=
  ∀ uid ref sub, A !! uid = Some (ref, sub) → uid ∈ SubscriptionsUIDs config →
                 ref = channel_of config.

(** The error [ReconcileConsumers] returns for the failures [failed]. *)
Definition update_error (failed : gmap string string) : option (gmap string string) :=
  if decide (size failed = 0) then None else Some failed.

(** Every failure is one the cluster reported for the group of that UID. *)
Definition cluster_failures ref (failed : gmap string string) : Prop :=
  ∀ uid e, failed !! uid = Some e → ∃ n, start_error n (groupID ref uid) = Some e.

Lemma fst_map_to_list_perm {V} n (m : gmap string V) :
  (range_order n (map_to_list m)).*1 ≡ₚ (map_to_list m).*1.
Proof. by rewrite range_order_perm. Qed.

(** What is to be added: the wanted UIDs that nobody consumes. *)
Lemma toAddSubs_new config d A uid sub :
  represents d A → unshared config A →
  let new := wanted (cc_Subscriptions config) in
  toAddSubs (dom new ∖ existingSubs d (channel_of config)) (cc_Subscriptions config) !! uid = Some sub ↔
  new !! uid = Some sub ∧ A !! uid = None.
Proof.
  intros HA Hun. cbv zeta. rewrite toAddSubs_lookup. case_decide as Hin.
  - apply elem_of_difference in Hin as [Hin Hnin]. split; [|tauto]. intros Hs. split; [done|].
    destruct (A !! uid) as [[ref' sub']|] eqn:Ex; [|done]. destruct Hnin. apply (rp_channel _ _ HA).
    rewrite (Hun _ _ _ Ex) in Ex; [eauto|]. rewrite dom_wanted in Hin. by apply elem_of_list_to_set in Hin.
  - split; [done|]. intros [Hs Hx]. destruct Hin. apply elem_of_difference.
    split; [by apply elem_of_dom|]. rewrite (rp_channel _ _ HA). intros [sub' Hx']. congruence.
Qed.

(** Removing what is no longer wanted from what was consumed and added. *)
Lemma reconciled_eq ref (new : gmap string Subscription) A A1 (failed : gmap string string) (rm : list string) :
  (∀ uid, uid ∈ rm ↔ (∃ sub, A !! uid = Some (ref, sub)) ∧ uid ∉ dom new) →
  (∀ uid x, A !! uid = Some x → A1 !! uid = Some x) →
  (∀ uid, A !! uid = None → A1 !! uid = match new !! uid with
     | Some sub => match failed !! uid with None => Some (ref, sub) | Some _ => None end
     | None => None
     end) →
  filter (λ kv, kv.1 ∉ rm) A1 = spec_reconcile ref new (dom failed) A.
Proof.
  intros Hrm Hold Hadded. apply map_eq. intros uid. rewrite map_lookup_filter, spec_reconcile_lookup. specialize (Hrm uid).
  destruct (A !! uid) as [[ref' sub]|] eqn:Ex.
  - rewrite (Hold _ _ Ex). simpl. destruct (decide (ref' = ref ∧ uid ∉ dom new)) as [[-> Hn]|Hn].
    + rewrite option_guard_False; [|rewrite Hrm; eauto].
      apply not_elem_of_dom in Hn. rewrite Hn. simpl. by case_decide.
    + rewrite option_guard_True; [done|]. rewrite Hrm. intros [[? [= <-]] ?]. tauto.
  - assert (Hkeep : ∀ o : option (NamespacedName * Subscription), (o ≫= λ x, guard (uid ∉ rm) ≫= λ _, Some x) = o).
    { intros [x|]; [|done]. simpl. rewrite option_guard_True; [done|]. rewrite Hrm. by intros [[? ?] ?]. }
    rewrite Hkeep, (Hadded _ Ex). destruct (new !! uid) as [sub|] eqn:En; simpl; [|by destruct (decide _)].
    destruct (failed !! uid) eqn:Ef; [rewrite decide_True|rewrite decide_False]; try done;
      [by apply elem_of_dom_2 in Ef|by rewrite not_elem_of_dom].
Qed.

Lemma ReconcileConsumers_represents config d A err d' :
  represents d A → unshared config A → ReconcileConsumers config d = (err, d') →
  let new := wanted (cc_Subscriptions config) in
  hostToChannelMap d' = hostToChannelMap d ∧
  ∃ failed, err = update_error failed ∧ cluster_failures (channel_of config) failed ∧
    dom failed ⊆ dom new ∖ dom A ∧
    represents d' (spec_reconcile (channel_of config) new (dom failed) A).
Proof.
  intros HA Hun Hrec new. unfold ReconcileConsumers in Hrec.
  change (mkNamespacedName (cc_Namespace config) (cc_Name config)) with (channel_of config) in Hrec.
  set (ref := channel_of config) in *. set (existing := existingSubs d ref) in *.
  assert (Hdom : list_to_set (SubscriptionsUIDs config) = dom new) by (unfold new; by rewrite dom_wanted).
  rewrite Hdom in Hrec.
  set (toAdd := toAddSubs (dom new ∖ existing) (cc_Subscriptions config)) in *.
  assert (Hexisting : ∀ uid, uid ∈ existing ↔ ∃ sub, A !! uid = Some (ref, sub)) by apply (rp_channel _ _ HA).
  assert (Hadd : ∀ uid sub, toAdd !! uid = Some sub ↔ new !! uid = Some sub ∧ A !! uid = None)
    by (intros; by apply toAddSubs_new).
  destruct (foldl (subscribe_step ref) _ _) as [failed d1] eqn:Hfold.
  eapply subscribe_loop with (A := A) in Hfold as (Hh1 & Hfr & Herr & A1 & HA1 & HA1fr & HA1l).
  2:{ by apply represents_ranged. }
  2:{ rewrite fst_map_to_list_perm. apply NoDup_fst_map_to_list. }
  2:{ intros uid sub. rewrite range_order_perm, elem_of_map_to_list, Hadd. intros [Hs Hx].
      split_and!; [by eapply wanted_uid|done|done]. }
  assert (Hkeys : ∀ uid, uid ∈ (range_order (ranges d) (map_to_list toAdd)).*1 ↔ is_Some (toAdd !! uid)).
  { intros uid. rewrite fst_map_to_list_perm, list_elem_of_fmap. split.
    - intros ([u s] & -> & Hx%elem_of_map_to_list). eauto.
    - intros [s Hs]. exists (uid, s). by rewrite elem_of_map_to_list. }
  assert (HA1old : ∀ uid x, A !! uid = Some x → A1 !! uid = Some x).
  { intros uid x Hx. rewrite HA1fr; [done|]. rewrite Hkeys. intros [s [_ Hs]%Hadd]. congruence. }
  assert (Hfaildom : ∀ uid, is_Some (failed !! uid) → is_Some (toAdd !! uid)).
  { intros uid [e He]. destruct (toAdd !! uid) eqn:E; [eauto|].
    rewrite Hfr in He; [done|]. rewrite Hkeys, E. by intros []. }
  destruct (unsubscribe_loop ref (range_order (ranges d1) (elements (existing ∖ dom new))) (ranged d1) A1)
    as [Hh2 HA2].
  { by apply represents_ranged. }
  { rewrite range_order_perm. apply NoDup_elements. }
  { intros uid. rewrite range_order_perm, elem_of_elements, elem_of_difference, Hexisting.
    intros [[sub Hx] _]. eauto. }
  injection Hrec as <- <-. split; [exact (eq_trans Hh2 Hh1)|].
  exists failed. split; [done|]. split.
  { intros uid e Hx. apply Herr in Hx as [Hx|?]; [by rewrite lookup_empty in Hx|done]. }
  split.
  { intros uid Hin%elem_of_dom. apply Hfaildom in Hin as [s [Hs Hx]%Hadd].
    apply elem_of_difference. rewrite not_elem_of_dom. split; [by apply elem_of_dom|done]. }
  eapply eq_ind; [exact HA2|]. apply reconciled_eq; [|done|].
  - intros uid. by rewrite range_order_perm, elem_of_elements, elem_of_difference, Hexisting.
  - intros uid Hx. destruct (new !! uid) as [sub|] eqn:En.
    + apply HA1l. by rewrite range_order_perm, elem_of_map_to_list, Hadd.
    + rewrite HA1fr; [done|]. rewrite Hkeys. intros [s [Hs _]%Hadd]. congruence.
Qed.

Lemma RegisterChannelHost_represents config d A e d' :
  represents d A → RegisterChannelHost config d = (e, d') → represents d' A.
Proof.
  intros HA. unfold RegisterChannelHost. repeat case_match; intros [= <- <-]; try done.
  by apply represents_hosts.
Qed.

(** Cleaning up closes groups one by one, up to the first error. *)
Lemma cleanup_loop_spec ref l : ∀ d A e d',
  represents d A → NoDup l → (∀ uid, uid ∈ l → ∃ sub, A !! uid = Some (ref, sub)) →
  cleanup_loop ref l d = (e, d') →
  hostToChannelMap d' = hostToChannelMap d ∧
  ∃ gone, gone `prefix_of` l ∧ represents d' (filter (λ x, x.1 ∉ gone) A) ∧
    match e with
    | None => gone = l
    | Some err => ∃ uid n, last gone = Some uid ∧ close_error n (groupID ref uid) = Some err
    end.
Proof.
  induction l as [|uid l IH]; intros d A e d' HA Hnd Hl; simpl.
  { intros [= <- <-]. split; [done|]. exists []. split_and!; [done| |done].
    rewrite map_filter_id; [done|]. intros. by apply not_elem_of_nil. }
  apply NoDup_cons in Hnd as [Hnin Hnd].
  destruct (unsubscribe ref (subscription_of d uid) d) as [e1 d1] eqn:Hun.
  eapply unsubscribe_uid in Hun as (HA1 & Hh1 & He1 & _); [|done|by apply Hl; left].
  assert (Hdel : ∀ gone, filter (λ x, x.1 ∉ uid :: gone) A =
                         filter (λ x, x.1 ∉ gone) (delete uid A)).
  { intros gone. apply map_eq. intros uid'. rewrite !map_lookup_filter, lookup_delete.
    case_decide as Hu; [subst uid'|]; simpl.
    - destruct (A !! uid); simpl; [|done]. rewrite option_guard_False; [done|]. intros Hn. apply Hn. by left.
    - destruct (A !! uid'); simpl; [|done]. unfold guard. repeat case_decide; set_solver. }
  destruct e1 as [err|].
  - intros [= <- <-]. split; [done|]. exists [uid]. split_and!; [by exists l| |eauto].
    rewrite Hdel, map_filter_id; [done|]. intros. by apply not_elem_of_nil.
  - intros Hc. eapply IH in Hc as (Hh & gone & Hpre & HA' & He); [|done|done|].
    2:{ intros uid' Hin. destruct (Hl uid') as [sub Hs]; [by right|]. exists sub.
        rewrite lookup_delete_ne; [done|]. by intros ->. }
    split; [congruence|]. exists (uid :: gone). split_and!; [by apply prefix_cons|by rewrite Hdel|].
    destruct e; [|by subst]. destruct He as (uid' & n & Hlast & ?). exists uid', n.
    split; [|done]. destruct gone; [done|]. exact Hlast.
Qed.

Lemma CleanupChannel_represents name namespace host d A e d' :
  represents d A → CleanupChannel name namespace host d = (e, d') →
  let ref := mkNamespacedName namespace name in
  hostToChannelMap d' = delete host (hostToChannelMap d) ∧
  ∃ gone : list string, represents d' (filter (λ x, x.1 ∉ gone) A) ∧
    (∀ uid, uid ∈ gone → ∃ sub, A !! uid = Some (ref, sub)) ∧
    match e with
    | None => ∀ uid sub, A !! uid = Some (ref, sub) → uid ∈ gone
    | Some err => gone ≠ [] ∧ ∃ uid n, close_error n (groupID ref uid) = Some err
    end.
Proof.
  intros HA Hc ref. unfold CleanupChannel in Hc. fold ref in Hc. simpl in Hc.
  destruct (channelSubscriptions d !! ref) as [l|] eqn:Hl.
  - set (uids := range_order _ _) in Hc.
    assert (Huids : ∀ uid, uid ∈ uids ↔ ∃ sub, A !! uid = Some (ref, sub)).
    { intros uid. unfold uids. rewrite range_order_perm, elem_of_elements.
      rewrite <-(rp_channel _ _ HA). unfold existingSubs. by rewrite Hl. }
    eapply (cleanup_loop_spec ref uids) in Hc as (Hh & gone & Hpre & HA' & He).
    2:{ apply represents_ranged, represents_hosts, HA. }
    2:{ unfold uids. rewrite range_order_perm. apply NoDup_elements. }
    2:{ intros uid Hin. by apply Huids. }
    split; [done|]. exists gone. split; [done|]. split.
    + intros uid Hin. apply Huids. destruct Hpre as [k ->]. apply elem_of_app. by left.
    + destruct e as [err|].
      * destruct He as (uid & n & Hlast & Herr). split; [by intros ->|]. eauto.
      * subst gone. intros uid sub Hx. apply Huids. eauto.
  - injection Hc as <- <-. split; [done|]. exists []. split.
    + apply represents_hosts. rewrite map_filter_id; [done|]. intros. by apply not_elem_of_nil.
    + split; [by intros ? ?%elem_of_nil|]. intros uid sub Hx.
      destruct (rp_groups _ _ HA _ _ _ Hx) as (h & l & _ & ? & _). congruence.
Qed.
End operations_spec.

(** ** Runs of a dispatcher *)
Section runs.
Context `{KafkaCluster} `{GoRuntime}.
Implicit Types (d : KafkaDispatcher) (ref : NamespacedName) (sub : Subscription) (A : Consumed).

(** No UID of [config] is subscribed for another channel. *)
Definition unshared_in (config : ChannelConfig) d : Prop :=
  ∀ ref uid, uid ∈ SubscriptionsUIDs config → uid ∈ existingSubs d ref → ref = channel_of config.

(** The operations on the dispatcher: the reconciler registers, reconciles and
    cleans up channels, and handlers report readiness to the objects they hold. *)
Inductive dispatcher_step : KafkaDispatcher → KafkaDispatcher → Prop :=
  | step_register d config :
      dispatcher_step d (RegisterChannelHost config d).2
  | step_reconcile d config :
      unshared_in config d → dispatcher_step d (ReconcileConsumers config d).2
  | step_cleanup d name namespace host :
      dispatcher_step d (CleanupChannel name namespace host d).2
  | step_SetReady d l uid p b :
      dispatcher_step d (SetReady_at l uid p b d).

Lemma unshared_represents config d A : represents d A → unshared_in config d → unshared config A.
Proof.
  intros HA Hun uid ref sub Hx Hin. eapply Hun; [exact Hin|]. apply (rp_channel _ _ HA). eauto.
Qed.

Lemma dispatcher_step_represents d d' A :
  represents d A → dispatcher_step d d' → ∃ A', represents d' A'.
Proof.
  intros HA Hstep. revert HA.
  destruct Hstep as [d config|d config Hun|d name namespace host|d l uid p b]; intros HA.
  - destruct (RegisterChannelHost _ _) eqn:E. eapply RegisterChannelHost_represents in E; eauto.
  - destruct (ReconcileConsumers _ _) eqn:E.
    eapply ReconcileConsumers_represents in E as (_ & failed & _ & _ & _ & HA');
      [eauto|done|by eapply unshared_represents].
  - destruct (CleanupChannel _ _ _ _) eqn:E.
    eapply CleanupChannel_represents in E as (_ & gone & HA' & _); eauto.
  - eexists. by eapply represents_SetReady_at.
Qed.

Lemma reachable_represents topic d :
  rtc dispatcher_step (empty_dispatcher topic) d → ∃ A, represents d A.
Proof.
  assert (Hgen : ∀ d0 A0, represents d0 A0 → rtc dispatcher_step d0 d → ∃ A, represents d A).
  { intros d0 A0 HA0 Hsteps. revert A0 HA0. induction Hsteps as [|d0 d1 d2 Hstep _ IH]; [eauto|].
    intros A0 HA0. destruct (dispatcher_step_represents _ _ _ HA0 Hstep) as [A1 HA1]. eauto. }
  intros Hsteps. eapply Hgen; [apply represents_empty|done].
Qed.

Lemma spec_reconcile_retry ref new failed A :
  spec_reconcile ref new ∅ (spec_reconcile ref new failed A) = spec_reconcile ref new ∅ A.
Proof.
  apply map_eq. intros uid. rewrite !spec_reconcile_lookup.
  destruct (A !! uid) as [[ref' sub]|] eqn:Ex.
  - destruct (decide (ref' = ref ∧ uid ∉ dom new)) as [[-> Hn]|Hn]; [|by rewrite decide_False].
    apply not_elem_of_dom in Hn. rewrite Hn. simpl. by destruct (decide _), (decide _).
  - destruct (decide (uid ∈ failed)); [done|].
    destruct (new !! uid) as [sub|] eqn:En; simpl; [|done].
    rewrite decide_False; [by rewrite decide_False by set_solver|].
    rewrite not_elem_of_dom. intros [_ ?]. congruence.
Qed.

Lemma spec_reconcile_unshared config failed A :
  unshared config A →
  unshared config (spec_reconcile (channel_of config) (wanted (cc_Subscriptions config)) failed A).
Proof.
  intros Hun uid ref sub. rewrite spec_reconcile_lookup.
  destruct (A !! uid) as [[ref' sub']|] eqn:Ex.
  - destruct (decide (ref' = _ ∧ _)); [|intros [= <- <-]; by eapply Hun].
    destruct (decide _); [done|]. destruct (wanted _ !! uid); simpl; [by intros [= <- _]|done].
  - destruct (decide _); [done|]. destruct (wanted _ !! uid); simpl; [by intros [= <- _]|done].
Qed.

Lemma channel_objects_of_open d A h g :
  represents d A → open_groups d !! h = Some g →
  ∃ uid ref, A !! uid = Some (ref, cg_sub g) ∧ s_UID (cg_sub g) = uid ∧
    subsConsumerGroups d !! uid = Some h ∧ subscriptions d !! uid = Some (cg_sub g) ∧
    uid ∈ existingSubs d ref ∧ cg_groupID g = groupID ref uid ∧ cg_topics g = [topicFunc d] ∧
    channelSubscriptions d !! ref = Some (cg_kafkaSubscription g).
Proof.
  intros HA Hg. destruct (rp_no_leak _ _ HA _ _ Hg) as [uid Huid].
  destruct (rp_consumed _ _ HA _ _ Huid) as [[ref sub] Hx].
  destruct (rp_groups _ _ HA _ _ _ Hx) as (h' & l & Hh' & Hl & Hg').
  assert (h' = h) as -> by congruence. rewrite Hg in Hg'. injection Hg' as ->. simpl.
  exists uid, ref. split_and!; try done; [by eapply rp_uid| |].
  - by rewrite (rp_subs _ _ HA), lookup_fmap, Hx.
  - apply (rp_channel _ _ HA). eauto.
Qed.
End runs.

(** ** Properties *)
Section properties.
Context `{KafkaCluster} `{GoRuntime}.
Implicit Types (d : KafkaDispatcher) (ref : NamespacedName) (sub : Subscription) (A : Consumed).

(** C1: reconciling a channel implements its specification: it starts a consumer
    group for every new subscription UID, closes the groups of the UIDs that are
    gone, keeps the others and every other channel, and returns exactly the
    failures the cluster reported, whatever the iteration order of the maps. *)
Theorem ReconcileConsumers_refines config d A err d' :
  represents d A → unshared config A → ReconcileConsumers config d = (err, d') →
  let new := wanted (cc_Subscriptions config) in
  hostToChannelMap d' = hostToChannelMap d ∧
  ∃ failed, err = update_error failed ∧ cluster_failures (channel_of config) failed ∧
    dom failed ⊆ dom new ∖ dom A ∧
    represents d' (spec_reconcile (channel_of config) new (dom failed) A).
Proof. apply ReconcileConsumers_represents. Qed.

(** a reconciliation that failed for some subscriptions is repaired by a later
    one that does not fail: the result is what a first one without failures
    would have given. *)
Theorem ReconcileConsumers_retry config d A err d1 d2 :
  represents d A → unshared config A →
  ReconcileConsumers config d = (err, d1) → ReconcileConsumers config d1 = (None, d2) →
  represents d2 (spec_reconcile (channel_of config) (wanted (cc_Subscriptions config)) ∅ A).
Proof.
  intros HA Hun H1 H2.
  eapply ReconcileConsumers_represents in H1 as (_ & failed & _ & _ & _ & HA1); [|done..].
  eapply ReconcileConsumers_represents in H2 as (_ & failed2 & Hnone & _ & _ & HA2);
    [|done|by apply spec_reconcile_unshared].
  assert (failed2 = ∅) as ->.
  { unfold update_error in Hnone. destruct (decide (size failed2 = 0)) as [Hz|]; [|done].
    by apply map_size_empty_iff in Hz. }
  by rewrite dom_empty_L, spec_reconcile_retry in HA2.
Qed.

(** C16: in every state a dispatcher can reach, the open consumer groups are
    exactly the ones of the subscriptions it has: each open group serves one
    registered subscription of one channel, under that subscription's group id,
    on the dispatcher's topic and reporting to the channel's current object, and
    every registered subscription has one. No group is ever leaked. *)
Theorem no_group_leaked topic d :
  rtc dispatcher_step (empty_dispatcher topic) d →
  (∀ h g, open_groups d !! h = Some g → ∃ ref,
     subsConsumerGroups d !! s_UID (cg_sub g) = Some h ∧
     subscriptions d !! s_UID (cg_sub g) = Some (cg_sub g) ∧
     s_UID (cg_sub g) ∈ existingSubs d ref ∧
     cg_groupID g = groupID ref (s_UID (cg_sub g)) ∧ cg_topics g = [topicFunc d] ∧
     channelSubscriptions d !! ref = Some (cg_kafkaSubscription g)) ∧
  (∀ ref uid, uid ∈ existingSubs d ref → ∃ h g,
     subsConsumerGroups d !! uid = Some h ∧ open_groups d !! h = Some g ∧ s_UID (cg_sub g) = uid) ∧
  (∀ ref1 ref2 uid, uid ∈ existingSubs d ref1 → uid ∈ existingSubs d ref2 → ref1 = ref2).
Proof.
  intros Hreach. destruct (reachable_represents _ _ Hreach) as [A HA]. split_and!.
  - intros h g Hg. destruct (channel_objects_of_open _ _ _ _ HA Hg) as (uid & ref & _ & -> & ?).
    exists ref. tauto.
  - intros ref uid Hin. apply (rp_channel _ _ HA) in Hin as [sub Hx].
    destruct (rp_groups _ _ HA _ _ _ Hx) as (h & l & ? & _ & ?). eexists h, _.
    split_and!; [done|done|]. simpl. by eapply rp_uid.
  - intros ref1 ref2 uid [s1 H1]%(rp_channel _ _ HA) [s2 H2]%(rp_channel _ _ HA). congruence.
Qed.

(** A change of a subscription that keeps its UID is not picked up: after
    reconciling to the changed one, the group that serves the UID still has the
    old subscriber, reply, dead letter sink and retry configuration. *)
Theorem changed_subscription_ignored config d A err d' uid old :
  represents d A → unshared config A →
  A !! uid = Some (channel_of config, old) → uid ∈ SubscriptionsUIDs config →
  ReconcileConsumers config d = (err, d') →
  subscriptions d' !! uid = Some old ∧
  ∃ h g, subsConsumerGroups d' !! uid = Some h ∧ open_groups d' !! h = Some g ∧ cg_sub g = old.
Proof.
  intros HA Hun Hx Hin Hrec.
  eapply ReconcileConsumers_represents in Hrec as (_ & failed & _ & _ & _ & HA'); [|done..].
  assert (Hx' : spec_reconcile (channel_of config) (wanted (cc_Subscriptions config)) (dom failed) A !! uid =
                Some (channel_of config, old)).
  { rewrite spec_reconcile_lookup, Hx, decide_False; [done|]. intros [_ Hn]. apply Hn.
    rewrite dom_wanted. by apply elem_of_list_to_set. }
  split; [by rewrite (rp_subs _ _ HA'), lookup_fmap, Hx'|].
  destruct (rp_groups _ _ HA' _ _ _ Hx') as (h & l & ? & _ & ?). eauto.
Qed.

(** C24: cleaning up a channel unmaps its host and, unless closing a group fails,
    leaves nothing of it consumed while every other channel is untouched; when
    closing fails it stops having closed at least one group more, and what is
    left is still consistent, so that it can be repeated. *)
Theorem CleanupChannel_spec name namespace host d A e d' :
  represents d A → CleanupChannel name namespace host d = (e, d') →
  let ref := mkNamespacedName namespace name in
  hostToChannelMap d' = delete host (hostToChannelMap d) ∧
  match e with
  | None => represents d' (filter (λ x, x.2.1 ≠ ref) A)
  | Some err => (∃ uid n, close_error n (groupID ref uid) = Some err) ∧
      ∃ gone : list string, gone ≠ [] ∧ (∀ uid, uid ∈ gone → ∃ sub, A !! uid = Some (ref, sub)) ∧
        represents d' (filter (λ x, x.1 ∉ gone) A)
  end.
Proof.
  intros HA Hc ref.
  eapply CleanupChannel_represents in Hc as (Hh & gone & HA' & Hgone & He); [|done].
  split; [done|]. fold ref in Hgone, He. destruct e as [err|].
  { destruct He as [Hne (uid & n & Herr)]. split; [eauto|]. exists gone. done. }
  eapply eq_ind; [exact HA'|]. apply map_filter_ext. intros uid [ref' sub] Hx. simpl. split.
  - intros Hn ->. apply Hn. by eapply He.
  - intros Hne Hin. apply Hgone in Hin as [sub' Hx']. congruence.
Qed.

(** a host belongs to the first channel that registers it: registering again
    is accepted from that channel and rejected, without effect, from any other;
    a registered host resolves to its channel and no other host changes. *)
Theorem RegisterChannelHost_spec config d :
  let '(e, d') := RegisterChannelHost config d in
  let ref := mkChannelReference (cc_Namespace config) (cc_Name config) in
  (e = None ↔ ∀ old, getChannelReferenceFromHost (cc_HostName config) d = Ok old → old = ref) ∧
  (e = None → getChannelReferenceFromHost (cc_HostName config) d' = Ok ref) ∧
  (e ≠ None → d' = d) ∧
  (∀ host, host ≠ cc_HostName config →
     getChannelReferenceFromHost host d' = getChannelReferenceFromHost host d).
Proof.
  unfold RegisterChannelHost, getChannelReferenceFromHost.
  destruct (hostToChannelMap d !! cc_HostName config) as [old|] eqn:Hold.
  - case_bool_decide as Heq; rewrite ?Hold.
    + destruct old as [ns n]. simpl in Heq. destruct Heq as [-> ->].
      split_and!; [split; [by intros _ ? [= <-]|done]|done|done|done].
    + split_and!; [|done|done|done]. split; [done|]. intros Hall.
      destruct Heq. by rewrite (Hall old eq_refl).
  - simpl. rewrite lookup_insert_eq. split_and!; [done|done|done|].
    intros host Hne. by rewrite lookup_insert_ne.
Qed.

(** Distinct subscriptions have distinct consumer groups, so that no two of
    them share offsets: the group id determines namespace, name and UID, since a
    namespace and a UID hold no dot (a channel name may). *)
Theorem groupID_injective ref1 uid1 ref2 uid2 :
  free_of "."%char (nn_Namespace ref1) → free_of "."%char (nn_Namespace ref2) →
  free_of "."%char uid1 → free_of "."%char uid2 →
  groupID ref1 uid1 = groupID ref2 uid2 → ref1 = ref2 ∧ uid1 = uid2.
Proof.
  destruct ref1 as [ns1 n1], ref2 as [ns2 n2]. unfold groupID. simpl.
  intros Hn1 Hn2 Hu1 Hu2 Heq%(inj (String.append _)).
  apply (append_sep_inj "."%char) in Heq as [-> Heq]; [|done..].
  apply (append_last_sep_inj "."%char) in Heq as [-> ->]; done.
Qed.
End properties.

(** ** Concrete runs *)
Section demo.
#[local] Instance demo_runtime : GoRuntime := deterministic_runtime Z.of_nat.

(** A cluster that refuses the groups of the UID "bad" and never fails to close. *)
#[local] Instance demo_cluster : KafkaCluster := {|
  start_error n g := if decide (Split "."%char g = ["kafka"; "ns"; "ch"; "bad"]) then Some "no broker" else None;
  close_error n g := None;
|}.

Definition demo_subscription (uid host : string) : Subscription :=
  mkSubscription uid (mkFanout (Some (http_url host)) None None None).
Definition demo_config (subs : list Subscription) : ChannelConfig := mkChannelConfig "ns" "ch" "ch.ns.svc" subs.
Definition demo_dispatcher : KafkaDispatcher :=
  (ReconcileConsumers (demo_config [demo_subscription "u1" "a"; demo_subscription "bad" "b"])
     (empty_dispatcher "topic")).2.
Definition demo_consumed : Consumed :=
  {["u1" := (mkNamespacedName "ns" "ch", demo_subscription "u1" "a")]}.

Lemma unshared_empty config : unshared config ∅.
Proof. intros uid ref sub Hx. by rewrite lookup_empty in Hx. Qed.

Lemma demo_represents : represents demo_dispatcher demo_consumed.
Proof.
  destruct (ReconcileConsumers (demo_config [demo_subscription "u1" "a"; demo_subscription "bad" "b"])
    (empty_dispatcher "topic")) as [err d] eqn:E.
  pose proof E as E2. eapply ReconcileConsumers_represents in E2 as (_ & failed & Herr & _ & _ & HA);
    [|apply represents_empty|apply unshared_empty].
  unfold demo_dispatcher. rewrite E. simpl. vm_compute in E. injection E as <- _.
  unfold update_error in Herr. destruct (decide (size failed = 0)); [done|]. injection Herr as <-.
  eapply eq_ind; [exact HA|]. by vm_compute.
Qed.

Lemma demo_unshared subs : unshared (demo_config subs) demo_consumed.
Proof.
  unfold demo_consumed. intros uid ref sub Hx _. by apply lookup_singleton_Some in Hx as [_ [= <- _]].
Qed.

Lemma ReconcileConsumers_refines_witness :
  ∃ failed, Some {["bad" := "no broker"]} = update_error failed ∧
    represents demo_dispatcher
      (spec_reconcile (mkNamespacedName "ns" "ch")
        (wanted [demo_subscription "u1" "a"; demo_subscription "bad" "b"]) (dom failed) ∅).
Proof.
  destruct (ReconcileConsumers_refines (demo_config [demo_subscription "u1" "a"; demo_subscription "bad" "b"])
    (empty_dispatcher "topic") ∅ (Some {["bad" := "no broker"]}) demo_dispatcher)
    as (_ & failed & Herr & _ & _ & HA).
  - apply represents_empty.
  - apply unshared_empty.
  - vm_compute. reflexivity.
  - exists failed. done.
Defined.

Lemma ReconcileConsumers_retry_witness :
  let reconcile d := ReconcileConsumers (demo_config [demo_subscription "u1" "a"]) d in
  represents (reconcile (reconcile demo_dispatcher).2).2
    (spec_reconcile (mkNamespacedName "ns" "ch") (wanted [demo_subscription "u1" "a"]) ∅ demo_consumed).
Proof.
  intros reconcile.
  apply (ReconcileConsumers_retry (demo_config [demo_subscription "u1" "a"]) demo_dispatcher demo_consumed
    None (reconcile demo_dispatcher).2 (reconcile (reconcile demo_dispatcher).2).2).
  - apply demo_represents.
  - apply demo_unshared.
  - vm_compute. reflexivity.
  - vm_compute. reflexivity.
Defined.

Lemma no_group_leaked_witness :
  ∃ h g, subsConsumerGroups demo_dispatcher !! "u1" = Some h ∧
    open_groups demo_dispatcher !! h = Some g ∧ s_UID (cg_sub g) = "u1".
Proof.
  destruct (no_group_leaked "topic" demo_dispatcher) as (_ & Hserved & _).
  - apply rtc_once, step_reconcile. intros ref uid _ Hin. vm_compute in Hin. discriminate Hin.
  - apply (Hserved (mkNamespacedName "ns" "ch") "u1"). by vm_compute.
Defined.

(** The subscriber of "u1" moves from host a to host z: the group keeps a. *)
Lemma changed_subscription_ignored_witness :
  let d' := (ReconcileConsumers (demo_config [demo_subscription "u1" "z"]) demo_dispatcher).2 in
  subscriptions d' !! "u1" = Some (demo_subscription "u1" "a").
Proof.
  apply (changed_subscription_ignored (demo_config [demo_subscription "u1" "z"]) demo_dispatcher
    demo_consumed None (ReconcileConsumers (demo_config [demo_subscription "u1" "z"]) demo_dispatcher).2
    "u1" (demo_subscription "u1" "a")).
  - apply demo_represents.
  - apply demo_unshared.
  - reflexivity.
  - left.
  - vm_compute. reflexivity.
Defined.

Lemma CleanupChannel_spec_witness :
  represents (CleanupChannel "ch" "ns" "ch.ns.svc" demo_dispatcher).2
    (filter (λ x, x.2.1 ≠ mkNamespacedName "ns" "ch") demo_consumed).
Proof.
  apply (CleanupChannel_spec "ch" "ns" "ch.ns.svc" demo_dispatcher demo_consumed None
    (CleanupChannel "ch" "ns" "ch.ns.svc" demo_dispatcher).2).
  - apply demo_represents.
  - vm_compute. reflexivity.
Defined.

Lemma groupID_injective_witness :
  groupID (mkNamespacedName "ns" "a.b") "u" ≠ groupID (mkNamespacedName "ns" "a") "u".
Proof.
  intros Heq. destruct (groupID_injective (mkNamespacedName "ns" "a.b") "u" (mkNamespacedName "ns" "a") "u")
    as [Hn _]; [by vm_compute; set_solver..|done|discriminate Hn].
Defined.

(** A channel whose only group cannot be started keeps an entry without
    subscriptions, which cleaning the channel up does not remove. *)
Example failed_subscribe_leaves_entry :
  let d1 := (ReconcileConsumers (demo_config [demo_subscription "bad" "b"]) (empty_dispatcher "topic")).2 in
  let d2 := (CleanupChannel "ch" "ns" "ch.ns.svc" d1).2 in
  channelSubscriptions d1 !! mkNamespacedName "ns" "ch" = Some 0 ∧ subs_at d1 0 = ∅ ∧
  channelSubscriptions d2 !! mkNamespacedName "ns" "ch" = Some 0.
Proof. vm_compute. auto. Qed.

(** Two channels with a subscription of the same UID: after both are cleaned up a
    consumer group is still open, and no map of the dispatcher knows it. *)
Example shared_uid_leaks_group :
  let config name := mkChannelConfig "ns" name (name +:+ ".ns.svc") [demo_subscription "u1" "a"] in
  let d1 := (ReconcileConsumers (config "c1") (empty_dispatcher "topic")).2 in
  let d2 := (ReconcileConsumers (config "c2") d1).2 in
  let d3 := (CleanupChannel "c1" "ns" "c1.ns.svc" d2).2 in
  let d4 := (CleanupChannel "c2" "ns" "c2.ns.svc" d3).2 in
  size (open_groups d4) = 1 ∧ subsConsumerGroups d4 = ∅.
Proof. vm_compute. auto. Qed.

(** Deleting a channel whose host another channel registered first unmaps that
    other channel. *)
Example cleanup_unmaps_foreign_host :
  let config name := mkChannelConfig "ns" name "h" [] in
  let d1 := (RegisterChannelHost (config "c1") (empty_dispatcher "topic")).2 in
  (RegisterChannelHost (config "c2") d1).1 ≠ None ∧
  getChannelReferenceFromHost "h" (CleanupChannel "c2" "ns" "h" d1).2 =
    Err "cannot map host to channel: h".
Proof. vm_compute. by split. Qed.
End demo.
