(* ===== verification/Endpoint.v ===== *)
(** * Endpoint: the subscription status endpoint of a dispatcher pod

    Models [src/pkg/channel/kt/dispatcher/subscription_endpoint.go], served on
    port 8081 and read by the prober of the controller.

    [ServeHTTP] looks the channel up four times in [channelSubscriptions] and
    does not take [consumerUpdateLock]; [ServeHTTP_interleaved] is the handler
    with the dispatcher state each lookup sees, so that the dispatcher may move
    in between, and [ServeHTTP] is the run without interference.  The JSON body
    is kept as the map it encodes. *)
From Stdlib Require Import Ascii.
From S2P Require Import Prelude GoStrings ApiTypes Sender KafkaSubscription Dispatcher.

Definition StatusOK : Z := 200.
Definition StatusNotFound : Z := 404.
Definition StatusMethodNotAllowed : Z := 405.
Definition MethodGet : string := "GET".
Definition dispatcherReadySubHeader : string := "K-Subscriber-Status".

Record HttpRequest := mkHttpRequest { r_Method : string; r_RequestURI : string }.

Record HttpResponse := mkHttpResponse {
  w_code : Z;
  w_header : gmap string string;
  w_body : option (gmap string (list Z));
}.
#[export] Instance HttpResponse_eq_dec : EqDecision HttpResponse.
Proof. solve_decision. Defined.

Definition status_only (code : Z) : HttpResponse := mkHttpResponse code ∅ None.

(** How a request ends: a response, a nil dereference while holding the read
    locks [held], or the unlocking of an object that is not locked. *)
Inductive outcome :=
  | Responded (r : HttpResponse)
  | NilDereference (held : list nat)
  | UnlockOfUnlocked (locked unlocked : nat).
#[export] Instance outcome_eq_dec : EqDecision outcome.
Proof. solve_decision. Defined.

(** [sets.Int32.List]: the elements in ascending order. *)
Definition Int32_List (ps : gset Z) : list Z := merge_sort Z.le (elements ps).

(** The object at [l] and its ready partitions, as the endpoint reports them. *)
Definition ready_report (d : KafkaDispatcher) (l : nat) : gmap string (list Z) :=
  match objects d !! l with
  | None => ∅
  | Some ks => Int32_List <$> channelReadySubscriptions ks
  end.

(** The lookups of the handler, in order: the test, the receiver of [RLock], the
    receiver of the deferred [RUnlock] (evaluated by the [defer] statement) and
    the object whose map is ranged over. *)
Definition serve_channel (ref : NamespacedName) (d1 d2 d3 d4 : KafkaDispatcher) : outcome :=
  match channelSubscriptions d1 !! ref with
  | None => Responded (status_only StatusNotFound)
  | Some _ =>
      match channelSubscriptions d2 !! ref with
      | None => NilDereference []
      | Some locked =>
          match channelSubscriptions d3 !! ref with
          | None => NilDereference [locked]
          | Some unlocked =>
              match channelSubscriptions d4 !! ref with
              | None =>
                  if decide (locked = unlocked) then NilDereference []
                  else UnlockOfUnlocked locked unlocked
              | Some l =>
                  if decide (locked = unlocked) then
                    Responded (mkHttpResponse StatusOK
                                 {[dispatcherReadySubHeader := nn_Name ref]}
                                 (Some (ready_report d4 l)))
                  else UnlockOfUnlocked locked unlocked
              end
          end
      end
  end.

Definition ServeHTTP_interleaved (r : HttpRequest) (d1 d2 d3 d4 : KafkaDispatcher) : outcome :=
  if decide (r_Method r ≠ MethodGet) then Responded (status_only StatusMethodNotAllowed)
  else
    match Split "/"%char (r_RequestURI r) with
    | [_; channelRefNamespace; channelRefName] =>
        serve_channel (mkNamespacedName channelRefNamespace channelRefName) d1 d2 d3 d4
    | _ => Responded (status_only StatusNotFound)
    end.

Definition ServeHTTP (r : HttpRequest) (d : KafkaDispatcher) : outcome :=
  ServeHTTP_interleaved r d d d d.

(** The request the prober sends for a channel. *)
Definition status_request (ref : NamespacedName) : HttpRequest :=
  mkHttpRequest MethodGet ("/" +:+ nn_Namespace ref +:+ "/" +:+ nn_Name ref).

(** A channel reference whose parts hold no slash, as the API server ensures. *)
Definition plain_ref (ref : NamespacedName) : Prop :=
  free_of "/"%char (nn_Namespace ref) ∧ free_of "/"%char (nn_Name ref).

Lemma Split_status_request ref :
  plain_ref ref → Split "/"%char (r_RequestURI (status_request ref)) = [""; nn_Namespace ref; nn_Name ref].
Proof.
  intros [Hns Hn].
  assert (Hempty : free_of "/"%char "") by (apply not_elem_of_nil).
  etransitivity; [exact (Split_append "/"%char "" _ Hempty)|]. f_equal.
  etransitivity; [exact (Split_append "/"%char _ _ Hns)|]. by rewrite Split_free.
Qed.

Lemma ServeHTTP_interleaved_channel ref d1 d2 d3 d4 :
  plain_ref ref →
  ServeHTTP_interleaved (status_request ref) d1 d2 d3 d4 = serve_channel ref d1 d2 d3 d4.
Proof.
  intros Href. unfold ServeHTTP_interleaved.
  rewrite decide_False by (intros Hn; by apply Hn). rewrite Split_status_request by done.
  by destruct ref.
Qed.

Lemma elem_of_Int32_List ps p : p ∈ Int32_List ps ↔ p ∈ ps.
Proof. unfold Int32_List. rewrite merge_sort_Permutation. apply elem_of_elements. Qed.

Lemma Int32_List_sorted ps : StronglySorted Z.le (Int32_List ps).
Proof. apply (StronglySorted_merge_sort _). Qed.

Lemma ready_report_spec d l ks uid :
  objects d !! l = Some ks →
  ready_report d l !! uid = Int32_List <$> channelReadySubscriptions ks !! uid.
Proof. intros Hl. unfold ready_report. by rewrite Hl, lookup_fmap. Qed.

(** ** Properties *)
Section properties.
Context `{KafkaCluster} `{GoRuntime}.

(** a request that is not disturbed gets 405 unless it is a GET; the prober's
    request for a channel gets 404 when the dispatcher has no object for it, and
    otherwise 200, the channel's name in the header and, per subscription, the
    ascending list of exactly the partitions reported ready. *)
Theorem ServeHTTP_spec (topic : string) (d : KafkaDispatcher) (ref : NamespacedName) :
  rtc dispatcher_step (empty_dispatcher topic) d → plain_ref ref →
  (∀ m uri, m ≠ MethodGet →
     ServeHTTP (mkHttpRequest m uri) d = Responded (status_only StatusMethodNotAllowed)) ∧
  match channelSubscriptions d !! ref with
  | None => ServeHTTP (status_request ref) d = Responded (status_only StatusNotFound)
  | Some l => ∃ ks body, objects d !! l = Some ks ∧
      ServeHTTP (status_request ref) d =
        Responded (mkHttpResponse StatusOK {[dispatcherReadySubHeader := nn_Name ref]} (Some body)) ∧
      ∀ uid, (∀ ps, body !! uid = Some ps → StronglySorted Z.le ps) ∧
             ∀ p, (∃ ps, body !! uid = Some ps ∧ p ∈ ps) ↔ ready_at ks uid p
  end.
Proof.
  intros Hreach Href. split.
  { intros m uri Hm. unfold ServeHTTP, ServeHTTP_interleaved. by rewrite decide_True. }
  unfold ServeHTTP. rewrite ServeHTTP_interleaved_channel by done. unfold serve_channel.
  destruct (channelSubscriptions d !! ref) as [l|] eqn:Hl; [|done].
  destruct (reachable_represents _ _ Hreach) as [A HA].
  destruct (rp_object _ _ HA _ _ Hl) as [ks Hks]. exists ks, (ready_report d l).
  rewrite decide_True by done. split_and!; [done|done|]. intros uid.
  rewrite (ready_report_spec _ _ _ _ Hks). unfold ready_at. split.
  - intros ps Hps. destruct (_ !! uid); [|done]. injection Hps as <-. apply Int32_List_sorted.
  - intros p. destruct (channelReadySubscriptions ks !! uid) as [ps|]; simpl; [|naive_solver].
    split; intros (? & [= <-] & Hp); eexists; (split; [done|]); by apply elem_of_Int32_List in Hp || apply elem_of_Int32_List.
Qed.

(** interference of the dispatcher is harmless as long as the channel keeps
    its object: whatever the four lookups see otherwise, the handler responds,
    and reports the readiness at the moment of the last one. *)
Theorem ServeHTTP_stable_channel (ref : NamespacedName) (l : nat) (d1 d2 d3 d4 : KafkaDispatcher) :
  plain_ref ref →
  Forall (λ d, channelSubscriptions d !! ref = Some l) [d1; d2; d3; d4] →
  ServeHTTP_interleaved (status_request ref) d1 d2 d3 d4 = ServeHTTP (status_request ref) d4.
Proof.
  intros Href Hall. do 4 (apply Forall_cons in Hall as [? Hall]). unfold ServeHTTP.
  rewrite !ServeHTTP_interleaved_channel by done. unfold serve_channel. by repeat case_match; simplify_eq.
Qed.
End properties.

(** ** Witnesses, and the race *)
Section demo.
#[local] Existing Instance demo_runtime.
#[local] Existing Instance demo_cluster.

Definition demo_ref : NamespacedName := mkNamespacedName "ns" "ch".
Definition busy_dispatcher : KafkaDispatcher := SetReady_at 0 "u1" 3 true (SetReady_at 0 "u1" 1 true demo_dispatcher).
(** The dispatcher after the channel lost its last subscription. *)
Definition drained_dispatcher : KafkaDispatcher := (ReconcileConsumers (demo_config []) busy_dispatcher).2.

Lemma demo_plain : plain_ref demo_ref.
Proof. split; by vm_compute; set_solver. Qed.

Lemma busy_reachable : rtc dispatcher_step (empty_dispatcher "topic") busy_dispatcher.
Proof.
  eapply rtc_l; [|eapply rtc_l; [apply step_SetReady|apply rtc_once, step_SetReady]].
  apply step_reconcile. intros ref uid _ Hin. vm_compute in Hin. discriminate Hin.
Qed.

Lemma ServeHTTP_spec_witness :
  ∃ body, ServeHTTP (status_request demo_ref) busy_dispatcher =
    Responded (mkHttpResponse StatusOK {[dispatcherReadySubHeader := "ch"]} (Some body)) ∧
    body !! "u1" = Some [1%Z; 3%Z].
Proof.
  destruct (ServeHTTP_spec "topic" busy_dispatcher demo_ref busy_reachable demo_plain) as [_ Hs].
  change (channelSubscriptions busy_dispatcher !! demo_ref) with (Some 0) in Hs.
  destruct Hs as (ks & body & Hks & Hserve & _). exists body. split; [exact Hserve|].
  vm_compute in Hserve. injection Hserve as <-. vm_compute. reflexivity.
Defined.

Lemma ServeHTTP_stable_channel_witness :
  ServeHTTP_interleaved (status_request demo_ref) demo_dispatcher demo_dispatcher busy_dispatcher busy_dispatcher =
  ServeHTTP (status_request demo_ref) busy_dispatcher.
Proof.
  apply (ServeHTTP_stable_channel demo_ref 0 demo_dispatcher demo_dispatcher busy_dispatcher busy_dispatcher demo_plain).
  repeat constructor; by vm_compute.
Defined.

(** When the last subscription of the channel goes away between two lookups, the
    handler dereferences nil: between the second and the third it does so still
    holding the read lock of the object, which nobody releases. *)
Example ServeHTTP_races_with_unsubscribe :
  dispatcher_step busy_dispatcher drained_dispatcher ∧
  ServeHTTP_interleaved (status_request demo_ref) busy_dispatcher drained_dispatcher
    drained_dispatcher drained_dispatcher = NilDereference [] ∧
  ServeHTTP_interleaved (status_request demo_ref) busy_dispatcher busy_dispatcher
    drained_dispatcher drained_dispatcher = NilDereference [0].
Proof.
  split; [apply step_reconcile; intros ref uid Hin _; by apply elem_of_nil in Hin|].
  split; vm_compute; reflexivity.
Qed.
End demo.
