(* ===== verification/Receiver.v ===== *)
(** * Receiver: events posted to a channel go to its Kafka topic

    Models [vendor/knative.dev/eventing/pkg/channel/message_receiver.go] and the
    receiver function [NewDispatcher] installs in
    [src/pkg/channel/kt/dispatcher/dispatcher.go].  The Kafka producer and the
    encoding of an event as a producer message are parameters; the state is the
    log of the messages the producer accepted. *)
From S2P Require Import Prelude GoStrings ApiTypes Sender KafkaSubscription Dispatcher Endpoint.

Definition MethodPost : string := "POST".
Definition StatusAccepted : Z := 202.
Definition StatusBadRequest : Z := 400.
Definition StatusInternalServerError : Z := 500.

(** The event of a request, with the encoding its headers announce. *)
Record EventRequest := mkEventRequest {
  er_Method : string;
  er_Path : string;
  er_Host : string;
  er_message : Message;
}.

(** A message for the producer: [WriteProducerMessage] fills a message for the
    topic; the trace headers appended to it are left out. *)
Record ProducerMessage := mkProducerMessage { pm_Topic : string; pm_value : string }.
#[export] Instance ProducerMessage_eq_dec : EqDecision ProducerMessage.
Proof. solve_decision. Defined.

Class KafkaProducer := {
  WriteProducerMessage : Message → string + string;
  SendMessage_error : nat → ProducerMessage → option string;
}.

(** The messages in the cluster, and the number of sends tried. *)
Record Producer := mkProducer { produced : list ProducerMessage; tried : nat }.

Section receiver.
Context `{KafkaProducer}.
Implicit Types (d : KafkaDispatcher) (p : Producer) (r : EventRequest).

(** [kafkaSyncProducer.SendMessage]. *)
Definition SendMessage (m : ProducerMessage) p : option string * Producer :=
  match SendMessage_error (tried p) m with
  | Some err => (Some err, mkProducer (produced p) (S (tried p)))
  | None => (None, mkProducer (produced p ++ [m]) (S (tried p)))
  end.

(** The function given to [NewMessageReceiver]; the channel only shows in a log. *)
Definition receiverFunc d (channel : ChannelReference) (message : Message) p : option string * Producer :=
  match WriteProducerMessage message with
  | inl err => (Some err, p)
  | inr value => SendMessage (mkProducerMessage (topicFunc d) value) p
  end.

(** [MessageReceiver.ServeHTTP]: the status code written. The only error of
    [getChannelReferenceFromHost] is an [UnknownHostError], and [receiverFunc]
    returns no [UnknownChannelError]. *)
Definition MessageReceiver_ServeHTTP r d p : Z * Producer :=
  if decide (er_Method r ≠ MethodPost) then (StatusMethodNotAllowed, p)
  else if decide (er_Path r ≠ "/") then (StatusNotFound, p)
  else
    match getChannelReferenceFromHost (er_Host r) d with
    | Ok channel =>
        if decide (ReadEncoding (er_message r) = EncodingUnknown) then (StatusBadRequest, p)
        else
          let (err, p) := receiverFunc d channel (er_message r) p in
          (match err with Some _ => StatusInternalServerError | None => StatusAccepted end, p)
    | Err _ | Panic _ => (StatusNotFound, p)
    end.

(** An accepted event is one, and was produced to the dispatcher's topic. *)
Lemma accepted_produced r d p p' :
  MessageReceiver_ServeHTTP r d p = (StatusAccepted, p') →
  ReadEncoding (er_message r) ≠ EncodingUnknown ∧
  ∃ value, WriteProducerMessage (er_message r) = inr value ∧
    produced p' = produced p ++ [mkProducerMessage (topicFunc d) value].
Proof.
  unfold MessageReceiver_ServeHTTP, receiverFunc, SendMessage.
  destruct (decide _); [by intros [=]|]. destruct (decide _); [by intros [=]|].
  destruct (getChannelReferenceFromHost _ _); [|by intros [=]..].
  destruct (decide _); [by intros [=]|].
  destruct (WriteProducerMessage _) as [err|value]; [by intros [=]|].
  destruct (SendMessage_error _ _); [by intros [=]|]. intros [= <-]. eauto.
Qed.

(** ** Properties *)

(** a request is answered 202 exactly when it is a POST of an event to the
    root of a registered host that the producer accepted, and then exactly one
    message was added to the dispatcher's topic; any other answer means that
    nothing was added, and 404 that the path or the host is unknown. *)
Theorem accepted_iff_produced r d p :
  let '(code, p') := MessageReceiver_ServeHTTP r d p in
  (code = StatusAccepted ↔
     er_Method r = MethodPost ∧ er_Path r = "/" ∧ is_Some (hostToChannelMap d !! er_Host r) ∧
     ReadEncoding (er_message r) ≠ EncodingUnknown ∧
     ∃ value, WriteProducerMessage (er_message r) = inr value ∧
       SendMessage_error (tried p) (mkProducerMessage (topicFunc d) value) = None) ∧
  (code = StatusAccepted → ∃ value, WriteProducerMessage (er_message r) = inr value ∧
     produced p' = produced p ++ [mkProducerMessage (topicFunc d) value]) ∧
  (code ≠ StatusAccepted → produced p' = produced p) ∧
  (code = StatusNotFound ↔ er_Method r = MethodPost ∧
     (er_Path r ≠ "/" ∨ hostToChannelMap d !! er_Host r = None)).
Proof.
  unfold MessageReceiver_ServeHTTP, getChannelReferenceFromHost, receiverFunc, SendMessage.
  assert (Hno : ∀ P : Prop, ¬ P → ∀ code, code ≠ StatusAccepted → (code = StatusAccepted ↔ P)) by tauto.
  destruct (decide (er_Method r ≠ MethodPost)) as [Hm|Hm].
  { split_and!; [by apply Hno; [intros [? _]|]|done|done|by split; [|intros [? _]]]. }
  apply dec_stable in Hm. destruct (decide (er_Path r ≠ "/")) as [Hpath|Hpath].
  { split_and!; [by apply Hno; [intros (_ & ? & _)|]|done|done|by split; [auto|]]. }
  apply dec_stable in Hpath.
  destruct (hostToChannelMap d !! er_Host r) as [cr|] eqn:Hh.
  2:{ split_and!; [by apply Hno; [intros (_ & _ & [] & _)|]|done|done|by split; [auto|]]. }
  assert (Hf : ∀ code, code ≠ StatusNotFound → code = StatusNotFound ↔
    er_Method r = MethodPost ∧ (er_Path r ≠ "/" ∨ Some cr = None)).
  { intros code Hc. split; [done|]. by intros [_ [?|?]]. }
  destruct (decide (ReadEncoding (er_message r) = EncodingUnknown)) as [He|He].
  { split_and!; [by apply Hno; [intros (_ & _ & _ & ? & _)|]|done|done|by apply Hf]. }
  destruct (WriteProducerMessage (er_message r)) as [err|value].
  { split_and!; [by apply Hno; [intros (_ & _ & _ & _ & ? & ? & _)|]|done|done|by apply Hf]. }
  destruct (SendMessage_error _ _) eqn:Hs.
  - split_and!; [|done|done|by apply Hf]. apply Hno; [|done].
    intros (_ & _ & _ & _ & v & [= <-] & ?). congruence.
  - split_and!; [|eauto|done|by apply Hf]. split; [|done]. intros _. split_and!; eauto.
Qed.

(** Once a channel is registered, an event posted to its host is not
    answered 404: it is 202 or the error of the event or of the producer. *)
Theorem registered_host_is_served `{GoRuntime} (config : ChannelConfig) d d' r p :
  RegisterChannelHost config d = (None, d') →
  er_Method r = MethodPost → er_Path r = "/" → er_Host r = cc_HostName config →
  let code := (MessageReceiver_ServeHTTP r d' p).1 in
  code = StatusAccepted ∨ code = StatusBadRequest ∨ code = StatusInternalServerError.
Proof.
  intros Hreg Hm Hp Hh. unfold MessageReceiver_ServeHTTP.
  rewrite decide_False by (intros Hn; by apply Hn). rewrite decide_False by (intros Hn; by apply Hn).
  assert (Hreg' : is_Some (hostToChannelMap d' !! er_Host r)).
  { rewrite Hh. revert Hreg. unfold RegisterChannelHost.
    destruct (hostToChannelMap d !! cc_HostName config) eqn:E.
    - case_bool_decide; intros [= <-]; eauto.
    - intros [= <-]. simpl. rewrite lookup_insert_eq. eauto. }
  unfold getChannelReferenceFromHost. destruct Hreg' as [cr ->].
  destruct (decide _); [auto|]. destruct (receiverFunc _ _ _ _) as [[err|] p']; auto.
Qed.
End receiver.

(** ** Witnesses *)
Definition demo_producer : KafkaProducer := {|
  WriteProducerMessage m := inr (m_payload m);
  SendMessage_error _ _ := None;
|}.
Definition demo_event : EventRequest := mkEventRequest "POST" "/" "ch.ns.svc" (mkMessage EncodingBinary "e" None).

Lemma registered_host_is_served_witness :
  let d' := (RegisterChannelHost (demo_config []) demo_dispatcher).2 in
  let code := (MessageReceiver_ServeHTTP (H := demo_producer) demo_event d' (mkProducer [] 0)).1 in
  code = StatusAccepted ∨ code = StatusBadRequest ∨ code = StatusInternalServerError.
Proof.
  exact (registered_host_is_served (H := demo_producer) (H0 := demo_runtime) (demo_config []) demo_dispatcher
    (RegisterChannelHost (demo_config []) demo_dispatcher).2 demo_event (mkProducer [] 0)
    ltac:(vm_compute; reflexivity) eq_refl eq_refl eq_refl).
Defined.
