(* ===== verification/ReceiverServer.v ===== *)
(** * ReceiverServer: the HTTP server of the event receiver and its shutdown

    Models [StartListen] of [vendor/knative.dev/eventing/pkg/kncloudevents/message_receiver.go],
    the [Drainer] of [vendor/knative.dev/pkg/network/handlers/drain.go] and
    [MessageReceiver.Start] of [eventing/pkg/channel/message_receiver.go], which
    [KafkaDispatcher.Start] runs: what is answered while the server drains, and when the two
    goroutines return.

    [http.Server] does what its documentation says: [Shutdown] stops accepting and waits
    for the requests being handled or for its context.  Time is explicit, in nanoseconds:
    a timer may fire at any moment from its deadline on. *)
From S2P Require Import Prelude GoStrings ApiTypes Sender KafkaSubscription Dispatcher Endpoint Receiver.

(** ** Probes *)
Definition UserAgentKey : string := "User-Agent".
Definition KubeProbeUAPrefix : string := "kube-probe/".
Definition KubeletProbeHeaderName : string := "K-Kubelet-Probe".
Definition ProbeHeaderName : string := "K-Network-Probe".
Definition ProbeHeaderValue : string := "probe".
Definition HashHeaderName : string := "K-Network-Hash".
Definition StatusServiceUnavailable : Z := 503.

(** A request: its headers under their canonical names, and the event in it. *)
Record ServerRequest := mkServerRequest { sr_Header : gmap string string; sr_event : EventRequest }.
Definition Header_Get (r : ServerRequest) (key : string) : string := default "" (sr_Header r !! key).

Definition IsKubeletProbe (r : ServerRequest) : bool :=
  HasPrefix (Header_Get r UserAgentKey) KubeProbeUAPrefix || negb (bool_decide (Header_Get r KubeletProbeHeaderName = "")).
Definition isKProbe (r : ServerRequest) : bool := bool_decide (Header_Get r ProbeHeaderName = ProbeHeaderValue).

(** The status, and the hash header of the answer. *)
Definition serveKProbe (r : ServerRequest) : Z * option string :=
  let hh := Header_Get r HashHeaderName in
  if decide (hh = "") then (StatusBadRequest, None) else (StatusOK, Some hh).

(** ** Timers and the drainer *)
Definition Second : Z := 1000000000.
Definition DefaultDrainTimeout : Z := 45 * Second.
Definition DefaultShutdownTimeout : Z := 60 * Second.

(** [time.Timer], running until its deadline or fired. *)
Inductive Timer := Running (deadline : Z) | Fired.
#[export] Instance Timer_eq_dec : EqDecision Timer.
Proof. solve_decision. Defined.

(** [HealthCheck] is nil: [NewMessageReceiver] sets no checker. *)
Record Drainer := mkDrainer { QuietPeriod : Z; timer : option Timer }.

Definition draining (d : Drainer) : bool := match timer d with Some _ => true | None => false end.

(** [Stop] tells that the timer has not fired. *)
Definition reset (now : Z) (d : Drainer) : Drainer :=
  match timer d with
  | Some (Running _) => mkDrainer (QuietPeriod d) (Some (Running (now + QuietPeriod d)))
  | _ => d
  end.

(** The first part of [Drain]. *)
Definition Drain_start (now : Z) (d : Drainer) : Drainer :=
  let period := if decide (QuietPeriod d ≤ 0)%Z then DefaultDrainTimeout else QuietPeriod d in
  mkDrainer period (Some (Running (now + period))).

(** [Drainer.ServeHTTP]: the status written, or [None] when the inner handler serves. *)
Definition Drainer_ServeHTTP (now : Z) (r : ServerRequest) (d : Drainer) : option (Z * option string) * Drainer :=
  if IsKubeletProbe r then (Some (if draining d then StatusServiceUnavailable else StatusOK, None), d)
  else if isKProbe r then (Some (if draining d then (StatusServiceUnavailable, None) else serveKProbe r), d)
  else (None, reset now d).

(** ** The server *)

(** Where [StartListen] is, and where [Start] is. *)
Inductive listen_phase := Serving | Draining | ShuttingDown (deadline : Z) | Listened (err : option string).
Inductive start_phase := Waiting | Stopping (t : Timer) | Returned (err : option string).

Definition ErrServerClosed : string := "http: Server closed".
Definition DeadlineExceeded : string := "context deadline exceeded".
Definition drain_timeout_error : string := "timeout shutting down http bindings receiver".

(** [sv_errChan]: what [Serve] returned; [sv_handling]: the requests that the inner
    handler has; [sv_answered]: the answers, by request; [sv_next]: requests so far. *)
Record Server := mkServer {
  sv_now : Z;
  sv_done : bool;
  sv_listen : listen_phase;
  sv_start : start_phase;
  sv_drainer : Drainer;
  sv_errChan : option string;
  sv_handling : gmap nat EventRequest;
  sv_answered : list (nat * Z);
  sv_next : nat;
  sv_producer : Producer;
}.

(** [NewHTTPMessageReceiver] without options, after [net.Listen], at time [now]. *)
Definition new_server (now : Z) (listen_error : option string) (p : Producer) : Server :=
  mkServer now false (match listen_error with Some err => Listened (Some err) | None => Serving end) Waiting
    (mkDrainer 0 None) None ∅ [] 0 p.

(** The listener accepts until [Serve] has returned. *)
Definition accepting (s : Server) : bool :=
  match sv_errChan s, sv_listen s with None, Serving | None, Draining => true | _, _ => false end.

Section server.
Context `{KafkaProducer} (shutdownTimeout : option Z).

(** [getShutdownTimeout]. *)
Definition getShutdownTimeout : Z := default DefaultShutdownTimeout shutdownTimeout.

Definition set_listen (l : listen_phase) (s : Server) : Server :=
  mkServer (sv_now s) (sv_done s) l (sv_start s) (sv_drainer s) (sv_errChan s) (sv_handling s) (sv_answered s) (sv_next s) (sv_producer s).
Definition set_start (st : start_phase) (s : Server) : Server :=
  mkServer (sv_now s) (sv_done s) (sv_listen s) st (sv_drainer s) (sv_errChan s) (sv_handling s) (sv_answered s) (sv_next s) (sv_producer s).
Definition set_drainer (d : Drainer) (s : Server) : Server :=
  mkServer (sv_now s) (sv_done s) (sv_listen s) (sv_start s) d (sv_errChan s) (sv_handling s) (sv_answered s) (sv_next s) (sv_producer s).
Definition set_errChan (e : string) (s : Server) : Server :=
  mkServer (sv_now s) (sv_done s) (sv_listen s) (sv_start s) (sv_drainer s) (Some e) (sv_handling s) (sv_answered s) (sv_next s) (sv_producer s).
Definition set_time (now : Z) (done : bool) (s : Server) : Server :=
  mkServer now done (sv_listen s) (sv_start s) (sv_drainer s) (sv_errChan s) (sv_handling s) (sv_answered s) (sv_next s) (sv_producer s).

(** A request that is accepted: the drainer answers it or the handler gets it. *)
Definition arrive (r : ServerRequest) (s : Server) : Server :=
  let '(answer, d) := Drainer_ServeHTTP (sv_now s) r (sv_drainer s) in
  match answer with
  | Some (status, _) =>
      mkServer (sv_now s) (sv_done s) (sv_listen s) (sv_start s) d (sv_errChan s) (sv_handling s)
        (sv_answered s ++ [(sv_next s, status)]) (S (sv_next s)) (sv_producer s)
  | None =>
      mkServer (sv_now s) (sv_done s) (sv_listen s) (sv_start s) d (sv_errChan s) (<[sv_next s := sr_event r]> (sv_handling s))
        (sv_answered s) (S (sv_next s)) (sv_producer s)
  end.

(** The handler answers a request, with the dispatcher as it is then. *)
Definition answer (id : nat) (r : EventRequest) (d : KafkaDispatcher) (s : Server) : Server :=
  let (status, p) := MessageReceiver_ServeHTTP r d (sv_producer s) in
  mkServer (sv_now s) (sv_done s) (sv_listen s) (sv_start s) (sv_drainer s) (sv_errChan s) (delete id (sv_handling s))
    (sv_answered s ++ [(id, status)]) (sv_next s) p.

Inductive server_event :=
  | Time (t : Z) | Cancelled | Arrived (r : ServerRequest) | Answered (id : nat) (d : KafkaDispatcher) | ServeFailed (err : string)
  | Ran.

(** [Ran] are the steps of the two goroutines and of their timers. *)
Inductive server_step (s : Server) : server_event → Server → Prop :=
  | ss_time t : (sv_now s ≤ t)%Z → server_step s (Time t) (set_time t (sv_done s) s)
  | ss_cancelled : server_step s Cancelled (set_time (sv_now s) true s)
  | ss_arrived r : accepting s = true → server_step s (Arrived r) (arrive r s)
  | ss_answered id r d : sv_handling s !! id = Some r → server_step s (Answered id d) (answer id r d s)
  | ss_serve_failed err : accepting s = true → server_step s (ServeFailed err) (set_errChan err s)
  (** [StartListen] *)
  | ss_serve_returned err : sv_listen s = Serving → sv_errChan s = Some err → server_step s Ran (set_listen (Listened (Some err)) s)
  | ss_drain : sv_listen s = Serving → sv_done s = true →
      server_step s Ran (set_listen Draining (set_drainer (Drain_start (sv_now s) (sv_drainer s)) s))
  | ss_drain_fired deadline : timer (sv_drainer s) = Some (Running deadline) → (deadline ≤ sv_now s)%Z →
      server_step s Ran (set_drainer (mkDrainer (QuietPeriod (sv_drainer s)) (Some Fired)) s)
  | ss_shutdown : sv_listen s = Draining → timer (sv_drainer s) = Some Fired →
      server_step s Ran (set_listen (ShuttingDown (sv_now s + getShutdownTimeout)) (set_errChan (default ErrServerClosed (sv_errChan s)) s))
  | ss_shut_down deadline : sv_listen s = ShuttingDown deadline → sv_handling s = ∅ → server_step s Ran (set_listen (Listened None) s)
  | ss_shutdown_expired deadline : sv_listen s = ShuttingDown deadline → (deadline ≤ sv_now s)%Z →
      server_step s Ran (set_listen (Listened (Some DeadlineExceeded)) s)
  (** [Start] *)
  | ss_start_returned err : sv_start s = Waiting ∨ (∃ t, sv_start s = Stopping t) → sv_listen s = Listened err →
      server_step s Ran (set_start (Returned err) s)
  | ss_stopping : sv_start s = Waiting → sv_done s = true →
      server_step s Ran (set_start (Stopping (Running (sv_now s + DefaultDrainTimeout))) s)
  | ss_start_fired deadline : sv_start s = Stopping (Running deadline) → (deadline ≤ sv_now s)%Z → server_step s Ran (set_start (Stopping Fired) s)
  | ss_start_expired : sv_start s = Stopping Fired → server_step s Ran (set_start (Returned (Some drain_timeout_error)) s).

Inductive server_run : Server → list server_event → Server → Prop :=
  | sr_nil s : server_run s [] s
  | sr_cons s e s' es s'' : server_step s e s' → server_run s' es s'' → server_run s (e :: es) s''.
End server.

(** ** Runs *)
Section runs.
Context `{KafkaProducer} (shutdownTimeout : option Z).
Abbreviation sstep := (server_step shutdownTimeout).
Abbreviation srun := (server_run shutdownTimeout).
Implicit Types (s : Server) (r : ServerRequest).

(** The answers that say that an event was accepted. *)
Definition accepted_answers s : list (nat * Z) := filter (λ x, x.2 = StatusAccepted) (sv_answered s).

(** What holds in every run of a new server that begins with the messages [base]: every
    request is with the handler or was answered, once; the events answered 202 are
    messages of the topic; and the phases fit together. *)
Record server_ok (base : list ProducerMessage) s : Prop := {
  so_once : NoDup (sv_answered s).*1;
  so_all id : id < sv_next s ↔ id ∈ (sv_answered s).*1 ∨ is_Some (sv_handling s !! id);
  so_apart id : id ∈ (sv_answered s).*1 → sv_handling s !! id = None;
  so_produced : length (produced (sv_producer s)) = length base + length (accepted_answers s);
  so_shut : sv_listen s = Listened None → sv_handling s = ∅;
  so_drain : sv_listen s = Draining → is_Some (timer (sv_drainer s));
  so_serving : sv_listen s = Serving → timer (sv_drainer s) = None;
  so_period : is_Some (timer (sv_drainer s)) → QuietPeriod (sv_drainer s) = DefaultDrainTimeout;
  so_fresh : timer (sv_drainer s) = None → QuietPeriod (sv_drainer s) = 0%Z;
}.

Lemma new_server_ok now listen_error p : server_ok (produced p) (new_server now listen_error p).
Proof.
  split; simpl; try done.
  - constructor.
  - intros id. split; [lia|]. intros [?%elem_of_nil|[? ?%lookup_empty_Some]]; done.
  - by destruct listen_error.
Qed.

Lemma Drainer_probe now r d a d' : Drainer_ServeHTTP now r d = (Some a, d') → d' = d ∧ a.1 ≠ StatusAccepted.
Proof.
  unfold Drainer_ServeHTTP, serveKProbe. destruct (IsKubeletProbe r); [by intros [= <- <-]; destruct (draining d)|].
  destruct (isKProbe r); [|done]. intros [= <- <-]. split; [done|]. destruct (draining d); [done|]. by destruct (decide _).
Qed.

Lemma Drainer_pass now r d d' : Drainer_ServeHTTP now r d = (None, d') → d' = reset now d.
Proof. unfold Drainer_ServeHTTP. destruct (IsKubeletProbe r); [done|]. destruct (isKProbe r); [done|]. by intros [= <-]. Qed.

Lemma reset_drainer now d : QuietPeriod (reset now d) = QuietPeriod d ∧ (is_Some (timer (reset now d)) ↔ is_Some (timer d)).
Proof. unfold reset. destruct (timer d) as [[dl|]|] eqn:E; simpl; rewrite ?E; split; done. Qed.

Lemma produced_answer (e : EventRequest) d p :
  let '(status, p') := MessageReceiver_ServeHTTP e d p in
  length (produced p') = length (produced p) + (if decide (status = StatusAccepted) then 1 else 0).
Proof.
  pose proof (accepted_iff_produced e d p) as Hs. destruct (MessageReceiver_ServeHTTP e d p) as [status p'].
  destruct Hs as (_ & Hyes & Hno & _). destruct (decide (status = StatusAccepted)) as [Ha|Ha].
  - destruct (Hyes Ha) as (value & _ & ->). by rewrite length_app.
  - rewrite (Hno Ha). lia.
Qed.

Lemma accepted_snoc l (id : nat) (status : Z) :
  length (filter (λ x : nat * Z, x.2 = StatusAccepted) (l ++ [(id, status)])) =
  length (filter (λ x : nat * Z, x.2 = StatusAccepted) l) + (if decide (status = StatusAccepted) then 1 else 0).
Proof.
  rewrite filter_app, length_app. f_equal. rewrite filter_cons. simpl. by destruct (decide (status = StatusAccepted)).
Qed.

Lemma arrive_ok base r s : accepting s = true → server_ok base s → server_ok base (arrive r s).
Proof.
  intros Hacc [Ho Ha Hap Hp Hs Hd Hv Hq Hf]. unfold arrive. destruct (Drainer_ServeHTTP _ _ _) as [[[status hash]|] d] eqn:Hserve.
  - destruct (Drainer_probe _ _ _ _ _ Hserve) as [-> Hstatus]. simpl in Hstatus.
    assert (Hnew : (sv_next s ∉ (sv_answered s).*1) ∧ sv_handling s !! sv_next s = None).
    { assert (Hn : ¬ (sv_next s < sv_next s)) by lia. rewrite Ha in Hn. split; [tauto|]. destruct (_ !! _) eqn:E; [|done]. destruct Hn. right. by eexists. }
    split; simpl; try done.
    + rewrite fmap_app. apply NoDup_app. split_and!; [done| |apply NoDup_singleton]. intros id Hin ->%list_elem_of_singleton. by apply Hnew.
    + intros id. rewrite fmap_app, elem_of_app. simpl. rewrite list_elem_of_singleton. specialize (Ha id). simpl.
      destruct (decide (id = sv_next s)) as [->|]; [split; [tauto|lia]|]. split; [intros; assert (id < sv_next s) by lia; tauto|intros; assert (id < sv_next s) by tauto; lia].
    + intros id. rewrite fmap_app, elem_of_app. simpl. rewrite list_elem_of_singleton. intros [Hin| ->]; [by apply Hap|apply Hnew].
    + unfold accepted_answers. simpl. rewrite accepted_snoc, decide_False by done. unfold accepted_answers in Hp. lia.
  - apply Drainer_pass in Hserve as ->. destruct (reset_drainer (sv_now s) (sv_drainer s)) as [Hper Htim].
    assert (Hnew : sv_next s ∉ (sv_answered s).*1).
    { assert (Hn : ¬ (sv_next s < sv_next s)) by lia. rewrite Ha in Hn. tauto. }
    split; simpl; try done.
    + intros id. destruct (decide (id = sv_next s)) as [->|Hne].
      * rewrite lookup_insert_eq. split; [eauto|lia].
      * rewrite lookup_insert_ne by done. specialize (Ha id). split; [intros; assert (id < sv_next s) by lia; tauto|intros; assert (id < sv_next s) by tauto; lia].
    + intros id Hin. rewrite lookup_insert_ne; [by apply Hap|]. by intros <-.
    + intros Hl. unfold accepting in Hacc. rewrite Hl in Hacc. by destruct (sv_errChan s).
    + intros Hl. by apply Htim, Hd.
    + intros Hl. specialize (Hv Hl). unfold reset. by rewrite Hv.
    + rewrite Htim, Hper. done.
    + rewrite Hper. intros Hn. apply Hf. destruct (timer (sv_drainer s)); [|done]. destruct (proj2 Htim) as [? Hx]; [by eexists|]. congruence.
Qed.

Lemma answer_ok base id (r : EventRequest) d s : sv_handling s !! id = Some r → server_ok base s → server_ok base (answer id r d s).
Proof.
  intros Hid [Ho Ha Hap Hp Hs Hd Hv Hq Hf]. unfold answer. pose proof (produced_answer r d (sv_producer s)) as Hprod.
  destruct (MessageReceiver_ServeHTTP r d (sv_producer s)) as [status p].
  assert (Hnew : id ∉ (sv_answered s).*1) by (intros Hin%Hap; congruence).
  split; simpl; try done.
  - rewrite fmap_app. apply NoDup_app. split_and!; [done| |apply NoDup_singleton]. by intros id' Hin ->%list_elem_of_singleton.
  - intros id'. rewrite fmap_app, elem_of_app, Ha. simpl. rewrite list_elem_of_singleton. destruct (decide (id' = id)) as [->|Hne].
    + rewrite Hid. split; [tauto|]. intros _. right. by eexists.
    + rewrite lookup_delete_ne by done. tauto.
  - intros id'. rewrite fmap_app, elem_of_app. simpl. rewrite list_elem_of_singleton. intros [Hin| ->]; [|apply lookup_delete_eq].
    rewrite lookup_delete_None. right. by apply Hap.
  - unfold accepted_answers in *. simpl. rewrite accepted_snoc. lia.
  - intros Hl. specialize (Hs Hl). rewrite Hs in Hid. by rewrite lookup_empty in Hid.
Qed.

Lemma server_step_ok base s e s' : sstep s e s' → server_ok base s → server_ok base s'.
Proof.
  destruct 1 as [t Ht| |r Hacc|id r d Hid|err Hacc|err Hl He|Hl Hdone|dl Ht Hle|Hl Ht|dl Hl Hh|dl Hl Hle|err Hst Hl|Hst Hdone|dl Hst Hle|Hst];
    [|by intros []|by apply arrive_ok|by apply answer_ok|..]; intros [Ho Ha Hap Hp Hs Hd Hv Hq Hf]; split; simpl in *; try done.
  - intros _. unfold Drain_start. simpl. destruct (timer (sv_drainer s)) eqn:Et; [rewrite Hq by (by eexists)|rewrite Hf by done]; by destruct (decide _).
  - intros Hl. specialize (Hv Hl). congruence.
  - intros _. apply Hq. rewrite Ht. by eexists.
Qed.

Lemma server_run_ok base s es s' : srun s es s' → server_ok base s → server_ok base s'.
Proof. induction 1 as [|s e s1 es s' Hstep _ IH]; [done|]. intros Hi. apply IH. by eapply server_step_ok. Qed.

(** ** What the requests get *)


(** Once the drain has begun it stays so, and the probes fail: *)
Lemma draining_step s e s' : sstep s e s' → draining (sv_drainer s) = true → draining (sv_drainer s') = true.
Proof.
  intros Hstep Hd. assert (Hr : draining (reset (sv_now s) (sv_drainer s)) = true).
  { unfold draining in *. destruct (reset_drainer (sv_now s) (sv_drainer s)) as [_ Ht].
    destruct (timer (sv_drainer s)) as [t|]; [|done]. destruct (proj2 Ht) as [t' ->]; [by eexists|done]. }
  destruct Hstep as [t Ht| |r Hacc|id r d Hid|err Hacc|err Hl He|Hl Hdone|dl Ht Hle|Hl Ht|dl Hl Hh|dl Hl Hle|err Hst Hl|Hst Hdone|dl Hst Hle|Hst]; try done.
  - unfold arrive. destruct (Drainer_ServeHTTP _ _ _) as [[[status hash]|] d] eqn:E; [by apply Drainer_probe in E as [-> _]|].
    by apply Drainer_pass in E as ->.
  - unfold answer. by destruct (MessageReceiver_ServeHTTP _ _ _).
Qed.

(** The probes of the kubelet and of the network are told 503 from the moment
    the drain has begun, while events are served as before. *)
Theorem drain_fails_probes s es s' r (begun : draining (sv_drainer s) = true) (later : srun s es s') :
  arrive r s' =
  if IsKubeletProbe r || isKProbe r
  then mkServer (sv_now s') (sv_done s') (sv_listen s') (sv_start s') (sv_drainer s') (sv_errChan s') (sv_handling s')
         (sv_answered s' ++ [(sv_next s', StatusServiceUnavailable)]) (S (sv_next s')) (sv_producer s')
  else mkServer (sv_now s') (sv_done s') (sv_listen s') (sv_start s') (reset (sv_now s') (sv_drainer s')) (sv_errChan s')
         (<[sv_next s' := sr_event r]> (sv_handling s')) (sv_answered s') (S (sv_next s')) (sv_producer s').
Proof.
  assert (Hd : draining (sv_drainer s') = true) by (induction later as [|s e s1 es s' Hstep _ IH]; [done|]; apply IH; by eapply draining_step).
  unfold arrive, Drainer_ServeHTTP. destruct (IsKubeletProbe r); [by rewrite Hd|]. destruct (isKProbe r); [by rewrite Hd|done].
Qed.

(** ** The end of the shutdown *)

(** Since time [t] the drain has had to last until [QuietPeriod] later. *)
Definition quiet_from (t : Z) s : Prop :=
  match timer (sv_drainer s) with
  | Some (Running deadline) => (t + DefaultDrainTimeout ≤ deadline)%Z
  | Some Fired => (t + DefaultDrainTimeout ≤ sv_now s)%Z
  | None => False
  end ∧ (sv_listen s = Draining ∨ timer (sv_drainer s) = Some Fired).

Lemma quiet_step base t s e s' :
  sstep s e s' → server_ok base s → (t ≤ sv_now s)%Z → quiet_from t s → quiet_from t s' ∧ (sv_now s ≤ sv_now s')%Z.
Proof.
  intros Hstep Hok Ht [Hq Hl].
  destruct Hstep as [t' Ht'| |r Hacc|id r d Hid|err Hacc|err Hl' He|Hl' Hdone|dl Htm Hle|Hl' Htm|dl Hl' Hh|dl Hl' Hle|err Hst Hl'|Hst Hdone|dl Hst Hle|Hst];
    unfold quiet_from; simpl; try (split; [split; [done|tauto]|lia]).
  - split; [|done]. split; [destruct (timer (sv_drainer s)) as [[dl|]|]; [done|lia|done]|done].
  - unfold arrive. destruct (Drainer_ServeHTTP _ _ _) as [[[status hash]|] d] eqn:E; simpl.
    + apply Drainer_probe in E as [-> _]. split; [by split|lia].
    + apply Drainer_pass in E as ->. split; [|lia]. unfold reset. destruct (timer (sv_drainer s)) as [[dl|]|] eqn:Et; simpl; rewrite ?Et; [|by split|done].
      destruct Hl as [Hl|]; [|done]. split; [|by left]. rewrite (so_period _ _ Hok) by (rewrite Et; by eexists). lia.
  - unfold answer. destruct (MessageReceiver_ServeHTTP _ _ _). simpl. split; [by split|lia].
  - by rewrite (so_serving _ _ Hok Hl') in Hq.
  - by rewrite (so_serving _ _ Hok Hl') in Hq.
  - rewrite Htm in Hq. split; [|lia]. split; [lia|by right].
  - destruct Hl as [Hl|Hl]; [congruence|]. split; [|lia]. split; [done|by right].
  - destruct Hl as [Hl|Hl]; [congruence|]. split; [|lia]. split; [done|by right].
Qed.

Lemma quiet_run base t s es s' :
  srun s es s' → server_ok base s → (t ≤ sv_now s)%Z → quiet_from t s → quiet_from t s'.
Proof.
  induction 1 as [|s e s1 es s' Hstep _ IH]; [done|]. intros Hok Ht Hq.
  destruct (quiet_step base t s e s1 Hstep Hok Ht Hq) as [Hq1 Hle]. apply IH; [by eapply server_step_ok|lia|done].
Qed.

Lemma quiet_listened t s err :
  quiet_from t s → sv_listen s = Listened err → (t + DefaultDrainTimeout ≤ sv_now s)%Z.
Proof. intros [Hq [Hl|Hl]] Hl'; [congruence|]. by rewrite Hl in Hq. Qed.

(** A run in which the clock does not reach [bound] before [Start] has returned: its timer and its
    goroutine are not later than that. *)
Inductive prompt_run (bound : Z) : Server → list server_event → Server → Prop :=
  | pr_nil s : prompt_run bound s [] s
  | pr_cons s e s' es s'' :
      sstep s e s' → (∀ t, e = Time t → (t < bound)%Z ∨ ∃ err, sv_start s = Returned err) →
      prompt_run bound s' es s'' → prompt_run bound s (e :: es) s''.

Lemma prompt_run_run bound s es s' : prompt_run bound s es s' → srun s es s'.
Proof. induction 1; [by constructor|by econstructor]. Qed.

(** [Start] has not had an answer of [StartListen], and has not waited too long. *)
Definition timing_out (bound deadline : Z) s : Prop :=
  sv_start s = Returned (Some drain_timeout_error) ∨
  ((sv_start s = Stopping (Running deadline) ∨ sv_start s = Stopping Fired) ∧ (sv_now s < bound)%Z).

Lemma timing_out_step t deadline s e s' :
  sstep s e s' → quiet_from t s → (∀ t', e = Time t' → (t' < t + DefaultDrainTimeout)%Z ∨ ∃ err, sv_start s = Returned err) →
  timing_out (t + DefaultDrainTimeout) deadline s → timing_out (t + DefaultDrainTimeout) deadline s'.
Proof.
  intros Hstep Hq Hprompt Hn. unfold timing_out in *.
  destruct Hstep as [t' Ht'| |r Hacc|id r d Hid|err Hacc|err Hl' He|Hl' Hdone|dl Htm Hle|Hl' Htm|dl Hl' Hh|dl Hl' Hle|err Hst Hl'|Hst Hdone|dl Hst Hle|Hst];
    simpl; try exact Hn; try tauto.
  - destruct Hn as [Hn|[Hst Hlt]]; [by left|]. right. split; [done|].
    destruct (Hprompt t' eq_refl) as [?|[err Hr]]; [done|]. rewrite Hr in Hst. by destruct Hst.
  - unfold arrive. by destruct (Drainer_ServeHTTP _ _ _) as [[[]|] ?].
  - unfold answer. by destruct (MessageReceiver_ServeHTTP _ _ _).
  - destruct Hn as [Hn|[_ Hlt]].
    + rewrite Hn in Hst. by destruct Hst as [|[]].
    + pose proof (quiet_listened _ _ _ Hq Hl'). lia.
  - rewrite Hst in Hn. by destruct Hn as [|[[|] _]].
  - rewrite Hst in Hn. destruct Hn as [|[_ Hlt]]; [done|]. right. split; [by right|done].
Qed.

Lemma timing_out_run base t deadline s es s' :
  prompt_run (t + DefaultDrainTimeout) s es s' → server_ok base s → (t ≤ sv_now s)%Z → quiet_from t s →
  timing_out (t + DefaultDrainTimeout) deadline s → timing_out (t + DefaultDrainTimeout) deadline s'.
Proof.
  induction 1 as [|s e s1 es s' Hstep Hprompt _ IH]; [done|]. intros Hok Ht Hq Hn.
  destruct (quiet_step base t s e s1 Hstep Hok Ht Hq) as [Hq1 Hle]. apply IH; [by eapply server_step_ok|lia|done|].
  by eapply timing_out_step.
Qed.

(** No timer is running that is not due. *)
Definition overdue s : Prop :=
  (∀ deadline, timer (sv_drainer s) = Some (Running deadline) → (deadline ≤ sv_now s)%Z) ∧
  (∀ deadline, sv_listen s = ShuttingDown deadline → (deadline ≤ sv_now s)%Z) ∧
  (∀ deadline, sv_start s = Stopping (Running deadline) → (deadline ≤ sv_now s)%Z).

(** C22: A shutdown during which an event arrives is reported as failed.  Start gives
    the server [DefaultDrainTimeout] from the cancellation, and the drain takes as long from
    the last event: when an event arrives while the server drains, after [Start] noticed
    the cancellation, [StartListen] returns no earlier than [DefaultDrainTimeout] after the event, and that is
    after the deadline of [Start].  If [Start] is late for its deadline by less than the time
    between the cancellation and the event ([prompt_run]), it returns nothing but the
    time-out; and it does return, once the deadlines are over and none of the goroutines can go on. *)
Theorem busy_shutdown_times_out now listen_error p es0 s deadline drained r s1 es s2
    (before : srun (new_server now listen_error p) es0 s)
    (stopping : sv_start s = Stopping (Running deadline)) (begun : timer (sv_drainer s) = Some (Running drained))
    (phase : sv_listen s = Draining)
    (event : (IsKubeletProbe r || isKProbe r) = false) (noticed : (deadline < sv_now s + DefaultDrainTimeout)%Z)
    (arrives : sstep s (Arrived r) s1) (later : prompt_run (sv_now s + DefaultDrainTimeout) s1 es s2) :
  (∀ err, sv_listen s2 = Listened err → (deadline < sv_now s + DefaultDrainTimeout ≤ sv_now s2)%Z) ∧
  (∀ err, sv_start s2 = Returned err → err = Some drain_timeout_error) ∧
  (overdue s2 → (∀ s', ¬ sstep s2 Ran s') → sv_start s2 = Returned (Some drain_timeout_error)).
Proof.
  pose proof (server_run_ok _ _ _ _ before (new_server_ok now listen_error p)) as Hok.
  pose proof (server_step_ok _ _ _ _ arrives Hok) as Hok1.
  assert (H1 : quiet_from (sv_now s) s1 ∧ sv_now s1 = sv_now s ∧ sv_start s1 = sv_start s).
  { inversion arrives; subst. apply orb_false_iff in event as [Hk Hp]. unfold arrive, Drainer_ServeHTTP, quiet_from. rewrite Hk, Hp. simpl.
    unfold reset. rewrite begun. simpl. split_and!; [|by left|done|done]. rewrite (so_period _ _ Hok) by (rewrite begun; by eexists). lia. }
  destruct H1 as (Hq & Hnow & Hstart). assert (Ht : (sv_now s ≤ sv_now s1)%Z) by lia.
  assert (Hout : timing_out (sv_now s + DefaultDrainTimeout) deadline s2).
  { eapply timing_out_run; [exact later|done|done|done|]. right. rewrite Hstart, Hnow. split; [by left|].
    unfold DefaultDrainTimeout, Second. lia. }
  split_and!.
  - intros err Hl. split; [done|]. eapply quiet_listened; [|exact Hl]. eapply quiet_run; [by eapply prompt_run_run|done|done|done].
  - intros err Hr. destruct Hout as [Hs|[[Hs|Hs] _]]; congruence.
  - intros (_ & _ & Hdue) Hstuck. destruct Hout as [Hs|[[Hs|Hs] _]]; [done| |]; exfalso.
    + by eapply Hstuck, ss_start_fired, Hdue.
    + by eapply Hstuck, ss_start_expired.
Qed.

(** The steps that [StartListen], [Start] and their timers have left. *)
Definition steps_left s : nat :=
  match sv_listen s with Serving => 4 | Draining => 2 | ShuttingDown _ => 1 | Listened _ => 0 end +
  match timer (sv_drainer s) with Some (Running _) => 1 | _ => 0 end +
  match sv_start s with Waiting => 3 | Stopping (Running _) => 2 | Stopping Fired => 1 | Returned _ => 0 end.

Lemma steps_left_step base s e s' :
  sstep s e s' → server_ok base s → steps_left s' + (match e with Ran => 1 | _ => 0 end) ≤ steps_left s.
Proof.
  intros Hstep Hok. unfold steps_left.
  destruct Hstep as [t Ht| |r Hacc|id r d Hid|err Hacc|err Hl He|Hl Hdone|dl Ht Hle|Hl Ht|dl Hl Hh|dl Hl Hle|err Hst Hl|Hst Hdone|dl Hst Hle|Hst];
    simpl; rewrite ?Hl, ?Ht; try (destruct Hst as [Hst|[t Hst]]); rewrite ?Hst; try lia.
  - unfold arrive. destruct (Drainer_ServeHTTP _ _ _) as [[[status hash]|] d] eqn:E; simpl; [apply Drainer_probe in E as [-> _]; lia|].
    apply Drainer_pass in E as ->. unfold reset. destruct (timer (sv_drainer s)) as [[dl|]|] eqn:Et; simpl; rewrite ?Et; lia.
  - unfold answer. destruct (MessageReceiver_ServeHTTP _ _ _). simpl. lia.
  - destruct t; lia.
Qed.

Definition is_Ran (e : server_event) : bool := match e with Ran => true | _ => false end.

(** The receiver stops: in every run, however long, the two goroutines and their timers
    take at most seven steps, and when the context is done, the deadlines are over and
    none of them can go on, both have returned. *)
Theorem receiver_stops now listen_error p es s (run : srun (new_server now listen_error p) es s) :
  length (filter (λ e, is_Ran e = true) es) ≤ 7 ∧
  (sv_done s = true → overdue s → (∀ s', ¬ sstep s Ran s') →
   ∃ err err', sv_listen s = Listened err ∧ sv_start s = Returned err').
Proof.
  pose proof (new_server_ok now listen_error p) as Hok0. split.
  - assert (Hn : ∀ s0, srun s0 es s → server_ok (produced p) s0 →
      length (filter (λ e, is_Ran e = true) es) + steps_left s ≤ steps_left s0).
    { clear run Hok0. intros s0 Hrun Hok. induction Hrun as [|s e s1 es s' Hstep _ IH]; [done|].
      specialize (IH (server_step_ok _ _ _ _ Hstep Hok)). pose proof (steps_left_step _ _ _ _ Hstep Hok) as Hs.
      rewrite filter_cons. destruct e; simpl in *; lia. }
    specialize (Hn _ run Hok0). unfold steps_left in Hn at 2. simpl in Hn. destruct listen_error; simpl in Hn; lia.
  - intros Hdone (Hdrain & Hshut & Hstart) Hstuck. pose proof (server_run_ok _ _ _ _ run Hok0) as Hok.
    assert (Hl : ∃ err, sv_listen s = Listened err).
    { destruct (sv_listen s) as [| |deadline|err] eqn:Hl; [| | |by eexists]; exfalso.
      - by eapply Hstuck, ss_drain.
      - destruct (so_drain _ _ Hok Hl) as [[deadline|] Ht]; [|by eapply Hstuck, ss_shutdown].
        by eapply Hstuck, ss_drain_fired, Hdrain.
      - by eapply Hstuck, ss_shutdown_expired, Hshut. }
    destruct Hl as [err Hl]. exists err. destruct (sv_start s) as [|[deadline|]|err'] eqn:Hst; [| | |by exists err']; exfalso.
    + by eapply Hstuck, ss_start_returned; [left|].
    + by eapply Hstuck, ss_start_fired, Hstart.
    + by eapply Hstuck, ss_start_expired.
Qed.
End runs.

(** ** Witnesses *)
Section demo.
#[local] Existing Instance Receiver.demo_producer.

Definition demo_request : ServerRequest := mkServerRequest ∅ demo_event.
Definition demo_kubelet : ServerRequest := mkServerRequest {[UserAgentKey := "kube-probe/1.20"]} demo_event.
Definition demo_cancelled : list server_event := [Cancelled; Ran; Ran; Time Second].
Definition demo_draining : Server :=
  mkServer Second true Draining (Stopping (Running DefaultDrainTimeout)) (mkDrainer DefaultDrainTimeout (Some (Running DefaultDrainTimeout)))
    None ∅ [] 0 (mkProducer [] 0).

Lemma demo_cancelled_run : server_run None (new_server 0 None (mkProducer [] 0)) demo_cancelled demo_draining.
Proof.
  eapply sr_cons; [apply ss_cancelled|]. eapply sr_cons; [by apply ss_drain|]. eapply sr_cons; [by apply ss_stopping|].
  eapply sr_cons; [by apply (ss_time _ _ Second)|]. apply sr_nil.
Qed.


Lemma drain_fails_probes_witness : sv_answered (arrive demo_kubelet demo_draining) = [(0, StatusServiceUnavailable)].
Proof. rewrite (drain_fails_probes None demo_draining [] demo_draining demo_kubelet eq_refl (sr_nil _ _)). vm_compute. reflexivity. Defined.

(** The event is answered, the clock goes on past the deadline of [Start], which fires and returns. *)
Definition demo_timed_out : Server :=
  set_start (Returned (Some drain_timeout_error)) (set_start (Stopping Fired)
    (set_time (DefaultDrainTimeout + 1) true (arrive demo_request demo_draining))).

Lemma demo_timed_out_run :
  prompt_run None (Second + DefaultDrainTimeout) (arrive demo_request demo_draining) [Time (DefaultDrainTimeout + 1); Ran; Ran] demo_timed_out.
Proof.
  eapply pr_cons; [by apply (ss_time _ _ (DefaultDrainTimeout + 1))|intros t [= <-]; by left|].
  eapply pr_cons; [by apply (ss_start_fired _ _ DefaultDrainTimeout)|done|].
  eapply pr_cons; [by apply ss_start_expired|done|]. apply pr_nil.
Qed.

Lemma busy_shutdown_times_out_witness : ∃ err, sv_start demo_timed_out = Returned err ∧ err = Some drain_timeout_error.
Proof.
  eexists. split; [reflexivity|].
  refine (proj1 (proj2 (busy_shutdown_times_out None 0 None (mkProducer [] 0) demo_cancelled demo_draining DefaultDrainTimeout DefaultDrainTimeout
    demo_request (arrive demo_request demo_draining) _ demo_timed_out demo_cancelled_run _ _ _ _ _ _ demo_timed_out_run)) _ _);
    try reflexivity. apply ss_arrived; reflexivity.
Defined.

Lemma receiver_stops_witness : length (filter (λ e, is_Ran e = true) demo_cancelled) ≤ 7.
Proof. exact (proj1 (receiver_stops None 0 None (mkProducer [] 0) demo_cancelled demo_draining demo_cancelled_run)). Defined.
End demo.
