(* ===== verification/Delivery.v ===== *)
(** * Delivery: from the post of an event to its subscribers

    Composes the receiver, the topic and the consumer sessions.  A partition of
    the topic is its log, the oldest offset that the broker still has, the offset
    committed for one consumer group (negative before the first commit), and the network
    its handler sends on; what happens to them is the relation [partition_step]: a record
    is appended, the oldest records expire, or a session of the group claims the
    partition.  Where it starts is the choice of Sarama ([NextOffset] of [offset_manager.go],
    [newConsumerGroupClaim] of [consumer_group.go] and [chooseStartingOffset] of
    [consumer.go]): at the committed offset, or at [Consumer.Offsets.Initial], by default the
    end of the log, when none was committed or its record has expired.  It is delivered
    the records from there on, those that are appended meanwhile included, up to any point,
    and commits the offset it marked, an earlier one, or none. *)
From S2P Require Import Prelude GoStrings ApiTypes Sender MessageDispatcher KafkaSubscription Consumer Dispatcher Receiver.
Local Open Scope Z_scope.

(** The broker: the record of a produced message, at its partition and offset. *)
Class KafkaBroker := {
  stored : ProducerMessage → Z → Z → ConsumerMessage;
  stored_partition pm q o : cm_Partition (stored pm q o) = q;
  stored_offset pm q o : cm_Offset (stored pm q o) = o;
}.

Record Partition := mkPartition {
  log : list ConsumerMessage;
  oldest : Z;
  committed : Z;
  p_net : Net;
}.

Definition OffsetNewest : Z := -1.
Definition OffsetOldest : Z := -2.

(** The end of the log: the offset of the next record. *)
Definition newest (P : Partition) : Z := Z.of_nat (length (log P)).

Section partition.
Context `{HttpClient, KafkaBinding, KafkaBroker}.
(** [initial] is [Consumer.Offsets.Initial]. *)
Variables (initial q : Z) (c : consumerMessageHandler).
Implicit Types (P : Partition) (m : ConsumerMessage) (w : HandlerWorld).

#[local] Instance partition_handler : KafkaConsumerHandler HandlerWorld handle_error :=
  consumerMessageHandler_interface c.

Definition append (pm : ProducerMessage) P : Partition :=
  mkPartition (log P ++ [stored pm q (newest P)]) (oldest P) (committed P) (p_net P).
Definition appends (pms : list ProducerMessage) P : Partition := foldl (λ P pm, append pm P) P pms.

(** ** Where a session starts *)
Definition NextOffset P : Z := if decide (0 ≤ committed P) then committed P else initial.

(** [None] is [ErrOffsetOutOfRange]. *)
Definition chooseStartingOffset (offset : Z) P : option Z :=
  if decide (offset = OffsetNewest) then Some (newest P)
  else if decide (offset = OffsetOldest) then Some (oldest P)
  else if decide (oldest P ≤ offset ≤ newest P) then Some offset
  else None.

(** [newConsumerGroupClaim]; [None] when the claim fails. *)
Definition newConsumerGroupClaim P : option Z :=
  match chooseStartingOffset (NextOffset P) P with
  | Some start => Some start
  | None => chooseStartingOffset initial P
  end.

(** The records a session that started at [start] is delivered when it ends after [n]
    of them. *)
Definition claimed (start : Z) (n : nat) P : list ConsumerMessage :=
  take n (drop (Z.to_nat start) (log P)).

Definition session_on (start : Z) (n : nat) (obj : KafkaSubscription) P : Session HandlerWorld handle_error :=
  ConsumeClaim q (claimed start n P) (mkSession (mkWorld (p_net P) obj) {[q := committed P]} []).

(** Each session says which offsets it leaves out: those from the committed offset, or
    from the beginning of the log when there is none, to its start. *)
Inductive partition_step : Partition → list (Z * Z) → Partition → Prop :=
  | step_append pm P : partition_step P [] (append pm P)
  | step_expire o P : oldest P ≤ o ≤ newest P → partition_step P [] (mkPartition (log P) o (committed P) (p_net P))
  | step_session pms start n obj cur marked P :
      newConsumerGroupClaim P = Some start →
      let s := session_on start n obj (appends pms P) in
      offsets s !! q = Some marked → cur = committed P ∨ start < cur ≤ marked →
      partition_step P [(Z.max 0 (committed P), start)]
        (mkPartition (log (appends pms P)) (oldest P) cur (hw_net (world s))).

Inductive partition_run : Partition → list (Z * Z) → Partition → Prop :=
  | run_stay P : partition_run P [] P
  | run_step P gaps P1 gaps' P' : partition_step P gaps P1 → partition_run P1 gaps' P' → partition_run P (gaps ++ gaps') P'.

(** A log as the broker keeps it, and offsets in its range. *)
Record partition_wf P : Prop := {
  pw_log i m : log P !! i = Some m → cm_Partition m = q ∧ cm_Offset m = Z.of_nat i;
  pw_oldest : 0 ≤ oldest P ≤ newest P;
  pw_committed : committed P ≤ newest P;
}.

(** The event of [m] was sent to [u]. *)
Definition is_event (u : URL) m (rq : Request) : Prop :=
  rq_url rq = u ∧ rq_message rq = NewMessageFromConsumerMessage m ∧ rq_extensions rq = [].
Definition sent_to (u : URL) (rs : list Request) m : Prop := ∃ rq, rq ∈ rs ∧ is_event u m rq.

(** What handling [m] adds to the requests: nothing when it is no event, else
    the event goes to the subscriber first. *)
Definition handled_as (u : URL) m (rs : list Request) : Prop :=
  if decide (ReadEncoding (NewMessageFromConsumerMessage m) = EncodingUnknown) then rs = []
  else ∃ rq rs', rs = rq :: rs' ∧ is_event u m rq.

Definition subscriber_of : option URL := sanitizeURL (Subscriber (s_fanout (h_sub c))).

Lemma cmh_Handle_sends u m w :
  local_ok → subscriber_of = Some u →
  ∃ rs, sent (hw_net (cmh_Handle c m w).2) = sent (hw_net w) ++ rs ∧ handled_as u m rs.
Proof.
  intros Hlo Hu. unfold cmh_Handle, handled_as. case_decide; [exists []; by rewrite app_nil_r|].
  destruct (DispatchMessageWithRetries _ _ _ _ _ _ _) as [[i e] net] eqn:Hd.
  apply DispatchMessageWithRetries_routes in Hd as (rs1 & rs2 & rs3 & Hs & Hr & _); [|done].
  unfold subscriber_of in Hu. rewrite Hu in Hr. destruct Hr as (k & hd & -> & _).
  eexists. split; [exact Hs|]. by eexists _, _.
Qed.

Lemma world_consume_message s m :
  sent (hw_net (world (consume_message q s m))) = sent (hw_net (cmh_Handle c m (world s)).2).
Proof.
  unfold consume_message. change (Handle m (world s)) with (cmh_Handle c m (world s)).
  unfold report_failure. destruct (cmh_Handle c m (world s)) as [[b [e|]] w]; by rewrite world_mark_handled.
Qed.

Lemma consume_messages_send u msgs : ∀ s,
  local_ok → subscriber_of = Some u →
  ∃ rss, sent (hw_net (world (foldl (consume_message q) s msgs))) = sent (hw_net (world s)) ++ mjoin rss ∧
    Forall2 (handled_as u) msgs rss.
Proof.
  induction msgs as [|m msgs IH]; intros s Hlo Hu; simpl.
  - exists []. by rewrite app_nil_r.
  - destruct (cmh_Handle_sends u m (world s) Hlo Hu) as (rs & Hs & Hm).
    destruct (IH (consume_message q s m) Hlo Hu) as (rss & Hss & Hall).
    exists (rs :: rss). split; [|by constructor].
    by rewrite Hss, world_consume_message, Hs, <-app_assoc.
Qed.

Lemma claim_sends u msgs s :
  local_ok → subscriber_of = Some u →
  ∃ rss, sent (hw_net (world (ConsumeClaim q msgs s))) = sent (hw_net (world s)) ++ mjoin rss ∧
    Forall2 (handled_as u) msgs rss.
Proof. intros Hlo Hu. exact (consume_messages_send u msgs (session_SetReady q true s) Hlo Hu). Qed.

Lemma claim_sent_to u msgs s m :
  local_ok → subscriber_of = Some u → m ∈ msgs →
  ReadEncoding (NewMessageFromConsumerMessage m) ≠ EncodingUnknown →
  sent_to u (sent (hw_net (world (ConsumeClaim q msgs s)))) m.
Proof.
  intros Hlo Hu Hin Henc. destruct (claim_sends u msgs s Hlo Hu) as (rss & -> & Hall).
  apply list_elem_of_lookup in Hin as [i Hi].
  destruct (Forall2_lookup_l _ _ _ _ _ Hall Hi) as (rs & Hrs & Hm).
  unfold handled_as in Hm. rewrite decide_False in Hm by done. destruct Hm as (rq & rs' & -> & Hrq).
  exists rq. split; [|done]. apply elem_of_app. right. apply list_elem_of_join.
  eexists. split; [apply list_elem_of_here|]. by eapply list_elem_of_lookup_2.
Qed.

(** ** Where the committed offset can get *)
Lemma next_offset_le (X cur : Z) (ms : list ConsumerMessage) :
  cur ≤ X → Forall (λ m, cm_Offset m + 1 ≤ X) ms → next_offset cur ms ≤ X.
Proof.
  revert cur. unfold next_offset. induction ms as [|m ms IH]; intros cur Hcur Hall; simpl; [done|].
  apply Forall_cons in Hall as [? ?]. apply IH; [lia|done].
Qed.

Lemma elem_of_delivered msgs s m : m ∈ delivered (results q msgs s) → m ∈ msgs.
Proof.
  revert s. induction msgs as [|m' msgs IH]; intros s; simpl; [done|]. unfold delivered. simpl.
  destruct (cmh_Handle c m' (world s)).1.2; simpl; rewrite ?elem_of_cons; [intros ?; right; by eapply IH|].
  intros [->|?]; [by left|right; by eapply IH].
Qed.

Lemma append_wf pm P : partition_wf P → partition_wf (append pm P).
Proof.
  intros Hwf. assert (Hn : newest (append pm P) = newest P + 1) by (unfold newest; simpl; rewrite length_app; simpl; lia).
  split.
  - intros i m [?|[Hi [Hz <-]%list_lookup_singleton_Some]]%lookup_app_Some; [by apply (pw_log _ Hwf)|].
    rewrite stored_partition, stored_offset. split; [done|]. unfold newest. lia.
  - pose proof (pw_oldest _ Hwf). simpl. lia.
  - pose proof (pw_committed _ Hwf). simpl. lia.
Qed.

Lemma appends_wf pms : ∀ P, partition_wf P →
  partition_wf (appends pms P) ∧ log P `prefix_of` log (appends pms P) ∧
  committed (appends pms P) = committed P ∧ oldest (appends pms P) = oldest P ∧ p_net (appends pms P) = p_net P.
Proof.
  unfold appends. induction pms as [|pm pms IH]; intros P Hwf; [done|]. cbn [foldl].
  destruct (IH (append pm P) (append_wf pm P Hwf)) as (Hwf' & Hlog & Hc & Ho & Hnet). split_and!; [done| |done..].
  etrans; [|exact Hlog]. by apply prefix_app_r.
Qed.

Lemma newest_prefix P P' : log P `prefix_of` log P' → newest P ≤ newest P'.
Proof. intros Hl%prefix_length. unfold newest. lia. Qed.

(** A session never starts before the committed offset. *)
Lemma start_range P start :
  partition_wf P → newConsumerGroupClaim P = Some start → Z.max 0 (committed P) ≤ start ≤ newest P.
Proof.
  intros Hwf. pose proof (pw_oldest _ Hwf). pose proof (pw_committed _ Hwf).
  unfold newConsumerGroupClaim, NextOffset, chooseStartingOffset, OffsetNewest, OffsetOldest.
  repeat (case_decide; try lia); intros [= <-]; lia.
Qed.

(** It starts there unless nothing was committed, or the record has expired. *)
Lemma start_committed P start :
  partition_wf P → newConsumerGroupClaim P = Some start → 0 ≤ committed P → oldest P ≤ committed P → start = committed P.
Proof.
  intros Hwf. pose proof (pw_committed _ Hwf). unfold newConsumerGroupClaim, NextOffset, chooseStartingOffset, OffsetNewest, OffsetOldest.
  repeat (case_decide; try lia); intros [= <-]; lia.
Qed.

Lemma start_oldest P start :
  partition_wf P → newConsumerGroupClaim P = Some start → initial = OffsetOldest → start ≤ Z.max (oldest P) (committed P).
Proof.
  intros Hwf. pose proof (pw_committed _ Hwf). unfold newConsumerGroupClaim, NextOffset, chooseStartingOffset, OffsetNewest, OffsetOldest.
  repeat (case_decide; try lia); intros [= <-]; lia.
Qed.

(** A group that has not committed anything starts at the end, by default. *)
Lemma start_newest P : initial = OffsetNewest → committed P < 0 → newConsumerGroupClaim P = Some (newest P).
Proof.
  intros -> Hc. unfold newConsumerGroupClaim, NextOffset, chooseStartingOffset.
  rewrite (decide_False (P := 0 ≤ committed P)) by lia. by rewrite decide_True.
Qed.

Lemma claimed_lookup start n P m :
  0 ≤ start → m ∈ claimed start n P ↔ ∃ i, log P !! i = Some m ∧ start ≤ Z.of_nat i < start + Z.of_nat n.
Proof.
  intros Hc. unfold claimed. rewrite elem_of_take. split.
  - intros (i & Hi & Hn). rewrite lookup_drop in Hi. exists (Z.to_nat start + i)%nat. split; [done|lia].
  - intros (i & Hi & Hn). exists (i - Z.to_nat start)%nat. split; [|lia].
    rewrite lookup_drop. by replace (Z.to_nat start + (i - Z.to_nat start))%nat with i by lia.
Qed.

Lemma session_offsets start n obj P :
  partition_wf P → 0 ≤ start →
  offsets (session_on start n obj P) !! q =
  Some (next_offset (committed P) (delivered (results q (claimed start n P) (session_SetReady q true (mkSession (mkWorld (p_net P) obj) {[q := committed P]} []))))).
Proof.
  intros Hwf Hs. unfold session_on, ConsumeClaim. rewrite (consume_messages_offsets (ready := cmh_ready c)).
  2:{ apply Forall_forall. intros m Hm. apply claimed_lookup in Hm as (i & Hi & _); [|done].
      by apply (pw_log _ Hwf) in Hi as [? _]. }
  rewrite decide_True by done. simpl. by rewrite lookup_singleton_eq.
Qed.

Lemma session_marked start n obj P marked :
  partition_wf P → 0 ≤ start → offsets (session_on start n obj P) !! q = Some marked →
  marked ≤ Z.min (start + Z.of_nat n) (newest P) `max` committed P.
Proof.
  intros Hwf Hs. rewrite session_offsets by done. intros [= <-].
  apply next_offset_le; [lia|]. apply Forall_forall. intros m Hm%elem_of_delivered.
  apply claimed_lookup in Hm as (i & Hi & ?); [|done].
  pose proof (lookup_lt_Some _ _ _ Hi). apply (pw_log _ Hwf) in Hi as [_ ->]. unfold newest. lia.
Qed.

Lemma partition_step_wf P gaps P' : partition_wf P → partition_step P gaps P' → partition_wf P'.
Proof.
  intros Hwf. destruct 1 as [pm P|o P Ho|pms start n obj cur marked P Hstart s Hm Hcur]; [by apply append_wf| |].
  - split; simpl; [apply (pw_log _ Hwf)| |apply (pw_committed _ Hwf)]. pose proof (pw_oldest _ Hwf). unfold newest in *. simpl. lia.
  - destruct (appends_wf pms P Hwf) as (Hwf1 & Hlog & Hc & _). apply newest_prefix in Hlog. split; simpl; [apply (pw_log _ Hwf1)| |].
    + pose proof (pw_oldest _ Hwf). unfold newest in *. simpl. lia.
    + pose proof (start_range _ _ Hwf Hstart). pose proof (session_marked start n obj (appends pms P) marked Hwf1 ltac:(lia) Hm).
      pose proof (pw_committed _ Hwf). unfold newest in *. simpl. lia.
Qed.

(** The steps only extend the log, and the requests sent on the network. *)
Lemma partition_step_grows u P gaps P' :
  subscriber_of = Some u → local_ok → partition_wf P → partition_step P gaps P' →
  log P `prefix_of` log P' ∧ sent (p_net P) `prefix_of` sent (p_net P') ∧ committed P ≤ committed P' ∧ oldest P ≤ oldest P'.
Proof.
  intros Hu Hlo Hwf. destruct 1 as [pm P|o P Ho|pms start n obj cur marked P Hstart s Hm Hcur]; simpl; split_and!; try done; try lia.
  - by apply prefix_app_r.
  - by apply appends_wf.
  - destruct (appends_wf pms P Hwf) as (_ & _ & _ & _ & Hnet). unfold s, session_on.
    destruct (claim_sends u (claimed start n (appends pms P)) (mkSession (mkWorld (p_net (appends pms P)) obj) {[q := committed (appends pms P)]} []) Hlo Hu)
      as (rss & Hs & _). simpl in Hs. rewrite Hs, Hnet. by apply prefix_app_r.
  - pose proof (start_range _ _ Hwf Hstart). lia.
Qed.

Lemma partition_run_grows u P gaps P' :
  subscriber_of = Some u → local_ok → partition_wf P → partition_run P gaps P' →
  partition_wf P' ∧ log P `prefix_of` log P' ∧ sent (p_net P) `prefix_of` sent (p_net P') ∧ committed P ≤ committed P' ∧ oldest P ≤ oldest P'.
Proof.
  intros Hu Hlo Hwf. induction 1 as [|P gaps P1 gaps' P' Hstep _ IH]; [done|].
  destruct (partition_step_grows u P gaps P1 Hu Hlo Hwf Hstep) as (Hl & Hs & Hc & Ho).
  destruct (IH (partition_step_wf _ _ _ Hwf Hstep)) as (Hwf' & Hl' & Hs' & Hc' & Ho').
  split_and!; [done|by etrans|by etrans|lia|lia].
Qed.

Lemma sent_to_prefix u rs rs' m : rs `prefix_of` rs' → sent_to u rs m → sent_to u rs' m.
Proof. intros [k ->] (rq & Hin & Hev). exists rq. split; [|done]. apply elem_of_app. by left. Qed.

(** [i] is in one of the gaps. *)
Definition left_out (gaps : list (Z * Z)) (i : Z) : Prop := ∃ a b, (a, b) ∈ gaps ∧ a ≤ i < b.

Lemma left_out_app gaps gaps' i : left_out (gaps ++ gaps') i ↔ left_out gaps i ∨ left_out gaps' i.
Proof.
  unfold left_out. setoid_rewrite elem_of_app. split.
  - intros (a & b & [Hin|Hin] & Hi); [left|right]; by exists a, b.
  - intros [(a & b & Hin & Hi)|(a & b & Hin & Hi)]; exists a, b; tauto.
Qed.

(** Every event the committed offset moved past was sent to the subscriber, or a session
    left it out. *)
Lemma offsets_passed_sent u P gaps P' :
  local_ok → subscriber_of = Some u → partition_wf P → partition_run P gaps P' →
  ∀ i m, log P' !! i = Some m → Z.max 0 (committed P) ≤ Z.of_nat i < committed P' → ¬ left_out gaps (Z.of_nat i) →
    ReadEncoding (NewMessageFromConsumerMessage m) ≠ EncodingUnknown → sent_to u (sent (p_net P')) m.
Proof.
  intros Hlo Hu Hwf Hrun. induction Hrun as [P|P gaps P1 gaps' P' Hstep Hrun IH]; intros i m Hi Hrange Hgap Henc; [lia|].
  rewrite left_out_app in Hgap. pose proof (partition_step_wf _ _ _ Hwf Hstep) as Hwf1.
  destruct (partition_run_grows u P1 gaps' P' Hu Hlo Hwf1 Hrun) as (_ & Hlog & Hsent & _ & _).
  destruct (decide (Z.max 0 (committed P1) ≤ Z.of_nat i)) as [Hge|Hlt]; [apply (IH Hwf1 i m); [done|lia|tauto|done]|].
  destruct Hstep as [pm P|o P Ho|pms start n obj cur marked P Hstart s Hm Hcur]; simpl in *; try lia.
  destruct (appends_wf pms P Hwf) as (Hwf2 & _ & Hc2 & _). pose proof (start_range _ _ Hwf Hstart) as Hsr.
  assert (Hs : start ≤ Z.of_nat i).
  { destruct (decide (start ≤ Z.of_nat i)); [done|]. exfalso. apply Hgap. left. exists (Z.max 0 (committed P)), start.
    split; [apply list_elem_of_here|lia]. }
  pose proof (session_marked start n obj (appends pms P) marked Hwf2 ltac:(lia) Hm) as Hmark.
  eapply sent_to_prefix; [exact Hsent|]. apply claim_sent_to; [done..| |done]. apply claimed_lookup; [lia|].
  assert (Hi1 : ∃ m', log (appends pms P) !! i = Some m') by (apply lookup_lt_is_Some_2; unfold newest in *; lia).
  destruct Hi1 as [m' Hm']. pose proof (prefix_lookup_Some _ _ _ _ Hm' Hlog) as Hi2. rewrite Hi in Hi2. injection Hi2 as <-.
  exists i. split; [done|]. lia.
Qed.

(** Nothing is left out once an offset is committed and as long as the records from it on
    do not expire, nor from the start by a group that starts at the oldest. *)
Lemma nothing_left_out u P gaps P' i :
  local_ok → subscriber_of = Some u → partition_wf P → partition_run P gaps P' →
  (0 ≤ committed P ∨ initial = OffsetOldest) → oldest P' ≤ Z.max 0 (committed P) → ¬ left_out gaps i.
Proof.
  intros Hlo Hu Hwf Hrun. induction Hrun as [P|P gaps P1 gaps' P' Hstep Hrun IH]; intros Hstart Hold.
  { by intros (a & b & Hin%elem_of_nil & _). }
  pose proof (partition_step_wf _ _ _ Hwf Hstep) as Hwf1.
  destruct (partition_step_grows u P gaps P1 Hu Hlo Hwf Hstep) as (_ & _ & Hc & Ho).
  destruct (partition_run_grows u P1 gaps' P' Hu Hlo Hwf1 Hrun) as (_ & _ & _ & _ & Ho').
  rewrite left_out_app. intros [Hgap|Hgap]; [|apply (IH Hwf1); [|lia|done]; destruct Hstart; [left; lia|by right]].
  destruct Hgap as (a & b & Hin & Hi). destruct Hstep as [pm P|o P Ho1|pms start n obj cur marked P Hs s Hm Hcur];
    [by apply elem_of_nil in Hin..|]. apply list_elem_of_singleton in Hin. injection Hin as -> ->. simpl in *.
  destruct Hstart as [Hp|Hinit].
  - pose proof (start_committed _ _ Hwf Hs Hp). lia.
  - pose proof (start_oldest _ _ Hwf Hs Hinit). lia.
Qed.

(** A session that was delivered the whole log without an error moves the offset
    to its end. *)
Lemma delivered_all msgs s :
  omap snd (results q msgs s) = [] → delivered (results q msgs s) = msgs.
Proof.
  revert s. induction msgs as [|m msgs IH]; intros s; [done|]. unfold delivered. simpl.
  destruct (cmh_Handle c m (world s)).1.2; simpl; [done|]. intros Hnone. f_equal. by apply IH.
Qed.

Lemma next_offset_last cur ms m : next_offset cur (ms ++ [m]) = Z.max (next_offset cur ms) (cm_Offset m + 1).
Proof. unfold next_offset. by rewrite foldl_app. Qed.

Lemma claimed_whole P start n :
  partition_wf P → 0 ≤ start < newest P → (length (log P) ≤ n)%nat →
  next_offset (committed P) (claimed start n P) = newest P.
Proof.
  intros Hwf Hs Hn. pose proof (pw_committed _ Hwf) as Hc. unfold claimed, newest in *. rewrite take_ge by (rewrite length_drop; lia).
  assert (Hlast : ∃ m, log P !! (length (log P) - 1)%nat = Some m) by (apply lookup_lt_is_Some_2; lia).
  destruct Hlast as [m Hm].
  assert (Hsplit : drop (Z.to_nat start) (log P) =
    take (length (log P) - 1 - Z.to_nat start) (drop (Z.to_nat start) (log P)) ++ [m]).
  { rewrite <-(take_drop (length (log P) - 1 - Z.to_nat start) (drop (Z.to_nat start) (log P))) at 1.
    f_equal. rewrite drop_drop. replace (_ + _)%nat with (length (log P) - 1)%nat by lia.
    rewrite (drop_S _ _ _ Hm). f_equal. apply drop_ge. lia. }
  rewrite Hsplit, next_offset_last. destruct (pw_log _ Hwf _ _ Hm) as [_ ->].
  assert (Hle : next_offset (committed P) (take (length (log P) - 1 - Z.to_nat start)
    (drop (Z.to_nat start) (log P))) ≤ Z.of_nat (length (log P))).
  { apply next_offset_le; [lia|]. apply Forall_forall. intros m' Hm'.
    apply (claimed_lookup start (length (log P) - 1 - Z.to_nat start)) in Hm' as (i & Hi & Hr); [|lia].
    destruct (pw_log _ Hwf _ _ Hi) as [_ ->]. pose proof (lookup_lt_Some _ _ _ Hi). lia. }
  lia.
Qed.

Lemma clean_session_marks start n obj P :
  partition_wf P → 0 ≤ start < newest P → (length (log P) ≤ n)%nat → errors (session_on start n obj P) = [] →
  offsets (session_on start n obj P) !! q = Some (newest P).
Proof.
  intros Hwf Hs Hn. rewrite session_offsets by (done || lia). unfold session_on, ConsumeClaim. rewrite consume_messages_errors.
  intros Hnone. simpl in Hnone. rewrite delivered_all by done. f_equal. by apply claimed_whole.
Qed.
End partition.

(** ** Properties *)
Section properties.
Context `{HttpClient, KafkaBinding, KafkaBroker}.

(** a session sends the events of its claim to the subscriber in the order of
    the log: each record adds its own requests to the network, none if it is no
    event, else at least one, the first of which carries the event to the
    subscriber; whatever the answers are. *)
Theorem claim_delivers_in_order (q : Z) (c : consumerMessageHandler) (start : Z) (n : nat) (obj : KafkaSubscription)
    (P : Partition) (u : URL) :
  local_ok → subscriber_of c = Some u →
  ∃ rss, sent (hw_net (world (session_on q c start n obj P))) = sent (p_net P) ++ mjoin rss ∧
    Forall2 (handled_as u) (claimed start n P) rss.
Proof. intros Hlo Hu. unfold session_on. by apply claim_sends. Qed.

(** C3: Delivery is at least once, from where the sessions start.  In every run of a
    partition, across any sessions of the consumer group, clean or cut short, committing all
    they marked, less or nothing, with records appended and expiring meanwhile: every record
    that is an event and that the committed offset has moved past was sent to the subscriber (provided
    requests can be built, [local_ok]), unless a session started beyond it; and no session does when the group
    has a commit, or starts at the oldest offset, and no record that it has not passed
    expires.  The committed offset stays within the log. *)
Theorem at_least_once (initial q : Z) (c : consumerMessageHandler) (u : URL) (P P' : Partition) (gaps : list (Z * Z)) :
  local_ok → subscriber_of c = Some u → partition_wf q P → partition_run initial q c P gaps P' →
  partition_wf q P' ∧
  (∀ i m, log P' !! i = Some m → Z.max 0 (committed P) ≤ Z.of_nat i < committed P' →
    ReadEncoding (NewMessageFromConsumerMessage m) ≠ EncodingUnknown →
    sent_to u (sent (p_net P')) m ∨ left_out gaps (Z.of_nat i)) ∧
  ((0 ≤ committed P ∨ initial = OffsetOldest) → oldest P' ≤ Z.max 0 (committed P) → ∀ i, ¬ left_out gaps i).
Proof.
  intros Hlo Hu Hwf Hrun. split_and!.
  - by eapply partition_run_grows.
  - intros i m Hi Hr Henc. assert (Hdec : left_out gaps (Z.of_nat i) ∨ ¬ left_out gaps (Z.of_nat i)).
    { destruct (decide (Exists (λ g, g.1 ≤ Z.of_nat i < g.2) gaps)) as [He|Hn]; [left|right].
      - apply Exists_exists in He as ([a b] & Hin & Hx). by exists a, b.
      - intros (a & b & Hin & Hx). apply Hn, Exists_exists. by exists (a, b). }
    destruct Hdec as [Hg|Hg]; [by right|left]. by eapply (offsets_passed_sent initial q c u P gaps P').
  - intros Hs Ho i. by eapply (nothing_left_out initial q c u P gaps P').
Qed.

(** a group catches up.  When a session that starts before the end of the log is delivered
    the rest of it and its handler reports no error, it may commit the end of the log, and
    then every event that was waiting has been sent to the subscriber. *)
Theorem clean_session_catches_up (initial q : Z) (c : consumerMessageHandler) (start : Z) (n : nat) (obj : KafkaSubscription)
    (P : Partition) (u : URL) :
  local_ok → subscriber_of c = Some u → partition_wf q P → newConsumerGroupClaim initial P = Some start → start < newest P →
  (length (log P) ≤ n)%nat → errors (session_on q c start n obj P) = [] →
  let P' := mkPartition (log P) (oldest P) (newest P) (hw_net (world (session_on q c start n obj P))) in
  partition_step initial q c P [(Z.max 0 (committed P), start)] P' ∧
  ∀ i m, log P !! i = Some m → start ≤ Z.of_nat i →
    ReadEncoding (NewMessageFromConsumerMessage m) ≠ EncodingUnknown → sent_to u (sent (p_net P')) m.
Proof.
  intros Hlo Hu Hwf Hstart Hlt Hn Herr P'. pose proof (start_range initial q P start Hwf Hstart) as Hr.
  assert (Hstep : partition_step initial q c P [(Z.max 0 (committed P), start)] P').
  { apply (step_session initial q c [] start n obj (newest P) (newest P) P Hstart); [|right; lia].
    apply clean_session_marks; [done|lia|done|done]. }
  split; [done|]. intros i m Hi Hci Henc. pose proof (lookup_lt_Some _ _ _ Hi).
  eapply (offsets_passed_sent initial q c u P _ P'); [done|done|done| |exact Hi| | |done].
  - apply (run_step initial q c P [(Z.max 0 (committed P), start)] P' [] P' Hstep). constructor.
  - unfold newest in *. simpl. lia.
  - intros (a & b & Hin%list_elem_of_singleton & Hx). injection Hin as -> ->. lia.
Qed.

(** The binding of events to Kafka records keeps the event [m]. *)
Definition event_kept `{KafkaProducer} (topic : string) (m : Message) : Prop :=
  ∀ value q o, WriteProducerMessage m = inr value →
    NewMessageFromConsumerMessage (stored (mkProducerMessage topic value) q o) =
    mkMessage (ReadEncoding m) (m_payload m) None.

End properties.

(** ** Witnesses *)
#[local] Instance ok_client : HttpClient := {|
  check_url _ := None;
  write_request _ _ := inr ∅;
  from_request _ := None;
  answer _ _ := inr (mkResponse 202 ∅ EncodingUnknown "" (inr ""));
  exp2_overflow _ := 0;
|}.
#[local] Instance one_binding : KafkaBinding := demo_binding.
#[local] Instance one_broker : KafkaBroker := {|
  stored pm q o := mkConsumerMessage (pm_Topic pm) q o (pm_value pm) [("ce_specversion", "1.0")];
  stored_partition _ _ _ := eq_refl;
  stored_offset _ _ _ := eq_refl;
|}.
#[local] Instance one_producer : KafkaProducer := demo_producer.

Definition served_dispatcher : KafkaDispatcher := (RegisterChannelHost (demo_config []) demo_dispatcher).2.
Definition one_handler : consumerMessageHandler :=
  mkHandler (demo_subscription "u1" "a") (groupID (mkNamespacedName "ns" "ch") "u1").
Definition one_message : ProducerMessage := mkProducerMessage "topic" "e".
Definition empty_log : Partition := mkPartition [] 0 0 (mkNet [] [] []).
Definition one_log : Partition := append 3 one_message empty_log.
Definition consumed_log : Partition :=
  mkPartition (log one_log) 0 1 (hw_net (world (session_on 3 one_handler 0 1 NewKafkaSubscription one_log))).

Lemma ok_local : local_ok.
Proof. split; [done|]. split; [by eexists|done]. Qed.

Lemma empty_log_wf : partition_wf 3 empty_log.
Proof. split; [|done|done]. intros i m Hi. simpl in Hi. by rewrite lookup_nil in Hi. Qed.

Lemma one_log_wf : partition_wf 3 one_log.
Proof. apply append_wf, empty_log_wf. Qed.

Lemma one_log_step : partition_step OffsetNewest 3 one_handler one_log [(0, 0)] consumed_log.
Proof. apply (step_session _ _ _ [] 0 1 NewKafkaSubscription 1 1 one_log); [done|by vm_compute|right; lia]. Qed.

Lemma one_log_consumed : partition_run OffsetNewest 3 one_handler one_log [(0, 0)] consumed_log.
Proof. apply (run_step _ _ _ _ [(0, 0)] _ [] _ one_log_step). constructor. Qed.

Lemma claim_delivers_in_order_witness :
  ∃ rss, sent (p_net consumed_log) = mjoin rss ∧ length rss = 1%nat.
Proof.
  destruct (claim_delivers_in_order 3 one_handler 0 1 NewKafkaSubscription one_log (http_url "a") ok_local eq_refl)
    as (rss & Hs & Hall).
  exists rss. split; [exact Hs|]. apply Forall2_length in Hall. exact (eq_sym Hall).
Defined.

Lemma at_least_once_witness :
  sent_to (http_url "a") (sent (p_net consumed_log)) (stored one_message 3 0).
Proof.
  destruct (at_least_once OffsetNewest 3 one_handler (http_url "a") one_log consumed_log [(0, 0)] ok_local eq_refl
    one_log_wf one_log_consumed) as (_ & Hsent & Hgap).
  destruct (Hsent 0%nat (stored one_message 3 0)) as [Hm|Hg]; [reflexivity|by vm_compute|by vm_compute|exact Hm|].
  exfalso. apply (Hgap ltac:(left; done) ltac:(done) 0). exact Hg.
Defined.

Lemma clean_session_catches_up_witness : partition_step OffsetNewest 3 one_handler one_log [(0, 0)] consumed_log.
Proof.
  apply (clean_session_catches_up OffsetNewest 3 one_handler 0 1 NewKafkaSubscription one_log (http_url "a") ok_local
    eq_refl one_log_wf); [reflexivity|reflexivity|by vm_compute|by vm_compute].
Defined.


(** ** The events a new group passes over *)
Definition uncommitted_log : Partition := append 3 one_message (mkPartition [] 0 (-1) (mkNet [] [] [])).
Definition passed_log : Partition :=
  let P := append 3 (mkProducerMessage "topic" "f") uncommitted_log in
  mkPartition (log P) 0 2 (hw_net (world (session_on 3 one_handler 1 1 NewKafkaSubscription P))).

(** The exception in C3 and C13 is real: with the default [Offsets.Initial], the first session of a group that is
    open, but has not committed on the partition, starts at the end of the log; the event that waits there is
    never sent, and the first commit, for the next event, moves past it. *)
Theorem new_group_passes_over :
  partition_run OffsetNewest 3 one_handler uncommitted_log [(0, 1)] passed_log ∧ committed passed_log = 2 ∧
  log passed_log !! 0%nat = Some (stored one_message 3 0) ∧
  ¬ sent_to (http_url "a") (sent (p_net passed_log)) (stored one_message 3 0).
Proof.
  split_and!; [|done|done|].
  - eapply (run_step _ _ _ _ [(0, 1)] _ []); [|constructor].
    apply (step_session OffsetNewest 3 one_handler [mkProducerMessage "topic" "f"] 1 1 NewKafkaSubscription 2 2 uncommitted_log);
      [by apply start_newest|by vm_compute|right; lia].
  - intros (rq & Hin & _ & Hmsg & _). vm_compute in Hin.
    apply list_elem_of_singleton in Hin. subst rq. by vm_compute in Hmsg.
Qed.
