(* ===== verification/DispatcherReconciler.v ===== *)
(** * DispatcherReconciler: from a channel object to its consumers

    Models [src/pkg/channel/kt/reconciler/dispatcher/kafkachannel.go] and
    [SubscriberSpecToFanoutConfig] of the fanout handler: the reconciler of the
    dispatcher pod translates a ready channel into a [ChannelConfig] and hands it
    to the dispatcher.  A nil pointer dereference is the result [Panic]. *)
From S2P Require Import Prelude GoStrings Conditions ApiTypes Channel Sender KafkaSubscription Dispatcher.

(** [fanout.SubscriberSpecToFanoutConfig]. *)
Definition SubscriberSpecToFanoutConfig `{PeriodParser} (sub : SubscriberSpec) : res string FanoutSubscription :=
  let destination := SubscriberURI sub in
  let reply := ReplyURI sub in
  let deadLetter := (Delivery sub ≫= DeadLetterSink) ≫= dst_URI in
  match Delivery sub with
  | None => Ok (mkFanout destination reply deadLetter None)
  | Some delivery =>
      match RetryConfigFromDeliverySpec delivery with
      | Ok rc => Ok (mkFanout destination reply deadLetter (Some rc))
      | Err err => Err err
      | Panic why => Panic why
      end
  end.

(** [c.Status.Address.URL.Host]: both pointers are dereferenced. *)
Definition address_host (st : KafkaTopicChannelStatus) : res string string :=
  match Address st with
  | None => Panic "c.Status.Address"
  | Some None => Panic "c.Status.Address.URL"
  | Some (Some url) => Ok (Host url)
  end.

(** The loop over the subscribers: the error of the conversion is dropped and its
    nil result dereferenced. *)
Fixpoint new_subscriptions `{PeriodParser} (subscribers : list SubscriberSpec) : res string (list Subscription) :=
  match subscribers with
  | [] => Ok []
  | source :: subscribers =>
      match SubscriberSpecToFanoutConfig source with
      | Err _ => Panic "*innerSub"
      | Panic why => Panic why
      | Ok innerSub =>
          match new_subscriptions subscribers with
          | Ok newSubs => Ok (mkSubscription (sub_UID source) innerSub :: newSubs)
          | r => r
          end
      end
  end.

Definition newConfigFromKafkaChannel `{PeriodParser} (c : KafkaTopicChannel) : res string ChannelConfig :=
  match address_host (ch_Status c) with
  | Ok host =>
      match new_subscriptions (Subscribers (Spec c)) with
      | Ok subs => Ok (mkChannelConfig (ch_Namespace c) (ch_Name c) host subs)
      | Err err => Err err
      | Panic why => Panic why
      end
  | Err err => Err err
  | Panic why => Panic why
  end.

Section reconciler.
Context `{KafkaCluster} `{GoRuntime} `{PeriodParser}.
Implicit Types (d : KafkaDispatcher) (kc : KafkaTopicChannel).

Definition channel_ready kc : bool := IsReady (mkCell (ch_Status kc) 0).

Definition syncChannel kc d : res string unit * KafkaDispatcher :=
  if negb (channel_ready kc) then (Ok (), d)
  else
    match newConfigFromKafkaChannel kc with
    | Panic why => (Panic why, d)
    | Err err => (Err err, d)
    | Ok config =>
        match RegisterChannelHost config d with
        | (Some err, d) => (Err err, d)
        | (None, d) =>
            match ReconcileConsumers config d with
            | (Some failed, d) =>
                (Err ("some kafka subscriptions failed to subscribe: " +:+
                      UpdateError_Error (ranges d) failed), ranged d)
            | (None, d) => (Ok (), d)
            end
        end
    end.

(** Leaders and followers do the same. *)
Definition dispatcher_ReconcileKind := syncChannel.
Definition dispatcher_ObserveKind := syncChannel.

(** The reconciler's [CleanupChannel], called when the channel is deleted. *)
Definition reconciler_CleanupChannel kc d : res string unit * KafkaDispatcher :=
  match address_host (ch_Status kc) with
  | Panic why => (Panic why, d)
  | Err err => (Err err, d)
  | Ok host =>
      match CleanupChannel (ch_Name kc) (ch_Namespace kc) host d with
      | (Some err, d) => (Err err, d)
      | (None, d) => (Ok (), d)
      end
  end.

(** The informer only passes the channel of this dispatcher on. *)
Definition NameAndNamespaceFilterFunc (name namespace : string) (obj : ObjectMeta) : bool :=
  bool_decide (Namespace obj = namespace ∧ Name obj = name).
Definition filterWithAnnotation (channelName systemNamespace : string) : ObjectMeta → bool :=
  NameAndNamespaceFilterFunc channelName systemNamespace.

(** The effect of the delete handler; its error is only logged. *)
Definition handle_delete (channelName systemNamespace : string) kc d : res string unit * KafkaDispatcher :=
  if filterWithAnnotation channelName systemNamespace (meta kc)
  then match reconciler_CleanupChannel kc d with
       | (Err _, d) => (Ok (), d)
       | r => r
       end
  else (Ok (), d).

(** The delivery specifications of all subscribers can be parsed. *)
Definition deliveries_ok kc : Prop :=
  Forall (λ s, ∀ spec policy delay err, Delivery s = Some spec → BackoffPolicy spec = Some policy →
                 BackoffDelay spec = Some delay → parse_period delay ≠ inl err) (Subscribers (Spec kc)).

(** What a subscriber becomes. *)
Definition consumed_as (s : SubscriberSpec) (sub : Subscription) : Prop :=
  s_UID sub = sub_UID s ∧ Subscriber (s_fanout sub) = SubscriberURI s ∧
  Reply (s_fanout sub) = ReplyURI s ∧
  DeadLetter (s_fanout sub) = (Delivery s ≫= DeadLetterSink) ≫= dst_URI ∧
  match Delivery s with
  | None => fo_RetryConfig (s_fanout sub) = None
  | Some spec => ∃ rc, RetryConfigFromDeliverySpec spec = Ok rc ∧ fo_RetryConfig (s_fanout sub) = Some rc
  end.

Lemma RetryConfigFromDeliverySpec_cases spec :
  (∃ rc, RetryConfigFromDeliverySpec spec = Ok rc ∧
     ∀ policy delay err, BackoffPolicy spec = Some policy → BackoffDelay spec = Some delay →
       parse_period delay ≠ inl err) ∨
  (∃ policy delay err, BackoffPolicy spec = Some policy ∧ BackoffDelay spec = Some delay ∧
     parse_period delay = inl err ∧ ∃ e, RetryConfigFromDeliverySpec spec = Err e).
Proof.
  unfold RetryConfigFromDeliverySpec.
  destruct (BackoffPolicy spec) as [policy|], (BackoffDelay spec) as [delay|];
    try (left; eexists; split; [done|]; by intros).
  destruct (parse_period delay) as [err|z] eqn:E; [right|left].
  - exists policy, delay, err. split_and!; eauto.
  - eexists. split; [done|]. intros ? ? err _ [= <-]. by rewrite E.
Qed.

Lemma SubscriberSpecToFanoutConfig_cases s :
  (∃ fo, SubscriberSpecToFanoutConfig s = Ok fo ∧ consumed_as s (mkSubscription (sub_UID s) fo) ∧
     ∀ spec policy delay err, Delivery s = Some spec → BackoffPolicy spec = Some policy →
       BackoffDelay spec = Some delay → parse_period delay ≠ inl err) ∨
  (∃ spec policy delay err, Delivery s = Some spec ∧ BackoffPolicy spec = Some policy ∧
     BackoffDelay spec = Some delay ∧ parse_period delay = inl err ∧
     ∃ e, SubscriberSpecToFanoutConfig s = Err e).
Proof.
  unfold SubscriberSpecToFanoutConfig, consumed_as. destruct (Delivery s) as [spec|]; simpl.
  - destruct (RetryConfigFromDeliverySpec_cases spec)
      as [(rc & Hrc & Hok)|(policy & delay & err & ? & ? & ? & e & He)].
    + left. rewrite Hrc. eexists. split; [done|]. simpl. split; [eauto 10|].
      intros ? ? ? ? [= <-]. apply Hok.
    + right. rewrite He. exists spec, policy, delay, err. eauto 10.
  - left. eexists. split; [done|]. simpl. auto 10.
Qed.

(** The conversion of the subscribers panics exactly for a bad delivery. *)
Lemma new_subscriptions_spec ss :
  (∃ subs, new_subscriptions ss = Ok subs ∧ Forall2 consumed_as ss subs) ∨
  (new_subscriptions ss = Panic "*innerSub").
Proof.
  induction ss as [|s ss IH]; [left; by exists []|]. simpl.
  destruct (SubscriberSpecToFanoutConfig_cases s)
    as [(fo & -> & Hs & _)|(spec & policy & delay & err & _ & _ & _ & _ & e & ->)]; [|by right].
  destruct IH as [(subs & -> & Hall)| ->]; [left|by right].
  eexists. split; [done|]. by constructor.
Qed.

Lemma new_subscriptions_ok ss :
  (∃ subs, new_subscriptions ss = Ok subs) ↔
  Forall (λ s, ∀ spec policy delay err, Delivery s = Some spec → BackoffPolicy spec = Some policy →
                 BackoffDelay spec = Some delay → parse_period delay ≠ inl err) ss.
Proof.
  induction ss as [|s ss IH]; simpl.
  { split; [constructor|by eexists]. }
  rewrite Forall_cons, <-IH.
  destruct (SubscriberSpecToFanoutConfig_cases s)
    as [(fo & -> & _ & Hok)|(spec & policy & delay & err & Hd & Hp & Hb & Herr & e & ->)].
  - destruct (new_subscriptions ss) as [subs| |]; [naive_solver|naive_solver|naive_solver].
  - split; [by intros [??]|]. intros [Hok _]. by destruct (Hok _ _ _ err Hd Hp Hb).
Qed.

Lemma new_subscriptions_uids ss subs :
  Forall2 consumed_as ss subs → s_UID <$> subs = sub_UID <$> ss.
Proof.
  intros Hall. induction Hall as [|s sub ss subs [Hs _] _ IH]; [done|].
  by rewrite !fmap_cons, IH, Hs.
Qed.
End reconciler.

Section sync.
Context `{KafkaCluster} `{GoRuntime} `{PeriodParser}.
Implicit Types (d : KafkaDispatcher) (kc : KafkaTopicChannel).

(** The dispatcher consumes [A'] after it consumed [A] and was asked for the subscriptions [subs] of [ref]: a
    subscription that it knows is kept as it is, one of the channel that is not among
    [subs] is gone, a new one is consumed unless its group [failed] to start. *)
Definition resubscribed (ref : NamespacedName) (subs : list Subscription) (failed : gset string) (A A' : Consumed) : Prop :=
  ∀ uid, A' !! uid =
    match A !! uid with
    | Some (ref', sub) => if decide (ref' = ref ∧ uid ∉ s_UID <$> subs) then None else Some (ref', sub)
    | None => if decide (uid ∈ failed) then None else pair ref <$> wanted subs !! uid
    end.

Lemma spec_reconcile_resubscribed ref subs failed A :
  resubscribed ref subs failed A (spec_reconcile ref (wanted subs) failed A).
Proof.
  intros uid. rewrite spec_reconcile_lookup.
  assert (Hdom : uid ∈ dom (wanted subs) ↔ uid ∈ s_UID <$> subs) by (by rewrite dom_wanted, elem_of_list_to_set).
  destruct (A !! uid) as [[ref' sub]|]; [|done].
  destruct (decide (ref' = ref ∧ uid ∉ dom (wanted subs))) as [[-> Hn]|Hn].
  - rewrite (decide_True (P := ref = ref ∧ uid ∉ s_UID <$> subs)) by (split; [done|by rewrite <-Hdom]).
    apply not_elem_of_dom in Hn. rewrite Hn. by destruct (decide (uid ∈ failed)).
  - rewrite decide_False; [done|]. by rewrite <-Hdom.
Qed.

(** The host of the channel resolves to it and its subscribers are consumed, but for the [failed] ones. *)
Definition synced kc d A (failed : gset string) d' : Prop :=
  let ref := mkNamespacedName (ch_Namespace kc) (ch_Name kc) in
  ∃ url subs A', Address (ch_Status kc) = Some (Some url) ∧
    Forall2 consumed_as (Subscribers (Spec kc)) subs ∧
    getChannelReferenceFromHost (Host url) d' = Ok (mkChannelReference (ch_Namespace kc) (ch_Name kc)) ∧
    represents d' A' ∧ resubscribed ref subs failed A A'.

Section outcomes.
Context kc d A (HA : represents d A)
  (Hun : ∀ uid ref sub, A !! uid = Some (ref, sub) → uid ∈ (sub_UID <$> Subscribers (Spec kc)) →
     ref = mkNamespacedName (ch_Namespace kc) (ch_Name kc)).

(** The dispatcher, asked for a configuration whose host is not another channel's. *)
Lemma config_outcome url subs d1 err d2 (config := mkChannelConfig (ch_Namespace kc) (ch_Name kc) (Host url) subs) :
  Forall2 consumed_as (Subscribers (Spec kc)) subs →
  RegisterChannelHost config d = (None, d1) → ReconcileConsumers config d1 = (err, d2) →
  getChannelReferenceFromHost (Host url) d2 = Ok (mkChannelReference (ch_Namespace kc) (ch_Name kc)) ∧
  ∃ failed, err = update_error failed ∧ cluster_failures (channel_of config) failed ∧
    dom failed ⊆ list_to_set (s_UID <$> subs) ∖ dom A ∧
    represents d2 (spec_reconcile (channel_of config) (wanted subs) (dom failed) A).
Proof.
  intros Hall Hreg Hrec.
  assert (Hh : hostToChannelMap d1 !! Host url = Some (mkChannelReference (ch_Namespace kc) (ch_Name kc))).
  { revert Hreg. unfold RegisterChannelHost. simpl.
    destruct (hostToChannelMap d !! Host url) as [[ns n]|] eqn:E.
    - case_bool_decide as Heq; intros [= <-]. simpl in Heq. destruct Heq as [-> ->]. done.
    - intros [= <-]. simpl. by rewrite lookup_insert_eq. }
  eapply ReconcileConsumers_represents in Hrec as (Hhost & failed & Herr & Hcl & Hdom & HA');
    [|by eapply RegisterChannelHost_represents|].
  2:{ intros uid ref sub Hx Hin. eapply Hun; [exact Hx|]. by erewrite <-new_subscriptions_uids. }
  split; [unfold getChannelReferenceFromHost; by rewrite Hhost, Hh|].
  exists failed. rewrite <-dom_wanted. done.
Qed.

Lemma syncChannel_ok d' :
  syncChannel kc d = (Ok (), d') → channel_ready kc = true →
  ∃ url subs, Address (ch_Status kc) = Some (Some url) ∧
    Forall2 consumed_as (Subscribers (Spec kc)) subs ∧
    getChannelReferenceFromHost (Host url) d' = Ok (mkChannelReference (ch_Namespace kc) (ch_Name kc)) ∧
    represents d' (spec_reconcile (mkNamespacedName (ch_Namespace kc) (ch_Name kc)) (wanted subs) ∅ A).
Proof.
  intros Hsync Hready. unfold syncChannel in Hsync. rewrite Hready in Hsync. simpl in Hsync.
  unfold newConfigFromKafkaChannel, address_host in Hsync.
  destruct (Address (ch_Status kc)) as [[url|]|] eqn:Haddr; simpl in Hsync; [|discriminate..].
  destruct (new_subscriptions_spec (Subscribers (Spec kc))) as [(subs & Hsubs & Hall)|Hp];
    [rewrite Hsubs in Hsync|by rewrite Hp in Hsync].
  destruct (RegisterChannelHost _ d) as [[err|] d1] eqn:Hreg; [discriminate|].
  destruct (ReconcileConsumers _ d1) as [[failed|] d2] eqn:Hrec; [discriminate|].
  injection Hsync as <-. exists url, subs.
  destruct (config_outcome url subs d1 None d2 Hall Hreg Hrec) as (Hhost & failed & Hnone & _ & _ & HA').
  split_and!; [done|done|done|]. assert (failed = ∅) as ->.
  { unfold update_error in Hnone. destruct (decide (size failed = 0)) as [Hz|]; [|done].
    by apply map_size_empty_iff in Hz. }
  by rewrite dom_empty_L in HA'.
Qed.

Lemma syncChannel_err err d' :
  syncChannel kc d = (Err err, d') → channel_ready kc = true →
  (d' = d ∧ ∃ url old, Address (ch_Status kc) = Some (Some url) ∧
     getChannelReferenceFromHost (Host url) d = Ok old ∧ old ≠ mkChannelReference (ch_Namespace kc) (ch_Name kc)) ∨
  ∃ failed, failed ≠ ∅ ∧ cluster_failures (mkNamespacedName (ch_Namespace kc) (ch_Name kc)) failed ∧
    dom failed ⊆ list_to_set (sub_UID <$> Subscribers (Spec kc)) ∖ dom A ∧ synced kc d A (dom failed) d'.
Proof.
  intros Hsync Hready. unfold syncChannel in Hsync. rewrite Hready in Hsync. simpl in Hsync.
  unfold newConfigFromKafkaChannel, address_host in Hsync.
  destruct (Address (ch_Status kc)) as [[url|]|] eqn:Haddr; simpl in Hsync; [|discriminate..].
  destruct (new_subscriptions_spec (Subscribers (Spec kc))) as [(subs & Hsubs & Hall)|Hp];
    [rewrite Hsubs in Hsync|by rewrite Hp in Hsync].
  destruct (RegisterChannelHost _ d) as [[e|] d1] eqn:Hreg.
  - injection Hsync as _ <-. left. revert Hreg. unfold RegisterChannelHost. simpl.
    destruct (hostToChannelMap d !! Host url) as [old|] eqn:E; [|done]. case_bool_decide as Heq; [done|].
    intros [= _ <-]. split; [done|]. exists url, old. unfold getChannelReferenceFromHost. rewrite E.
    split_and!; [done|done|]. intros ->. by apply Heq.
  - destruct (ReconcileConsumers _ d1) as [[failed|] d2] eqn:Hrec; [|discriminate]. injection Hsync as _ <-. right.
    destruct (config_outcome url subs d1 (Some failed) d2 Hall Hreg Hrec) as (Hhost & failed' & Hsome & Hcl & Hdom & HA').
    exists failed'. unfold update_error in Hsome. destruct (decide (size failed' = 0)) as [|Hz]; [done|].
    split; [by rewrite <-map_size_empty_iff|]. split; [exact Hcl|].
    split; [by rewrite <-(new_subscriptions_uids _ _ Hall)|].
    exists url, subs, (spec_reconcile (channel_of (mkChannelConfig (ch_Namespace kc) (ch_Name kc) (Host url) subs)) (wanted subs) (dom failed') A).
    split_and!; [done|done|exact Hhost|by apply represents_ranged|apply spec_reconcile_resubscribed].
Qed.

Lemma syncChannel_panic why d' :
  syncChannel kc d = (Panic why, d') → channel_ready kc = true →
  d' = d ∧ ((∀ url, Address (ch_Status kc) ≠ Some (Some url)) ∨ ¬ deliveries_ok kc).
Proof.
  intros Hsync Hready. unfold syncChannel in Hsync. rewrite Hready in Hsync. simpl in Hsync.
  unfold newConfigFromKafkaChannel, address_host in Hsync.
  destruct (Address (ch_Status kc)) as [[url|]|] eqn:Haddr; simpl in Hsync; [|injection Hsync as _ <-; split; [done|by left]..].
  unfold deliveries_ok. rewrite <-new_subscriptions_ok.
  destruct (new_subscriptions_spec (Subscribers (Spec kc))) as [(subs & Hsubs & Hall)|Hp].
  - rewrite Hsubs in Hsync. destruct (RegisterChannelHost _ d) as [[e|] d1]; [done|].
    by destruct (ReconcileConsumers _ d1) as [[failed|] d2].
  - rewrite Hp in *. injection Hsync as _ <-. split; [done|]. right. by intros [??].
Qed.
End outcomes.
End sync.

(** ** Properties *)
Section properties.
Context `{KafkaCluster} `{GoRuntime} `{PeriodParser}.
Implicit Types (d : KafkaDispatcher) (kc : KafkaTopicChannel).

(** C18: every outcome of a sync.  A channel that is not ready changes nothing.  When syncing a ready one
    succeeds, its host resolves to it and the dispatcher consumes one subscription per
    subscriber of the channel: those it already knew by their UID are as they were, also when their specification
    has changed, each new one has the subscriber's URIs, dead letter sink and retry configuration; subscriptions
    of the channel that it has no more are gone, and those of other channels untouched.  It fails
    either since the host is another channel's, and then nothing has changed, or after all of this but for the new
    subscriptions whose groups the cluster refused.  It panics, with nothing changed, only without an
    address or with a delivery that cannot be parsed. *)
Theorem syncChannel_spec kc d A r d' :
  represents d A → syncChannel kc d = (r, d') →
  (∀ uid ref sub, A !! uid = Some (ref, sub) → uid ∈ (sub_UID <$> Subscribers (Spec kc)) →
     ref = mkNamespacedName (ch_Namespace kc) (ch_Name kc)) →
  if channel_ready kc then
    match r with
    | Ok () => synced kc d A ∅ d'
    | Err _ =>
        (d' = d ∧ ∃ url old, Address (ch_Status kc) = Some (Some url) ∧
           getChannelReferenceFromHost (Host url) d = Ok old ∧ old ≠ mkChannelReference (ch_Namespace kc) (ch_Name kc)) ∨
        ∃ failed, failed ≠ ∅ ∧ cluster_failures (mkNamespacedName (ch_Namespace kc) (ch_Name kc)) failed ∧
          dom failed ⊆ list_to_set (sub_UID <$> Subscribers (Spec kc)) ∖ dom A ∧ synced kc d A (dom failed) d'
    | Panic _ => d' = d ∧ ((∀ url, Address (ch_Status kc) ≠ Some (Some url)) ∨ ¬ deliveries_ok kc)
    end
  else r = Ok () ∧ d' = d.
Proof.
  intros HA Hsync Hun. destruct (channel_ready kc) eqn:Hr.
  2:{ unfold syncChannel in Hsync. rewrite Hr in Hsync. by injection Hsync. }
  destruct r as [[]|err|why].
  - destruct (syncChannel_ok kc d A HA Hun d' Hsync Hr) as (url & subs & ? & ? & ? & ?).
    eexists url, subs, _. split_and!; [done..|apply spec_reconcile_resubscribed].
  - by eapply syncChannel_err.
  - by eapply syncChannel_panic.
Qed.

(** For a channel whose status the lifecycle methods produced, syncing panics
    exactly when the channel is ready and the backoff delay of a subscriber's
    delivery cannot be parsed: the ready status guarantees the address, but
    nothing validates the delay before its error is ignored. *)
Theorem syncChannel_panics_iff kc d n cs :
  rtc lifecycle_step (fresh n) cs → status cs = ch_Status kc →
  ((∃ why d', syncChannel kc d = (Panic why, d')) ↔ channel_ready kc = true ∧ ¬ deliveries_ok kc).
Proof.
  intros Hreach Hst. unfold syncChannel, deliveries_ok. rewrite <-new_subscriptions_ok.
  destruct (channel_ready kc) eqn:Hr; simpl; [|by split; [intros (? & ? & ?)|intros [? _]]].
  assert (Haddr : addressed cs).
  { apply ready_status; [by eapply reachable_inv|]. revert Hr. unfold channel_ready. by rewrite <-Hst. }
  unfold newConfigFromKafkaChannel, address_host. destruct Haddr as [url Hurl]. rewrite Hst in Hurl.
  rewrite Hurl. destruct (new_subscriptions_spec (Subscribers (Spec kc))) as [(subs & -> & _)| ->].
  - split; [|intros [_ Hn]; destruct Hn; eauto]. intros (why & d' & Heq). exfalso. revert Heq.
    destruct (RegisterChannelHost _ _) as [[?|] d1]; [done|]. by destruct (ReconcileConsumers _ d1) as [[]].
  - split; [|eauto]. intros _. split; [done|]. by intros [??].
Qed.

(** Deleting the channel of this dispatcher panics exactly when it never got
    an address; deleting any other channel does nothing. *)
Theorem handle_delete_spec channelName systemNamespace kc d :
  ((∃ why d', handle_delete channelName systemNamespace kc d = (Panic why, d')) ↔
     ch_Namespace kc = systemNamespace ∧ ch_Name kc = channelName ∧
     ¬ ∃ url, Address (ch_Status kc) = Some (Some url)) ∧
  (ch_Namespace kc ≠ systemNamespace ∨ ch_Name kc ≠ channelName →
     handle_delete channelName systemNamespace kc d = (Ok (), d)).
Proof.
  unfold handle_delete, filterWithAnnotation, NameAndNamespaceFilterFunc, ch_Namespace, ch_Name.
  case_bool_decide as Hf; [|split; [|done]; split; [by intros (? & ? & ?)|naive_solver]].
  split; [|naive_solver]. unfold reconciler_CleanupChannel, address_host.
  destruct (Address (ch_Status kc)) as [[url|]|].
  - split; [|intros (_ & _ & Hn); destruct Hn; eauto]. intros (why & d' & Heq). exfalso.
    revert Heq. by destruct (CleanupChannel _ _ _ _) as [[]].
  - split; [|eauto]. intros _. split_and!; [apply Hf|apply Hf|by intros [??]].
  - split; [|eauto]. intros _. split_and!; [apply Hf|apply Hf|by intros [??]].
Qed.
End properties.

(** ** Witnesses *)
Section demo.
#[local] Existing Instance Dispatcher.demo_runtime.
#[local] Existing Instance demo_cluster.
#[local] Existing Instance demo_parser.

Definition demo_subscriber (uid : string) (delay : option string) : SubscriberSpec :=
  mkSubscriberSpec uid 1 (Some (http_url "sub")) None
    (Some (mkDeliverySpec None (Some 3%Z) (Some "exponential") delay)).
Definition demo_channel (subscribers : list SubscriberSpec) : KafkaTopicChannel :=
  mkChannel (new_meta "ch" "ns" None [])
    (mkSpec 1 1 [] (Channel.mkNet (mkSASL false None None None) (mkTLS false None None None)) "topic" subscribers None)
    (status demo_status).

Definition demo_synced : KafkaDispatcher :=
  (syncChannel (demo_channel [demo_subscriber "u1" (Some "PT1S")]) (empty_dispatcher "topic")).2.

Lemma demo_synced_eq :
  syncChannel (demo_channel [demo_subscriber "u1" (Some "PT1S")]) (empty_dispatcher "topic") = (Ok (), demo_synced).
Proof. vm_compute. reflexivity. Qed.

Lemma demo_channel_ready subscribers : channel_ready (demo_channel subscribers) = true.
Proof. vm_compute. reflexivity. Qed.

Lemma syncChannel_spec_witness :
  ∃ url, Address (status demo_status) = Some (Some url) ∧
    getChannelReferenceFromHost (Host url) demo_synced = Ok (mkChannelReference "ns" "ch").
Proof.
  pose proof (syncChannel_spec (demo_channel [demo_subscriber "u1" (Some "PT1S")]) (empty_dispatcher "topic") ∅
    (Ok ()) demo_synced (represents_empty "topic") demo_synced_eq
    (λ uid ref sub Hx _, ltac:(by rewrite lookup_empty in Hx))) as Hs.
  rewrite demo_channel_ready in Hs. destruct Hs as (url & subs & A' & Hurl & _ & Hhost & _).
  exists url. exact (conj Hurl Hhost).
Defined.

Lemma syncChannel_panics_iff_witness :
  ∃ why d', syncChannel (demo_channel [demo_subscriber "u1" (Some "soon")]) (empty_dispatcher "topic") = (Panic why, d').
Proof.
  apply (syncChannel_panics_iff (demo_channel [demo_subscriber "u1" (Some "soon")]) (empty_dispatcher "topic")
    0 demo_status demo_status_reachable eq_refl).
  split; [vm_compute; reflexivity|]. intros Hok. apply Forall_cons in Hok as [Hok _].
  by apply (Hok _ "exponential" "soon" "not a period" eq_refl eq_refl eq_refl).
Defined.
End demo.
