(* ===== verification/Prober.v ===== *)
(** * Prober: when is a subscription ready?

    Models [src/pkg/channel/kt/status/status.go], the lister of
    [reconciler/controller/lister.go] and [Do] of
    [vendor/knative.dev/networking/pkg/prober].

    A [targetState] is a location of [states]; a probe is the work item of one
    pod with its [podState] and lives in [probes] (the items of one subscription
    have distinct IPs, so that every pod has one item).  A cancelled context is
    a flag: a probe's context is done when its pod, its subscription or the
    context of its IP was cancelled.

    The operations are functions, as they act when nothing comes between.  In the code
    much does: [mu] covers the accesses to [targetStates] and [podContexts] only,
    [IsReady] checks, ejects and probes without it, [RefreshPodProbing] lets go of it around
    [probeTarget], and the workers never take it to check a state.  So a run ([prober_step])
    is made of the [piece]s of the calls, their single accesses to what they share, in any order and
    with any local variables, which includes every interleaving; that the whole calls are
    made of pieces is proved ([IsReady_pieces], [refresh_pieces]).  The queue
    and the workers that the items go through are in [ProbeWorkers]. *)
From S2P Require Import Prelude GoStrings ApiTypes Url Channel.
Local Open Scope Z_scope.

(** ** State *)
Record targetState := mkTargetState {
  ts_sub : SubscriberSpec;
  ts_ch : KafkaTopicChannel;
  pendingCount : Z;
  readyPartitions : gset Z;
  probedPods : gset string;
  ts_ready : bool;
  ts_cancelled : bool;
}.

Record podState := mkPodState { pod_pendingCount : Z; pod_cancelled : bool }.

Record workItem := mkWorkItem {
  wi_targetStates : nat;
  wi_podState : podState;
  wi_ipContext : nat;
  wi_url : URL;
  wi_podIP : string;
  wi_podPort : string;
}.

Record ProbeTarget := mkProbeTarget { PodIPs : gset string; PodPort : string; pt_URL : URL }.

Record Prober := mkProber {
  targetStates : gmap string nat;
  podContexts : gmap string nat;
  workQueue : gset nat;
  (** the heap, the cancelled IP contexts, and the calls of [readyCallback] *)
  states : gmap nat targetState;
  probes : gmap nat workItem;
  cancelled : gset nat;
  fresh_id : nat;
  callbacks : list (KafkaTopicChannel * SubscriberSpec);
}.

Definition NewProber : Prober := mkProber ∅ ∅ ∅ ∅ ∅ ∅ 0 [].

(** Field updates. *)
Definition with_states (m : Prober) s :=
  mkProber (targetStates m) (podContexts m) (workQueue m) s (probes m) (cancelled m) (fresh_id m) (callbacks m).
Definition with_targetStates (m : Prober) t :=
  mkProber t (podContexts m) (workQueue m) (states m) (probes m) (cancelled m) (fresh_id m) (callbacks m).
Definition with_probes (m : Prober) p :=
  mkProber (targetStates m) (podContexts m) (workQueue m) (states m) p (cancelled m) (fresh_id m) (callbacks m).
Definition with_queue (m : Prober) q :=
  mkProber (targetStates m) (podContexts m) q (states m) (probes m) (cancelled m) (fresh_id m) (callbacks m).
Definition called (m : Prober) c :=
  mkProber (targetStates m) (podContexts m) (workQueue m) (states m) (probes m) (cancelled m) (fresh_id m)
    (callbacks m ++ [c]).

Definition set_ready (b : bool) (s : targetState) : targetState :=
  mkTargetState (ts_sub s) (ts_ch s) (pendingCount s) (readyPartitions s) (probedPods s) b (ts_cancelled s).
Definition set_cancelled (s : targetState) : targetState :=
  mkTargetState (ts_sub s) (ts_ch s) (pendingCount s) (readyPartitions s) (probedPods s) (ts_ready s) true.
Definition add_partitions (ps : list Z) (s : targetState) : targetState :=
  mkTargetState (ts_sub s) (ts_ch s) (pendingCount s) (list_to_set ps ∪ readyPartitions s) (probedPods s)
    (ts_ready s) (ts_cancelled s).
Definition dec_pending (s : targetState) : targetState :=
  mkTargetState (ts_sub s) (ts_ch s) (pendingCount s - 1) (readyPartitions s) (probedPods s)
    (ts_ready s) (ts_cancelled s).
Definition with_podState (p : podState) (w : workItem) : workItem :=
  mkWorkItem (wi_targetStates w) p (wi_ipContext w) (wi_url w) (wi_podIP w) (wi_podPort w).

(** ** Listing the targets ([lister.go]) *)

(** [url.Parse] of ["http://<name>-dispatcher.<ns>/<ns>/<name>"]. *)
Definition probe_url (c : KafkaTopicChannel) : URL :=
  {| Scheme := "http"; Host := ch_Name c +:+ "-dispatcher." +:+ ch_Namespace c;
     Path := "/" +:+ ch_Namespace c +:+ "/" +:+ ch_Name c; RawQuery := ""; Fragment := "" |}.

Definition probe_text (c : KafkaTopicChannel) : string :=
  "http://" +:+ (ch_Name c +:+ ("-dispatcher." +:+ (ch_Namespace c +:+ ("/" +:+ (ch_Namespace c +:+ ("/" +:+ ch_Name c)))))).

(** [get] is the endpoints lister. *)
Definition ListProbeTargets (get : string → string → string + Endpoints) (c : KafkaTopicChannel) :
    string + ProbeTarget :=
  match get (ch_Namespace c) (ch_Name c +:+ "-dispatcher") with
  | inl err => inl ("failed to get internal service: " +:+ err)
  | inr eps =>
      let readyIPs := concat (ep_Subsets eps) in
      if decide (length readyIPs = 0%nat) then inl "no gateway pods available"
      else inr (mkProbeTarget (list_to_set readyIPs) "8081" (probe_url c))
  end.

(** ** The URL of a probe *)

(** The bytes of the names of the API server. *)
Definition name_byte (c : Ascii.ascii) : bool := is_lower c || is_num c || one_of "-." c.
Definition api_name (s : string) : Prop := s ≠ "" ∧ forallb name_byte (chars s) = true.

Lemma name_bytes s c : api_name s → c ∈ chars s → name_byte c = true.
Proof. intros [_ Hs] Hc. rewrite List.forallb_forall in Hs. apply Hs. by apply list_elem_of_In. Qed.

Lemma name_byte_plain mode x : name_byte x = true → shouldEscape mode x = false.
Proof.
  intros Hx. assert (H : implb (name_byte x) (negb (shouldEscape mode x)) = true)
    by (clear Hx; revert x; destruct mode; apply forall_ascii; vm_compute; reflexivity).
  rewrite Hx in H. by apply negb_true_iff.
Qed.

Lemma escape_plain mode s : (∀ c, c ∈ chars s → shouldEscape mode c = false) → escape mode s = s.
Proof.
  induction s as [|c s IH]; [done|]. intros Hs. cbn [escape]. rewrite Hs by left. f_equal. apply IH. intros c' Hc'. apply Hs. by right.
Qed.

Lemma optional_port_none h : (∀ c, c ∈ chars h → name_byte c = true) → optional_port h = true.
Proof.
  induction h as [|c h IH]; [done|]. intros Hh. cbn [optional_port].
  rewrite decide_False by (intros Hin; by specialize (Hh _ (list_elem_of_further _ _ _ Hin))).
  rewrite decide_False by (intros ->; by specialize (Hh _ (list_elem_of_here _ _))). apply IH. intros c' ?. apply Hh. by right.
Qed.

Section probe_url.
Context (c : KafkaTopicChannel) (name : api_name (ch_Name c)) (namespace : api_name (ch_Namespace c)).

Lemma probe_host_bytes x : x ∈ chars (Host (probe_url c)) → name_byte x = true.
Proof.
  cbn [Host probe_url]. rewrite !chars_append, !elem_of_app.
  intros [?|[Hx|?]]; [by apply (name_bytes (ch_Name c))| |by apply (name_bytes (ch_Namespace c))].
  revert x Hx. apply Forall_forall. by repeat constructor.
Qed.

Lemma probe_url_well_formed : well_formed (probe_url c).
Proof.
  split; [done| |right; by apply HasPrefix_cons; eexists|done]. split_and!.
  - destruct name. cbn [Host probe_url]. by destruct (ch_Name c).
  - unfold plain_host. rewrite List.forallb_forall. intros x Hx%list_elem_of_In%probe_host_bytes.
    by rewrite (name_byte_plain _ _ Hx).
  - apply not_true_iff_false. intros [t Ht]%HasPrefix_cons. pose proof probe_host_bytes as Hb. rewrite Ht in Hb.
    by specialize (Hb _ (list_elem_of_here _ _)).
  - apply optional_port_none, probe_host_bytes.
Qed.

Lemma probe_url_String : url_String (probe_url c) = probe_text c.
Proof.
  rewrite (url_String_wf _ probe_url_well_formed), (escape_plain encodePath (Path (probe_url c))).
  - cbn. unfold probe_text. rewrite !append_nil_r, !append_assoc. reflexivity.
  - intros x. cbn [Path probe_url]. rewrite !chars_append, !elem_of_app. cbn [chars]. rewrite !list_elem_of_singleton.
    intros [->|[?|[->|?]]]; [done| |done|]; eapply name_byte_plain;
      [by apply (name_bytes (ch_Namespace c))|by apply (name_bytes (ch_Name c))].
Qed.
End probe_url.

(** ** Operations *)

(** [checkReadiness] of one state: its verdict and the state after it. *)
Definition checkReadiness (s : targetState) : bool * targetState :=
  let s := if ts_ready s then s
           else set_ready (bool_decide (Z.of_nat (size (readyPartitions s)) = NumPartitions (Spec (ts_ch s)))) s in
  (ts_ready s, s).

Definition isOutdatedTargetState (s : targetState) (sub : SubscriberSpec) (podIPs : gset string) : bool :=
  bool_decide (sub_Generation (ts_sub s) ≠ sub_Generation sub) ||
  (negb (ts_ready s) && negb (bool_decide (probedPods s = podIPs))).

Definition ejectStateUnsafe (uid : string) (m : Prober) : Prober :=
  match targetStates m !! uid with
  | None => m
  | Some l => with_targetStates (with_states m (alter set_cancelled l (states m))) (delete uid (targetStates m))
  end.

(** Get or create the context of an IP. *)
Definition ip_context (ip : string) (m : Prober) : nat * Prober :=
  match podContexts m !! ip with
  | Some c => (c, m)
  | None =>
      (fresh_id m,
       mkProber (targetStates m) (<[ip := fresh_id m]> (podContexts m)) (workQueue m) (states m) (probes m)
         (cancelled m) (S (fresh_id m)) (callbacks m))
  end.

(** Queue the work item of one pod, with the context [c], of the state at [l]. *)
Definition queue_probe (l c : nat) (target : ProbeTarget) (ip : string) (m : Prober) : Prober :=
  let wi := mkWorkItem l (mkPodState 1 false) c (pt_URL target) ip (PodPort target) in
  mkProber (targetStates m) (podContexts m) ({[fresh_id m]} ∪ workQueue m) (states m)
    (<[fresh_id m := wi]> (probes m)) (cancelled m) (S (fresh_id m)) (callbacks m).

Definition add_probe (l : nat) (target : ProbeTarget) (m : Prober) (ip : string) : Prober :=
  let (c, m) := ip_context ip m in queue_probe l c target ip m.

(** The state of a subscription that [probeTarget] makes. *)
Definition new_state (c : KafkaTopicChannel) (sub : SubscriberSpec) (target : ProbeTarget) (m : Prober) : Prober :=
  let s := mkTargetState sub c (Z.of_nat (size (PodIPs target))) ∅ (PodIPs target) false false in
  mkProber (targetStates m) (podContexts m) (workQueue m) (<[fresh_id m := s]> (states m)) (probes m)
    (cancelled m) (S (fresh_id m)) (callbacks m).

Definition publish (uid : string) (l : nat) (m : Prober) : Prober :=
  with_targetStates m (<[uid := l]> (targetStates m)).

Section operations.
Context `{GoRuntime}.

Definition probeTarget (n : nat) (c : KafkaTopicChannel) (sub : SubscriberSpec) (target : ProbeTarget)
    (m : Prober) : Prober :=
  let l := fresh_id m in
  publish (sub_UID sub) l
    (foldl (add_probe l target) (new_state c sub target m) (range_order n (elements (PodIPs target)))).

(** [IsReady], given what the lister answers, when nothing comes between its accesses. *)
Definition prober_IsReady (n : nat) (target : string + ProbeTarget) (c : KafkaTopicChannel)
    (sub : SubscriberSpec) (m : Prober) : (bool * option string) * Prober :=
  match target with
  | inl err => ((false, Some err), m)
  | inr target =>
      match targetStates m !! sub_UID sub ≫= λ l, pair l <$> states m !! l with
      | None => ((false, None), probeTarget n c sub target m)
      | Some (l, s) =>
          if isOutdatedTargetState s sub (PodIPs target) then
            ((false, None), probeTarget n c sub target (ejectStateUnsafe (sub_UID sub) m))
          else
            let (ready, s) := checkReadiness s in
            ((ready, None), with_states m (<[l := s]> (states m)))
      end
  end.

Definition CancelProbing (sub : SubscriberSpec) (m : Prober) : Prober := ejectStateUnsafe (sub_UID sub) m.

Definition CancelPodProbing (podIP : string) (m : Prober) : Prober :=
  match podContexts m !! podIP with
  | None => m
  | Some c =>
      mkProber (targetStates m) (delete podIP (podContexts m)) (workQueue m) (states m) (probes m)
        ({[c]} ∪ cancelled m) (fresh_id m) (callbacks m)
  end.

(** [RefreshPodProbing]: the loop over the states cached when it starts, when nothing comes
    between its accesses; a lister error ends it. *)
Fixpoint refresh_loop (n : nat) (list_targets : KafkaTopicChannel → string + ProbeTarget)
    (uids : list string) (m : Prober) : Prober :=
  match uids with
  | [] => m
  | uid :: uids =>
      match targetStates m !! uid ≫= λ l, pair l <$> states m !! l with
      | None => refresh_loop n list_targets uids m
      | Some (l, s) =>
          let (ready, s) := checkReadiness s in
          let m := with_states m (<[l := s]> (states m)) in
          if ready then refresh_loop n list_targets uids m
          else
            match list_targets (ts_ch s) with
            | inl _ => m
            | inr target =>
                refresh_loop n list_targets uids
                  (probeTarget n (ts_ch s) (ts_sub s) target (ejectStateUnsafe (sub_UID (ts_sub s)) m))
            end
      end
  end.

Definition RefreshPodProbing (n : nat) (list_targets : KafkaTopicChannel → string + ProbeTarget)
    (m : Prober) : Prober :=
  refresh_loop n list_targets (range_order n (map_to_list (targetStates m)).*1) m.
End operations.

(** ** Probing a pod *)

(** What [prober.Do] sees: a transport or body error, or a status with the body
    decoded as a map of partitions, if it is one. *)
Inductive probe_answer :=
  | ProbeError
  | ProbeResponse (code : Z) (body : option (gmap string (list Z))).

(** [probeVerifier]: whether the probe succeeded, and the state after it. *)
Definition probeVerifier (a : probe_answer) (s : targetState) : bool * targetState :=
  match a with
  | ProbeError => (false, s)
  | ProbeResponse code body =>
      if decide (code = 200) then
        match body with
        | None => (false, s)
        | Some subscriptions =>
            match subscriptions !! sub_UID (ts_sub s) with
            | Some partitions => (true, add_partitions partitions s)
            | None => (false, s)
            end
        end
      else if decide (code = 404 ∨ code = 503) then (false, s)
      else (true, s)
  end.

(** [podCtx.Done()]. *)
Definition context_done (wi : workItem) (s : targetState) (m : Prober) : bool :=
  pod_cancelled (wi_podState wi) || ts_cancelled s || bool_decide (wi_ipContext wi ∈ cancelled m).

Definition onProbingSuccess (id : nat) (wi : workItem) (s : targetState) (m : Prober) : Prober :=
  let pending := pod_pendingCount (wi_podState wi) - 1 in
  if decide (pending = 0) then
    let m := with_probes m (<[id := with_podState (mkPodState pending true) wi]> (probes m)) in
    let (ready, s) := checkReadiness s in
    if ready then
      called (with_states m (<[wi_targetStates wi := set_cancelled s]> (states m))) (ts_ch s, ts_sub s)
    else with_states m (<[wi_targetStates wi := s]> (states m))
  else with_probes m (<[id := with_podState (mkPodState pending (pod_cancelled (wi_podState wi))) wi]> (probes m)).

Definition onProbingCancellation (id : nat) (wi : workItem) (s : targetState) (m : Prober) : Prober :=
  if decide (pod_pendingCount (wi_podState wi) ≤ 0) then m
  else
    let m := with_probes m (<[id := with_podState (mkPodState 0 (pod_cancelled (wi_podState wi))) wi]> (probes m)) in
    let s := dec_pending s in
    if decide (pendingCount s = 0) then
      let (ready, s) := checkReadiness s in
      let m := with_states m (<[wi_targetStates wi := s]> (states m)) in
      if ready then called m (ts_ch s, ts_sub s) else m
    else with_states m (<[wi_targetStates wi := s]> (states m)).

(** [processWorkItem] on the item [id] of the queue, given the pod's answer. *)
Definition processWorkItem (id : nat) (a : probe_answer) (m : Prober) : Prober :=
  match probes m !! id with
  | None => m
  | Some wi =>
      match states m !! wi_targetStates wi with
      | None => m
      | Some s =>
          let m := with_queue m (workQueue m ∖ {[id]}) in
          let (ok, s) := probeVerifier a s in
          let m := with_states m (<[wi_targetStates wi := s]> (states m)) in
          if context_done wi s m then m
          else if negb ok then with_queue m ({[id]} ∪ workQueue m)
          else onProbingSuccess id wi s m
      end
  end.

(** The goroutine that waits for [podCtx.Done()]. *)
Definition notice_cancellation (id : nat) (m : Prober) : Prober :=
  match probes m !! id with
  | None => m
  | Some wi =>
      match states m !! wi_targetStates wi with
      | None => m
      | Some s => if context_done wi s m then onProbingCancellation id wi s m else m
      end
  end.

(** ** Runs of the prober *)

(** A report: the state it was made to, the pod that answered and the partitions
    it said are ready. *)
Record report := mkReport { rp_state : nat; rp_ip : string; rp_partitions : list Z }.

(** The report the answer [a] makes to the state of the item [id]. *)
Definition report_of (id : nat) (a : probe_answer) (m : Prober) : list report :=
  match probes m !! id with
  | None => []
  | Some wi =>
      match states m !! wi_targetStates wi with
      | None => []
      | Some s =>
          match a with
          | ProbeResponse 200 (Some subscriptions) =>
              match subscriptions !! sub_UID (ts_sub s) with
              | Some ps => [mkReport (wi_targetStates wi) (wi_podIP wi) ps]
              | None => []
              end
          | _ => []
          end
      end
  end.

Section runs.
Context `{GoRuntime}.
Implicit Types (m : Prober) (s : targetState) (tr : list report).

(** One access of a goroutine to what the goroutines share: a check, the cancellation or the count of a
    state that it holds a pointer to; an entry of the map; the state, the contexts and the
    items of a new probing; the queue; the flags of a pod's probe; a call of the
    callback, for a state that is ready. *)
Inductive piece m : Prober → Prop :=
  | piece_check l s : states m !! l = Some s → piece m (with_states m (<[l := (checkReadiness s).2]> (states m)))
  | piece_cancel l s : states m !! l = Some s → piece m (with_states m (<[l := set_cancelled s]> (states m)))
  | piece_pending l s : states m !! l = Some s → piece m (with_states m (<[l := dec_pending s]> (states m)))
  | piece_forget uid : piece m (with_targetStates m (delete uid (targetStates m)))
  | piece_publish l s : states m !! l = Some s → piece m (publish (sub_UID (ts_sub s)) l m)
  | piece_state c sub target : piece m (new_state c sub target m)
  | piece_context ip : piece m (ip_context ip m).2
  | piece_queue l s c target ip :
      states m !! l = Some s → ip ∈ probedPods s → piece m (queue_probe l c target ip m)
  | piece_get id : piece m (with_queue m (workQueue m ∖ {[id]}))
  | piece_again id : id ∈ dom (probes m) → piece m (with_queue m ({[id]} ∪ workQueue m))
  | piece_pod id wi p : probes m !! id = Some wi → piece m (with_probes m (<[id := with_podState p wi]> (probes m)))
  | piece_call l s : states m !! l = Some s → ts_ready s = true → piece m (called m (ts_ch s, ts_sub s)).

(** The pieces, the verifier of a probe, with the report of the pod, and the operations when nothing
    comes between. *)
Inductive prober_step : Prober → list report → Prober → Prop :=
  | step_piece m m' : piece m m' → prober_step m [] m'
  | step_verify id a wi s m :
      probes m !! id = Some wi → states m !! wi_targetStates wi = Some s →
      prober_step m (report_of id a m) (with_states m (<[wi_targetStates wi := (probeVerifier a s).2]> (states m)))
  | step_IsReady n target c sub m :
      prober_step m [] (prober_IsReady n target c sub m).2
  | step_CancelProbing sub m : prober_step m [] (CancelProbing sub m)
  | step_CancelPodProbing ip m : prober_step m [] (CancelPodProbing ip m)
  | step_Refresh n list_targets m : prober_step m [] (RefreshPodProbing n list_targets m)
  | step_process id a m :
      id ∈ workQueue m → prober_step m (report_of id a m) (processWorkItem id a m)
  | step_notice id m : prober_step m [] (notice_cancellation id m).

Inductive prober_run : list report → Prober → Prop :=
  | run_new : prober_run [] NewProber
  | run_step tr m rs m' : prober_run tr m → prober_step m rs m' → prober_run (tr ++ rs) m'.

(** What follows in a run. *)
Inductive prober_steps : Prober → list report → Prober → Prop :=
  | steps_nil m : prober_steps m [] m
  | steps_cons m rs m' rs' m'' : prober_step m rs m' → prober_steps m' rs' m'' → prober_steps m (rs ++ rs') m''.

Lemma prober_run_steps tr m rs m' : prober_run tr m → prober_steps m rs m' → prober_run (tr ++ rs) m'.
Proof.
  intros Hrun Hs. revert tr Hrun. induction Hs as [m|m rs m1 rs' m' Hst _ IH]; intros tr Hrun; [by rewrite app_nil_r|].
  rewrite app_assoc. apply IH. by eapply run_step.
Qed.

(** One state is well founded: its ready partitions were reported to it by pods
    it probes, and it is ready only with as many of them as the channel asks for. *)
Record state_ok tr (l : nat) s : Prop := {
  so_reported p : p ∈ readyPartitions s →
    ∃ r, r ∈ tr ∧ rp_state r = l ∧ p ∈ rp_partitions r ∧ rp_ip r ∈ probedPods s;
  so_ready : ts_ready s = true → NumPartitions (Spec (ts_ch s)) ≤ Z.of_nat (size (readyPartitions s));
}.

Record prober_inv tr m : Prop := {
  pi_states l s : states m !! l = Some s → state_ok tr l s ∧ (l < fresh_id m)%nat;
  pi_target uid l : targetStates m !! uid = Some l →
    ∃ s, states m !! l = Some s ∧ sub_UID (ts_sub s) = uid;
  pi_probes id wi : probes m !! id = Some wi →
    (id < fresh_id m)%nat ∧
    ∃ s, states m !! wi_targetStates wi = Some s ∧ wi_podIP wi ∈ probedPods s;
  pi_callbacks c sub : (c, sub) ∈ callbacks m →
    ∃ l s, states m !! l = Some s ∧ ts_ready s = true ∧ ts_ch s = c ∧ ts_sub s = sub;
}.

(** [s'] is a later version of [s]: what identifies a state is kept, and
    readiness, cancellation and the ready partitions only grow. *)
Record state_le s s' : Prop := {
  sl_sub : ts_sub s' = ts_sub s;
  sl_ch : ts_ch s' = ts_ch s;
  sl_pods : probedPods s' = probedPods s;
  sl_parts : readyPartitions s ⊆ readyPartitions s';
  sl_ready : ts_ready s = true → ts_ready s' = true;
  sl_cancelled : ts_cancelled s = true → ts_cancelled s' = true;
}.

Lemma state_le_refl s : state_le s s.
Proof. by split. Qed.
Lemma state_le_trans s1 s2 s3 : state_le s1 s2 → state_le s2 s3 → state_le s1 s3.
Proof. intros [] []. split; [congruence..|set_solver|auto|auto]. Qed.

(** Growth of the heap: states are only added and moved on. *)
Definition heap_le (h h' : gmap nat targetState) : Prop :=
  ∀ l s, h !! l = Some s → ∃ s', h' !! l = Some s' ∧ state_le s s'.

Lemma heap_le_refl h : heap_le h h.
Proof. intros l s Hl. exists s. split; [done|apply state_le_refl]. Qed.
Lemma heap_le_trans h1 h2 h3 : heap_le h1 h2 → heap_le h2 h3 → heap_le h1 h3.
Proof.
  intros H12 H23 l s Hl. destruct (H12 _ _ Hl) as (s2 & H2 & ?).
  destruct (H23 _ _ H2) as (s3 & ? & ?). exists s3. split; [done|by eapply state_le_trans].
Qed.
Lemma heap_le_insert h l s s' : h !! l = Some s → state_le s s' → heap_le h (<[l := s']> h).
Proof.
  intros Hl Hle l0 s0 Hl0. rewrite lookup_insert. destruct (decide (l = l0)) as [->|]; [|eauto using state_le_refl].
  exists s'. split; [done|]. by simplify_eq.
Qed.
Lemma heap_le_new h l s : h !! l = None → heap_le h (<[l := s]> h).
Proof.
  intros Hl l0 s0 Hl0. exists s0. rewrite lookup_insert_ne by congruence. eauto using state_le_refl.
Qed.

Lemma state_ok_mono tr tr' l s : state_ok tr l s → tr ⊆ tr' → state_ok tr' l s.
Proof.
  intros [Hr ?] Hsub. split; [|done]. intros p Hp. destruct (Hr p Hp) as (r & ? & ?). exists r. auto.
Qed.

Lemma checkReadiness_le s : state_le s (checkReadiness s).2.
Proof. unfold checkReadiness. destruct (ts_ready s) eqn:E; simpl; split; simpl; congruence || set_solver. Qed.

Lemma checkReadiness_ready s : ts_ready (checkReadiness s).2 = (checkReadiness s).1.
Proof. done. Qed.

Lemma checkReadiness_ok tr l s : state_ok tr l s → state_ok tr l (checkReadiness s).2.
Proof.
  intros [Hp Hr]. unfold checkReadiness. destruct (ts_ready s) eqn:E; simpl; split; simpl; auto.
  rewrite bool_decide_eq_true. lia.
Qed.

(** Replacing the heap by a later one in which every state is well founded. *)
Lemma prober_inv_heap tr tr' m m' :
  prober_inv tr m → tr ⊆ tr' → heap_le (states m) (states m') →
  (∀ l s, states m' !! l = Some s → state_ok tr' l s ∧ (l < fresh_id m')%nat) →
  (fresh_id m ≤ fresh_id m')%nat →
  (∀ uid l, targetStates m' !! uid = Some l → targetStates m !! uid = Some l ∨
     ∃ s, states m' !! l = Some s ∧ sub_UID (ts_sub s) = uid) →
  (∀ id wi, probes m' !! id = Some wi →
     (∃ wi', probes m !! id = Some wi' ∧ wi_targetStates wi = wi_targetStates wi' ∧ wi_podIP wi = wi_podIP wi') ∨
     (id < fresh_id m')%nat ∧ ∃ s, states m' !! wi_targetStates wi = Some s ∧ wi_podIP wi ∈ probedPods s) →
  (∀ c sub, (c, sub) ∈ callbacks m' → (c, sub) ∈ callbacks m ∨
     ∃ l s, states m' !! l = Some s ∧ ts_ready s = true ∧ ts_ch s = c ∧ ts_sub s = sub) →
  prober_inv tr' m'.
Proof.
  intros [Hs Ht Hp Hc] Htr Hle Hok Hfr Hto Hpr Hcb. split.
  - done.
  - intros uid l Hl. apply Hto in Hl as [Hl|?]; [|done].
    destruct (Ht _ _ Hl) as (s & Hls & <-). destruct (Hle _ _ Hls) as (s' & ? & []). exists s'. split; congruence.
  - intros id wi Hid. apply Hpr in Hid as [(wi' & Hid & -> & ->)|?]; [|done].
    destruct (Hp _ _ Hid) as (? & s & Hls & ?). destruct (Hle _ _ Hls) as (s' & ? & Hsl).
    split; [lia|]. exists s'. split; [done|]. by rewrite (sl_pods _ _ Hsl).
  - intros c sub Hin. apply Hcb in Hin as [Hin|?]; [|done].
    destruct (Hc _ _ Hin) as (l & s & Hls & Hr & <- & <-). destruct (Hle _ _ Hls) as (s' & ? & Hsl).
    exists l, s'. split_and!; [done|by apply Hsl|by apply Hsl|by apply Hsl].
Qed.

(** Moving one state on, nothing else. *)
Lemma prober_inv_state tr tr' m l s s' :
  prober_inv tr m → tr ⊆ tr' → states m !! l = Some s → state_le s s' → state_ok tr' l s' →
  prober_inv tr' (with_states m (<[l := s']> (states m))).
Proof.
  intros Hinv Htr Hl Hle Hok. eapply prober_inv_heap; [done|done|..]; simpl.
  - by eapply heap_le_insert.
  - intros l0 s0. rewrite lookup_insert_Some. intros [[<- <-]|[_ Hl0]].
    + split; [done|]. by eapply pi_states.
    + destruct (pi_states _ _ Hinv _ _ Hl0) as [? ?]. split; [by eapply state_ok_mono|done].
  - done.
  - auto.
  - eauto.
  - auto.
Qed.

Lemma prober_inv_queue tr m q : prober_inv tr m → prober_inv tr (with_queue m q).
Proof. by intros []. Qed.

Lemma prober_inv_probe tr m id wi p :
  prober_inv tr m → probes m !! id = Some wi →
  prober_inv tr (with_probes m (<[id := with_podState p wi]> (probes m))).
Proof.
  intros [Hs Ht Hp Hc] Hid. split; try done. simpl. intros id' wi'.
  rewrite lookup_insert_Some. intros [[<- <-]|[_ ?]]; [|by apply Hp]. by apply (Hp id wi).
Qed.

Lemma prober_inv_called tr m l s :
  prober_inv tr m → states m !! l = Some s → ts_ready s = true →
  prober_inv tr (called m (ts_ch s, ts_sub s)).
Proof.
  intros [Hs Ht Hp Hc] Hl Hr. split; try done. simpl. intros c sub.
  rewrite elem_of_app, list_elem_of_singleton. intros [?|[= -> ->]]; [by apply Hc|]. by exists l, s.
Qed.

Lemma set_cancelled_ok tr l s : state_ok tr l s → state_ok tr l (set_cancelled s).
Proof. by intros []. Qed.
Lemma set_cancelled_le s : state_le s (set_cancelled s).
Proof. by split. Qed.
Lemma dec_pending_ok tr l s : state_ok tr l s → state_ok tr l (dec_pending s).
Proof. by intros []. Qed.
Lemma dec_pending_le s : state_le s (dec_pending s).
Proof. by split. Qed.

Lemma eject_inv tr uid m : prober_inv tr m → prober_inv tr (ejectStateUnsafe uid m).
Proof.
  intros Hinv. unfold ejectStateUnsafe. destruct (targetStates m !! uid) as [l|] eqn:Hl; [|done].
  destruct (pi_target _ _ Hinv _ _ Hl) as (s & Hs & _).
  assert (Halter : alter set_cancelled l (states m) = <[l := set_cancelled s]> (states m)).
  { apply map_eq. intros l'. rewrite lookup_alter, lookup_insert. destruct (decide (l = l')) as [<-|]; [|done].
    by rewrite Hs. }
  rewrite Halter.
  assert (Hinv' := prober_inv_state tr tr m l s (set_cancelled s) Hinv ltac:(done) Hs
    (set_cancelled_le s) (set_cancelled_ok _ _ _ (proj1 (pi_states _ _ Hinv _ _ Hs)))).
  destruct Hinv' as [H1 H2 H3 H4]. split; try done. simpl. intros uid' l'.
  rewrite lookup_delete_Some. intros [_ ?]. by apply H2.
Qed.

(** Queueing the probes of a state. *)
Lemma add_probes_inv tr l s target ips : ∀ m,
  prober_inv tr m → states m !! l = Some s → probedPods s = PodIPs target →
  (∀ ip, ip ∈ ips → ip ∈ PodIPs target) →
  let m' := foldl (add_probe l target) m ips in
  prober_inv tr m' ∧ states m' = states m ∧ targetStates m' = targetStates m.
Proof.
  induction ips as [|ip ips IH]; intros m Hinv Hl Hpods Hips; [done|]. cbn [foldl].
  assert (Hinv' : prober_inv tr (add_probe l target m ip) ∧
                  states (add_probe l target m ip) = states m ∧
                  targetStates (add_probe l target m ip) = targetStates m).
  { unfold add_probe, queue_probe, ip_context.
    destruct (podContexts m !! ip) as [c|]; (split; [|done]);
      (eapply prober_inv_heap; [done|done|..]; simpl;
        [apply heap_le_refl| |lia|auto| |auto]).
    all: try (intros l0 s0 Hl0; destruct (pi_states _ _ Hinv _ _ Hl0); split; [done|lia]).
    all: intros id wi; rewrite lookup_insert_Some; intros [[<- <-]|[_ ?]]; [right|left; eauto];
      simpl; (split; [lia|]); exists s; (split; [done|]); rewrite Hpods; apply Hips; left. }
  destruct Hinv' as (Hinv' & Hst & Htg). destruct (IH (add_probe l target m ip)) as (? & Hst' & Htg').
  - done.
  - by rewrite Hst.
  - done.
  - intros ip' ?. apply Hips. by right.
  - split_and!; [done|congruence|congruence].
Qed.

Lemma states_fresh tr m : prober_inv tr m → states m !! fresh_id m = None.
Proof.
  intros Hinv. destruct (states m !! fresh_id m) eqn:E; [|done]. destruct (pi_states _ _ Hinv _ _ E). lia.
Qed.

Lemma new_state_inv tr c sub target m : prober_inv tr m → prober_inv tr (new_state c sub target m).
Proof.
  intros Hinv. pose proof (states_fresh _ _ Hinv). unfold new_state.
  eapply prober_inv_heap; [done|done|..]; simpl; [by apply heap_le_new| |lia|auto|eauto|auto].
  intros l0 s0. rewrite lookup_insert_Some. intros [[<- <-]|[_ Hl0]].
  - split; [|lia]. split; simpl; [set_solver|done].
  - destruct (pi_states _ _ Hinv _ _ Hl0). split; [done|lia].
Qed.

Lemma publish_inv tr uid l s m :
  prober_inv tr m → states m !! l = Some s → sub_UID (ts_sub s) = uid → prober_inv tr (publish uid l m).
Proof.
  intros [H1 H2 H3 H4] Hl Hu. split; try done. simpl. intros uid' l'.
  rewrite lookup_insert_Some. intros [[<- <-]|[_ ?]]; [by exists s|by apply H2].
Qed.

Lemma probeTarget_inv tr n c sub target m : prober_inv tr m → prober_inv tr (probeTarget n c sub target m).
Proof.
  intros Hinv. unfold probeTarget.
  assert (Hs : states (new_state c sub target m) !! fresh_id m =
    Some (mkTargetState sub c (Z.of_nat (size (PodIPs target))) ∅ (PodIPs target) false false)) by (simpl; by rewrite lookup_insert_eq).
  destruct (add_probes_inv tr (fresh_id m) _ target (range_order n (elements (PodIPs target))) _ (new_state_inv tr c sub target m Hinv) Hs)
    as (Hinv' & Hst & _); [done| |].
  { intros ip. by rewrite range_order_perm, elem_of_elements. }
  eapply publish_inv; [exact Hinv'|by rewrite Hst|done].
Qed.

Lemma target_state_Some m uid l s :
  targetStates m !! uid ≫= (λ l, pair l <$> states m !! l) = Some (l, s) →
  targetStates m !! uid = Some l ∧ states m !! l = Some s.
Proof.
  destruct (targetStates m !! uid) as [l'|]; simpl; [|done].
  destruct (states m !! l') eqn:E; simpl; [|done]. by intros [= <- <-].
Qed.

Lemma checkReadiness_inv tr m l s :
  prober_inv tr m → states m !! l = Some s →
  prober_inv tr (with_states m (<[l := (checkReadiness s).2]> (states m))).
Proof.
  intros Hinv Hl. eapply prober_inv_state; [done|done|done|apply checkReadiness_le|].
  apply checkReadiness_ok. by eapply pi_states.
Qed.

Lemma IsReady_inv tr n target c sub m : prober_inv tr m → prober_inv tr (prober_IsReady n target c sub m).2.
Proof.
  intros Hinv. unfold prober_IsReady. destruct target as [err|target]; [done|].
  destruct (targetStates m !! sub_UID sub ≫= _) as [[l s]|] eqn:E; [|by apply probeTarget_inv].
  apply target_state_Some in E as [_ Hl].
  destruct (isOutdatedTargetState _ _ _); [by apply probeTarget_inv, eject_inv|].
  pose proof (checkReadiness_inv _ _ _ _ Hinv Hl) as Hc. by destruct (checkReadiness s).
Qed.

Lemma refresh_loop_inv tr n lt uids : ∀ m, prober_inv tr m → prober_inv tr (refresh_loop n lt uids m).
Proof.
  induction uids as [|uid uids IH]; intros m Hinv; cbn [refresh_loop]; [done|].
  destruct (targetStates m !! uid ≫= _) as [[l s]|] eqn:E; [|by apply IH].
  apply target_state_Some in E as [_ Hl]. pose proof (checkReadiness_inv _ _ _ _ Hinv Hl) as Hc.
  destruct (checkReadiness s) as [ready s']. simpl in Hc. destruct ready; [by apply IH|].
  destruct (lt (ts_ch s')); [done|]. by apply IH, probeTarget_inv, eject_inv.
Qed.
End runs.

(** ** Every run keeps the states well founded *)
Section run_inv.
Context `{GoRuntime}.
Implicit Types (m : Prober) (s : targetState) (tr : list report).

Lemma probeVerifier_le a s : state_le s (probeVerifier a s).2.
Proof.
  unfold probeVerifier. destruct a as [|code body]; [apply state_le_refl|].
  destruct (decide (code = 200)); [|destruct (decide _); apply state_le_refl].
  destruct body as [subscriptions|]; [|apply state_le_refl].
  destruct (subscriptions !! _); [|apply state_le_refl]. split; simpl; auto. set_solver.
Qed.

Lemma probeVerifier_ok tr id a m wi s :
  prober_inv tr m → probes m !! id = Some wi → states m !! wi_targetStates wi = Some s →
  state_ok (tr ++ report_of id a m) (wi_targetStates wi) (probeVerifier a s).2.
Proof.
  intros Hinv Hid Hl.
  assert (Hs : ∀ rs, state_ok (tr ++ rs) (wi_targetStates wi) s).
  { intros rs. eapply state_ok_mono; [by eapply (pi_states _ _ Hinv)|]. set_solver. }
  unfold probeVerifier. destruct a as [|code body]; [apply Hs|].
  destruct (decide (code = 200)) as [->|]; [|destruct (decide _); apply Hs].
  destruct body as [subscriptions|]; [|apply Hs].
  destruct (subscriptions !! _) as [ps|] eqn:Hps; [|apply Hs].
  unfold report_of. rewrite Hid, Hl, Hps.
  destruct (pi_probes _ _ Hinv _ _ Hid) as (_ & s0 & Hs0 & Hip). simplify_eq.
  destruct (Hs [mkReport (wi_targetStates wi) (wi_podIP wi) ps]) as [Hr Hn]. split; simpl.
  - intros p. rewrite elem_of_union, elem_of_list_to_set. intros [Hp|Hp]; [|by apply Hr].
    eexists. split; [apply elem_of_app; right; apply list_elem_of_here|]. done.
  - intros Hready. specialize (Hn Hready).
    assert (Hsz : (size (readyPartitions s) ≤ size (list_to_set ps ∪ readyPartitions s : gset Z))%nat)
      by (apply subseteq_size; set_solver).
    lia.
Qed.

Lemma onProbingSuccess_inv tr id wi s m :
  prober_inv tr m → probes m !! id = Some wi → states m !! wi_targetStates wi = Some s →
  prober_inv tr (onProbingSuccess id wi s m).
Proof.
  intros Hinv Hid Hl. unfold onProbingSuccess. destruct (decide _); [|by apply prober_inv_probe].
  assert (Hp := prober_inv_probe _ _ _ _ (mkPodState (pod_pendingCount (wi_podState wi) - 1) true) Hinv Hid).
  set (m1 := with_probes m _) in *.
  assert (Hl1 : states m1 !! wi_targetStates wi = Some s) by done.
  pose proof (checkReadiness_le s) as Hle. pose proof (checkReadiness_ready s) as Hr.
  pose proof (checkReadiness_inv _ _ _ _ Hp Hl1) as Hc.
  destruct (checkReadiness s) as [ready s']. simpl in Hle, Hr, Hc. destruct ready; [|done].
  assert (Hs' : state_ok tr (wi_targetStates wi) s').
  { eapply (pi_states _ _ Hc). simpl. by rewrite lookup_insert_eq. }
  change (ts_ch s', ts_sub s') with (ts_ch (set_cancelled s'), ts_sub (set_cancelled s')).
  eapply prober_inv_called; [|simpl; by rewrite lookup_insert_eq|done].
  eapply prober_inv_state; [exact Hp|done|exact Hl1| |by apply set_cancelled_ok].
  eapply state_le_trans; [exact Hle|apply set_cancelled_le].
Qed.

Lemma onProbingCancellation_inv tr id wi s m :
  prober_inv tr m → probes m !! id = Some wi → states m !! wi_targetStates wi = Some s →
  prober_inv tr (onProbingCancellation id wi s m).
Proof.
  intros Hinv Hid Hl. unfold onProbingCancellation. destruct (decide (_ ≤ 0)); [done|].
  assert (Hp := prober_inv_probe _ _ _ _ (mkPodState 0 (pod_cancelled (wi_podState wi))) Hinv Hid).
  set (m1 := with_probes m _) in *.
  assert (Hl1 : states m1 !! wi_targetStates wi = Some s) by done.
  assert (Hok : state_ok tr (wi_targetStates wi) (dec_pending s)) by (by apply dec_pending_ok; eapply pi_states).
  destruct (decide _).
  - pose proof (checkReadiness_le (dec_pending s)) as Hle.
    pose proof (checkReadiness_ready (dec_pending s)) as Hr.
    pose proof (checkReadiness_ok _ _ _ Hok) as Hok'.
    destruct (checkReadiness (dec_pending s)) as [ready s']. simpl in Hle, Hr, Hok'.
    assert (Hm : prober_inv tr (with_states m1 (<[wi_targetStates wi := s']> (states m1)))).
    { eapply prober_inv_state; [done|done|exact Hl1| |done]. eapply state_le_trans; [apply dec_pending_le|done]. }
    destruct ready; [|done]. eapply prober_inv_called; [done|simpl; by rewrite lookup_insert_eq|done].
  - eapply prober_inv_state; [done|done|exact Hl1|apply dec_pending_le|done].
Qed.

Lemma processWorkItem_inv tr id a m :
  prober_inv tr m → prober_inv (tr ++ report_of id a m) (processWorkItem id a m).
Proof.
  intros Hinv. unfold processWorkItem.
  destruct (probes m !! id) as [wi|] eqn:Hid; [|unfold report_of; rewrite Hid; by rewrite app_nil_r].
  destruct (states m !! wi_targetStates wi) as [s|] eqn:Hl;
    [|unfold report_of; rewrite Hid, Hl; by rewrite app_nil_r].
  pose proof (probeVerifier_le a s) as Hle. pose proof (probeVerifier_ok _ _ a _ _ _ Hinv Hid Hl) as Hok.
  destruct (probeVerifier a s) as [ok s']. simpl in Hle, Hok.
  cbv zeta. set (m1 := with_queue m (workQueue m ∖ {[id]})).
  assert (Hm : prober_inv (tr ++ report_of id a m) (with_states m1 (<[wi_targetStates wi := s']> (states m1)))).
  { eapply (prober_inv_state tr); [by apply prober_inv_queue|set_solver|exact Hl|done|done]. }
  destruct (context_done _ _ _); [exact Hm|]. destruct ok; simpl.
  - apply onProbingSuccess_inv; [exact Hm|exact Hid|simpl; by rewrite lookup_insert_eq].
  - exact (prober_inv_queue _ _ ({[id]} ∪ (workQueue m ∖ {[id]})) Hm).
Qed.

Lemma piece_inv tr m m' : prober_inv tr m → piece m m' → prober_inv tr m'.
Proof.
  intros Hinv Hp. assert (Hi := Hinv). destruct Hi as [H1 H2 H3 H4]. destruct Hp as
    [l s Hl|l s Hl|l s Hl|uid|l s Hl|c sub target|ip|l s c target ip Hl Hip|id|id Hid|id wi p Hid|l s Hl Hr].
  - by apply checkReadiness_inv.
  - eapply prober_inv_state; [done|done|done|apply set_cancelled_le|]. apply set_cancelled_ok. by eapply H1.
  - eapply prober_inv_state; [done|done|done|apply dec_pending_le|]. apply dec_pending_ok. by eapply H1.
  - split; try done. simpl. intros uid' l. rewrite lookup_delete_Some. intros [_ ?]. by apply H2.
  - by eapply publish_inv.
  - by apply new_state_inv.
  - unfold ip_context. destruct (podContexts m !! ip); [done|]. split; simpl; try done.
    + intros l s Hl. destruct (H1 _ _ Hl). split; [done|lia].
    + intros id wi Hid. destruct (H3 _ _ Hid). split; [lia|done].
  - split; simpl; try done.
    + intros l' s' Hl'. destruct (H1 _ _ Hl'). split; [done|lia].
    + intros id wi. rewrite lookup_insert_Some. intros [[<- <-]|[_ Hid]]; [split; [lia|by exists s]|].
      destruct (H3 _ _ Hid). split; [lia|done].
  - by apply prober_inv_queue.
  - by apply prober_inv_queue.
  - by apply prober_inv_probe.
  - by eapply prober_inv_called.
Qed.

Lemma prober_step_inv tr m rs m' :
  prober_inv tr m → prober_step m rs m' → prober_inv (tr ++ rs) m'.
Proof.
  intros Hinv Hstep. destruct Hstep; rewrite ?app_nil_r.
  - by eapply piece_inv.
  - eapply (prober_inv_state tr); [done|set_solver|done|apply probeVerifier_le|by apply probeVerifier_ok].
  - by apply IsReady_inv.
  - by apply eject_inv.
  - unfold CancelPodProbing. destruct (podContexts m !! ip); [|done]. destruct Hinv as []. by split.
  - by apply refresh_loop_inv.
  - by apply processWorkItem_inv.
  - unfold notice_cancellation. destruct (probes m !! id) as [wi|] eqn:Hid; [|done].
    destruct (states m !! wi_targetStates wi) as [s|] eqn:Hl; [|done].
    destruct (context_done _ _ _); [|done]. by apply onProbingCancellation_inv.
Qed.

Lemma prober_run_inv tr m : prober_run tr m → prober_inv tr m.
Proof.
  induction 1 as [|tr m rs m' _ IH Hstep]; [|by eapply prober_step_inv].
  split; simpl; intros *; rewrite ?lookup_empty; try done. by intros ?%elem_of_nil.
Qed.

(** Reports never shrink, so a set of reported partitions is a set of reports. *)
Lemma IsReady_true n target c sub m m' :
  prober_IsReady n target c sub m = ((true, None), m') →
  ∃ l s, targetStates m !! sub_UID sub = Some l ∧ states m !! l = Some s ∧
    sub_Generation (ts_sub s) = sub_Generation sub ∧
    (ts_ready s = true ∨ Z.of_nat (size (readyPartitions s)) = NumPartitions (Spec (ts_ch s))).
Proof.
  unfold prober_IsReady. destruct target as [err|target]; [done|].
  destruct (targetStates m !! sub_UID sub ≫= _) as [[l s]|] eqn:E; [|done].
  apply target_state_Some in E as [Ht Hl].
  destruct (isOutdatedTargetState s sub (PodIPs target)) eqn:Ho; [done|].
  unfold isOutdatedTargetState in Ho. apply orb_false_iff in Ho as [Hg _].
  apply bool_decide_eq_false, dec_stable in Hg. intros Heq. exists l, s. split_and!; [done..|].
  unfold checkReadiness in Heq. destruct (ts_ready s) eqn:Er; [by left|right].
  simpl in Heq. injection Heq as Hb _. by apply bool_decide_eq_true in Hb.
Qed.

(** ** The whole calls are made of pieces *)
Lemma eject_pieces tr uid m : prober_inv tr m → rtc piece m (ejectStateUnsafe uid m).
Proof.
  intros Hinv. unfold ejectStateUnsafe. destruct (targetStates m !! uid) as [l|] eqn:Hl; [|done].
  destruct (pi_target _ _ Hinv _ _ Hl) as (s & Hs & _).
  assert (alter set_cancelled l (states m) = <[l := set_cancelled s]> (states m)) as ->.
  { apply map_eq. intros l'. rewrite lookup_alter, lookup_insert. destruct (decide (l = l')) as [<-|]; [|done]. by rewrite Hs. }
  eapply rtc_l; [by apply (piece_cancel m l s)|]. apply rtc_once. exact (piece_forget (with_states m _) uid).
Qed.

Lemma add_probes_pieces l s target ips : ∀ m,
  states m !! l = Some s → (∀ ip, ip ∈ ips → ip ∈ probedPods s) →
  rtc piece m (foldl (add_probe l target) m ips).
Proof.
  induction ips as [|ip ips IH]; intros m Hs Hips; [done|]. cbn [foldl].
  assert (Hst : states (add_probe l target m ip) = states m) by (unfold add_probe, ip_context; by destruct (podContexts m !! ip)).
  etrans; [|apply IH; [by rewrite Hst|intros ip' ?; apply Hips; by right]].
  eapply rtc_l; [apply (piece_context m ip)|]. unfold add_probe.
  assert (Hst' : states (ip_context ip m).2 = states m) by (unfold ip_context; by destruct (podContexts m !! ip)).
  destruct (ip_context ip m) as [c m1]. simpl in *. apply rtc_once. eapply piece_queue; [by rewrite Hst'|]. apply Hips. left.
Qed.

Lemma probeTarget_pieces n c sub target m : rtc piece m (probeTarget n c sub target m).
Proof.
  unfold probeTarget. set (s := mkTargetState sub c (Z.of_nat (size (PodIPs target))) ∅ (PodIPs target) false false).
  assert (Hs : states (new_state c sub target m) !! fresh_id m = Some s) by (simpl; by rewrite lookup_insert_eq).
  eapply rtc_l; [apply piece_state|].
  eapply rtc_r; [apply (add_probes_pieces (fresh_id m) s target (range_order n (elements (PodIPs target)))); [exact Hs|]|].
  { intros ip. rewrite range_order_perm, elem_of_elements. done. }
  eapply (piece_publish _ (fresh_id m) s).
  assert (Hst : ∀ ips m1, states (foldl (add_probe (fresh_id m) target) m1 ips) = states m1).
  { induction ips as [|ip ips IH]; intros m1; [done|]. cbn [foldl]. rewrite IH. unfold add_probe, ip_context. by destruct (podContexts m1 !! ip). }
  by rewrite Hst.
Qed.

Lemma IsReady_pieces tr n target c sub m : prober_inv tr m → rtc piece m (prober_IsReady n target c sub m).2.
Proof.
  intros Hinv. unfold prober_IsReady. destruct target as [err|target]; [done|].
  destruct (targetStates m !! sub_UID sub ≫= _) as [[l s]|] eqn:E; [|apply probeTarget_pieces].
  apply target_state_Some in E as [_ Hl]. destruct (isOutdatedTargetState s sub (PodIPs target)).
  - etrans; [by eapply eject_pieces|apply probeTarget_pieces].
  - pose proof (piece_check m l s Hl) as Hc. destruct (checkReadiness s) as [ready s']. by apply rtc_once.
Qed.

Lemma refresh_pieces tr n lt uids : ∀ m, prober_inv tr m → rtc piece m (refresh_loop n lt uids m).
Proof.
  induction uids as [|uid uids IH]; intros m Hinv; cbn [refresh_loop]; [done|].
  destruct (targetStates m !! uid ≫= _) as [[l s]|] eqn:E; [|by apply IH].
  apply target_state_Some in E as [_ Hl]. pose proof (checkReadiness_inv _ _ _ _ Hinv Hl) as Hinv'.
  pose proof (piece_check m l s Hl) as Hc. destruct (checkReadiness s) as [ready s'].
  eapply rtc_l; [exact Hc|]. destruct ready; [by apply IH|]. destruct (lt (ts_ch s')) as [|target]; [done|].
  etrans; [by eapply eject_pieces|]. etrans; [apply probeTarget_pieces|]. by apply IH, probeTarget_inv, eject_inv.
Qed.
End run_inv.

(** ** The evidence of readiness *)
Section evidence.
Context `{GoRuntime}.

(** The ready partitions of the state [s] at [l] are as many as its channel asks
    for, and each was reported to it by one of the pods it probes. *)
Definition evidenced (tr : list report) (l : nat) (s : targetState) : Prop :=
  NumPartitions (Spec (ts_ch s)) ≤ Z.of_nat (size (readyPartitions s)) ∧
  ∀ p, p ∈ readyPartitions s →
    ∃ r, r ∈ tr ∧ rp_state r = l ∧ p ∈ rp_partitions r ∧ rp_ip r ∈ probedPods s.

Lemma IsReady_evidenced tr m n target c sub m' :
  prober_run tr m → prober_IsReady n target c sub m = ((true, None), m') →
  ∃ l s, states m !! l = Some s ∧ evidenced tr l s ∧ sub_UID (ts_sub s) = sub_UID sub ∧
    sub_Generation (ts_sub s) = sub_Generation sub.
Proof.
  intros run%prober_run_inv Hready. destruct (IsReady_true _ _ _ _ _ _ Hready) as (l & s & Ht & Hl & Hg & Hr).
  destruct (pi_states _ _ run _ _ Hl) as [Hok _]. destruct (pi_target _ _ run _ _ Ht) as (s' & Hs' & Huid).
  simplify_eq. exists l, s. split; [done|]. split; [|done].
  split; [|apply Hok]. destruct Hr as [Hr|Hr]; [by apply Hok|lia].
Qed.
End evidence.

(** ** A state that no probe can complete any more *)
Section stuck.
Context `{GoRuntime}.
Implicit Types (m : Prober) (s : targetState) (tr : list report) (uid : string) (l : nat).

(** The state of [uid] is not ready, and either it has heard of more partitions
    than the channel asks for, or of a different number with no probe queued. *)
Definition stuck_state uid l (gen : Z) (pods : gset string) m : Prop :=
  targetStates m !! uid = Some l ∧
  ∃ s, states m !! l = Some s ∧ ts_ready s = false ∧
    sub_Generation (ts_sub s) = gen ∧ probedPods s = pods ∧
    Z.of_nat (size (readyPartitions s)) ≠ NumPartitions (Spec (ts_ch s)) ∧
    (NumPartitions (Spec (ts_ch s)) < Z.of_nat (size (readyPartitions s)) ∨
     ∀ id wi, id ∈ workQueue m → probes m !! id = Some wi → wi_targetStates wi ≠ l).

(** Everything that happens while the subscription and the pods do not change. *)
Inductive quiet_step uid (gen : Z) (pods : gset string) : Prober → list report → Prober → Prop :=
  | quiet_IsReady n target c sub m :
      (sub_UID sub = uid → sub_Generation sub = gen ∧ ∀ t, target = inr t → PodIPs t = pods) →
      quiet_step uid gen pods m [] (prober_IsReady n target c sub m).2
  | quiet_CancelProbing sub m :
      sub_UID sub ≠ uid → quiet_step uid gen pods m [] (CancelProbing sub m)
  | quiet_CancelPodProbing ip m : quiet_step uid gen pods m [] (CancelPodProbing ip m)
  | quiet_process id a m :
      id ∈ workQueue m → quiet_step uid gen pods m (report_of id a m) (processWorkItem id a m)
  | quiet_notice id m : quiet_step uid gen pods m [] (notice_cancellation id m).

Inductive quiet_run uid gen pods : Prober → list report → Prober → Prop :=
  | quiet_nil m : quiet_run uid gen pods m [] m
  | quiet_cons m rs m' rs' m'' :
      quiet_step uid gen pods m rs m' → quiet_run uid gen pods m' rs' m'' →
      quiet_run uid gen pods m (rs ++ rs') m''.

Lemma quiet_step_step uid gen pods m rs m' : quiet_step uid gen pods m rs m' → prober_step m rs m'.
Proof. intros []; by constructor. Qed.

(** The state at [l] moves on without becoming ready, hears of partitions only
    from a queued probe, and gets no new probe. *)
Lemma stuck_frame uid l gen pods m m' :
  stuck_state uid l gen pods m →
  targetStates m' !! uid = Some l →
  (∀ s, states m !! l = Some s → ts_ready s = false →
     Z.of_nat (size (readyPartitions s)) ≠ NumPartitions (Spec (ts_ch s)) →
     ∃ s', states m' !! l = Some s' ∧ state_le s s' ∧
       (readyPartitions s' = readyPartitions s ∧ ts_ready s' = false ∨
        (∃ id wi, id ∈ workQueue m ∧ probes m !! id = Some wi ∧ wi_targetStates wi = l) ∧
        (NumPartitions (Spec (ts_ch s)) < Z.of_nat (size (readyPartitions s')) → ts_ready s' = false))) →
  (∀ id wi, id ∈ workQueue m' → probes m' !! id = Some wi → wi_targetStates wi = l →
     ∃ id' wi', id' ∈ workQueue m ∧ probes m !! id' = Some wi' ∧ wi_targetStates wi' = l) →
  stuck_state uid l gen pods m'.
Proof.
  intros (_ & s & Hs & Hr & Hg & Hp & Hne & Hq) Ht Hst Hq'. split; [done|].
  destruct (Hst s Hs Hr Hne) as (s' & Hs' & Hle & Hcase). destruct Hle as [Hsub Hch Hpods Hparts _ _].
  assert (Hsz : (size (readyPartitions s) ≤ size (readyPartitions s'))%nat) by by apply subseteq_size.
  exists s'. rewrite Hch, Hsub, Hpods. split; [done|].
  destruct Hcase as [[Heq Hr']|[(id & wi & Hin & Hid & Hl) Hr']].
  - rewrite Heq. split_and!; try done. destruct Hq as [?|Hq]; [by left|right].
    intros id wi Hin Hid Hl. destruct (Hq' _ _ Hin Hid Hl) as (id' & wi' & Hin' & Hid' & Hl').
    exact (Hq _ _ Hin' Hid' Hl').
  - destruct Hq as [Hover|Hq]; [|by destruct (Hq _ _ Hin Hid)].
    split_and!; [apply Hr'; lia|done|done|lia|left; lia].
Qed.

Lemma add_probes_frame l' target ips l : ∀ m,
  l ≠ l' →
  let m' := foldl (add_probe l' target) m ips in
  (∀ id wi, id ∈ workQueue m' → probes m' !! id = Some wi → wi_targetStates wi = l →
     id ∈ workQueue m ∧ probes m !! id = Some wi) ∧
  states m' = states m ∧ targetStates m' = targetStates m.
Proof.
  induction ips as [|ip ips IH]; intros m Hne; cbn [foldl]; [by auto|].
  destruct (IH (add_probe l' target m ip) Hne) as (Hq & Hst & Htg). split_and!.
  - intros id wi Hin Hid Hl. destruct (Hq id wi Hin Hid Hl) as [Hin' Hid'].
    unfold add_probe, ip_context in Hin', Hid'.
    destruct (podContexts m !! ip); simpl in Hin', Hid'; rewrite lookup_insert_Some in Hid';
      (destruct Hid' as [[_ <-]|[? ?]]; [by destruct Hne|]); (split; [set_solver|done]).
  - rewrite Hst. unfold add_probe, ip_context. by destruct (podContexts m !! ip).
  - rewrite Htg. unfold add_probe, ip_context. by destruct (podContexts m !! ip).
Qed.

(** Probing another subscription. *)
Lemma stuck_probeTarget uid l gen pods tr n c sub target m :
  prober_inv tr m → sub_UID sub ≠ uid →
  stuck_state uid l gen pods m → stuck_state uid l gen pods (probeTarget n c sub target m).
Proof.
  intros Hinv Huid Hstuck. assert (Hstuck' := Hstuck). destruct Hstuck' as (Ht & s & Hs & _).
  assert (Hl : (l < fresh_id m)%nat) by by eapply pi_states.
  unfold probeTarget. set (m0 := new_state c sub target m).
  destruct (add_probes_frame (fresh_id m) target (range_order n (elements (PodIPs target))) l m0)
    as (Hq & Hst & Htg); [lia|]. cbv zeta.
  apply (stuck_frame _ _ _ _ m); [done|..]; simpl.
  - by rewrite lookup_insert_ne, Htg.
  - intros s0 Hs0 Hr _. exists s0. rewrite Hst. simpl. rewrite lookup_insert_ne by lia.
    split; [done|]. split; [apply state_le_refl|by left].
  - intros id wi Hin Hid Hwi. exists id, wi. destruct (Hq _ _ Hin Hid Hwi). done.
Qed.

Lemma stuck_eject uid l gen pods uid' m :
  uid' ≠ uid → stuck_state uid l gen pods m → stuck_state uid l gen pods (ejectStateUnsafe uid' m).
Proof.
  intros Huid Hstuck. assert (Hstuck' := Hstuck). destruct Hstuck' as (Ht & _).
  unfold ejectStateUnsafe. destruct (targetStates m !! uid') as [l'|]; [|done].
  apply (stuck_frame _ _ _ _ m); [done|..]; simpl; [by rewrite lookup_delete_ne| |eauto].
  intros s Hs Hr _. rewrite lookup_alter. destruct (decide (l' = l)) as [->|]; rewrite Hs; simpl; eexists; (split; [reflexivity|]);
    (split; [apply set_cancelled_le || apply state_le_refl|by left]).
Qed.

(** The state of a subscription is not that of another. *)
Lemma stuck_IsReady uid l gen pods tr n target c sub m :
  prober_inv tr m →
  (sub_UID sub = uid → sub_Generation sub = gen ∧ ∀ t, target = inr t → PodIPs t = pods) →
  stuck_state uid l gen pods m → stuck_state uid l gen pods (prober_IsReady n target c sub m).2.
Proof.
  intros Hinv Hquiet Hstuck. assert (Hstuck' := Hstuck). destruct Hstuck' as (Ht & s & Hs & Hr & Hg & Hp & Hne & Hq).
  unfold prober_IsReady. destruct target as [err|target]; [done|].
  destruct (decide (sub_UID sub = uid)) as [Heq|Huid].
  - destruct (Hquiet Heq) as [Hgen Hpods]. rewrite Heq, Ht. simpl. rewrite Hs. simpl.
    assert (isOutdatedTargetState s sub (PodIPs target) = false) as ->.
    { unfold isOutdatedTargetState. rewrite Hg, Hgen, Hp, (Hpods target eq_refl), Hr.
      rewrite bool_decide_false by (by intros []). by rewrite bool_decide_true. }
    unfold checkReadiness. rewrite Hr, bool_decide_false by done. simpl.
    apply (stuck_frame _ _ _ _ m); [done|done|..]; simpl; [|eauto].
    intros s0 Hs0 Hr0 _. simplify_eq. eexists. rewrite lookup_insert_eq.
    split; [done|]. split; [by split; simpl; congruence || set_solver|by left].
  - destruct (targetStates m !! sub_UID sub ≫= _) as [[l' s']|] eqn:E; [|by eapply stuck_probeTarget].
    apply target_state_Some in E as [Ht' Hs'].
    destruct (isOutdatedTargetState _ _ _);
      [by eapply stuck_probeTarget; [apply eject_inv| |apply stuck_eject]|].
    destruct (checkReadiness s') as [ready s2] eqn:E. simpl.
    apply (stuck_frame _ _ _ _ m); [done|done|..]; simpl; [|eauto].
    intros s0 Hs0 Hr0 _. exists s0. rewrite lookup_insert_ne.
    + split; [done|]. split; [apply state_le_refl|by left].
    + intros ->. destruct (pi_target _ _ Hinv _ _ Ht) as (? & ? & ?).
      destruct (pi_target _ _ Hinv _ _ Ht') as (? & ? & ?). congruence.
Qed.

(** [m'] differs from [m] in the counters and flags of the state at [l'], the
    queue and the counters of the probes only, and no probe is new. *)
Record only_state (l' : nat) m m' : Prop := {
  os_target : targetStates m' = targetStates m;
  os_states l : l ≠ l' → states m' !! l = states m !! l;
  os_state s : states m !! l' = Some s → ∃ s', states m' !! l' = Some s' ∧ state_le s s' ∧
    readyPartitions s' = readyPartitions s ∧
    (ts_ready s = false → Z.of_nat (size (readyPartitions s)) ≠ NumPartitions (Spec (ts_ch s)) → ts_ready s' = false);
  os_queue : workQueue m' ⊆ workQueue m;
  os_probes id wi : probes m' !! id = Some wi →
    ∃ wi', probes m !! id = Some wi' ∧ wi_targetStates wi' = wi_targetStates wi;
}.

Lemma only_state_refl l' m : only_state l' m m.
Proof. split; [done|done| |done|eauto]. intros s Hs. exists s. split; [done|]. split; [apply state_le_refl|done]. Qed.

Lemma only_state_state l' m s s' :
  states m !! l' = Some s → state_le s s' → readyPartitions s' = readyPartitions s →
  (ts_ready s = false → Z.of_nat (size (readyPartitions s)) ≠ NumPartitions (Spec (ts_ch s)) → ts_ready s' = false) →
  only_state l' m (with_states m (<[l' := s']> (states m))).
Proof.
  intros Hs Hle Hp Hr. split; simpl; [done| | |done|eauto].
  - intros l Hl. by rewrite lookup_insert_ne.
  - intros s0 Hs0. simplify_eq. exists s'. by rewrite lookup_insert_eq.
Qed.

Lemma only_state_probe l' m id wi p :
  probes m !! id = Some wi → only_state l' m (with_probes m (<[id := with_podState p wi]> (probes m))).
Proof.
  intros Hid. destruct (only_state_refl l' m). split; try done. simpl. intros id' wi'.
  rewrite lookup_insert_Some. intros [[<- <-]|[_ ?]]; eauto.
Qed.

Lemma only_state_queue l' m q : q ⊆ workQueue m → only_state l' m (with_queue m q).
Proof. intros ?. destruct (only_state_refl l' m). by split. Qed.

Lemma only_state_called l' m m' c : only_state l' m m' → only_state l' m (called m' c).
Proof. by intros []. Qed.

Lemma only_state_trans l' m1 m2 m3 : only_state l' m1 m2 → only_state l' m2 m3 → only_state l' m1 m3.
Proof.
  intros [T1 O1 S1 Q1 P1] [T2 O2 S2 Q2 P2]. split.
  - congruence.
  - intros l Hl. by rewrite O2, O1.
  - intros s Hs. destruct (S1 s Hs) as (s2 & Hs2 & Hle & Hp & Hr).
    destruct (S2 s2 Hs2) as (s3 & Hs3 & Hle' & Hp' & Hr').
    exists s3. split; [done|]. split; [by eapply state_le_trans|]. split; [congruence|].
    intros Hready Hne. apply Hr'; [by apply Hr|]. by rewrite Hp, (sl_ch _ _ Hle).
  - set_solver.
  - intros id wi Hid. destruct (P2 _ _ Hid) as (wi2 & Hid2 & <-). eauto.
Qed.

Lemma checkReadiness_moves s :
  state_le s (checkReadiness s).2 ∧ readyPartitions (checkReadiness s).2 = readyPartitions s ∧
  (ts_ready s = false → Z.of_nat (size (readyPartitions s)) ≠ NumPartitions (Spec (ts_ch s)) →
   ts_ready (checkReadiness s).2 = false).
Proof.
  split; [apply checkReadiness_le|]. unfold checkReadiness. destruct (ts_ready s); simpl; [done|].
  split; [done|]. intros _ ?. by rewrite bool_decide_false.
Qed.

Lemma onProbingSuccess_only id wi s m :
  probes m !! id = Some wi → states m !! wi_targetStates wi = Some s →
  only_state (wi_targetStates wi) m (onProbingSuccess id wi s m).
Proof.
  intros Hid Hs. unfold onProbingSuccess. destruct (decide _); [|by apply only_state_probe].
  destruct (checkReadiness_moves s) as (Hle & Hp & Hr). destruct (checkReadiness s) as [ready s']. cbn in Hle, Hp, Hr.
  pose proof (only_state_probe (wi_targetStates wi) m id wi (mkPodState (pod_pendingCount (wi_podState wi) - 1) true) Hid) as H1.
  set (m1 := with_probes m _) in *. assert (Hs1 : states m1 !! wi_targetStates wi = Some s) by done.
  eapply only_state_trans; [exact H1|]. destruct ready; [apply only_state_called|].
  - eapply only_state_state; [exact Hs1| |done|done]. eapply state_le_trans; [done|apply set_cancelled_le].
  - by eapply only_state_state.
Qed.

Lemma onProbingCancellation_only id wi s m :
  probes m !! id = Some wi → states m !! wi_targetStates wi = Some s →
  only_state (wi_targetStates wi) m (onProbingCancellation id wi s m).
Proof.
  intros Hid Hs. unfold onProbingCancellation. destruct (decide (_ ≤ 0)); [apply only_state_refl|].
  destruct (checkReadiness_moves (dec_pending s)) as (Hle & Hp & Hr).
  destruct (checkReadiness (dec_pending s)) as [ready s']. cbn in Hle, Hp, Hr.
  pose proof (only_state_probe (wi_targetStates wi) m id wi (mkPodState 0 (pod_cancelled (wi_podState wi))) Hid) as H1.
  set (m1 := with_probes m _) in *. assert (Hs1 : states m1 !! wi_targetStates wi = Some s) by done.
  eapply only_state_trans; [exact H1|]. destruct (decide _).
  - assert (H2 : only_state (wi_targetStates wi) m1 (with_states m1 (<[wi_targetStates wi := s']> (states m1)))).
    { eapply only_state_state; [exact Hs1| |done|done]. eapply state_le_trans; [apply dec_pending_le|done]. }
    destruct ready; [by apply only_state_called|done].
  - eapply only_state_state; [exact Hs1|apply dec_pending_le|done|done].
Qed.

(** A stuck state survives such a change, after more partitions were heard of
    from a queued probe. *)
Lemma stuck_only uid l gen pods l' m m' :
  stuck_state uid l gen pods m → only_state l' m m' → stuck_state uid l gen pods m'.
Proof.
  intros Hstuck [Ht Ho Hs Hq Hp]. assert (Hstuck' := Hstuck). destruct Hstuck' as (Htu & _).
  apply (stuck_frame _ _ _ _ m); [done|by rewrite Ht| |].
  - intros s Hls Hr Hne. destruct (decide (l = l')) as [<-|Hl].
    + destruct (Hs s Hls) as (s' & Hs' & Hle & Hpa & Hr'). exists s'. split; [done|]. split; [done|]. left. auto.
    + exists s. rewrite Ho by done. split; [done|]. split; [apply state_le_refl|by left].
  - intros id wi Hin Hid Hl. destruct (Hp _ _ Hid) as (wi' & Hid' & Heq). exists id, wi'. rewrite Heq. auto.
Qed.

Lemma probeVerifier_ready a s : ts_ready (probeVerifier a s).2 = ts_ready s.
Proof.
  unfold probeVerifier. destruct a as [|code body]; [done|].
  repeat (destruct (decide _) || destruct body as [subs|] || destruct (subs !! _)); done.
Qed.

Lemma stuck_process uid l gen pods id a m :
  id ∈ workQueue m → stuck_state uid l gen pods m → stuck_state uid l gen pods (processWorkItem id a m).
Proof.
  intros Hin Hstuck. unfold processWorkItem. destruct (probes m !! id) as [wi|] eqn:Hid; [|done].
  destruct (states m !! wi_targetStates wi) as [s|] eqn:Hs; [|done].
  pose proof (probeVerifier_le a s) as Hle. pose proof (probeVerifier_ready a s) as Hr.
  destruct (probeVerifier a s) as [ok s']. cbn [fst snd] in *. cbv zeta.
  set (m1 := with_states (with_queue m _) _).
  assert (H1 : stuck_state uid l gen pods (with_queue m1 (workQueue m))).
  { assert (Hstuck' := Hstuck). destruct Hstuck' as (Ht & _).
    apply (stuck_frame _ _ _ _ m); [done|done|..]; simpl; [|eauto]. intros s0 Hs0 Hr0 _.
    destruct (decide (wi_targetStates wi = l)) as [<-|Hl].
    - simplify_eq. exists s'. rewrite lookup_insert_eq. split; [done|]. split; [done|].
      right. split; [by exists id, wi|]. intros _. congruence.
    - exists s0. rewrite lookup_insert_ne by done. split; [done|]. split; [apply state_le_refl|by left]. }
  assert (H2 : stuck_state uid l gen pods m1).
  { eapply (stuck_only _ _ _ _ l); [exact H1|]. eapply (only_state_queue l (with_queue m1 (workQueue m))). simpl. set_solver. }
  destruct (context_done _ _ _); [done|]. destruct ok; simpl.
  - eapply stuck_only; [exact H2|]. apply onProbingSuccess_only; [done|]. unfold m1. simpl. by rewrite lookup_insert_eq.
  - eapply (stuck_only _ _ _ _ l); [exact H1|].
    eapply (only_state_queue l (with_queue m1 (workQueue m))). simpl. set_solver.
Qed.

Lemma quiet_step_stuck uid l gen pods tr m rs m' :
  prober_inv tr m → stuck_state uid l gen pods m → quiet_step uid gen pods m rs m' → stuck_state uid l gen pods m'.
Proof.
  intros Hinv Hstuck Hstep. destruct Hstep.
  - by eapply stuck_IsReady.
  - by apply stuck_eject.
  - unfold CancelPodProbing. by destruct (podContexts m !! ip).
  - by apply stuck_process.
  - unfold notice_cancellation. destruct (probes m !! id) as [wi|] eqn:Hid; [|done].
    destruct (states m !! wi_targetStates wi) as [s|] eqn:Hl; [|done].
    destruct (context_done _ _ _); [|done]. eapply stuck_only; [done|]. by apply onProbingCancellation_only.
Qed.

Lemma quiet_run_stuck uid l gen pods m rs m' tr :
  prober_inv tr m → stuck_state uid l gen pods m → quiet_run uid gen pods m rs m' →
  stuck_state uid l gen pods m'.
Proof.
  intros Hinv Hstuck Hrun. revert tr Hinv Hstuck. induction Hrun as [|m rs m' rs' m'' Hstep Hrun IH]; [done|].
  intros tr Hinv Hstuck. apply (IH (tr ++ rs)); [|by eapply quiet_step_stuck].
  eapply prober_step_inv; [done|]. by eapply quiet_step_step.
Qed.
End stuck.

(** ** Properties *)
Section properties.
Context `{GoRuntime}.
Implicit Types (m : Prober) (s : targetState) (tr : list report).

(** C11: In every run of the prober, a subscription is declared ready, by
    [IsReady] or by a call of the ready callback, only on evidence: there are at
    least [NumPartitions] distinct partitions, and each of them was reported
    ready for that state by one of the pods probed for it.  An answer of
    [IsReady] concerns the generation of the subscription it was asked about. *)
Theorem ready_is_evidenced tr m (run : prober_run tr m) :
  (∀ n target c sub m', prober_IsReady n target c sub m = ((true, None), m') →
     ∃ l s, states m !! l = Some s ∧ evidenced tr l s ∧ sub_UID (ts_sub s) = sub_UID sub ∧
       sub_Generation (ts_sub s) = sub_Generation sub) ∧
  (∀ c sub, (c, sub) ∈ callbacks m →
     ∃ l s, states m !! l = Some s ∧ evidenced tr l s ∧ ts_ch s = c ∧ ts_sub s = sub).
Proof.
  split; [intros *; by apply IsReady_evidenced|]. apply prober_run_inv in run. intros c sub Hin.
  destruct (pi_callbacks _ _ run _ _ Hin) as (l & s & Hl & Hr & Hc & Hsub).
  destruct (pi_states _ _ run _ _ Hl) as [Hok _]. exists l, s. split; [done|]. split; [|done].
  split; [by apply Hok|apply Hok].
Qed.

Lemma probe_completes id m wi s subscriptions ps
    (queued : probes m !! id = Some wi) (state : states m !! wi_targetStates wi = Some s)
    (alive : context_done wi s m = false) (one : pod_pendingCount (wi_podState wi) = 1)
    (answer : subscriptions !! sub_UID (ts_sub s) = Some ps)
    (complete : Z.of_nat (size (list_to_set ps ∪ readyPartitions s : gset Z)) = NumPartitions (Spec (ts_ch s))) :
  let m' := processWorkItem id (ProbeResponse 200 (Some subscriptions)) m in
  (id ∉ workQueue m') ∧ callbacks m' = callbacks m ++ [(ts_ch s, ts_sub s)] ∧ targetStates m' = targetStates m ∧
  (∃ s', states m' !! wi_targetStates wi = Some s' ∧ ts_ready s' = true ∧ ts_sub s' = ts_sub s) ∧
  ∀ n target c sub, targetStates m !! sub_UID sub = Some (wi_targetStates wi) →
    sub_Generation (ts_sub s) = sub_Generation sub →
    (prober_IsReady n (inr target) c sub m').1 = (true, None).
Proof.
  unfold processWorkItem. rewrite queued, state. unfold probeVerifier. rewrite decide_True, answer by done. cbv zeta.
  replace (context_done wi (add_partitions ps s) _) with false by (by rewrite <- alive). cbn [negb].
  unfold onProbingSuccess. rewrite one, decide_True by done.
  assert (checkReadiness (add_partitions ps s) = (true, set_ready true (add_partitions ps s))) as ->.
  { unfold checkReadiness. cbn. destruct (ts_ready s) eqn:Er.
    - unfold set_ready, add_partitions. cbn. by rewrite Er.
    - by rewrite bool_decide_true. }
  cbn. split_and!; [set_solver|done|done|by rewrite lookup_insert_eq; eexists|]. intros n target c sub -> Hg. simpl. rewrite lookup_insert_eq. simpl.
  assert (isOutdatedTargetState (set_cancelled (set_ready true (add_partitions ps s))) sub (PodIPs target) = false) as ->.
  { unfold isOutdatedTargetState. cbn. rewrite Hg, bool_decide_false by (by intros []). done. }
  done.
Qed.

(** The pod's answer that completes the partitions makes the subscription
    ready: the probe leaves the queue, the callback runs once with the channel
    and the subscription of the state, and from then on [IsReady] answers true
    for that generation, whichever pods there are. *)
Theorem probe_completes_subscription id m wi s subscriptions ps
    (queued : probes m !! id = Some wi) (state : states m !! wi_targetStates wi = Some s)
    (alive : context_done wi s m = false) (one : pod_pendingCount (wi_podState wi) = 1)
    (answer : subscriptions !! sub_UID (ts_sub s) = Some ps)
    (complete : Z.of_nat (size (list_to_set ps ∪ readyPartitions s : gset Z)) = NumPartitions (Spec (ts_ch s))) :
  let m' := processWorkItem id (ProbeResponse 200 (Some subscriptions)) m in
  (id ∉ workQueue m') ∧ callbacks m' = callbacks m ++ [(ts_ch s, ts_sub s)] ∧
  ∀ n target c sub, targetStates m !! sub_UID sub = Some (wi_targetStates wi) →
    sub_Generation (ts_sub s) = sub_Generation sub →
    (prober_IsReady n (inr target) c sub m').1 = (true, None).
Proof.
  destruct (probe_completes id m wi s subscriptions ps queued state alive one answer complete) as (? & ? & _ & _ & ?). done.
Qed.

(** Cancelling the probing of a subscription, or of a pod, drops its
    probes: whatever the pod answers, the item is not queued again and no
    callback runs; and [IsReady] no longer knows the cancelled subscription. *)
Theorem cancelled_probe_dropped tr id m wi s (run : prober_run tr m)
    (queued : probes m !! id = Some wi) (state : states m !! wi_targetStates wi = Some s) :
  let dropped m1 := ∀ a, let m2 := processWorkItem id a m1 in
    workQueue m2 = workQueue m1 ∖ {[id]} ∧ callbacks m2 = callbacks m1 ∧ targetStates m2 = targetStates m1 in
  (∀ sub, targetStates m !! sub_UID sub = Some (wi_targetStates wi) →
     dropped (CancelProbing sub m) ∧ targetStates (CancelProbing sub m) !! sub_UID sub = None) ∧
  (podContexts m !! wi_podIP wi = Some (wi_ipContext wi) → dropped (CancelPodProbing (wi_podIP wi) m)).
Proof.
  assert (Hdrop : ∀ m1 s1, probes m1 !! id = Some wi → states m1 !! wi_targetStates wi = Some s1 →
    (ts_cancelled s1 = true ∨ wi_ipContext wi ∈ cancelled m1) →
    ∀ a, let m2 := processWorkItem id a m1 in
    workQueue m2 = workQueue m1 ∖ {[id]} ∧ callbacks m2 = callbacks m1 ∧ targetStates m2 = targetStates m1).
  { intros m1 s1 Hid Hs Hc a. unfold processWorkItem. rewrite Hid, Hs.
    pose proof (probeVerifier_le a s1) as Hle. destruct (probeVerifier a s1) as [ok s']. cbn in Hle. cbv zeta.
    assert (Hd : ∀ q h, context_done wi s' (with_states (with_queue m1 q) h) = true).
    { intros q h. unfold context_done. destruct Hc as [Hc|Hc]; cbn.
      - by rewrite (sl_cancelled _ _ Hle Hc), orb_true_r.
      - by rewrite bool_decide_true, orb_true_r. }
    by rewrite Hd. }
  intros dropped. split.
  - intros sub Ht. unfold dropped, CancelProbing, ejectStateUnsafe. rewrite Ht. split; [|cbn; by rewrite lookup_delete_eq].
    apply (Hdrop _ (set_cancelled s)); [done| |by left]. cbn. by rewrite lookup_alter_eq, state.
  - intros Hc. unfold dropped, CancelPodProbing. rewrite Hc. apply (Hdrop _ s); [done|done|right; cbn; set_solver].
Qed.

(** A pod that answers 200 is not asked again, and readiness is tested for
    equality.  Hence a subscription whose pods have all answered without
    completing the [NumPartitions] of the channel, or that reported more of
    them, never becomes ready as long as its generation and the set of pods stay
    the same, whatever other subscriptions, probes and pods do. *)
Theorem stuck_subscription_never_ready tr uid l gen pods m rs m' n c sub target
    (run : prober_run tr m) (stuck : stuck_state uid l gen pods m) (quiet : quiet_run uid gen pods m rs m')
    (same : sub_UID sub = uid) (generation : sub_Generation sub = gen) (ips : PodIPs target = pods) :
  (prober_IsReady n (inr target) c sub m').1 = (false, None) ∧
  ∃ s, states m' !! l = Some s ∧ ts_ready s = false.
Proof.
  apply prober_run_inv in run. destruct (quiet_run_stuck _ _ _ _ _ _ _ _ run stuck quiet)
    as (Ht & s & Hs & Hr & Hg & Hp & Hne & _). split; [|by exists s].
  unfold prober_IsReady. rewrite same, Ht. simpl. rewrite Hs. simpl.
  unfold isOutdatedTargetState, checkReadiness.
  rewrite Hg, generation, Hp, ips, Hr, bool_decide_false by (by intros []).
  rewrite (bool_decide_true (pods = pods)) by done. simpl. by rewrite bool_decide_false.
Qed.
End properties.

(** The URL of a probe survives its way through texts: for a channel with the names
    that an API server accepts, the text that the lister builds parses into the URL with
    the host of the dispatcher's service and the path of the channel; the copy that
    [processWorkItem] makes through [String] and [Parse] is that URL and never fails; and
    the text it requests is the lister's. *)
Theorem probe_url_roundtrip c (name : api_name (ch_Name c)) (namespace : api_name (ch_Namespace c)) :
  Parse (probe_text c) = Some (probe_url c) ∧
  deepCopy (probe_url c) = Some (probe_url c) ∧
  url_String (probe_url c) = probe_text c.
Proof.
  pose proof (Parse_String _ (probe_url_well_formed c name namespace)) as Hp.
  pose proof (probe_url_String c name namespace) as Hs. unfold deepCopy. by rewrite <-Hs.
Qed.


(** ** Witnesses *)
Section demo.
#[local] Existing Instance Channel.demo_runtime.

Definition demo_sub : SubscriberSpec := mkSubscriberSpec "u1" 1 (Some (http_url "sub")) None None.
Definition demo_ch (partitions : Z) : KafkaTopicChannel :=
  mkChannel (new_meta "ch" "ns" None [])
    (mkSpec partitions 1 [] (Channel.mkNet (mkSASL false None None None) (mkTLS false None None None)) "topic" [] None)
    (status demo_status).
Definition demo_target : ProbeTarget := mkProbeTarget {["10.0.0.1"]} "8081" (probe_url (demo_ch 1)).
Definition demo_answer (ps : list Z) : probe_answer := ProbeResponse 200 (Some {["u1" := ps]}).

(** A channel of [partitions] partitions, one pod probed, that reports [ps]. *)
Definition demo_queued (partitions : Z) : Prober := (prober_IsReady 0 (inr demo_target) (demo_ch partitions) demo_sub NewProber).2.
Definition demo_probed (partitions : Z) (ps : list Z) : Prober :=
  processWorkItem 2 (demo_answer ps) (demo_queued partitions).

Lemma demo_run_queued partitions : prober_run [] (demo_queued partitions).
Proof. exact (run_step _ _ _ _ run_new (step_IsReady 0 _ _ _ _)). Qed.
Lemma demo_run_probed partitions ps :
  prober_run ([] ++ report_of 2 (demo_answer ps) (demo_queued partitions)) (demo_probed partitions ps).
Proof.
  apply (run_step _ _ _ _ (demo_run_queued partitions)). apply step_process. vm_compute. reflexivity.
Qed.

Lemma ready_is_evidenced_witness :
  ∃ l s, states (demo_probed 2 [0; 1]) !! l = Some s ∧ ts_sub s = demo_sub ∧
    2 ≤ Z.of_nat (size (readyPartitions s)).
Proof.
  destruct (ready_is_evidenced _ _ (demo_run_probed 2 [0; 1])) as [_ Hcb].
  destruct (Hcb (demo_ch 2) demo_sub) as (l & s & Hl & (Hn & _) & Hch & Hsub).
  - apply list_elem_of_here.
  - exists l, s. rewrite Hch in Hn. split; [exact Hl|]. split; [exact Hsub|exact Hn].
Defined.

Lemma probe_completes_subscription_witness :
  (prober_IsReady 1 (inr demo_target) (demo_ch 2) demo_sub (demo_probed 2 [0; 1])).1 = (true, None).
Proof.
  eapply (probe_completes_subscription 2 (demo_queued 2) _ _ {["u1" := [0; 1]]} [0; 1]);
    vm_compute; reflexivity.
Defined.

Lemma cancelled_probe_dropped_witness :
  workQueue (processWorkItem 2 (demo_answer [0; 1]) (CancelProbing demo_sub (demo_queued 2))) = ∅ ∧
  targetStates (CancelProbing demo_sub (demo_queued 2)) !! "u1" = None.
Proof.
  destruct (cancelled_probe_dropped _ 2 (demo_queued 2) _ _ (demo_run_queued 2) eq_refl eq_refl) as [Hsub _].
  destruct (Hsub demo_sub ltac:(vm_compute; reflexivity)) as [Hd Ht].
  destruct (Hd (demo_answer [0; 1])) as (Hq & _). split; [|exact Ht].
  rewrite Hq. vm_compute. reflexivity.
Defined.

Lemma stuck_subscription_never_ready_witness :
  stuck_state "u1" 0 1 {["10.0.0.1"]} (demo_probed 2 [0]) ∧
  (prober_IsReady 3 (inr demo_target) (demo_ch 2) demo_sub
     (prober_IsReady 2 (inr demo_target) (demo_ch 2) demo_sub (demo_probed 2 [0])).2).1 = (false, None).
Proof.
  assert (Hst : stuck_state "u1" 0 1 {["10.0.0.1"]} (demo_probed 2 [0])).
  { split; [vm_compute; reflexivity|]. eexists. split; [vm_compute; reflexivity|].
    split_and!; [vm_compute; reflexivity..|vm_compute; discriminate|].
    right. intros id wi Hin. exfalso. revert Hin.
    assert (workQueue (demo_probed 2 [0]) = ∅) as -> by (vm_compute; reflexivity). apply not_elem_of_empty. }
  split; [exact Hst|].
  refine (proj1 (stuck_subscription_never_ready _ _ _ _ _ _ _ _ _ _ _ _ (demo_run_probed 2 [0]) Hst
    (quiet_cons _ _ _ _ _ _ _ _ (quiet_IsReady _ _ _ 2 (inr demo_target) (demo_ch 2) demo_sub _ _) (quiet_nil _ _ _ _)) _ _ _));
    [|reflexivity..].
  intros _. split; [reflexivity|]. intros t Ht. injection Ht as <-. reflexivity.
Defined.

Lemma probe_url_roundtrip_witness :
  Parse "http://ch-dispatcher.ns/ns/ch" = Some (probe_url (demo_ch 1)) ∧ deepCopy (probe_url (demo_ch 1)) = Some (probe_url (demo_ch 1)).
Proof.
  destruct (probe_url_roundtrip (demo_ch 1)) as (Hp & Hc & _); [split; [discriminate|reflexivity]..|].
  split; [exact Hp|exact Hc].
Defined.
End demo.
