(* ===== verification/Readiness.v ===== *)
(** * Readiness: what a run keeps of the states

    More about the prober of [status/status.go] (module [Prober]): whatever the
    goroutines do, the states of the subscriptions only grow ([prober_steps_heap]), so that
    a call of [IsReady] that others interrupt answers on evidence too; the cancel
    contexts of the pods are well formed in every run, so that a new subscription
    is probed by items that nothing has cancelled; and a refresh that found a
    subscription unready drops its state also when it has become ready meanwhile. *)
From S2P Require Import Prelude GoStrings ApiTypes Channel Prober.
Local Open Scope Z_scope.

Section moves.
Context `{GoRuntime}.
Implicit Types (m : Prober) (s : targetState) (tr : list report) (uid : string) (l : nat).

(** The context of a pod in the map is live, and contexts are not shared. *)
Record contexts_ok m : Prop := {
  co_live ip c : podContexts m !! ip = Some c → (c < fresh_id m)%nat ∧ c ∉ cancelled m;
  co_cancelled c : c ∈ cancelled m → (c < fresh_id m)%nat;
  co_inj ip ip' c : podContexts m !! ip = Some c → podContexts m !! ip' = Some c → ip = ip';
}.

(** [m] moves on to [m'] without changing the states of subscriptions outside
    [P]. *)
Record moves (P : string → Prop) m m' : Prop := {
  mv_heap : heap_le (states m) (states m');
  mv_target uid : ¬ P uid → targetStates m' !! uid = targetStates m !! uid;
  mv_contexts : contexts_ok m → contexts_ok m';
}.

Lemma moves_refl P m : moves P m m.
Proof. split; [apply heap_le_refl|done|done]. Qed.

Lemma moves_trans P m1 m2 m3 : moves P m1 m2 → moves P m2 m3 → moves P m1 m3.
Proof.
  intros [H1 T1 C1] [H2 T2 C2]. split; [by eapply heap_le_trans| |auto].
  intros uid Hu. by rewrite T2, T1.
Qed.

Lemma moves_weaken (P Q : string → Prop) m m' : (∀ uid, P uid → Q uid) → moves P m m' → moves Q m m'.
Proof. intros HPQ [H1 T1 C1]. split; [done| |done]. intros uid Hu. apply T1. auto. Qed.

(** Changes outside of the heap, the map of states and the contexts. *)
Lemma moves_frame P m m' :
  states m' = states m → targetStates m' = targetStates m → podContexts m' = podContexts m →
  cancelled m' = cancelled m → (fresh_id m ≤ fresh_id m')%nat → moves P m m'.
Proof.
  intros Hs Ht Hp Hc Hf. split; [rewrite Hs; apply heap_le_refl|by rewrite Ht|].
  intros [H1 H2 H3]. split; intros *; rewrite ?Hp, ?Hc.
  - intros Hip. destruct (H1 _ _ Hip). split; [lia|done].
  - intros Hin. specialize (H2 _ Hin). lia.
  - apply H3.
Qed.

Lemma moves_state P m l s s' :
  states m !! l = Some s → state_le s s' → moves P m (with_states m (<[l := s']> (states m))).
Proof. intros Hl Hle. split; [by eapply heap_le_insert|done|by intros []]. Qed.

Lemma moves_ip_context P ip m : moves P m (ip_context ip m).2.
Proof.
  unfold ip_context. destruct (podContexts m !! ip) as [c|] eqn:E; [apply moves_refl|].
  split; simpl; [apply heap_le_refl|done|]. intros [H1 H2 H3]. split; simpl; intros *.
  - rewrite lookup_insert_Some. intros [[_ <-]|[_ Hip]].
    + split; [lia|]. intros Hin%H2. lia.
    + destruct (H1 _ _ Hip). split; [lia|done].
  - intros Hin%H2. lia.
  - rewrite !lookup_insert_Some. intros [[<- <-]|[_ Hi]] [[<- Hf]|[_ Hi']]; try done.
    + destruct (H1 _ _ Hi'). lia.
    + subst. destruct (H1 _ _ Hi). lia.
    + by eapply H3.
Qed.

Lemma moves_add_probe P l target m ip : moves P m (add_probe l target m ip).
Proof.
  unfold add_probe. pose proof (moves_ip_context P ip m) as Hc. destruct (ip_context ip m) as [c m1].
  eapply moves_trans; [exact Hc|]. apply moves_frame; simpl; (done || lia).
Qed.

Lemma moves_add_probes P l target ips : ∀ m, moves P m (foldl (add_probe l target) m ips).
Proof.
  induction ips as [|ip ips IH]; intros m; [apply moves_refl|]. cbn [foldl].
  eapply moves_trans; [apply moves_add_probe|apply IH].
Qed.

Lemma moves_probeTarget tr (P : string → Prop) n c sub target m :
  prober_inv tr m → P (sub_UID sub) → moves P m (probeTarget n c sub target m).
Proof.
  intros Hinv HP. unfold probeTarget. set (m0 := new_state c sub target m).
  assert (H0 : moves P m m0).
  { split; simpl; [apply heap_le_new; by eapply states_fresh|done|].
    intros [H1 H2 H3]. split; simpl; [|intros c' Hin%H2; lia|done].
    intros ip c' Hip. destruct (H1 _ _ Hip). split; [lia|done]. }
  eapply moves_trans; [exact H0|]. eapply moves_trans; [apply moves_add_probes|].
  split; simpl; [apply heap_le_refl| |by intros []].
  intros uid Hu. rewrite lookup_insert_ne; [done|]. by intros <-.
Qed.

Lemma moves_eject (P : string → Prop) uid m : P uid → moves P m (ejectStateUnsafe uid m).
Proof.
  intros HP. unfold ejectStateUnsafe. destruct (targetStates m !! uid) as [l|]; [|apply moves_refl].
  split; simpl; [| |by intros []].
  - intros l' s Hs. rewrite lookup_alter. destruct (decide (l = l')) as [->|]; rewrite Hs; eexists; (split; [reflexivity|]);
      [apply set_cancelled_le|apply state_le_refl].
  - intros uid' Hu. rewrite lookup_delete_ne; [done|]. by intros <-.
Qed.

(** Starting to probe anew. *)
Lemma moves_restart tr (P : string → Prop) n c sub target m :
  prober_inv tr m → P (sub_UID sub) → moves P m (probeTarget n c sub target (ejectStateUnsafe (sub_UID sub) m)).
Proof.
  intros Hinv HP. eapply moves_trans; [by apply moves_eject|]. eapply moves_probeTarget; [by apply eject_inv|done].
Qed.

Lemma moves_IsReady tr (P : string → Prop) n target c sub m :
  prober_inv tr m → P (sub_UID sub) → moves P m (prober_IsReady n target c sub m).2.
Proof.
  intros Hinv HP. unfold prober_IsReady. destruct target as [err|target]; [apply moves_refl|].
  destruct (targetStates m !! sub_UID sub ≫= _) as [[l s]|] eqn:E; [|by eapply moves_probeTarget].
  apply target_state_Some in E as [_ Hl].
  destruct (isOutdatedTargetState s sub (PodIPs target)); [by eapply moves_restart|].
  pose proof (checkReadiness_le s). destruct (checkReadiness s) as [ready s']. by eapply moves_state.
Qed.

Lemma moves_onProbingSuccess P id wi s m :
  states m !! wi_targetStates wi = Some s → moves P m (onProbingSuccess id wi s m).
Proof.
  intros Hs. unfold onProbingSuccess. destruct (decide _); [|by apply moves_frame].
  pose proof (checkReadiness_le s) as Hle. destruct (checkReadiness s) as [ready s']. simpl in Hle.
  set (m1 := with_probes m _). eapply (moves_trans _ _ m1); [by apply moves_frame|].
  assert (Hs1 : states m1 !! wi_targetStates wi = Some s) by done. destruct ready; [|by eapply moves_state].
  eapply moves_trans; [eapply moves_state; [exact Hs1|]|by apply moves_frame].
  eapply state_le_trans; [done|apply set_cancelled_le].
Qed.

Lemma moves_onProbingCancellation P id wi s m :
  states m !! wi_targetStates wi = Some s → moves P m (onProbingCancellation id wi s m).
Proof.
  intros Hs. unfold onProbingCancellation. destruct (decide (_ ≤ 0)); [apply moves_refl|].
  set (m1 := with_probes m _). eapply (moves_trans _ _ m1); [by apply moves_frame|].
  assert (Hs1 : states m1 !! wi_targetStates wi = Some s) by done.
  destruct (decide _); [|eapply moves_state; [exact Hs1|apply dec_pending_le]].
  pose proof (checkReadiness_le (dec_pending s)) as Hle. destruct (checkReadiness (dec_pending s)) as [ready s'].
  assert (Hm : moves P m1 (with_states m1 (<[wi_targetStates wi := s']> (states m1)))).
  { eapply moves_state; [exact Hs1|]. eapply state_le_trans; [apply dec_pending_le|done]. }
  destruct ready; [|done]. eapply moves_trans; [exact Hm|by apply moves_frame].
Qed.

Lemma moves_process P id a m : moves P m (processWorkItem id a m).
Proof.
  unfold processWorkItem. destruct (probes m !! id) as [wi|]; [|apply moves_refl].
  destruct (states m !! wi_targetStates wi) as [s|] eqn:Hs; [|apply moves_refl].
  pose proof (probeVerifier_le a s) as Hle. destruct (probeVerifier a s) as [ok s']. cbv zeta.
  set (m1 := with_states (with_queue m _) _).
  assert (H1 : moves P m m1).
  { eapply (moves_trans _ _ (with_queue m (workQueue m ∖ {[id]}))); [by apply moves_frame|by eapply moves_state]. }
  eapply moves_trans; [exact H1|]. destruct (context_done _ _ _); [apply moves_refl|].
  destruct ok; simpl; [|by apply moves_frame].
  apply moves_onProbingSuccess. unfold m1. simpl. by rewrite lookup_insert_eq.
Qed.

Lemma moves_notice P id m : moves P m (notice_cancellation id m).
Proof.
  unfold notice_cancellation. destruct (probes m !! id) as [wi|]; [|apply moves_refl].
  destruct (states m !! wi_targetStates wi) as [s|] eqn:Hs; [|apply moves_refl].
  destruct (context_done _ _ _); [by apply moves_onProbingCancellation|apply moves_refl].
Qed.

Lemma moves_CancelPodProbing P ip m : moves P m (CancelPodProbing ip m).
Proof.
  unfold CancelPodProbing. destruct (podContexts m !! ip) as [c|] eqn:Hc; [|apply moves_refl].
  split; simpl; [apply heap_le_refl|done|]. intros [H1 H2 H3]. split; simpl; intros *.
  - rewrite lookup_delete_Some. intros [Hne Hip]. destruct (H1 _ _ Hip). split; [done|].
    rewrite elem_of_union, elem_of_singleton. intros [->|?]; [|done]. by destruct Hne, (H3 _ _ _ Hc Hip).
  - rewrite elem_of_union, elem_of_singleton. intros [->|?]; [by eapply H1|by apply H2].
  - rewrite !lookup_delete_Some. intros [_ ?] [_ ?]. by eapply H3.
Qed.
End moves.

Section stable.
Context `{GoRuntime}.
Implicit Types (m : Prober) (s : targetState) (tr : list report) (uid : string) (l : nat).

(** The subscription [uid] of the generation [gen] is ready. *)
Definition ready_state uid (gen : Z) m : Prop :=
  ∃ l s, targetStates m !! uid = Some l ∧ states m !! l = Some s ∧ ts_ready s = true ∧
    sub_Generation (ts_sub s) = gen.

Lemma ready_moves P uid gen m m' : moves P m m' → ¬ P uid → ready_state uid gen m → ready_state uid gen m'.
Proof.
  intros [Hh Ht _] Hu (l & s & Hl & Hs & Hr & Hg). destruct (Hh _ _ Hs) as (s' & Hs' & Hle).
  exists l, s'. rewrite Ht by done. split_and!; [done|done|by apply (sl_ready _ _ Hle)|by rewrite (sl_sub _ _ Hle)].
Qed.

(** Asking about a ready subscription. *)
Lemma ready_asked n target c sub m gen :
  ready_state (sub_UID sub) gen m → sub_Generation sub = gen →
  (∀ t, target = inr t → (prober_IsReady n target c sub m).1 = (true, None)) ∧
  moves (λ _, False) m (prober_IsReady n target c sub m).2.
Proof.
  intros (l & s & Hl & Hs & Hr & Hg) Hgen. unfold prober_IsReady. destruct target as [err|target].
  { split; [by intros|apply moves_refl]. }
  rewrite Hl. cbn [mbind option_bind]. rewrite Hs. cbn [fmap option_fmap option_map].
  assert (isOutdatedTargetState s sub (PodIPs target) = false) as ->.
  { unfold isOutdatedTargetState. by rewrite Hg, Hgen, Hr, bool_decide_false by (by intros []). }
  assert (checkReadiness s = (true, s)) as -> by (unfold checkReadiness; by rewrite Hr, Hr).
  split; [by intros|].
  eapply moves_state; [exact Hs|apply state_le_refl].
Qed.

Lemma ready_IsReady tr uid gen n target c sub m :
  prober_inv tr m → (sub_UID sub = uid → sub_Generation sub = gen) → ready_state uid gen m →
  ready_state uid gen (prober_IsReady n target c sub m).2.
Proof.
  intros Hinv Hgen Hready. destruct (decide (sub_UID sub = uid)) as [<-|Hu].
  - eapply (ready_moves (λ _, False)); [|tauto|done]. apply (ready_asked _ _ _ _ _ gen); auto.
  - eapply (ready_moves (λ u, u = sub_UID sub)); [by eapply moves_IsReady|congruence|done].
Qed.

(** ** Every step *)
Lemma moves_piece tr m m' : prober_inv tr m → piece m m' → moves (λ _, True) m m'.
Proof.
  intros Hinv Hp. destruct Hp as
    [l s Hl|l s Hl|l s Hl|uid|l s Hl|c sub target|ip|l s c target ip Hl Hip|id|id Hid|id wi p Hid|l s Hl Hr];
    try by apply moves_frame.
  - eapply moves_state; [done|apply checkReadiness_le].
  - eapply moves_state; [done|apply set_cancelled_le].
  - eapply moves_state; [done|apply dec_pending_le].
  - split; simpl; [apply heap_le_refl|by intros ? []|by intros []].
  - split; simpl; [apply heap_le_refl|by intros ? []|by intros []].
  - split; simpl; [apply heap_le_new; by eapply states_fresh|done|].
    intros [H1 H2 H3]. split; simpl; [|intros c' Hin%H2; lia|done].
    intros ip c' Hip. destruct (H1 _ _ Hip). split; [lia|done].
  - apply moves_ip_context.
  - apply moves_frame; simpl; (done || lia).
Qed.

Lemma moves_refresh tr n lt uids : ∀ m, prober_inv tr m → moves (λ _, True) m (refresh_loop n lt uids m).
Proof.
  induction uids as [|uid uids IH]; intros m Hinv; [apply moves_refl|]. cbn [refresh_loop].
  destruct (targetStates m !! uid ≫= _) as [[l s]|] eqn:E; [|by apply IH].
  apply target_state_Some in E as [_ Hl]. pose proof (checkReadiness_inv _ _ _ _ Hinv Hl) as Hinv'.
  pose proof (checkReadiness_le s) as Hle. destruct (checkReadiness s) as [ready s']. simpl in Hinv', Hle.
  eapply moves_trans; [by eapply moves_state|]. destruct ready; [by apply IH|].
  destruct (lt (ts_ch s')) as [|target]; [apply moves_refl|].
  eapply moves_trans; [by eapply moves_restart|]. by apply IH, probeTarget_inv, eject_inv.
Qed.

Lemma moves_step tr m rs m' : prober_inv tr m → prober_step m rs m' → moves (λ _, True) m m'.
Proof.
  intros Hinv Hstep. destruct Hstep.
  - by eapply moves_piece.
  - eapply moves_state; [done|apply probeVerifier_le].
  - by eapply moves_IsReady.
  - by apply moves_eject.
  - apply moves_CancelPodProbing.
  - by eapply moves_refresh.
  - apply moves_process.
  - apply moves_notice.
Qed.

(** In every run the states only grow. *)
Lemma prober_steps_heap tr m rs m' : prober_run tr m → prober_steps m rs m' → heap_le (states m) (states m').
Proof.
  intros Hrun Hs. revert tr Hrun. induction Hs as [m|m rs m1 rs' m' Hst _ IH]; intros tr Hrun; [apply heap_le_refl|].
  eapply heap_le_trans; [|apply (IH (tr ++ rs)); by eapply run_step].
  eapply mv_heap, moves_step; [by apply prober_run_inv|done].
Qed.

Lemma steps_ready tr m rs m' l s uid :
  prober_run tr m → states m !! l = Some s → ts_ready s = true → prober_steps m rs m' → targetStates m' !! uid = Some l →
  ready_state uid (sub_Generation (ts_sub s)) m'.
Proof.
  intros Hrun Hs Hr Hsteps Ht. destruct (prober_steps_heap _ _ _ _ Hrun Hsteps l s Hs) as (s' & Hs' & Hle).
  exists l, s'. split_and!; [done|done|by apply (sl_ready _ _ Hle)|by rewrite (sl_sub _ _ Hle)].
Qed.

(** Every step keeps the contexts well formed. *)
Lemma prober_step_contexts tr m rs m' :
  prober_inv tr m → contexts_ok m → prober_step m rs m' → contexts_ok m'.
Proof. intros Hinv Hok Hstep. by apply (mv_contexts _ _ _ (moves_step _ _ _ _ Hinv Hstep)). Qed.

Lemma prober_run_contexts tr m : prober_run tr m → contexts_ok m.
Proof.
  induction 1 as [|tr m rs m' Hrun IH Hstep].
  - split; simpl; intros *; rewrite ?lookup_empty; done || set_solver.
  - eapply prober_step_contexts; [by apply prober_run_inv|done|done].
Qed.

(** ** The probes of a new subscription *)

(** The item [id] is queued for the state at [l] and nothing has cancelled it. *)
Definition queued_for l (ip : string) (target : ProbeTarget) (id : nat) m : Prop :=
  id ∈ workQueue m ∧ ∃ c, probes m !! id = Some (mkWorkItem l (mkPodState 1 false) c (pt_URL target) ip (PodPort target)) ∧
    c ∉ cancelled m.

Lemma add_probe_queues l target m ip : contexts_ok m → queued_for l ip target (fresh_id (ip_context ip m).2) (add_probe l target m ip).
Proof.
  intros Hok. unfold add_probe. pose proof (mv_contexts _ _ _ (moves_ip_context (λ _, True) ip m) Hok) as Hok'.
  assert (Hc : podContexts (ip_context ip m).2 !! ip = Some (ip_context ip m).1).
  { unfold ip_context. destruct (podContexts m !! ip) eqn:E; simpl; [done|]. by rewrite lookup_insert_eq. }
  destruct (ip_context ip m) as [c m1]. simpl in *. split; simpl; [set_solver|].
  exists c. split; [by rewrite lookup_insert_eq|]. by eapply co_live.
Qed.

Lemma add_probe_keeps l l' ip ip' target target' id m :
  (id < fresh_id m)%nat → queued_for l ip target id m →
  queued_for l ip target id (add_probe l' target' m ip') ∧ (id < fresh_id (add_probe l' target' m ip'))%nat.
Proof.
  intros Hlt (Hin & c & Hid & Hc). unfold add_probe, ip_context. destruct (podContexts m !! ip'); simpl;
    (split; [|lia]); (split; [simpl; set_solver|]); exists c; simpl; (split; [|done]); by rewrite lookup_insert_ne by lia.
Qed.

Lemma add_probes_keep l ip target id ips : ∀ m,
  (id < fresh_id m)%nat → queued_for l ip target id m → queued_for l ip target id (foldl (add_probe l target) m ips).
Proof.
  induction ips as [|ip' ips IH]; intros m Hlt Hq; [done|]. cbn [foldl].
  destruct (add_probe_keeps l l ip ip' target target id m Hlt Hq). by apply IH.
Qed.

Lemma add_probes_queue l target ip ips : ∀ m,
  contexts_ok m → ip ∈ ips → ∃ id, queued_for l ip target id (foldl (add_probe l target) m ips).
Proof.
  induction ips as [|ip' ips IH]; intros m Hok Hin; [by apply elem_of_nil in Hin|]. cbn [foldl].
  apply elem_of_cons in Hin as [->|Hin].
  - eexists. apply add_probes_keep; [|by apply add_probe_queues].
    unfold add_probe. destruct (ip_context ip' m). simpl. lia.
  - apply IH; [|done]. by apply (mv_contexts _ _ _ (moves_add_probe (λ _, True) l target m ip')).
Qed.

(** Asking about a subscription that is not known queues a probe of every pod,
    for a state that has heard of no partition. *)
Lemma new_subscription_probed tr m n target c sub
    (run : prober_run tr m) (unknown : targetStates m !! sub_UID sub = None) :
  let m' := (prober_IsReady n (inr target) c sub m).2 in
  let s := mkTargetState sub c (Z.of_nat (size (PodIPs target))) ∅ (PodIPs target) false false in
  (prober_IsReady n (inr target) c sub m).1 = (false, None) ∧
  ∃ l, targetStates m' !! sub_UID sub = Some l ∧ states m' !! l = Some s ∧ callbacks m' = callbacks m ∧
    ∀ ip, ip ∈ PodIPs target → ∃ id, queued_for l ip target id m'.
Proof.
  cbv zeta. unfold prober_IsReady. rewrite unknown. simpl. split; [done|]. exists (fresh_id m).
  pose proof (prober_run_inv _ _ run) as Hinv. pose proof (prober_run_contexts _ _ run) as Hok.
  unfold probeTarget. set (m0 := new_state c sub target m).
  assert (Hst : ∀ ips m1, states (foldl (add_probe (fresh_id m) target) m1 ips) = states m1 ∧
                callbacks (foldl (add_probe (fresh_id m) target) m1 ips) = callbacks m1).
  { induction ips as [|ip ips IH]; intros m1; [done|]. cbn [foldl]. destruct (IH (add_probe (fresh_id m) target m1 ip)) as [-> ->].
    unfold add_probe, ip_context. by destruct (podContexts m1 !! ip). }
  destruct (Hst (range_order n (elements (PodIPs target))) m0) as [Hs Hc]. simpl.
  rewrite lookup_insert_eq, Hs, Hc. unfold m0 at 1. simpl. rewrite lookup_insert_eq. split_and!; [done|done|done|].
  intros ip Hip. apply add_probes_queue; [|by rewrite range_order_perm, elem_of_elements].
  destruct Hok as [H1 H2 H3]. split; simpl; [|intros c' Hin%H2; lia|done].
  intros ip' c' Hip'. destruct (H1 _ _ Hip'). split; [lia|done].
Qed.

(** A call of [IsReady] that others interrupt, up to its answer: it reads the pointer to the state
    from the map at one moment, compares it with what it is asked about at a later one, and checks its readiness
    at a third, with any steps of other goroutines between.  When it finds no state, or an outdated one, it answers
    false after the pieces of an ejection and of a new probing, which are not part of it here. *)
Inductive interrupted_IsReady (sub : SubscriberSpec) (ips : gset string) m1 : list report → bool → Prober → Prop :=
  | answers_uncached :
      targetStates m1 !! sub_UID sub = None → interrupted_IsReady sub ips m1 [] false m1
  | answers_outdated l rs m2 s :
      targetStates m1 !! sub_UID sub = Some l → prober_steps m1 rs m2 → states m2 !! l = Some s →
      isOutdatedTargetState s sub ips = true → interrupted_IsReady sub ips m1 rs false m2
  | answers_checked l rs m2 s rs' m3 s' :
      targetStates m1 !! sub_UID sub = Some l → prober_steps m1 rs m2 → states m2 !! l = Some s →
      isOutdatedTargetState s sub ips = false → prober_steps m2 rs' m3 → states m3 !! l = Some s' →
      interrupted_IsReady sub ips m1 (rs ++ rs') (checkReadiness s').1
        (with_states m3 (<[l := (checkReadiness s').2]> (states m3))).

(** Without steps between, it answers as [prober_IsReady]. *)
Lemma uninterrupted_IsReady n target c sub m :
  (∀ l, targetStates m !! sub_UID sub = Some l → is_Some (states m !! l)) →
  ∃ m', interrupted_IsReady sub (PodIPs target) m [] (prober_IsReady n (inr target) c sub m).1.1 m'.
Proof.
  intros Hok. unfold prober_IsReady. destruct (targetStates m !! sub_UID sub) as [l|] eqn:Hl; simpl.
  - destruct (Hok l eq_refl) as [s Hs]. rewrite Hs. simpl.
    destruct (isOutdatedTargetState s sub (PodIPs target)) eqn:Ho; simpl.
    + eexists. eapply answers_outdated; [done|apply steps_nil|done|done].
    + eexists. pose proof (answers_checked sub (PodIPs target) m l [] m s [] m s Hl (steps_nil _) Hs Ho (steps_nil _) Hs) as Hc.
      exact Hc.
  - eexists. by apply answers_uncached.
Qed.

(** C27: However others interrupt a call of [IsReady], it answers true only on evidence: the state
    that it read is of the subscription and the generation it was asked about, and distinct partitions, as many as
    the channel has, were each reported for that state by a pod that was probed for it; also when the state
    is no longer the cached one by then. *)
Theorem interrupted_IsReady_is_evidenced tr m sub ips rs m'
    (run : prober_run tr m) (call : interrupted_IsReady sub ips m rs true m') :
  ∃ l s, states m' !! l = Some s ∧ evidenced (tr ++ rs) l s ∧
    sub_UID (ts_sub s) = sub_UID sub ∧ sub_Generation (ts_sub s) = sub_Generation sub.
Proof.
  remember true as answer eqn:Ha. destruct call as [|l rs m2 s _ _ _ _|l rs m2 s2 rs' m3 s3 cached others there current others' state];
    [done|done|]. exists l, (checkReadiness s3).2. split; [apply lookup_insert_eq|].
  pose proof (prober_run_steps _ _ _ _ run others) as run2. pose proof (prober_run_steps _ _ _ _ run2 others') as run3.
  destruct (pi_target _ _ (prober_run_inv _ _ run) _ _ cached) as (s1 & Hs1 & Huid).
  destruct (prober_steps_heap _ _ _ _ run others l s1 Hs1) as (s2' & Hs2 & Hle1). rewrite there in Hs2. injection Hs2 as <-.
  destruct (prober_steps_heap _ _ _ _ run2 others' l s2 there) as (s3' & Hs3 & Hle2). rewrite state in Hs3. injection Hs3 as <-.
  pose proof (checkReadiness_le s3) as Hle3. rewrite (sl_sub _ _ Hle3), (sl_sub _ _ Hle2).
  unfold isOutdatedTargetState in current.
  apply orb_false_iff in current as [Hg _]. apply bool_decide_eq_false, dec_stable in Hg.
  split; [|split; [by rewrite (sl_sub _ _ Hle1)|done]].
  destruct (pi_states _ _ (prober_run_inv _ _ run3) _ _ state) as [[Hp Hr] _]. rewrite <-app_assoc in Hp.
  unfold checkReadiness in *. destruct (ts_ready s3) eqn:Er; simpl in *; (split; [|exact Hp]); [by apply Hr|].
  apply bool_decide_eq_true in Ha. simpl. lia.
Qed.
End stable.

(** ** Witness *)
Section demo.
#[local] Existing Instance Channel.demo_runtime.

(** A refresh that finds another pod. *)
Definition demo_moved : ProbeTarget := mkProbeTarget {["10.0.0.2"]} "8081" (probe_url (demo_ch 1)).

(** The refresh found "u1" unready, let go of it for a moment, and ejects it now. *)
Definition demo_ejected : Prober :=
  probeTarget 0 (demo_ch 1) demo_sub demo_moved (ejectStateUnsafe "u1" (demo_probed 1 [0])).

Lemma demo_probed_ready : (prober_IsReady 0 (inr demo_moved) (demo_ch 1) demo_sub (demo_probed 1 [0])).1 = (true, None).
Proof. vm_compute. reflexivity. Qed.

(** Readiness is not stable: [RefreshPodProbing] checks a state, and ejects it some steps later, while the workers do
    not take its lock.  In this run the check says no; then a probe of a worker succeeds, the callback
    runs and [IsReady] answers true; then the refresh drops the state and probes anew, and [IsReady]
    answers no. *)
Theorem refresh_ejects_ready_state :
  (∃ s, targetStates (demo_queued 1) !! "u1" = Some 0%nat ∧ states (demo_queued 1) !! 0%nat = Some s ∧ (checkReadiness s).1 = false) ∧
  (prober_IsReady 0 (inr demo_moved) (demo_ch 1) demo_sub (demo_probed 1 [0])).1 = (true, None) ∧
  (∃ tr, prober_run tr demo_ejected) ∧
  (prober_IsReady 0 (inr demo_moved) (demo_ch 1) demo_sub demo_ejected).1 = (false, None).
Proof.
  split; [|split; [exact demo_probed_ready|split; [|by vm_compute]]].
  - eexists. split; [by vm_compute|]. split; [by vm_compute|]. by vm_compute.
  - assert (Hpieces : ∀ m m' tr, rtc piece m m' → prober_run tr m → prober_run tr m').
    { intros m m' tr Hrtc. induction Hrtc as [|m m1 m' Hp _ IH]; intros Hrun; [done|]. apply IH.
      rewrite <-(app_nil_r tr). eapply run_step; [exact Hrun|by apply step_piece]. }
    eexists. eapply Hpieces; [apply probeTarget_pieces|]. eapply Hpieces; [|apply demo_run_probed].
    eapply eject_pieces, prober_run_inv, demo_run_probed.
Qed.

(** The probe of a worker answers between the accesses of the call. *)
Lemma demo_interrupted :
  interrupted_IsReady demo_sub {["10.0.0.1"]} (demo_queued 1) (report_of 2 (demo_answer [0]) (demo_queued 1) ++ []) true (demo_probed 1 [0]).
Proof.
  destruct (states (demo_queued 1) !! 0%nat) as [s0|] eqn:Hs0; [|vm_compute in Hs0; discriminate Hs0].
  destruct (states (demo_probed 1 [0]) !! 0%nat) as [s|] eqn:Hs; [|vm_compute in Hs; discriminate Hs].
  assert (Hst : prober_steps (demo_queued 1) (report_of 2 (demo_answer [0]) (demo_queued 1) ++ []) (demo_probed 1 [0])).
  { eapply steps_cons; [apply (step_process 2 (demo_answer [0])); vm_compute; reflexivity|apply steps_nil]. }
  assert (Ho : isOutdatedTargetState s0 demo_sub {["10.0.0.1"]} = false) by (vm_compute in Hs0; injection Hs0 as <-; reflexivity).
  pose proof (answers_checked demo_sub {["10.0.0.1"]} (demo_queued 1) 0 [] (demo_queued 1) s0 _ (demo_probed 1 [0]) s
    eq_refl (steps_nil _) Hs0 Ho Hst Hs) as Hcall.
  assert (Hc : (checkReadiness s) = (true, s)) by (vm_compute in Hs; injection Hs as <-; reflexivity).
  rewrite Hc in Hcall. cbn [fst snd] in Hcall. rewrite insert_id in Hcall by exact Hs. exact Hcall.
Qed.

Lemma interrupted_IsReady_is_evidenced_witness :
  ∃ l s, states (demo_probed 1 [0]) !! l = Some s ∧ evidenced (report_of 2 (demo_answer [0]) (demo_queued 1) ++ []) l s.
Proof.
  destruct (interrupted_IsReady_is_evidenced [] (demo_queued 1) demo_sub {["10.0.0.1"]} _ (demo_probed 1 [0])
    (demo_run_queued 1) demo_interrupted) as (l & s & Hs & He & _).
  exists l, s. split; [exact Hs|exact He].
Defined.
End demo.
