(* ===== verification/Resources.v ===== *)
(** * Resources: the Kubernetes objects of a channel

    Models [src/pkg/channel/kt/reconciler/controller/resources], [FindContainer]
    of [utils/util.go], the label filter of the pod informer in
    [controller/controller.go] and [GetServiceHostname] of
    [vendor/knative.dev/pkg/network].  [dispatcherLabels] is one package-level
    map that every object shares; nothing in the program writes to it. *)
From Stdlib Require Import Ascii.
From S2P Require Import Prelude GoStrings ApiTypes Channel.

(** ** Cluster domain ([network/domain.go]) *)

(** [strings.TrimSuffix(s, c)] for a one-byte suffix. *)
Fixpoint TrimSuffix1 (s : string) (c : ascii) : string :=
  match s with
  | EmptyString => EmptyString
  | String a EmptyString => if decide (a = c) then EmptyString else s
  | String a s => String a (TrimSuffix1 s c)
  end.

(** The domain that a line of [resolv.conf] names, if it is a search line with an
    element that starts with ["svc."]. *)
Definition search_domain (line : string) : option string :=
  match Split " "%char line with
  | first :: elements =>
      if decide (first = "search") then
        e ← List.find (λ e, HasPrefix e "svc.") elements;
        Some (TrimSuffix1 (String.substring 4 (String.length e - 4) e) "."%char)
      else None
  | [] => None
  end.

Fixpoint find_search_domain (lines : list string) : option string :=
  match lines with
  | [] => None
  | line :: lines =>
      match search_domain line with
      | Some domain => Some domain
      | None => find_search_domain lines
      end
  end.

Definition defaultDomainName : string := "cluster.local".

Definition getClusterDomainName (lines : list string) (CLUSTER_DOMAIN : string) : string :=
  match find_search_domain lines with
  | Some domain => domain
  | None => if bool_decide (CLUSTER_DOMAIN ≠ "") then CLUSTER_DOMAIN else defaultDomainName
  end.

(** The machine: the lines of [resolv.conf], if it opens, and the variable. *)
Class Resolver := { resolv_conf : option (list string); CLUSTER_DOMAIN : string }.

Definition GetClusterDomainName `{Resolver} : string :=
  match resolv_conf with
  | None => defaultDomainName
  | Some lines => getClusterDomainName lines CLUSTER_DOMAIN
  end.

Definition GetServiceHostname `{Resolver} (name namespace : string) : string :=
  name +:+ "." +:+ namespace +:+ ".svc." +:+ GetClusterDomainName.

(** ** The dispatcher deployment ([dispatcher.go]) *)
Definition DispatcherContainerName : string := "dispatcher".

Definition dispatcherLabels : gmap string string :=
  {["messaging.optum.dev/channel" := "kafka-topic-channel"; "messaging.optum.dev/role" := "dispatcher"]}.

Record DispatcherArgs := mkDispatcherArgs {
  DispatcherScope : string;
  DispatcherNamespace : string;
  Image : string;
  Replicas : Z;
  a_ServiceAccount : string;
  ConfigMapHash : string;
  a_Channel : KafkaTopicChannel;
}.

Definition ch_controller_ref (c : KafkaTopicChannel) : OwnerReference :=
  NewControllerRef (meta c) (GetGroupVersionKind c).

Definition literal (name value : string) : EnvVar := mkEnvVar name value None.

Definition appendEnvFromSecretKeyRef (env : list EnvVar) (key : string)
    (ref : option SecretKeySelector) : list EnvVar :=
  match ref with
  | None => env
  | Some ref => env ++ [mkEnvVar key "" (Some (SecretKeyRef ref))]
  end.

Definition NamespaceEnvKey : string := "SYSTEM_NAMESPACE".

Definition makeEnv (args : DispatcherArgs) : list EnvVar :=
  let c := a_Channel args in
  let sasl := net_SASL (Net (Spec c)) in
  let tls := net_TLS (Net (Spec c)) in
  let env := [literal "KAFKA_BOOTSTRAP_SERVERS" (Join "," (BootstrapServers (Spec c)));
              literal "KAFKA_TOPIC" (Topic (Spec c));
              literal "CHANNEL_NAME" (Name (meta c));
              literal "KAFKA_NET_SASL_ENABLE" (FormatBool (sasl_Enable sasl));
              literal "KAFKA_NET_TLS_ENABLE" (FormatBool (tls_Enable tls));
              literal NamespaceEnvKey (Namespace (meta c));
              literal "METRICS_DOMAIN" "knative.dev/eventing";
              literal "CONFIG_LOGGING_NAME" "config-logging";
              literal "CONFIG_LEADERELECTION_NAME" "config-leader-election"] in
  let env := appendEnvFromSecretKeyRef env "KAFKA_NET_SASL_USER" (sasl_User sasl) in
  let env := appendEnvFromSecretKeyRef env "KAFKA_NET_SASL_PASSWORD" (sasl_Password sasl) in
  let env := appendEnvFromSecretKeyRef env "KAFKA_NET_SASL_TYPE" (sasl_Type sasl) in
  let env := appendEnvFromSecretKeyRef env "KAFKA_NET_TLS_CERT" (tls_Cert tls) in
  let env := appendEnvFromSecretKeyRef env "KAFKA_NET_TLS_KEY" (tls_Key tls) in
  let env := appendEnvFromSecretKeyRef env "KAFKA_NET_TLS_CA_CERT" (tls_CACert tls) in
  if decide (DispatcherScope args = "namespace") then
    env ++ [mkEnvVar "NAMESPACE" "" (Some (FieldRef "metadata.namespace"));
            mkEnvVar "POD_NAME" "" (Some (FieldRef "metadata.name"));
            literal "CONTAINER_NAME" "dispatcher"]
  else env.

Definition MakeDispatcher (args : DispatcherArgs) : Deployment :=
  let dispatcherName := Name (meta (a_Channel args)) +:+ "-dispatcher" in
  {| d_APIVersion := "apps/v1";
     d_Kind := "Deployments";
     d_meta := new_meta dispatcherName (DispatcherNamespace args) None [ch_controller_ref (a_Channel args)];
     d_Replicas := Some (Replicas args);
     d_Selector := dispatcherLabels;
     d_Template :=
       {| pt_Labels := dispatcherLabels;
          pt_Annotations := {["sidecar.istio.io/inject" := "false"]};
          pt_ServiceAccountName := a_ServiceAccount args;
          pt_Containers := [{| ctr_Name := DispatcherContainerName;
                               ctr_Image := Image args;
                               ctr_Env := makeEnv args;
                               ctr_Ports := [mkContainerPort "metrics" 9090] |}] |};
     d_Conditions := [] |}.

(** [utils.FindContainer]: the index of the first container of that name. *)
Definition FindContainer (d : Deployment) (containerName : string) : option (nat * Container) :=
  list_find (λ c, ctr_Name c = containerName) (pt_Containers (d_Template d)).

(** ** The services ([dispatcher_service.go], [service.go]) *)
Definition ProtocolTCP : string := "TCP".

Definition MakeDispatcherService (namespace : string) (c : KafkaTopicChannel) : Service :=
  {| s_APIVersion := "v1";
     s_Kind := "Service";
     s_meta := new_meta (Name (meta c) +:+ "-dispatcher") namespace (Some dispatcherLabels) [ch_controller_ref c];
     s_Spec := {| svc_Type := ""; svc_ExternalName := ""; svc_Selector := Some dispatcherLabels;
                  svc_Ports := [mkServicePort "http-dispatcher" ProtocolTCP 80 8080]; svc_Others := ∅ |} |}.

Definition portName : string := "http".
Definition portNumber : Z := 80.
Definition MessagingRoleLabel : string := "messaging.knative.dev/role".
Definition MessagingRole : string := "kafka-channel".

Definition ServiceOption : Type := Service → string + Service.

Definition MakeChannelServiceName (name : string) : string := name +:+ "-kn-channel".

Definition ExternalService `{Resolver} (namespace service : string) : ServiceOption := λ svc,
  inr {| s_APIVersion := s_APIVersion svc; s_Kind := s_Kind svc; s_meta := s_meta svc;
         s_Spec := {| svc_Type := "ExternalName"; svc_ExternalName := GetServiceHostname service namespace;
                      svc_Selector := None; svc_Ports := []; svc_Others := ∅ |} |}.

Fixpoint apply_options (opts : list ServiceOption) (svc : Service) : string + Service :=
  match opts with
  | [] => inr svc
  | opt :: opts => match opt svc with inl err => inl err | inr svc => apply_options opts svc end
  end.

Definition MakeK8sService (c : KafkaTopicChannel) (opts : list ServiceOption) : string + Service :=
  apply_options opts
    {| s_APIVersion := "v1";
       s_Kind := "Service";
       s_meta := new_meta (MakeChannelServiceName (Name (meta c))) (Namespace (meta c))
                   (Some {[MessagingRoleLabel := MessagingRole]}) [ch_controller_ref c];
       s_Spec := {| svc_Type := ""; svc_ExternalName := ""; svc_Selector := None;
                    svc_Ports := [mkServicePort portName ProtocolTCP portNumber 0]; svc_Others := ∅ |} |}.

(** ** RBAC ([role_binding.go], [service_account.go]) *)
Definition MakeRoleBinding (ns name : string) (sa : ServiceAccount) (roleName : string) : RoleBinding :=
  {| rb_meta := new_meta name ns None [];
     rb_RoleRef := mkRoleRef "rbac.authorization.k8s.io" "ClusterRole" roleName;
     rb_Subjects := [mkSubject "ServiceAccount" (Namespace (sa_meta sa)) (Name (sa_meta sa))] |}.

Definition MakeServiceAccount (namespace name : string) : ServiceAccount :=
  mkServiceAccount (new_meta name namespace None []).

(** ** The pod filter of the controller ([controller.go]) *)
Definition channelLabelKey : string := "messaging.optum.dev/channel".
Definition channelLabelValue : string := "kafka-channel".
Definition roleLabelKey : string := "messaging.optum.dev/role".
Definition roleLabelValue : string := "dispatcher".

Definition pod_filter : ObjectMeta → bool :=
  ChainFilterFuncs [LabelFilterFunc channelLabelKey channelLabelValue false;
                    LabelFilterFunc roleLabelKey roleLabelValue false].

(** ** Properties *)

(** The deployment, the two services and the endpoints of a channel fit
    together: the deployment is selected by its own selector and by the
    dispatcher service, which forwards port 80 to 8080; the channel service is an
    alias of the host of the dispatcher service; all three are controlled by the
    channel, in its namespace, under the names that the reconciler looks up. *)
Theorem resources_fit_together `{Resolver} (args : DispatcherArgs) :
  let c := a_Channel args in
  let d := MakeDispatcher args in
  let s := MakeDispatcherService (DispatcherNamespace args) c in
  selects (d_Selector d) (pt_Labels (d_Template d)) ∧
  selects (default ∅ (svc_Selector (s_Spec s))) (pt_Labels (d_Template d)) ∧
  Name (d_meta d) = Name (meta c) +:+ "-dispatcher" ∧ Name (s_meta s) = Name (d_meta d) ∧
  (∃ ctr, FindContainer d DispatcherContainerName = Some (0%nat, ctr) ∧ ctr_Image ctr = Image args) ∧
  (∃ k, MakeK8sService c [ExternalService (DispatcherNamespace args) (Name (s_meta s))] = inr k ∧
     svc_ExternalName (s_Spec k) = GetServiceHostname (Name (s_meta s)) (Namespace (s_meta s)) ∧
     svc_Type (s_Spec k) = "ExternalName" ∧ Name (s_meta k) = MakeChannelServiceName (Name (meta c)) ∧
     IsControlledBy (s_meta k) (meta c) = true) ∧
  IsControlledBy (d_meta d) (meta c) = true ∧ IsControlledBy (s_meta s) (meta c) = true.
Proof.
  cbv zeta. unfold selects. split_and!; try done.
  - eexists. split; [reflexivity|done].
  - eexists. split; [reflexivity|]. split_and!; try done.
    unfold IsControlledBy, GetControllerOf. simpl. by rewrite bool_decide_true.
  - unfold IsControlledBy, GetControllerOf. simpl. by rewrite bool_decide_true.
  - unfold IsControlledBy, GetControllerOf. simpl. by rewrite bool_decide_true.
Qed.

(** The controller's pod informer lets no dispatcher pod through: it asks for
    the channel label ["kafka-channel"] while every pod of a dispatcher carries
    ["kafka-topic-channel"].  So the handlers that refresh the probing when a pod
    comes or goes never see a dispatcher pod. *)
Theorem pod_filter_rejects_dispatchers (args : DispatcherArgs) (pod : ObjectMeta) :
  (∀ k v, pt_Labels (d_Template (MakeDispatcher args)) !! k = Some v → default ∅ (Labels pod) !! k = Some v) →
  pod_filter pod = false.
Proof.
  intros Hpod. assert (Hl := Hpod channelLabelKey "kafka-topic-channel" eq_refl).
  unfold pod_filter. cbn [ChainFilterFuncs]. unfold LabelFilterFunc, mapHasOrDefault. rewrite Hl. done.
Qed.

(** The pods of all channels carry the same labels and every selector asks for
    just these: in one namespace the service and the deployment of one channel
    also select the dispatcher pods of every other channel. *)
Lemma selectors_overlap (args1 args2 : DispatcherArgs) :
  selects (default ∅ (svc_Selector (s_Spec (MakeDispatcherService (DispatcherNamespace args1) (a_Channel args1)))))
    (pt_Labels (d_Template (MakeDispatcher args2))) ∧
  selects (d_Selector (MakeDispatcher args1)) (pt_Labels (d_Template (MakeDispatcher args2))).
Proof. by split. Qed.

(** ** Witnesses *)
Definition demo_resource_args (name : string) : DispatcherArgs :=
  mkDispatcherArgs "namespace" "ns" "image" 1 "sa" ""
    (mkChannel (new_meta name "ns" None [])
      (mkSpec 1 1 ["kafka:9092"] (mkNet (mkSASL false None None None) (mkTLS false None None None)) "topic" [] None)
      (mkStatus 0 [] None [])).

Lemma pod_filter_rejects_dispatchers_witness :
  pod_filter (new_meta "pod" "ns" (Some dispatcherLabels) []) = false.
Proof. apply (pod_filter_rejects_dispatchers (demo_resource_args "ch")). intros k v Hk. exact Hk. Defined.

Example getClusterDomainName_search :
  getClusterDomainName ["nameserver 10.0.0.10"; "search ns.svc.example.org svc.example.org. example.org"] "" = "example.org".
Proof. reflexivity. Qed.
