(* ===== verification/KafkaEnv.v ===== *)
(** * KafkaEnv: the Kafka configuration of a dispatcher pod

    Models [src/pkg/channel/kt/utils/client.go], what [envconfig.Process] does
    with its [KafkaEnvConfig] and the auth part of the configuration builder of
    [eventing-kafka/pkg/common/client/config.go]: the pod's half of the
    environment that [Resources.makeEnv] writes.

    The Sarama defaults, the YAML settings and the parsing of certificates are
    the class [SaramaLib].  [strings.TrimSpace] is modelled on ASCII space. *)
From Stdlib Require Import Ascii.
From S2P Require Import Prelude GoStrings ApiTypes Channel Resources.

(** ** Data *)
Record AdapterSASL := mkAdapterSASL {
  as_Enable : bool; as_User : string; as_Password : string; as_Type : string }.
Record AdapterTLS := mkAdapterTLS {
  at_Enable : bool; at_Cert : string; at_Key : string; at_CACert : string }.
Record AdapterNet := mkAdapterNet { an_SASL : AdapterSASL; an_TLS : AdapterTLS }.
Record KafkaEnvConfig := mkKafkaEnvConfig {
  KafkaConfigJson : string;
  ec_BootstrapServers : list string;
  ec_Net : AdapterNet;
}.

Record KafkaTlsConfig := mkKafkaTls { Cacert : string; Usercert : string; Userkey : string }.
Record KafkaSaslConfig := mkKafkaSasl { User : string; Password : string; SaslType : string }.
Record KafkaAuthConfig := mkKafkaAuth { auth_TLS : option KafkaTlsConfig; auth_SASL : option KafkaSaslConfig }.

(** [sarama.Config]: the fields the builder sets; [base] is the rest. *)
Record SaramaConfig := mkSarama {
  base : string;
  Version : string;
  ConsumerReturnErrors : bool;
  ProducerReturnSuccesses : bool;
  TLS_Enable : bool;
  TLS_Config : option string;
  SASL_Enable : bool;
  SASL_Handshake : bool;
  SASL_Mechanism : string;
  SASL_User : string;
  SASL_Password : string;
}.
#[export] Instance SaramaConfig_eq_dec : EqDecision SaramaConfig.
Proof. solve_decision. Defined.

Class SaramaLib := {
  NewConfig : SaramaConfig;
  ConfigKafkaVersionDefault : string;
  (** extract the version and the root certificates, unmarshal the rest *)
  apply_yaml : string → SaramaConfig → string + SaramaConfig;
  newTLSConfig : string → string → string → string + string;
  (** [json.Unmarshal] into a [KafkaConfig]: its [SaramaYamlString] *)
  unmarshal_KafkaConfig : string → string + string;
}.

(** ** Reading the environment ([envconfig.Process]) *)
Abbreviation Environ := (gmap string string).

Definition ParseBool (s : string) : option bool :=
  if decide (s ∈ ["1"; "t"; "T"; "TRUE"; "true"; "True"]) then Some true
  else if decide (s ∈ ["0"; "f"; "F"; "FALSE"; "false"; "False"]) then Some false
  else None.

Definition is_space (c : ascii) : bool :=
  bool_decide (nat_of_ascii c = 32 ∨ (9 ≤ nat_of_ascii c ≤ 13))%nat.

(** [len(strings.TrimSpace(s)) == 0]. *)
Definition blank (s : string) : bool := forallb is_space (chars s).

(** [processField] at the types of the specification. *)
Definition process_string (value : string) : option string := Some value.
Definition process_strings (value : string) : option (list string) :=
  if blank value then Some [] else Some (Split ","%char value).

(** One round of the loop of [Process]: a field with the key derived from its
    place in the structure, the key [alt] of its tag, and its zero value. *)
Definition process_field {A} (parse : string → option A) (zero : A) (key alt : string) (required : bool)
    (environ : Environ) : string + A :=
  let found := match environ !! key with Some v => Some v | None => environ !! alt end in
  match found with
  | None => if required then inl ("required key " +:+ alt +:+ " missing value") else inr zero
  | Some value =>
      match parse value with
      | Some a => inr a
      | None => inl ("envconfig.Process: assigning " +:+ key)
      end
  end.

Notation "'let?' x ':=' m 'in' k" :=
  (match m with inl err => inl err | inr x => k end)
  (at level 10, x binder, m at level 100, k at level 200, only parsing).

(** [envconfig.Process("", &env)]: the fields of [KafkaEnvConfig] in order. *)
Definition Process (environ : Environ) : string + KafkaEnvConfig :=
  let str key alt := process_field process_string "" key alt false environ in
  let flag key alt := process_field ParseBool false key alt false environ in
  let? json := str "K_KAFKA_CONFIG" "K_KAFKA_CONFIG" in
  let? servers := process_field process_strings [] "KAFKA_BOOTSTRAP_SERVERS" "KAFKA_BOOTSTRAP_SERVERS" true environ in
  let? sasl := flag "NET_SASL_KAFKA_NET_SASL_ENABLE" "KAFKA_NET_SASL_ENABLE" in
  let? user := str "NET_SASL_KAFKA_NET_SASL_USER" "KAFKA_NET_SASL_USER" in
  let? password := str "NET_SASL_KAFKA_NET_SASL_PASSWORD" "KAFKA_NET_SASL_PASSWORD" in
  let? type := str "NET_SASL_KAFKA_NET_SASL_TYPE" "KAFKA_NET_SASL_TYPE" in
  let? tls := flag "NET_TLS_KAFKA_NET_TLS_ENABLE" "KAFKA_NET_TLS_ENABLE" in
  let? cert := str "NET_TLS_KAFKA_NET_TLS_CERT" "KAFKA_NET_TLS_CERT" in
  let? key := str "NET_TLS_KAFKA_NET_TLS_KEY" "KAFKA_NET_TLS_KEY" in
  let? cacert := str "NET_TLS_KAFKA_NET_TLS_CA_CERT" "KAFKA_NET_TLS_CA_CERT" in
  inr (mkKafkaEnvConfig json servers
    (mkAdapterNet (mkAdapterSASL sasl user password type) (mkAdapterTLS tls cert key cacert))).

(** ** Building the configuration *)
Section build.
Context `{SaramaLib}.

Definition SASLTypePlaintext : string := "PLAIN".
Definition SASLTypeSCRAMSHA256 : string := "SCRAM-SHA-256".
Definition SASLTypeSCRAMSHA512 : string := "SCRAM-SHA-512".

(** [WithDefaults]. *)
Definition apply_defaults (c : SaramaConfig) : SaramaConfig :=
  mkSarama (base c) ConfigKafkaVersionDefault true true (TLS_Enable c) (TLS_Config c)
    (SASL_Enable c) (SASL_Handshake c) (SASL_Mechanism c) (SASL_User c) (SASL_Password c).

Definition apply_TLS (tls : option KafkaTlsConfig) (c : SaramaConfig) : string + SaramaConfig :=
  match tls with
  | None => inr c
  | Some t =>
      let with_tls conf := mkSarama (base c) (Version c) (ConsumerReturnErrors c) (ProducerReturnSuccesses c)
        true conf (SASL_Enable c) (SASL_Handshake c) (SASL_Mechanism c) (SASL_User c) (SASL_Password c) in
      if bool_decide (Cacert t ≠ "") then
        match newTLSConfig (Usercert t) (Userkey t) (Cacert t) with
        | inl err => inl ("Error creating TLS config: " +:+ err)
        | inr conf => inr (with_tls (Some conf))
        end
      else inr (with_tls (TLS_Config c))
  end.

(** PLAIN unless one of the two SCRAM types is asked for. *)
Definition sasl_mechanism (type : string) : string :=
  let m := SASLTypePlaintext in
  let m := if decide (type = SASLTypeSCRAMSHA256) then SASLTypeSCRAMSHA256 else m in
  if decide (type = SASLTypeSCRAMSHA512) then SASLTypeSCRAMSHA512 else m.

Definition apply_SASL (sasl : option KafkaSaslConfig) (c : SaramaConfig) : SaramaConfig :=
  match sasl with
  | None => c
  | Some s => mkSarama (base c) (Version c) (ConsumerReturnErrors c) (ProducerReturnSuccesses c)
      (TLS_Enable c) (TLS_Config c) true true (sasl_mechanism (SaslType s)) (User s) (Password s)
  end.

(** [NewConfigBuilder().WithDefaults().WithAuth(auth).FromYaml(yaml).Build(ctx)]. *)
Definition Build (auth : KafkaAuthConfig) (yaml : string) : string + SaramaConfig :=
  let config := apply_defaults NewConfig in
  let? config := if bool_decide (yaml ≠ "") then apply_yaml yaml config else inr config in
  let? config := apply_TLS (auth_TLS auth) config in
  inr (apply_SASL (auth_SASL auth) config).

Definition auth_config (net : AdapterNet) : KafkaAuthConfig :=
  {| auth_TLS := if at_Enable (an_TLS net)
                 then Some (mkKafkaTls (at_CACert (an_TLS net)) (at_Cert (an_TLS net)) (at_Key (an_TLS net)))
                 else None;
     auth_SASL := if as_Enable (an_SASL net)
                  then Some (mkKafkaSasl (as_User (an_SASL net)) (as_Password (an_SASL net)) (as_Type (an_SASL net)))
                  else None |}.

Definition NewConfigWithEnv (env : KafkaEnvConfig) : string + (list string * SaramaConfig) :=
  let kafkaAuthConfig := auth_config (ec_Net env) in
  let? yaml :=
    if bool_decide (KafkaConfigJson env ≠ "") then
      match unmarshal_KafkaConfig (KafkaConfigJson env) with
      | inl err => inl ("error parsing Kafka config from environment: " +:+ err)
      | inr y => inr y
      end
    else inr "" in
  match Build kafkaAuthConfig yaml with
  | inl err => inl ("error creating Sarama config: " +:+ err)
  | inr cfg => inr (ec_BootstrapServers env, cfg)
  end.

Definition NewConfigFromEnv (environ : Environ) : string + (list string * SaramaConfig) :=
  let? env := Process environ in NewConfigWithEnv env.
End build.

(** [utils.TopicName]. *)
Definition TopicName (environ : Environ) : string := default "" (environ !! "KAFKA_TOPIC").

(** ** The environment of a pod *)

(** The keys that [Process] looks up. *)
Definition consulted : list string :=
  ["K_KAFKA_CONFIG"; "KAFKA_BOOTSTRAP_SERVERS";
   "NET_SASL_KAFKA_NET_SASL_ENABLE"; "NET_SASL_KAFKA_NET_SASL_USER"; "NET_SASL_KAFKA_NET_SASL_PASSWORD";
   "NET_SASL_KAFKA_NET_SASL_TYPE"; "NET_TLS_KAFKA_NET_TLS_ENABLE"; "NET_TLS_KAFKA_NET_TLS_CERT";
   "NET_TLS_KAFKA_NET_TLS_KEY"; "NET_TLS_KAFKA_NET_TLS_CA_CERT";
   "KAFKA_NET_SASL_ENABLE"; "KAFKA_NET_SASL_USER"; "KAFKA_NET_SASL_PASSWORD"; "KAFKA_NET_SASL_TYPE";
   "KAFKA_NET_TLS_ENABLE"; "KAFKA_NET_TLS_CERT"; "KAFKA_NET_TLS_KEY"; "KAFKA_NET_TLS_CA_CERT"].

(** [environ] is an environment in which Kubernetes may run a container declared
    with [env], when the secrets hold [secret]: literal values and secret keys are
    resolved, and no variable that [Process] consults is set otherwise. *)
Record runs_with (env : list EnvVar) (secret : SecretKeySelector → string) (environ : Environ) : Prop := {
  rw_literal k v : literal k v ∈ env → environ !! k = Some v;
  rw_secret k ref : mkEnvVar k "" (Some (SecretKeyRef ref)) ∈ env → environ !! k = Some (secret ref);
  rw_unset k : k ∈ consulted → (∀ v, v ∈ env → env_Name v ≠ k) → environ !! k = None;
}.

Section pod.
Context (secret : SecretKeySelector → string).

Definition secret_value (ref : option SecretKeySelector) : string := from_option secret "" ref.

(** What the pod is meant to read. *)
Definition net_of (net : KafkaNetSpec) : AdapterNet :=
  {| an_SASL := mkAdapterSASL (sasl_Enable (net_SASL net)) (secret_value (sasl_User (net_SASL net)))
                  (secret_value (sasl_Password (net_SASL net))) (secret_value (sasl_Type (net_SASL net)));
     an_TLS := mkAdapterTLS (tls_Enable (net_TLS net)) (secret_value (tls_Cert (net_TLS net)))
                 (secret_value (tls_Key (net_TLS net))) (secret_value (tls_CACert (net_TLS net))) |}.

(** A variable of [makeEnv] from a secret. *)
Definition secret_vars (c : KafkaTopicChannel) : list (string * option SecretKeySelector) :=
  let sasl := net_SASL (Net (Spec c)) in let tls := net_TLS (Net (Spec c)) in
  [("KAFKA_NET_SASL_USER", sasl_User sasl); ("KAFKA_NET_SASL_PASSWORD", sasl_Password sasl);
   ("KAFKA_NET_SASL_TYPE", sasl_Type sasl); ("KAFKA_NET_TLS_CERT", tls_Cert tls);
   ("KAFKA_NET_TLS_KEY", tls_Key tls); ("KAFKA_NET_TLS_CA_CERT", tls_CACert tls)].

Definition literal_vars (c : KafkaTopicChannel) : list (string * string) :=
  [("KAFKA_BOOTSTRAP_SERVERS", Join "," (BootstrapServers (Spec c))); ("KAFKA_TOPIC", Topic (Spec c));
   ("CHANNEL_NAME", Name (meta c)); ("KAFKA_NET_SASL_ENABLE", FormatBool (sasl_Enable (net_SASL (Net (Spec c)))));
   ("KAFKA_NET_TLS_ENABLE", FormatBool (tls_Enable (net_TLS (Net (Spec c)))));
   (NamespaceEnvKey, Namespace (meta c)); ("METRICS_DOMAIN", "knative.dev/eventing");
   ("CONFIG_LOGGING_NAME", "config-logging"); ("CONFIG_LEADERELECTION_NAME", "config-leader-election")].

Definition scope_vars (args : DispatcherArgs) : list EnvVar :=
  if decide (DispatcherScope args = "namespace") then
    [mkEnvVar "NAMESPACE" "" (Some (FieldRef "metadata.namespace"));
     mkEnvVar "POD_NAME" "" (Some (FieldRef "metadata.name")); literal "CONTAINER_NAME" "dispatcher"]
  else [].

Lemma elem_of_append_secrets v (vars : list (string * option SecretKeySelector)) : ∀ env,
  v ∈ foldl (λ env p, appendEnvFromSecretKeyRef env p.1 p.2) env vars ↔
  v ∈ env ∨ ∃ k r, (k, Some r) ∈ vars ∧ v = mkEnvVar k "" (Some (SecretKeyRef r)).
Proof.
  induction vars as [|[k ref] vars IH]; intros env; cbn [foldl].
  - split; [by left|]. intros [?|(k & r & []%elem_of_nil & _)]. done.
  - rewrite IH. destruct ref as [r|]; simpl; setoid_rewrite elem_of_cons.
    + rewrite elem_of_app, list_elem_of_singleton. split.
      * intros [[?| ->]|(k' & r' & ? & ->)]; eauto 10.
      * intros [?|(k' & r' & [[= <- <-]|?] & ->)]; eauto 10.
    + split; intros [?|(k' & r' & Hin & ->)]; eauto 10. destruct Hin as [[=]|?]. eauto 10.
Qed.

Lemma elem_of_makeEnv args v :
  v ∈ makeEnv args ↔
  v ∈ map (λ p, literal p.1 p.2) (literal_vars (a_Channel args)) ∨
  (∃ k r, (k, Some r) ∈ secret_vars (a_Channel args) ∧ v = mkEnvVar k "" (Some (SecretKeyRef r))) ∨
  v ∈ scope_vars args.
Proof.
  assert (makeEnv args = foldl (λ env p, appendEnvFromSecretKeyRef env p.1 p.2)
            (map (λ p, literal p.1 p.2) (literal_vars (a_Channel args))) (secret_vars (a_Channel args)) ++
            scope_vars args) as ->.
  { unfold makeEnv, scope_vars. destruct (decide _); [done|]. by rewrite app_nil_r. }
  rewrite elem_of_app, elem_of_append_secrets. tauto.
Qed.

Lemma keys_functional {A} (l : list (string * A)) k a b :
  NoDup l.*1 → (k, a) ∈ l → (k, b) ∈ l → a = b.
Proof.
  induction l as [|p l IH]; [by intros _ ?%elem_of_nil|]. cbn. intros [Hk Hl]%NoDup_cons.
  assert (Hno : ∀ c, (k, c) ∈ l → k ≠ p.1).
  { intros c Hc Heq. destruct Hk. rewrite <-Heq. apply list_elem_of_fmap. by exists (k, c). }
  rewrite !elem_of_cons. intros [Ha|Ha] [Hb|Hb]; [congruence| | |by eauto].
  - by destruct (Hno b Hb); rewrite <-Ha.
  - by destruct (Hno a Ha); rewrite <-Hb.
Qed.

Context (args : DispatcherArgs) (environ : Environ).
Context (run : runs_with (makeEnv args) secret environ).

Lemma lookup_literal k x : (k, x) ∈ literal_vars (a_Channel args) → environ !! k = Some x.
Proof.
  intros Hin. apply (rw_literal _ _ _ run). apply elem_of_makeEnv. left.
  apply list_elem_of_fmap. by exists (k, x).
Qed.

(** The names that [makeEnv] may declare. *)
Definition other_names : list string :=
  (literal_vars (a_Channel args)).*1 ++ ["NAMESPACE"; "POD_NAME"; "CONTAINER_NAME"].

Lemma makeEnv_name v :
  v ∈ makeEnv args → env_Name v ∈ other_names ∨ ∃ r, (env_Name v, Some r) ∈ secret_vars (a_Channel args).
Proof.
  intros [Hin|[(k & r & Hin & ->)|Hin]]%elem_of_makeEnv.
  - left. apply list_elem_of_fmap in Hin as ([k x] & -> & Hin). apply elem_of_app. left.
    apply list_elem_of_fmap. by exists (k, x).
  - right. by exists r.
  - left. apply elem_of_app. right. unfold scope_vars in Hin. destruct (decide _); [|by apply elem_of_nil in Hin].
    repeat (apply elem_of_cons in Hin as [->|Hin]; [vm_compute; by repeat constructor|]).
    by apply elem_of_nil in Hin.
Qed.

Lemma lookup_secret k ref :
  (k, ref) ∈ secret_vars (a_Channel args) → environ !! k = secret <$> ref.
Proof.
  intros Hin. destruct ref as [r|]; simpl.
  - apply (rw_secret _ _ _ run). apply elem_of_makeEnv. right. left. by exists k, r.
  - apply (rw_unset _ _ _ run).
    + unfold secret_vars in Hin. repeat (apply elem_of_cons in Hin as [Hin|Hin]; [injection Hin as -> _; by apply (bool_decide_unpack (_ ∈ consulted))|]).
      by apply elem_of_nil in Hin.
    + intros v Hv Hname. destruct (makeEnv_name v Hv) as [Hk|[r Hk]]; rewrite Hname in Hk.
      * unfold secret_vars in Hin.
        repeat (apply elem_of_cons in Hin as [Hin|Hin];
          [injection Hin as -> _; by apply (bool_decide_unpack (_ ∉ other_names)) in Hk|]).
        by apply elem_of_nil in Hin.
      * by pose proof (keys_functional _ _ _ _ (bool_decide_unpack (NoDup (secret_vars (a_Channel args)).*1) I) Hin Hk).
Qed.

Lemma lookup_derived k :
  bool_decide (k ∈ consulted ∧ (k ∉ other_names) ∧ k ∉ (secret_vars (a_Channel args)).*1) = true →
  environ !! k = None.
Proof.
  intros (Hc & Ho & Hs)%bool_decide_eq_true. apply (rw_unset _ _ _ run); [done|].
  intros v Hv Hname. destruct (makeEnv_name v Hv) as [Hk|[r Hk]]; rewrite Hname in Hk; [done|].
  destruct Hs. apply list_elem_of_fmap. by exists (k, Some r).
Qed.
End pod.

(** ** Properties *)

Lemma ParseBool_FormatBool b : ParseBool (FormatBool b) = Some b.
Proof. by destruct b. Qed.

Lemma process_string_field k alt environ :
  environ !! k = None → process_field process_string "" k alt false environ = inr (default "" (environ !! alt)).
Proof. intros Hk. unfold process_field. rewrite Hk. by destruct (environ !! alt). Qed.

(** The servers of a channel that survive the comma-separated variable. *)
Definition plain_servers (servers : list string) : Prop :=
  servers = [] ∨ Forall (free_of ","%char) servers ∧ blank (Join "," servers) = false.

Lemma process_servers servers :
  plain_servers servers → process_strings (Join "," servers) = Some servers.
Proof.
  unfold process_strings. intros [->|[Hfree Hblank]]; [done|]. rewrite Hblank. f_equal.
  destruct servers as [|s servers]; [done|]. by apply (Split_Join ","%char).
Qed.

Lemma default_secret secret ref : default "" (secret <$> ref) = secret_value secret ref.
Proof. by destruct ref. Qed.

Lemma Process_makeEnv (args : DispatcherArgs) secret environ
    (run : runs_with (makeEnv args) secret environ)
    (servers : plain_servers (BootstrapServers (Spec (a_Channel args)))) :
  Process environ = inr (mkKafkaEnvConfig "" (BootstrapServers (Spec (a_Channel args)))
                           (net_of secret (Net (Spec (a_Channel args))))) ∧
  TopicName environ = Topic (Spec (a_Channel args)).
Proof.
  assert (Hlit := lookup_literal secret args environ run).
  assert (Hsec := lookup_secret secret args environ run).
  assert (Hnone := lookup_derived secret args environ run).
  split; [|unfold TopicName; by rewrite (Hlit "KAFKA_TOPIC" (Topic (Spec (a_Channel args)))) by (repeat constructor)].
  unfold Process. rewrite !process_string_field by (by apply Hnone).
  unfold process_field. rewrite (Hnone "NET_SASL_KAFKA_NET_SASL_ENABLE"), (Hnone "NET_TLS_KAFKA_NET_TLS_ENABLE"),
    (Hnone "K_KAFKA_CONFIG") by (vm_compute; done).
  rewrite (Hlit "KAFKA_BOOTSTRAP_SERVERS" _ (list_elem_of_here _ _)), process_servers by done.
  unfold literal_vars, secret_vars in Hlit, Hsec. setoid_rewrite list_elem_of_In in Hlit.
  setoid_rewrite list_elem_of_In in Hsec. simpl in Hlit, Hsec.
  erewrite (Hlit "KAFKA_NET_SASL_ENABLE"), (Hlit "KAFKA_NET_TLS_ENABLE") by eauto 20.
  rewrite !ParseBool_FormatBool.
  erewrite (Hsec "KAFKA_NET_SASL_USER"), (Hsec "KAFKA_NET_SASL_PASSWORD"), (Hsec "KAFKA_NET_SASL_TYPE"),
    (Hsec "KAFKA_NET_TLS_CERT"), (Hsec "KAFKA_NET_TLS_KEY"), (Hsec "KAFKA_NET_TLS_CA_CERT") by eauto 20.
  unfold net_of, secret_value. by rewrite !default_secret.
Qed.

(** C32: The environment round trip: in an environment that Kubernetes makes from
    the variables of the deployment, the dispatcher reads back the servers of the
    channel, its SASL and TLS switches and the values of the secrets it refers to
    (empty without one), and the topic. *)
Theorem dispatcher_env_roundtrip (args : DispatcherArgs) secret environ
    (run : runs_with (makeEnv args) secret environ)
    (servers : plain_servers (BootstrapServers (Spec (a_Channel args)))) :
  Process environ = inr (mkKafkaEnvConfig "" (BootstrapServers (Spec (a_Channel args)))
                           (net_of secret (Net (Spec (a_Channel args))))) ∧
  TopicName environ = Topic (Spec (a_Channel args)).
Proof. by apply Process_makeEnv. Qed.

(** In such an environment the dispatcher builds its Sarama configuration for
    the servers of the channel: with TLS iff the channel enables it (or Sarama's
    default does), with the channel's SASL credentials and the mechanism of its
    type, PLAIN unless a SCRAM type is named, iff it enables SASL.  It fails only
    if the certificates of a channel with TLS and a CA certificate do not parse. *)
Theorem dispatcher_config `{SaramaLib} (args : DispatcherArgs) secret environ
    (run : runs_with (makeEnv args) secret environ)
    (servers : plain_servers (BootstrapServers (Spec (a_Channel args)))) :
  let sasl := net_SASL (Net (Spec (a_Channel args))) in
  let tls := net_TLS (Net (Spec (a_Channel args))) in
  let value := secret_value secret in
  match NewConfigFromEnv environ with
  | inl _ => tls_Enable tls = true ∧ value (tls_CACert tls) ≠ "" ∧
      ∃ err, newTLSConfig (value (tls_Cert tls)) (value (tls_Key tls)) (value (tls_CACert tls)) = inl err
  | inr (brokers, cfg) =>
      brokers = BootstrapServers (Spec (a_Channel args)) ∧
      Version cfg = ConfigKafkaVersionDefault ∧ ConsumerReturnErrors cfg = true ∧ ProducerReturnSuccesses cfg = true ∧
      TLS_Enable cfg = tls_Enable tls || TLS_Enable NewConfig ∧
      (tls_Enable tls = true → value (tls_CACert tls) ≠ "" → ∃ conf, TLS_Config cfg = Some conf ∧
         newTLSConfig (value (tls_Cert tls)) (value (tls_Key tls)) (value (tls_CACert tls)) = inr conf) ∧
      if sasl_Enable sasl then
        SASL_Enable cfg = true ∧ SASL_Handshake cfg = true ∧ SASL_User cfg = value (sasl_User sasl) ∧
        SASL_Password cfg = value (sasl_Password sasl) ∧
        SASL_Mechanism cfg = (if decide (value (sasl_Type sasl) ∈ [SASLTypeSCRAMSHA256; SASLTypeSCRAMSHA512])
                              then value (sasl_Type sasl) else SASLTypePlaintext)
      else
        SASL_Enable cfg = SASL_Enable NewConfig ∧ SASL_User cfg = SASL_User NewConfig ∧
        SASL_Password cfg = SASL_Password NewConfig ∧ SASL_Mechanism cfg = SASL_Mechanism NewConfig
  end.
Proof.
  cbv zeta. unfold NewConfigFromEnv. destruct (Process_makeEnv _ _ _ run servers) as [-> _].
  unfold NewConfigWithEnv, Build, auth_config, net_of.
  cbn [KafkaConfigJson ec_Net ec_BootstrapServers an_SASL an_TLS at_Enable at_CACert at_Cert at_Key as_Enable as_User as_Password as_Type].
  rewrite !(bool_decide_false ("" ≠ "")) by (by intros []). cbn.
  assert (Hmech : ∀ t, sasl_mechanism t = if decide (t ∈ [SASLTypeSCRAMSHA256; SASLTypeSCRAMSHA512]) then t else SASLTypePlaintext).
  { intros t. unfold sasl_mechanism. destruct (decide (t = SASLTypeSCRAMSHA512)) as [->|H512]; [done|].
    destruct (decide (t = SASLTypeSCRAMSHA256)) as [->|H256]; [done|].
    rewrite decide_False; [done|]. rewrite !elem_of_cons, elem_of_nil. tauto. }
  destruct (tls_Enable (net_TLS (Net (Spec (a_Channel args))))); cbn.
  - destruct (decide (secret_value secret (tls_CACert (net_TLS (Net (Spec (a_Channel args))))) = "")) as [Hca|Hca].
    + rewrite bool_decide_false by tauto. cbn.
      destruct (sasl_Enable _); cbn; rewrite ?Hmech; split_and!; try done; intros; congruence.
    + rewrite bool_decide_true by done. destruct (newTLSConfig _ _ _) as [err|conf]; cbn.
      * split_and!; [done..|]. by exists err.
      * destruct (sasl_Enable _); cbn; rewrite ?Hmech; split_and!; try done; intros; by exists conf.
  - destruct (sasl_Enable _); cbn; by rewrite ?Hmech.
Qed.

(** ** Witnesses *)
Section demo.
Definition demo_secret (ref : SecretKeySelector) : string := sel_Key ref.
Definition demo_env_args : DispatcherArgs :=
  mkDispatcherArgs "namespace" "ns" "image" 1 "sa" ""
    (mkChannel (new_meta "ch" "ns" None [])
      (mkSpec 1 1 ["k1:9092"; "k2:9092"]
        (mkNet (mkSASL true (Some (mkSecretKeySelector "s" "bob")) None None) (mkTLS false None None None))
        "topic" [] None)
      (mkStatus 0 [] None [])).

(** The environment of a pod of the demo deployment. *)
Definition demo_value (v : EnvVar) : string :=
  match env_ValueFrom v with
  | None => env_Value v
  | Some (SecretKeyRef ref) => demo_secret ref
  | Some (FieldRef p) => p
  end.
Fixpoint demo_environ_of (env : list EnvVar) : Environ :=
  match env with [] => ∅ | v :: env => <[env_Name v := demo_value v]> (demo_environ_of env) end.

Lemma demo_environ_unset env k : (∀ v, v ∈ env → env_Name v ≠ k) → demo_environ_of env !! k = None.
Proof.
  induction env as [|v env IH]; simpl; [done|]. intros Hne. rewrite lookup_insert_ne; [|apply Hne; left].
  apply IH. intros v' ?. apply Hne. by right.
Qed.

Lemma demo_environ_set env v : NoDup (env_Name <$> env) → v ∈ env → demo_environ_of env !! env_Name v = Some (demo_value v).
Proof.
  induction env as [|v' env IH]; simpl; [by intros _ ?%elem_of_nil|].
  intros [Hv Henv]%NoDup_cons [->|Hin]%elem_of_cons; [by rewrite lookup_insert_eq|].
  rewrite lookup_insert_ne; [by apply IH|]. intros Heq. apply Hv. rewrite Heq. by apply list_elem_of_fmap_2.
Qed.

Lemma demo_runs : runs_with (makeEnv demo_env_args) demo_secret (demo_environ_of (makeEnv demo_env_args)).
Proof.
  assert (Hnd : NoDup (env_Name <$> makeEnv demo_env_args)) by by apply (bool_decide_unpack (NoDup _)).
  split.
  - intros k v Hin. exact (demo_environ_set _ _ Hnd Hin).
  - intros k ref Hin. exact (demo_environ_set _ _ Hnd Hin).
  - intros k _ Hno. by apply demo_environ_unset.
Qed.

Lemma demo_plain_servers : plain_servers (BootstrapServers (Spec (a_Channel demo_env_args))).
Proof. right. split; [by apply (bool_decide_unpack (Forall _ _))|reflexivity]. Qed.

Lemma dispatcher_env_roundtrip_witness :
  Process (demo_environ_of (makeEnv demo_env_args)) =
    inr (mkKafkaEnvConfig "" ["k1:9092"; "k2:9092"]
      (mkAdapterNet (mkAdapterSASL true "bob" "" "") (mkAdapterTLS false "" "" ""))).
Proof. exact (proj1 (dispatcher_env_roundtrip demo_env_args demo_secret _ demo_runs demo_plain_servers)). Defined.

#[local] Instance demo_sarama : SaramaLib := {|
  NewConfig := mkSarama "" "" false false false None false false "" "" "";
  ConfigKafkaVersionDefault := "2.0";
  apply_yaml y c := inr c;
  newTLSConfig cert key ca := inr ca;
  unmarshal_KafkaConfig y := inr y;
|}.

Lemma dispatcher_config_witness :
  ∃ cfg, NewConfigFromEnv (demo_environ_of (makeEnv demo_env_args)) = inr (["k1:9092"; "k2:9092"], cfg) ∧
    SASL_User cfg = "bob" ∧ SASL_Mechanism cfg = "PLAIN" ∧ TLS_Enable cfg = false.
Proof.
  pose proof (dispatcher_config demo_env_args demo_secret _ demo_runs demo_plain_servers) as Hspec.
  destruct (NewConfigFromEnv _) as [err|[brokers cfg]].
  - destruct Hspec as [Htls _]. discriminate Htls.
  - destruct Hspec as (-> & _ & _ & _ & Htls & _ & _ & _ & Huser & _ & Hmech).
    exists cfg. split; [reflexivity|]. split; [exact Huser|]. split; [exact Hmech|exact Htls].
Defined.
End demo.
