(* ===== verification/Controller.v ===== *)
(** * Controller: the reconciler of a channel

    Models [src/pkg/channel/kt/reconciler/controller/kafkachannel.go].

    The reconciler runs on one channel with the informer caches, the API server
    and the prober.  [World] is that state, [M] the monad of the Go methods: a
    returned value, a returned event (an error) or a panic, with the new state.
    A lister hands out the very object that its cache holds, so that the writes of
    [reconcileDispatcher] to [existing.Image] and [d.Spec.Replicas] are writes to
    the cache.  What the API server answers, and the errors of a lister other
    than NotFound, are the class [KubeClient]; every write is logged. *)
From Stdlib Require Import Ascii.
From S2P Require Import Prelude GoStrings FieldError ErrorText Conditions ApiTypes Channel Prober Resources.

(** ** Events ([vendor/knative.dev/pkg/reconciler/events.go]) *)
Inductive EventType := EventTypeNormal | EventTypeWarning.
#[export] Instance EventType_eq_dec : EqDecision EventType.
Proof. solve_decision. Defined.

(** [pkgreconciler.Event], an error: a [ReconcilerEvent] with its formatted
    message, the error of validation, or any other error. *)
Inductive Event :=
  | ReconcilerEvent (type : EventType) (reason message : string)
  | ValidationError (errs : FieldError)
  | PlainError (message : string).

(** An event recorded on the channel. *)
Record Recorded := mkRecorded { rec_type : EventType; rec_reason : string; rec_message : string }.
#[export] Instance Recorded_eq_dec : EqDecision Recorded.
Proof. solve_decision. Defined.

Definition newReconciledNormal (namespace name : string) : Event :=
  ReconcilerEvent EventTypeNormal "KafkaTopicChannelReconciled"
    ("KafkaTopicChannel reconciled: " +:+ quote (namespace +:+ "/" +:+ name)).
Definition newDeploymentWarn (err : string) : Event :=
  ReconcilerEvent EventTypeWarning "DispatcherDeploymentFailed" ("Reconciling dispatcher Deployment failed with: " +:+ err).
Definition newDispatcherServiceWarn (err : string) : Event :=
  ReconcilerEvent EventTypeWarning "DispatcherServiceFailed" ("Reconciling dispatcher Service failed with: " +:+ err).
Definition newServiceAccountWarn (err : string) : Event :=
  ReconcilerEvent EventTypeWarning "DispatcherServiceAccountFailed" ("Reconciling dispatcher ServiceAccount failed: " +:+ err).
Definition newRoleBindingWarn (err : string) : Event :=
  ReconcilerEvent EventTypeWarning "DispatcherRoleBindingFailed" ("Reconciling dispatcher RoleBinding failed: " +:+ err).

(** [fmt.Sprintf(s)] without arguments, for ASCII verbs without flags or width:
    an error text used as a format loses its percent signs. *)
Fixpoint Sprintf0 (s : string) : string :=
  match s with
  | EmptyString => EmptyString
  | String c s =>
      if decide (c = "%"%char) then
        match s with
        | EmptyString => "%!(NOVERB)"
        | String v s =>
            if decide (v = "%"%char) then String "%" (Sprintf0 s)
            else "%!" +:+ String v ("(MISSING)" +:+ Sprintf0 s)
        end
      else String c (Sprintf0 s)
  end.

(** ** State *)

(** The writes to the API server. *)
Inductive Write :=
  | CreateServiceAccount (sa : ServiceAccount)
  | CreateRoleBinding (rb : RoleBinding)
  | CreateDeployment (d : Deployment)
  | UpdateDeployment (d : Deployment)
  | CreateService (s : Service)
  | UpdateService (s : Service)
  | PatchSubscribers (ref : NamespacedName) (subs : list SubscriberStatus).

Record World := mkWorld {
  w_channel : KafkaTopicChannel;
  w_clock : nat;
  w_serviceAccounts : gmap NamespacedName ServiceAccount;
  w_roleBindings : gmap NamespacedName RoleBinding;
  w_deployments : gmap NamespacedName Deployment;
  w_services : gmap NamespacedName Service;
  w_endpoints : gmap NamespacedName Endpoints;
  w_prober : Prober;
  (** calls of listers and of the API server so far *)
  w_calls : nat;
  w_writes : list Write;
  w_events : list Recorded;
}.

(** What the program does not determine: the [n]-th call of a lister may fail,
    and the [n]-th write is answered with an error or an object. *)
Class KubeClient := {
  lister_error : nat → option string;
  create_ServiceAccount : nat → ServiceAccount → string + ServiceAccount;
  create_RoleBinding : nat → RoleBinding → string + RoleBinding;
  create_Deployment : nat → Deployment → string + Deployment;
  update_Deployment : nat → Deployment → string + Deployment;
  create_Service : nat → Service → string + Service;
  update_Service : nat → Service → string + Service;
  patch_Subscribers : nat → NamespacedName → list SubscriberStatus → option string;
}.

(** The configuration of the reconciler, from its environment. *)
Class Reconciler := {
  systemNamespace : string;
  dispatcherImage : string;
  dispatcherServiceAccount : string;
}.

(** ** The monad *)
Definition M (A : Type) : Type := World → res Event A * World.

#[export] Instance M_ret : MRet M := λ A a w, (Ok a, w).
#[export] Instance M_bind : MBind M := λ A B f m w,
  match m w with
  | (Ok a, w) => f a w
  | (Err e, w) => (Err e, w)
  | (Panic why, w) => (Panic why, w)
  end.

Definition fail {A} (e : Event) : M A := λ w, (Err e, w).
Definition panic {A} (why : string) : M A := λ w, (Panic why, w).
Definition gets {A} (f : World → A) : M A := λ w, (Ok (f w), w).
Definition modify (f : World → World) : M () := λ w, (Ok (), f w).

Definition set_channel (c : KafkaTopicChannel) (w : World) : World :=
  mkWorld c (w_clock w) (w_serviceAccounts w) (w_roleBindings w) (w_deployments w) (w_services w)
    (w_endpoints w) (w_prober w) (w_calls w) (w_writes w) (w_events w).
Definition set_clock (n : nat) (w : World) : World :=
  mkWorld (w_channel w) n (w_serviceAccounts w) (w_roleBindings w) (w_deployments w) (w_services w)
    (w_endpoints w) (w_prober w) (w_calls w) (w_writes w) (w_events w).
Definition set_deployments (ds : gmap NamespacedName Deployment) (w : World) : World :=
  mkWorld (w_channel w) (w_clock w) (w_serviceAccounts w) (w_roleBindings w) ds (w_services w)
    (w_endpoints w) (w_prober w) (w_calls w) (w_writes w) (w_events w).
Definition set_prober (p : Prober) (w : World) : World :=
  mkWorld (w_channel w) (w_clock w) (w_serviceAccounts w) (w_roleBindings w) (w_deployments w) (w_services w)
    (w_endpoints w) p (w_calls w) (w_writes w) (w_events w).
Definition count_call (w : World) : World :=
  mkWorld (w_channel w) (w_clock w) (w_serviceAccounts w) (w_roleBindings w) (w_deployments w) (w_services w)
    (w_endpoints w) (w_prober w) (S (w_calls w)) (w_writes w) (w_events w).
Definition log_write (x : Write) (w : World) : World :=
  mkWorld (w_channel w) (w_clock w) (w_serviceAccounts w) (w_roleBindings w) (w_deployments w) (w_services w)
    (w_endpoints w) (w_prober w) (w_calls w) (w_writes w ++ [x]) (w_events w).
Definition log_event (x : Recorded) (w : World) : World :=
  mkWorld (w_channel w) (w_clock w) (w_serviceAccounts w) (w_roleBindings w) (w_deployments w) (w_services w)
    (w_endpoints w) (w_prober w) (w_calls w) (w_writes w) (w_events w ++ [x]).

(** The status of the channel, as the cell its lifecycle methods work on. *)
Definition cell (w : World) : StatusCell := mkCell (ch_Status (w_channel w)) (w_clock w).
Definition with_Status (c : KafkaTopicChannel) (s : KafkaTopicChannelStatus) : KafkaTopicChannel :=
  {| meta := meta c; Spec := Spec c; ch_Status := s |}.
Definition set_cell (cs : StatusCell) (w : World) : World :=
  set_clock (clock cs) (set_channel (with_Status (w_channel w) (status cs)) w).

(** [kc.Status.f(...)]. *)
Definition on_status (f : StatusCell → StatusCell) : M () := modify (λ w, set_cell (f (cell w)) w).

(** [controller.GetEventRecorder(ctx).Event(kc, ...)]. *)
Definition record_event (type : EventType) (reason message : string) : M () :=
  modify (log_event (mkRecorded type reason message)).

(** A lister's [Get]. *)
Inductive get_result (A : Type) := Found (a : A) | NotFound | GetError (err : string).
Arguments Found {A} a.
Arguments NotFound {A}.
Arguments GetError {A} err.

Section reconciler.
Context `{GoRuntime} `{KubeClient} `{Resolver} `{Reconciler}.

Definition lister_get {A} (cache : World → gmap NamespacedName A) (ns name : string) : M (get_result A) := λ w,
  (Ok match lister_error (w_calls w) with
      | Some err => GetError err
      | None => match cache w !! mkNamespacedName ns name with Some a => Found a | None => NotFound end
      end, count_call w).

(** A write: logged, and answered by the server. *)
Definition api_write {A} (x : Write) (answer : nat → A) : M A := λ w,
  (Ok (answer (w_calls w)), log_write x (count_call w)).

(** ** RBAC *)
Definition reconcileServiceAccount (dispatcherNamespace : string) : M ServiceAccount :=
  r ← lister_get w_serviceAccounts dispatcherNamespace dispatcherServiceAccount;
  match r with
  | Found sa => mret sa
  | NotFound =>
      let expected := MakeServiceAccount dispatcherNamespace dispatcherServiceAccount in
      r ← api_write (CreateServiceAccount expected) (λ n, create_ServiceAccount n expected);
      match r with
      | inr sa =>
          record_event EventTypeNormal "DispatcherServiceAccountCreated" "Dispatcher service account created";;
          mret sa
      | inl err =>
          on_status (MarkDispatcherFailed "DispatcherDeploymentFailed"
                       ("Failed to create the dispatcher service account: " +:+ err));;
          fail (newServiceAccountWarn err)
      end
  | GetError err =>
      on_status (MarkDispatcherUnknown "DispatcherServiceAccountFailed"
                   ("Failed to get dispatcher service account: " +:+ err));;
      fail (newServiceAccountWarn err)
  end.

Definition reconcileRoleBinding (name ns clusterRoleName : string) (sa : ServiceAccount) : M RoleBinding :=
  r ← lister_get w_roleBindings ns name;
  match r with
  | Found rb => mret rb
  | NotFound =>
      let expected := MakeRoleBinding ns name sa clusterRoleName in
      r ← api_write (CreateRoleBinding expected) (λ n, create_RoleBinding n expected);
      match r with
      | inr rb =>
          record_event EventTypeNormal "DispatcherRoleBindingCreated" "Dispatcher role binding created";;
          mret rb
      | inl err =>
          on_status (MarkDispatcherFailed "DispatcherDeploymentFailed"
                       ("Failed to create the dispatcher role binding: " +:+ err));;
          fail (newRoleBindingWarn err)
      end
  | GetError err =>
      on_status (MarkDispatcherUnknown "DispatcherRoleBindingFailed"
                   ("Failed to get dispatcher role binding: " +:+ err));;
      fail (newRoleBindingWarn err)
  end.

(** ** The dispatcher deployment *)
Definition dispatcherCR : string := "kt-channel-dispatcher".
Definition dispatcherSA : string := "kt-channel-dispatcher".

Definition with_Image (image : string) (c : Container) : Container :=
  mkContainer (ctr_Name c) image (ctr_Env c) (ctr_Ports c).

(** [d.Spec.Template.Spec.Containers[i].Image = image]. *)
Definition set_image (i : nat) (image : string) (d : Deployment) : Deployment :=
  {| d_APIVersion := d_APIVersion d; d_Kind := d_Kind d; d_meta := d_meta d; d_Replicas := d_Replicas d;
     d_Selector := d_Selector d;
     d_Template := {| pt_Labels := pt_Labels (d_Template d); pt_Annotations := pt_Annotations (d_Template d);
                      pt_ServiceAccountName := pt_ServiceAccountName (d_Template d);
                      pt_Containers := alter (with_Image image) i (pt_Containers (d_Template d)) |};
     d_Conditions := d_Conditions d |}.

Definition set_replicas (n : Z) (d : Deployment) : Deployment :=
  {| d_APIVersion := d_APIVersion d; d_Kind := d_Kind d; d_meta := d_meta d; d_Replicas := Some n;
     d_Selector := d_Selector d; d_Template := d_Template d; d_Conditions := d_Conditions d |}.

(** A write through the pointer to the deployment that the lister returned. *)
Definition write_cached (key : NamespacedName) (f : Deployment → Deployment) : M () :=
  modify (λ w, set_deployments (alter f key (w_deployments w)) w).

Definition dispatcher_args (c : KafkaTopicChannel) (dispatcherNamespace : string) : DispatcherArgs :=
  mkDispatcherArgs "namespace" dispatcherNamespace dispatcherImage 1 dispatcherServiceAccount "" c.

(** The update of the deployment, and what follows on its answer. *)
Definition update_dispatcher (d : Deployment) : M Deployment :=
  r ← api_write (UpdateDeployment d) (λ n, update_Deployment n d);
  match r with
  | inr d =>
      record_event EventTypeNormal "DispatcherDeploymentUpdated" "Dispatcher deployment updated";;
      on_status (PropagateDispatcherStatus (d_Conditions d));;
      mret d
  | inl err =>
      on_status (MarkServiceFailed "DispatcherDeploymentUpdateFailed"
                   ("Failed to update the dispatcher deployment: " +:+ err));;
      fail (newDeploymentWarn err)
  end.

(** The branch of an existing deployment [d], cached under [key]. *)
Definition refresh_dispatcher (key : NamespacedName) (expected d : Deployment) : M Deployment :=
  match FindContainer d DispatcherContainerName with
  | None => update_dispatcher expected
  | Some (i, existing) =>
      match FindContainer expected DispatcherContainerName with
      | None =>
          fail (PlainError ("container " +:+ DispatcherContainerName +:+
            " does not exist in expected dispatcher deployment. Cannot check if the deployment needs an update"))
      | Some (_, expectedContainer) =>
          let stale := bool_decide (ctr_Image existing ≠ ctr_Image expectedContainer) in
          let f := if stale then set_image i (ctr_Image expectedContainer) else id in
          (if stale then write_cached key f else mret ());;
          match d_Replicas d with
          | None => panic "*d.Spec.Replicas"
          | Some replicas =>
              let idle := bool_decide (replicas = 0%Z) in
              let g := if idle then set_replicas 1 else id in
              (if idle then write_cached key g else mret ());;
              if stale || idle then update_dispatcher (g (f d))
              else on_status (PropagateDispatcherStatus (d_Conditions d));; mret d
          end
      end
  end.

Definition reconcileDispatcher (dispatcherNamespace : string) : M Deployment :=
  sa ← reconcileServiceAccount dispatcherNamespace;
  reconcileRoleBinding dispatcherCR dispatcherNamespace dispatcherCR sa;;
  reconcileRoleBinding (dispatcherCR +:+ "-" +:+ dispatcherNamespace) systemNamespace "eventing-config-reader" sa;;
  c ← gets w_channel;
  let expected := MakeDispatcher (dispatcher_args c dispatcherNamespace) in
  let key := mkNamespacedName dispatcherNamespace (Name (meta c) +:+ "-dispatcher") in
  r ← lister_get w_deployments (nn_Namespace key) (nn_Name key);
  match r with
  | NotFound =>
      r ← api_write (CreateDeployment expected) (λ n, create_Deployment n expected);
      match r with
      | inr d =>
          record_event EventTypeNormal "DispatcherDeploymentCreated" "Dispatcher deployment created";;
          on_status (PropagateDispatcherStatus (d_Conditions d));;
          mret d
      | inl err =>
          on_status (MarkDispatcherFailed "DispatcherDeploymentFailed"
                       ("Failed to create the dispatcher deployment: " +:+ err));;
          fail (newDeploymentWarn err)
      end
  | GetError err =>
      on_status (MarkDispatcherUnknown "DispatcherDeploymentFailed" ("Failed to get dispatcher deployment: " +:+ err));;
      fail (PlainError err)
  | Found d => refresh_dispatcher key expected d
  end.

(** ** The services *)
Definition reconcileDispatcherService (dispatcherNamespace : string) : M Service :=
  c ← gets w_channel;
  r ← lister_get w_services dispatcherNamespace (Name (meta c) +:+ "-dispatcher");
  match r with
  | NotFound =>
      let expected := MakeDispatcherService dispatcherNamespace c in
      r ← api_write (CreateService expected) (λ n, create_Service n expected);
      match r with
      | inr svc =>
          record_event EventTypeNormal "DispatcherServiceCreated" "Dispatcher service created";;
          on_status MarkServiceTrue;;
          mret svc
      | inl err =>
          record_event EventTypeWarning "DispatcherServiceFailed" ("Failed to create the dispatcher service: " +:+ err);;
          on_status (MarkServiceFailed "DispatcherServiceFailed" ("Failed to create the dispatcher service: " +:+ err));;
          fail (PlainError err)
      end
  | GetError err =>
      on_status (MarkServiceUnknown "DispatcherServiceFailed" ("Failed to get dispatcher service: " +:+ err));;
      fail (newDispatcherServiceWarn err)
  | Found svc => on_status MarkServiceTrue;; mret svc
  end.

(** [equality.Semantic.DeepEqual] of two service specs, every field compared: an empty
    map is a nil map. *)
Definition same_spec (s1 s2 : ServiceSpec) : bool :=
  bool_decide (svc_Type s1 = svc_Type s2 ∧ svc_ExternalName s1 = svc_ExternalName s2 ∧
    default ∅ (svc_Selector s1) = default ∅ (svc_Selector s2) ∧ svc_Ports s1 = svc_Ports s2 ∧
    svc_Others s1 = svc_Others s2).

Definition with_spec (svc : Service) (spec : ServiceSpec) : Service :=
  mkService (s_APIVersion svc) (s_Kind svc) (s_meta svc) spec.

(** The text [err] is formatted into the message and then used as a format. *)
Definition channel_service_failed (err : string) : M () :=
  on_status (MarkChannelServiceFailed "ChannelServiceFailed" (Sprintf0 ("Channel Service failed: " +:+ err))).

(** The check of the owner that ends [reconcileChannelService]. *)
Definition check_owner (c : KafkaTopicChannel) (svc : Service) : M Service :=
  if IsControlledBy (s_meta svc) (meta c) then mret svc
  else
    let err := "kafkatopicchannel: " +:+ Namespace (meta c) +:+ "/" +:+ Name (meta c) +:+
                 " does not own Service: " +:+ quote (Name (s_meta svc)) in
    on_status (MarkChannelServiceFailed "ChannelServiceFailed" ("Channel Service failed: " +:+ err));;
    fail (PlainError err).

Definition reconcileChannelService (dispatcherNamespace : string) : M Service :=
  c ← gets w_channel;
  match MakeK8sService c [ExternalService dispatcherNamespace (Name (meta c) +:+ "-dispatcher")] with
  | inl err => channel_service_failed err;; fail (PlainError err)
  | inr expected =>
      r ← lister_get w_services (Namespace (meta c)) (MakeChannelServiceName (Name (meta c)));
      match r with
      | NotFound =>
          r ← api_write (CreateService expected) (λ n, create_Service n expected);
          match r with
          | inl err => channel_service_failed err;; fail (PlainError err)
          | inr svc => mret svc
          end
      | GetError err => fail (PlainError err)
      | Found svc =>
          if same_spec (s_Spec svc) (s_Spec expected) then check_owner c svc
          else
            let svc := with_spec svc (s_Spec expected) in
            r ← api_write (UpdateService svc) (λ n, update_Service n svc);
            match r with
            | inl err => fail (PlainError err)
            | inr svc => check_owner c svc
            end
      end
  end.

(** ** Subscribers *)

(** [r.statusManager.IsReady]: whether the prober calls the subscription ready. *)
Definition manager_IsReady (c : KafkaTopicChannel) (sub : SubscriberSpec) : M bool :=
  r ← lister_get w_endpoints (Namespace (meta c)) (Name (meta c) +:+ "-dispatcher");
  let get (_ _ : string) : string + Endpoints := match r with
                 | Found eps => inr eps
                 | NotFound => inl "not found"
                 | GetError err => inl err
                 end in
  n ← gets w_calls;
  p ← gets w_prober;
  let ready := prober_IsReady n (ListProbeTargets get c) c sub p in
  modify (set_prober ready.2);;
  mret ready.1.1.

Definition subscriber_ready (sub : SubscriberSpec) : SubscriberStatus :=
  mkSubscriberStatus (sub_UID sub) (sub_Generation sub) "True" "".

(** The loop of [reconcileSubscribers]. *)
Fixpoint ready_subscribers (c : KafkaTopicChannel) (subs : list SubscriberSpec) (acc : list SubscriberStatus) :
    M (list SubscriberStatus) :=
  match subs with
  | [] => mret acc
  | s :: subs =>
      r ← manager_IsReady c s;
      ready_subscribers c subs (if r : bool then acc ++ [subscriber_ready s] else acc)
  end.

(** The JSON patch from the channel to the copy is empty iff the two lists of
    subscriber statuses are the same. *)
Definition reconcileSubscribers : M () :=
  c ← gets w_channel;
  after ← ready_subscribers c (Subscribers (Spec c)) [];
  if decide (st_Subscribers (ch_Status c) = after) then mret ()
  else
    let ref := mkNamespacedName (Namespace (meta c)) (Name (meta c)) in
    r ← api_write (PatchSubscribers ref after) (λ n, patch_Subscribers n ref after);
    match r with
    | Some err => fail (PlainError ("Failed patching: " +:+ err))
    | None => mret ()
    end.

(** ** [ReconcileKind] and [FinalizeKind] *)

(** The text of an error; that of a validation does not depend on the number of the map
    visit ([ErrorText.merge_spec]). *)
Definition event_text (e : Event) : string :=
  match e with ReconcilerEvent _ _ msg => msg | PlainError msg => msg | ValidationError errs => Error 0 (Some errs) end.
(** An error of [m], wrapped by [fmt.Errorf]. *)
Definition wrap {A} (prefix : string) (m : M A) : M A := λ w,
  match m w with
  | (Err e, w) => (Err (PlainError (prefix +:+ event_text e)), w)
  | r => r
  end.

(** [%q not found] of [apierrs.NewNotFound]. *)
Definition endpoints_not_found (name : string) : string := "endpoints " +:+ quote name +:+ " not found".

Definition reconcileEndpoints (dispatcherNamespace dispatcherName : string) : M () :=
  r ← lister_get w_endpoints dispatcherNamespace dispatcherName;
  match r with
  | NotFound =>
      on_status (MarkEndpointsFailed "DispatcherEndpointsDoesNotExist" "Dispatcher Endpoints does not exist");;
      fail (PlainError (endpoints_not_found dispatcherName))
  | GetError err =>
      on_status (MarkEndpointsFailed "DispatcherEndpointsGetFailed" "Failed to get dispatcher endpoints");;
      fail (PlainError err)
  | Found e =>
      if decide (length (ep_Subsets e) = 0%nat) then
        on_status (MarkEndpointsFailed "DispatcherEndpointsNotReady" "There are no endpoints ready for Dispatcher service");;
        fail (PlainError ("there are no endpoints ready for Dispatcher service " +:+ dispatcherName))
      else on_status MarkEndpointsTrue
  end.

(** [ReconcileKind] on a valid channel [c]. *)
Definition reconcile_valid (c : KafkaTopicChannel) : M Event :=
  let dispatcherName := Name (meta c) +:+ "-dispatcher" in
  let dispatcherNamespace := Namespace (meta c) in
  on_status MarkConfigTrue;;
  on_status MarkTopicTrue;;
  reconcileDispatcher dispatcherNamespace;;
  reconcileDispatcherService dispatcherNamespace;;
  reconcileEndpoints dispatcherNamespace dispatcherName;;
  svc ← reconcileChannelService dispatcherNamespace;
  on_status MarkChannelServiceTrue;;
  on_status (SetAddress (Some (http_url (GetServiceHostname (Name (s_meta svc)) (Namespace (s_meta svc))))));;
  wrap "error reconciling subscribers " reconcileSubscribers;;
  mret (newReconciledNormal (Namespace (meta c)) (Name (meta c))).

Definition ReconcileKind : M Event :=
  on_status Status_InitializeConditions;;
  modify (λ w, set_channel (SetDefaults (w_channel w)) w);;
  c ← gets w_channel;
  match Validate c with
  | Some err => fail (ValidationError err)
  | None => reconcile_valid c
  end.

Definition FinalizeKind : M Event :=
  c ← gets w_channel;
  modify (λ w, set_prober (foldl (λ p s, CancelProbing s p) (w_prober w) (Subscribers (Spec c))) w);;
  mret (newReconciledNormal (Namespace (meta c)) (Name (meta c))).
End reconciler.

(** ** Reasoning about the methods *)

(** A cached deployment without a replica count, which [*d.Spec.Replicas]
    dereferences. *)
Definition nil_replicas (w : World) : Prop :=
  ∃ key d, w_deployments w !! key = Some d ∧ d_Replicas d = None.

(** [m], run on [w], returns a value and a state with [Q], an event and a state
    with [E], or panics on a cached deployment without replicas. *)
Definition post {A} (m : M A) (w : World) (Q : A → World → Prop) (E : Event → World → Prop) : Prop :=
  match m w with
  | (Ok a, w') => Q a w'
  | (Err e, w') => E e w'
  | (Panic _, w') => nil_replicas w'
  end.

Lemma post_bind {A B} (m : M A) (f : A → M B) w Q E :
  post m w (λ a w', post (f a) w' Q E) E → post (m ≫= f) w Q E.
Proof. unfold post, mbind, M_bind. by destruct (m w) as [[a|e|why] w']. Qed.

Lemma post_mono {A} (m : M A) w (Q Q' : A → World → Prop) (E E' : Event → World → Prop) :
  post m w Q E → (∀ a w', Q a w' → Q' a w') → (∀ e w', E e w' → E' e w') → post m w Q' E'.
Proof. unfold post. destruct (m w) as [[a|e|why] w']; eauto. Qed.

Lemma post_Ok {A} (m : M A) w Q E a w' : post m w Q E → m w = (Ok a, w') → Q a w'.
Proof. unfold post. intros Hp Hm. by rewrite Hm in Hp. Qed.
Lemma post_Err {A} (m : M A) w Q E e w' : post m w Q E → m w = (Err e, w') → E e w'.
Proof. unfold post. intros Hp Hm. by rewrite Hm in Hp. Qed.

(** A condition of the channel is a dependent of its condition set. *)
Ltac solve_dependent := apply list_elem_of_In; vm_compute; tauto.

Section stages.
Context `{GoRuntime} `{KubeClient} `{Resolver} `{Reconciler}.
Implicit Types (w : World) (c : KafkaTopicChannel) (cs : StatusCell).

(** A point of the reconciliation of [c]: the metadata, the spec and the
    subscriber statuses are those of [c], and the conditions [ts] are True. *)
Record stage c (ts : list ConditionType) w : Prop := {
  st_inv : status_inv (cell w);
  st_meta : meta (w_channel w) = meta c;
  st_spec : Spec (w_channel w) = Spec c;
  st_subs : st_Subscribers (ch_Status (w_channel w)) = st_Subscribers (ch_Status c);
  st_deps t : t ∈ ts → t ∈ dependents kc;
  st_true t : t ∈ ts → status_of (managed (cell w)) t = Some ConditionTrue;
}.

(** Calls, writes, events and the caches do not matter. *)
Lemma stage_frame c ts w w' :
  w_channel w' = w_channel w → w_clock w' = w_clock w → stage c ts w → stage c ts w'.
Proof. intros Hc Hk []. split; unfold cell in *; rewrite ?Hc, ?Hk; done. Qed.

Lemma stage_weaken c ts ts' w : ts' ⊆ ts → stage c ts w → stage c ts' w.
Proof. intros Hsub []. split; auto. Qed.

Lemma cell_set_cell cs w : cell (set_cell cs w) = cs.
Proof. by destruct cs. Qed.

(** A marking of a condition other than Addressable. *)
Lemma stage_mark c ts d s f w :
  stage c ts w → d ∈ dependents kc → d ≠ KafkaTopicChannelConditionAddressable →
  (∀ m, wf kc m → marked kc d s m (f m)) →
  stage c (filter (λ t, t ≠ d) ts) (set_cell (manage f (cell w)) w) ∧
  marked kc d s (managed (cell w)) (managed (cell (set_cell (manage f (cell w)) w))).
Proof.
  intros [Hi Hm Hsp Hsb Hdep Ht] Hd Hne Hf. rewrite cell_set_cell, managed_manage.
  assert (HM : marked kc d s (managed (cell w)) (f (managed (cell w)))) by (apply Hf, Hi).
  split; [|done]. split; rewrite ?cell_set_cell; try done.
  - by eapply manage_mark_inv.
  - intros t [_ Hin]%list_elem_of_filter. auto.
  - intros t [Htd Hin]%list_elem_of_filter. rewrite managed_manage, (marked_others _ _ _ _ _ HM); auto.
    apply (dep_not_happy kc kc_wf). auto.
Qed.

Lemma stage_mark_True c ts d w :
  stage c ts w → d ∈ dependents kc → d ≠ KafkaTopicChannelConditionAddressable →
  stage c (d :: ts) (set_cell (manage (MarkTrue kc d) (cell w)) w).
Proof.
  intros Hst Hd Hne.
  destruct (stage_mark c ts d ConditionTrue (MarkTrue kc d) w Hst Hd Hne) as [Hst' HM];
    [intros; by apply marked_MarkTrue; [apply kc_wf|..]|].
  assert (Hs := marked_status _ _ _ _ _ HM).
  destruct Hst' as [? ? ? ? Hdep Ht]. destruct Hst. split; try done.
  - intros t [->|Hin]%elem_of_cons; auto.
  - intros t [->|Hin]%elem_of_cons; [done|]. destruct (decide (t = d)) as [->|Htd]; [done|].
    apply Ht. by apply list_elem_of_filter.
Qed.

(** The reconciliation stopped, and the channel is not ready. *)
Definition blocked c w : Prop := stage c [] w ∧ IsReady (cell w) = false.

Lemma not_True_blocks c ts d w :
  stage c ts w → d ∈ dependents kc → status_of (managed (cell w)) d ≠ Some ConditionTrue → blocked c w.
Proof.
  intros Hst Hd Hs. split; [by eapply stage_weaken; [apply list_subseteq_nil|]|].
  destruct (IsReady (cell w)) eqn:Hr; [|done]. destruct Hs.
  destruct (ready_status (cell w) (st_inv _ _ _ Hst) Hr) as [_ Hall]. by apply Hall.
Qed.

Lemma stage_mark_False c ts d reason msg w :
  stage c ts w → d ∈ dependents kc → d ≠ KafkaTopicChannelConditionAddressable →
  blocked c (set_cell (manage (MarkFalse kc d reason msg) (cell w)) w).
Proof.
  intros Hst Hd Hne.
  destruct (stage_mark c ts d ConditionFalse (MarkFalse kc d reason msg) w Hst Hd Hne) as [Hst' HM];
    [intros; by apply marked_MarkFalse; [apply kc_wf|..]|].
  eapply not_True_blocks; [exact Hst'|exact Hd|]. by rewrite (marked_status _ _ _ _ _ HM).
Qed.

Lemma stage_mark_Unknown c ts d reason msg w :
  stage c ts w → d ∈ dependents kc → d ≠ KafkaTopicChannelConditionAddressable →
  blocked c (set_cell (manage (MarkUnknown kc d reason msg) (cell w)) w).
Proof.
  intros Hst Hd Hne.
  destruct (stage_mark c ts d ConditionUnknown (MarkUnknown kc d reason msg) w Hst Hd Hne) as [Hst' HM];
    [intros; by apply marked_MarkUnknown; [apply kc_wf|..]|].
  eapply not_True_blocks; [exact Hst'|exact Hd|]. by rewrite (marked_status _ _ _ _ _ HM).
Qed.

(** What the deployment says changes the dispatcher condition only. *)
Lemma stage_propagate c ts ds : ∀ w,
  stage c ts w → (KafkaTopicChannelConditionDispatcherReady ∉ ts) →
  stage c ts (set_cell (PropagateDispatcherStatus ds (cell w)) w).
Proof.
  intros w Hst Hno.
  enough (Hcs : ∀ cs, status_inv cs → (∀ t, t ∈ ts → status_of (managed cs) t = Some ConditionTrue) →
    st_Subscribers (status cs) = st_Subscribers (ch_Status c) →
    let cs' := PropagateDispatcherStatus ds cs in
    status_inv cs' ∧ (∀ t, t ∈ ts → status_of (managed cs') t = Some ConditionTrue) ∧
    st_Subscribers (status cs') = st_Subscribers (ch_Status c)).
  { destruct Hst as [Hi Hm Hsp Hsb Hdep Ht]. destruct (Hcs (cell w) Hi Ht Hsb) as (Hi' & Ht' & Hsb').
    by split; rewrite ?cell_set_cell. }
  assert (Hdep := st_deps _ _ _ Hst). clear Hst w. unfold PropagateDispatcherStatus.
  induction ds as [|d ds IH]; intros cs Hi Ht Hsb; [done|]. cbn [foldl].
  assert (Hne : ∀ t, t ∈ ts → t ≠ KafkaTopicChannelConditionDispatcherReady) by (intros t ? ->; done).
  assert (Hmark : ∀ s f, (∀ m, wf kc m → marked kc KafkaTopicChannelConditionDispatcherReady s m (f m)) →
    status_inv (manage f cs) ∧ (∀ t, t ∈ ts → status_of (managed (manage f cs)) t = Some ConditionTrue)).
  { intros s f Hf. assert (HM := Hf _ (inv_wf _ Hi)). split; [by apply (manage_mark_inv KafkaTopicChannelConditionDispatcherReady s)|].
    intros t Hin. rewrite managed_manage, (marked_others _ _ _ _ _ HM); auto. apply (dep_not_happy kc kc_wf). auto. }
  assert (Hd : KafkaTopicChannelConditionDispatcherReady ∈ dependents kc) by solve_dependent.
  assert (HT := Hmark _ _ (λ m Hm, marked_MarkTrue kc kc_wf _ m Hm Hd)).
  assert (HF := λ r msg, Hmark _ _ (λ m Hm, marked_MarkFalse kc kc_wf _ r msg m Hm Hd)).
  assert (HU := λ r msg, Hmark _ _ (λ m Hm, marked_MarkUnknown kc kc_wf _ r msg m Hm Hd)).
  unfold propagate_condition, MarkDispatcherFailed, MarkDispatcherUnknown.
  repeat destruct (decide _); apply IH; first [done | apply HT | apply HF | apply HU].
Qed.

(** ** Each method at its stage *)
Lemma post_lister_get {A} (cache : World → gmap NamespacedName A) ns name w
    (Q : get_result A → World → Prop) E :
  (∀ r, (∀ err, r = GetError err → ∃ n, lister_error n = Some err) →
        (∀ a, r = Found a → cache w !! mkNamespacedName ns name = Some a) → Q r (count_call w)) →
  post (lister_get cache ns name) w Q E.
Proof.
  intros HQ. unfold post, lister_get. apply HQ.
  - intros err. destruct (lister_error (w_calls w)) eqn:Herr; [|by destruct (cache w !! _)].
    intros [= ->]. by exists (w_calls w).
  - intros a. destruct (lister_error (w_calls w)); [done|]. destruct (cache w !! _); [|done]. by intros [= ->].
Qed.

Lemma post_api_write {A} x (answer : nat → A) w (Q : A → World → Prop) E :
  (∀ n, Q (answer n) (log_write x (count_call w))) → post (api_write x answer) w Q E.
Proof. intros HQ. apply HQ. Qed.
End stages.

(** Run the next call of a method, leaving what it answers to a case analysis. *)
Ltac run_call :=
  apply post_bind; first [apply post_lister_get; intros [?| |?] ? ? | apply post_api_write; intros ?].
(** [stage c ts w'] for a [w'] with the channel and the clock of a known stage. *)
Ltac frame := eapply stage_frame; [| |eassumption]; reflexivity.

Section methods.
Context `{GoRuntime} `{KubeClient} `{Resolver} `{Reconciler}.
Implicit Types (w : World) (c : KafkaTopicChannel).

Lemma dispatcher_dep : KafkaTopicChannelConditionDispatcherReady ∈ dependents kc.
Proof. solve_dependent. Qed.
Lemma service_dep : KafkaTopicChannelConditionServiceReady ∈ dependents kc.
Proof. solve_dependent. Qed.
Lemma endpoints_dep : KafkaTopicChannelConditionEndpointsReady ∈ dependents kc.
Proof. solve_dependent. Qed.
Lemma channel_service_dep : KafkaTopicChannelConditionChannelServiceReady ∈ dependents kc.
Proof. solve_dependent. Qed.

Lemma reconcileServiceAccount_stage c ts ns w :
  stage c ts w → post (reconcileServiceAccount ns) w (λ _, stage c ts) (λ _, blocked c).
Proof.
  intros Hst. unfold reconcileServiceAccount. run_call.
  - frame.
  - run_call. destruct (create_ServiceAccount _ _) as [err|sa].
    + eapply stage_mark_False; [frame|apply dispatcher_dep|done].
    + frame.
  - eapply stage_mark_Unknown; [frame|apply dispatcher_dep|done].
Qed.

Lemma reconcileRoleBinding_stage c ts name ns role sa w :
  stage c ts w → post (reconcileRoleBinding name ns role sa) w (λ _, stage c ts) (λ _, blocked c).
Proof.
  intros Hst. unfold reconcileRoleBinding. run_call.
  - frame.
  - run_call. destruct (create_RoleBinding _ _) as [err|rb].
    + eapply stage_mark_False; [frame|apply dispatcher_dep|done].
    + frame.
  - eapply stage_mark_Unknown; [frame|apply dispatcher_dep|done].
Qed.

Lemma update_dispatcher_stage c ts d w :
  stage c ts w → (KafkaTopicChannelConditionDispatcherReady ∉ ts) →
  post (update_dispatcher d) w (λ _, stage c ts) (λ _, blocked c).
Proof.
  intros Hst Hno. unfold update_dispatcher. run_call. destruct (update_Deployment _ _) as [err|d'].
  - eapply stage_mark_False; [frame|apply service_dep|done].
  - apply stage_propagate; [frame|done].
Qed.

(** Writing to the cached deployment keeps the stage, and its lack of replicas. *)
Lemma write_cached_stage c ts key f (b : bool) d w :
  stage c ts w → w_deployments w !! key = Some d → (d_Replicas (f d) = None ↔ d_Replicas d = None) →
  post (if b then write_cached key f else mret ()) w
    (λ _ w', stage c ts w' ∧ (d_Replicas d = None → nil_replicas w')) (λ _, blocked c).
Proof.
  intros Hst Hd Hf. destruct b; (split; [frame|]).
  - intros Hr. exists key, (f d). split; [|by apply Hf]. cbn. by rewrite lookup_alter_eq, Hd.
  - intros Hr. by exists key, d.
Qed.

Lemma refresh_dispatcher_stage c ts key c' ns d w :
  stage c ts w → (KafkaTopicChannelConditionDispatcherReady ∉ ts) → w_deployments w !! key = Some d →
  post (refresh_dispatcher key (MakeDispatcher (dispatcher_args c' ns)) d) w (λ _, stage c ts) (λ _, blocked c).
Proof.
  intros Hst Hno Hd. unfold refresh_dispatcher.
  destruct (FindContainer d _) as [[i existing]|]; [|by apply update_dispatcher_stage].
  cbv zeta. cbn [FindContainer MakeDispatcher d_Template pt_Containers list_find]. rewrite decide_True by done.
  set (stale := bool_decide _). clearbody stale. apply post_bind.
  eapply post_mono; [apply (write_cached_stage c ts key _ stale d w Hst Hd); by destruct stale| |done].
  intros ? w0 [Hst0 Hnil]. destruct (d_Replicas d) as [replicas|]; [|by apply Hnil]. apply post_bind.
  set (idle := bool_decide _). clearbody idle.
  assert (Hw : post (if idle then write_cached key (if idle then set_replicas 1 else id) else mret ()) w0
                 (λ _, stage c ts) (λ _, blocked c)) by (destruct idle; frame).
  eapply post_mono; [exact Hw| |done]. intros ? w1 Hst1. cbv beta in Hst1.
  destruct (stale || idle); [by apply update_dispatcher_stage|]. by apply stage_propagate.
Qed.

Lemma reconcileDispatcher_stage c ts ns w :
  stage c ts w → (KafkaTopicChannelConditionDispatcherReady ∉ ts) →
  post (reconcileDispatcher ns) w (λ _, stage c ts) (λ _, blocked c).
Proof.
  intros Hst Hno. unfold reconcileDispatcher. apply post_bind.
  eapply post_mono; [by apply reconcileServiceAccount_stage| |done]. clear Hst. intros sa ?w Hst. cbv beta in Hst.
  apply post_bind. eapply post_mono; [by apply reconcileRoleBinding_stage| |done]. clear Hst. intros ? ?w Hst. cbv beta in Hst.
  apply post_bind. eapply post_mono; [by apply reconcileRoleBinding_stage| |done]. clear Hst. intros ? ?w Hst. cbv beta in Hst.
  apply post_bind. unfold gets, post at 1. cbv zeta. run_call.
  - apply refresh_dispatcher_stage; [frame|done|by auto].
  - run_call. destruct (create_Deployment _ _) as [err|d].
    + eapply stage_mark_False; [frame|apply dispatcher_dep|done].
    + apply stage_propagate; [frame|done].
  - eapply stage_mark_Unknown; [frame|apply dispatcher_dep|done].
Qed.

Lemma reconcileDispatcherService_stage c ts ns w :
  stage c ts w →
  post (reconcileDispatcherService ns) w (λ _, stage c (KafkaTopicChannelConditionServiceReady :: ts)) (λ _, blocked c).
Proof.
  intros Hst. unfold reconcileDispatcherService. apply post_bind. unfold gets, post at 1. run_call.
  - apply stage_mark_True; [frame|apply service_dep|done].
  - cbv zeta. run_call. destruct (create_Service _ _) as [err|svc].
    + eapply stage_mark_False; [frame|apply service_dep|done].
    + apply stage_mark_True; [frame|apply service_dep|done].
  - eapply stage_mark_Unknown; [frame|apply service_dep|done].
Qed.

Lemma reconcileEndpoints_stage c ts ns name w :
  stage c ts w →
  post (reconcileEndpoints ns name) w (λ _, stage c (KafkaTopicChannelConditionEndpointsReady :: ts)) (λ _, blocked c).
Proof.
  intros Hst. unfold reconcileEndpoints. run_call.
  - destruct (decide _).
    + eapply stage_mark_False; [frame|apply endpoints_dep|done].
    + apply stage_mark_True; [frame|apply endpoints_dep|done].
  - eapply stage_mark_False; [frame|apply endpoints_dep|done].
  - eapply stage_mark_False; [frame|apply endpoints_dep|done].
Qed.

(** The service object of the channel, and the error texts that no condition
    keeps: of a lister, of an update of the service and of the patch. *)
Definition channel_service c ns : string + Service :=
  MakeK8sService c [ExternalService ns (Name (meta c) +:+ "-dispatcher")].

Definition unmarked (e : Event) : Prop :=
  ∃ n err, e = PlainError err ∧ lister_error n = Some err ∨
           (∃ svc, e = PlainError err ∧ update_Service n svc = inl err) ∨
           (∃ ref subs, e = PlainError ("error reconciling subscribers Failed patching: " +:+ err) ∧
              patch_Subscribers n ref subs = Some err).

(** The service that becomes the address: controlled by the channel, or what the
    server made of the one created for it. *)
Definition owned c ns (svc : Service) : Prop :=
  IsControlledBy (s_meta svc) (meta c) = true ∨
  ∃ n k, channel_service c ns = inr k ∧ create_Service n k = inr svc.

Lemma check_owner_stage c ts svc ns w c' :
  meta c' = meta c → stage c ts w →
  post (check_owner c' svc) w (λ svc w', stage c ts w' ∧ owned c ns svc) (λ _, blocked c).
Proof.
  intros Hm Hst. unfold check_owner. rewrite Hm. destruct (IsControlledBy _ _) eqn:Ho.
  - split; [exact Hst|by left].
  - eapply stage_mark_False; [frame|apply channel_service_dep|done].
Qed.

Lemma reconcileChannelService_stage c ts ns w :
  stage c ts w →
  post (reconcileChannelService ns) w (λ svc w', stage c ts w' ∧ owned c ns svc)
    (λ e w', blocked c w' ∨ stage c ts w' ∧ unmarked e).
Proof.
  intros Hst. assert (Hm := st_meta _ _ _ Hst). unfold reconcileChannelService.
  apply post_bind. unfold gets, post at 1. cbv beta.
  assert (Hk : MakeK8sService (w_channel w) [ExternalService ns (Name (meta (w_channel w)) +:+ "-dispatcher")] = channel_service c ns).
  { unfold channel_service, MakeK8sService, ch_controller_ref. by rewrite Hm. }
  rewrite Hk. clear Hk. destruct (channel_service c ns) as [err|k] eqn:Hk; [by left; eapply stage_mark_False; [frame|apply channel_service_dep|done]|].
  apply post_bind, post_lister_get. intros [svc| |err] Herr _.
  - destruct (same_spec _ _).
    + eapply post_mono; [apply (check_owner_stage c ts _ ns); [exact Hm|frame]|done|by left].
    + apply post_bind, post_api_write. intros n.
      destruct (update_Service _ _) as [err|svc'] eqn:Hu.
      * right. split; [frame|]. exists n, err. right. left. by eexists.
      * eapply post_mono; [apply (check_owner_stage c ts _ ns); [exact Hm|frame]|done|by left].
  - apply post_bind, post_api_write. intros n. destruct (create_Service n k) as [err|svc] eqn:Hc.
    + left. eapply stage_mark_False; [frame|apply channel_service_dep|done].
    + split; [frame|]. right. by exists n, k.
  - right. split; [frame|]. destruct (Herr err eq_refl) as [n Hn]. exists n, err. by left.
Qed.

(** The marking that gives the channel its address. *)
Lemma stage_address c ts url w :
  stage c ts w →
  let w' := set_cell (SetAddress (Some url) (cell w)) w in
  stage c (KafkaTopicChannelConditionAddressable :: ts) w' ∧ agrees kc (managed (cell w')) ∧
  Address (ch_Status (w_channel w')) = Some (Some url).
Proof.
  intros [Hi Hm Hsp Hsb Hdep Ht]. cbv zeta. rewrite cell_set_cell.
  set (cs0 := match Address (status (cell w)) with None => with_Address (cell w) (Some None) | Some _ => cell w end).
  assert (Hm0 : managed (with_Address cs0 (Some (Some url))) = managed (cell w))
    by (unfold cs0; by destruct (Address (status (cell w)))).
  assert (Hs0 : st_Subscribers (status cs0) = st_Subscribers (status (cell w)))
    by (unfold cs0; by destruct (Address (status (cell w)))).
  assert (HSA : SetAddress (Some url) (cell w) =
    manage (MarkTrue kc KafkaTopicChannelConditionAddressable) (with_Address cs0 (Some (Some url)))) by done.
  assert (Hd : KafkaTopicChannelConditionAddressable ∈ dependents kc) by solve_dependent.
  assert (HM := marked_MarkTrue kc kc_wf _ _ (inv_wf _ Hi) Hd).
  split; [|split].
  - split; rewrite ?cell_set_cell; [by apply SetAddress_inv|done|done| | |].
    + change (st_Subscribers (status (SetAddress (Some url) (cell w))) = st_Subscribers (ch_Status c)).
      rewrite HSA, <-Hsb. exact Hs0.
    + intros t [->|Hin]%elem_of_cons; auto.
    + rewrite HSA, managed_manage, Hm0. intros t [->|Hin]%elem_of_cons; [apply HM|].
      destruct (decide (t = KafkaTopicChannelConditionAddressable)) as [->|Hne]; [apply HM|].
      rewrite (marked_others _ _ _ _ _ HM); auto. apply (dep_not_happy kc kc_wf). auto.
  - rewrite HSA, managed_manage, Hm0. apply HM.
  - change (Address (status (SetAddress (Some url) (cell w))) = Some (Some url)). by rewrite HSA.
Qed.

(** The subscribers change the prober only. *)
Lemma ready_subscribers_frame c subs : ∀ acc w (Q : list SubscriberStatus → World → Prop) E,
  (∀ n p res, Q res (mkWorld (w_channel w) (w_clock w) (w_serviceAccounts w) (w_roleBindings w) (w_deployments w)
     (w_services w) (w_endpoints w) p n (w_writes w) (w_events w))) →
  post (ready_subscribers c subs acc) w Q E.
Proof.
  induction subs as [|s subs IH]; intros acc w Q E HQ; cbn [ready_subscribers].
  - specialize (HQ (w_calls w) (w_prober w) acc). by destruct w.
  - apply post_bind. unfold manager_IsReady. apply post_bind, post_lister_get. intros r _ _.
    apply post_bind. unfold gets at 1, post at 1. apply post_bind. unfold gets at 1, post at 1. cbv zeta.
    apply post_bind. unfold modify, post at 1. cbv beta. unfold mret, M_ret, post at 1. cbv beta.
    apply IH. intros n p res. apply HQ.
Qed.

Lemma reconcileSubscribers_stage c ts w :
  stage c ts w →
  post (wrap "error reconciling subscribers " reconcileSubscribers) w
    (λ _ w', w_channel w' = w_channel w ∧ w_clock w' = w_clock w)
    (λ e w', w_channel w' = w_channel w ∧ unmarked e).
Proof.
  intros Hst.
  assert (Hs : post reconcileSubscribers w (λ _ w', w_channel w' = w_channel w ∧ w_clock w' = w_clock w)
    (λ e w', w_channel w' = w_channel w ∧ ∃ n err ref subs, e = PlainError ("Failed patching: " +:+ err) ∧ patch_Subscribers n ref subs = Some err)).
  { unfold reconcileSubscribers. apply post_bind. unfold gets, post at 1. apply post_bind, ready_subscribers_frame.
    intros n p res. destruct (decide _); [done|]. apply post_bind, post_api_write. intros n'.
    destruct (patch_Subscribers _ _ _) as [err|] eqn:Hp; [|done].
    split; [done|]. eexists n', err, _, _. by split. }
  unfold post, wrap in *. destruct (reconcileSubscribers w) as [[a|e|why] w']; [done| |done].
  destruct Hs as (? & n & err & ref & subs & -> & Hp). split; [done|]. exists n, err. right. right. by exists ref, subs.
Qed.

(** What a successful reconciliation leaves behind. *)
Record reconciled c w' : Prop := {
  rd_conditions t : t ∈ dependents kc → t ≠ KafkaTopicChannelConditionDispatcherReady →
    status_of (managed (cell w')) t = Some ConditionTrue;
  rd_ready : IsReady (cell w') = true ↔
    status_of (managed (cell w')) KafkaTopicChannelConditionDispatcherReady = Some ConditionTrue;
  rd_address : ∃ svc, owned c (Namespace (meta c)) svc ∧
    Address (ch_Status (w_channel w')) = Some (Some (http_url (GetServiceHostname (Name (s_meta svc)) (Namespace (s_meta svc)))));
  rd_meta : meta (w_channel w') = meta c;
  rd_subs : st_Subscribers (ch_Status (w_channel w')) = st_Subscribers (ch_Status c);
  rd_sane : sane (ch_Status (w_channel w'));
}.

Lemma stage_reconciled c svc w w' :
  stage c [KafkaTopicChannelConditionChannelServiceReady; KafkaTopicChannelConditionEndpointsReady;
           KafkaTopicChannelConditionServiceReady; KafkaTopicChannelConditionTopicReady;
           KafkaTopicChannelConditionConfigReady] w →
  owned c (Namespace (meta c)) svc →
  w_channel w' = w_channel (set_cell (SetAddress (Some (http_url (GetServiceHostname (Name (s_meta svc)) (Namespace (s_meta svc))))) (cell w)) w) →
  w_clock w' = w_clock (set_cell (SetAddress (Some (http_url (GetServiceHostname (Name (s_meta svc)) (Namespace (s_meta svc))))) (cell w)) w) →
  reconciled c w'.
Proof.
  intros Hst Ho Hch Hck.
  destruct (stage_address c _ (http_url (GetServiceHostname (Name (s_meta svc)) (Namespace (s_meta svc)))) w Hst) as (Hst' & Hag & Ha).
  set (w1 := set_cell _ w) in *. clearbody w1.
  assert (Hcell : cell w' = cell w1) by (unfold cell; by rewrite Hch, Hck).
  assert (Hall : ∀ t, t ∈ dependents kc → t ≠ KafkaTopicChannelConditionDispatcherReady →
            status_of (managed (cell w1)) t = Some ConditionTrue).
  { intros t Ht Hne. apply (st_true _ _ _ Hst'). apply list_elem_of_In. apply list_elem_of_In in Ht. revert Ht.
    vm_compute. intros Ht. repeat (destruct Ht as [Ht|Ht]; [subst t; tauto|]). done. }
  split; rewrite ?Hcell.
  - done.
  - unfold IsReady, GetConditionSet. rewrite agrees_IsHappy by (done || apply Hst').
    split; [intros Hd; apply Hd, dispatcher_dep|]. intros Hd t Ht.
    destruct (decide (t = KafkaTopicChannelConditionDispatcherReady)) as [->|]; auto.
  - exists svc. by rewrite Hch.
  - rewrite Hch. apply Hst'.
  - rewrite Hch. apply Hst'.
  - rewrite Hch. by apply (proj2 (sane_cell (cell w1))), Hst'.
Qed.
End methods.

(** ** Properties *)
Section properties.
Context `{GoRuntime} `{KubeClient} `{Resolver} `{Reconciler}.
Implicit Types (w : World) (c : KafkaTopicChannel).

(** The ways a reconciliation of [c] ends with an error. *)
Definition stopped c (e : Event) w' : Prop :=
  meta (w_channel w') = meta c ∧
  st_Subscribers (ch_Status (w_channel w')) = st_Subscribers (ch_Status c) ∧ sane (ch_Status (w_channel w')) ∧
  (IsReady (cell w') = false ∨ unmarked e).

Lemma blocked_stopped c e w : blocked c w → stopped c e w.
Proof. intros [Hb Hr]. split_and!; [apply Hb..|by apply (proj2 (sane_cell (cell w))), Hb|by left]. Qed.

Lemma reconcile_valid_post c c' w :
  meta c' = meta c → stage c [] w →
  post (reconcile_valid c') w
    (λ e w', e = newReconciledNormal (Namespace (meta c)) (Name (meta c)) ∧ reconciled c w') (stopped c).
Proof.
  intros Hm Hst. unfold reconcile_valid. rewrite Hm. cbv zeta.
  do 2 (apply post_bind; unfold on_status at 1, modify at 1, post at 1; cbv beta).
  apply (stage_mark_True c _ KafkaTopicChannelConditionConfigReady) in Hst; [|solve_dependent|done].
  apply (stage_mark_True c _ KafkaTopicChannelConditionTopicReady) in Hst; [|solve_dependent|done].
  set (w2 := set_cell _ (set_cell _ w)) in *. clearbody w2.
  apply post_bind. eapply post_mono; [apply reconcileDispatcher_stage; [exact Hst|]| |apply blocked_stopped].
  { intros Hin%list_elem_of_In. vm_compute in Hin. intuition discriminate. }
  intros ? w3 Hst3. apply post_bind. cbv beta in Hst3.
  eapply post_mono; [apply reconcileDispatcherService_stage; exact Hst3| |apply blocked_stopped].
  intros ? w4 Hst4. apply post_bind. cbv beta in Hst4.
  eapply post_mono; [apply reconcileEndpoints_stage; exact Hst4| |apply blocked_stopped].
  intros ? w5 Hst5. apply post_bind. cbv beta in Hst5.
  eapply post_mono; [apply reconcileChannelService_stage; exact Hst5| |].
  2:{ intros e w' [Hb|[Hst' Hu]]; [by apply blocked_stopped|].
      split_and!; [apply Hst'..|by apply (proj2 (sane_cell (cell w'))), Hst'|by right]. }
  intros svc w6 [Hst6 Ho]. do 2 (apply post_bind; unfold on_status at 1, modify at 1, post at 1; cbv beta).
  apply (stage_mark_True c _ KafkaTopicChannelConditionChannelServiceReady) in Hst6; [|apply channel_service_dep|done].
  set (w7 := set_cell (MarkChannelServiceTrue _) w6) in *.
  destruct (stage_address c _ (http_url (GetServiceHostname (Name (s_meta svc)) (Namespace (s_meta svc)))) w7 Hst6) as [Hst8 _].
  apply post_bind. eapply post_mono; [eapply reconcileSubscribers_stage; exact Hst8| |].
  - intros ? w' [Hch Hck]. unfold post. split; [done|]. by eapply stage_reconciled.
  - intros e w' [Hch Hu]. unfold stopped. rewrite Hch. split_and!; [apply Hst8..|by apply (proj2 (sane_cell (cell (set_cell _ w7)))), Hst8|by right].
Qed.

(** The start of the method. *)
Definition prepared w : World :=
  let w := set_cell (Status_InitializeConditions (cell w)) w in
  set_channel (SetDefaults (w_channel w)) w.

Lemma ReconcileKind_prepared w :
  ReconcileKind w = match Validate (SetDefaults (w_channel w)) with
                    | Some err => (Err (ValidationError err), prepared w)
                    | None => reconcile_valid (w_channel (prepared w)) (prepared w)
                    end.
Proof.
  change (ReconcileKind w) with (match Validate (w_channel (prepared w)) with
    | Some err => fail (ValidationError err) | None => reconcile_valid (w_channel (prepared w)) end (prepared w)).
  change (Validate (w_channel (prepared w))) with (Validate (SetDefaults (w_channel w))).
  by destruct (Validate _).
Qed.

Lemma prepared_stage w : status_inv (cell w) → stage (SetDefaults (w_channel w)) [] (prepared w).
Proof.
  intros Hi.
  assert (Hc : cell (prepared w) = Status_InitializeConditions (cell w)) by done.
  split; rewrite ?Hc; [by apply init_inv|done|done|done|by intros ? ?%elem_of_nil..].
Qed.

Lemma ReconcileKind_cases w :
  sane (ch_Status (w_channel w)) →
  let c := SetDefaults (w_channel w) in
  match ReconcileKind w with
  | (Ok e, w') =>
      e = newReconciledNormal (Namespace (meta c)) (Name (meta c)) ∧ valid c ∧ reconciled c w'
  | (Err e, w') =>
      meta (w_channel w') = meta c ∧
      st_Subscribers (ch_Status (w_channel w')) = st_Subscribers (ch_Status c) ∧ sane (ch_Status (w_channel w')) ∧
      (IsReady (cell w') = false ∨ unmarked e ∨
       ¬ valid c ∧ (∃ errs, e = ValidationError errs) ∧ w_writes w' = w_writes w)
  | (Panic _, w') => nil_replicas w'
  end.
Proof.
  intros reach. apply (sane_cell (cell w)), prepared_stage in reach. cbv zeta. rewrite ReconcileKind_prepared.
  destruct (Validate (SetDefaults (w_channel w))) as [errs|] eqn:HV.
  - split_and!; [apply reach..|by apply (proj2 (sane_cell (cell (prepared w)))), reach|]. right. right. rewrite <-Validate_valid, HV. split; [done|]. by split; [exists errs|].
  - apply Validate_valid in HV.
    assert (Hp := reconcile_valid_post (SetDefaults (w_channel w)) (w_channel (prepared w)) _ eq_refl reach). unfold post in Hp.
    destruct (reconcile_valid _ _) as [[e|e|why] w']; [|destruct Hp as (? & ? & ? & [?|?]); auto 6|exact Hp].
    destruct Hp as [-> Hr]. done.
Qed.

(** C2: Reconciling a channel, whatever status it has on the server: [sane] holds of an
    empty status and of everything the lifecycle methods, the reconciler and its status
    updates make of it ([lifecycle_reachable_sane], [status_updates_keep_subscribers]).  On success the channel is
    valid, every condition but the dispatcher's is True, the channel is Ready iff the
    dispatcher is, and its address is the host of a service that it controls (or that was
    just created for it).  After an error it is not Ready, save for an invalid channel, for
    which nothing was written, and for three errors that no condition records: of a lister,
    of the update of the service and of the patch.  The statuses of the subscribers are
    never changed in memory, the status is sane again, and the method panics only on a
    deployment without replicas. *)
Theorem ReconcileKind_spec w (status : sane (ch_Status (w_channel w))) :
  let c := SetDefaults (w_channel w) in
  match ReconcileKind w with
  | (Ok e, w') =>
      e = newReconciledNormal (Namespace (meta c)) (Name (meta c)) ∧ valid c ∧ reconciled c w'
  | (Err e, w') =>
      meta (w_channel w') = meta c ∧
      st_Subscribers (ch_Status (w_channel w')) = st_Subscribers (ch_Status c) ∧ sane (ch_Status (w_channel w')) ∧
      (IsReady (cell w') = false ∨ unmarked e ∨
       ¬ valid c ∧ (∃ errs, e = ValidationError errs) ∧ w_writes w' = w_writes w)
  | (Panic _, w') => nil_replicas w'
  end.
Proof. by eapply ReconcileKind_cases. Qed.

(** The prober's verdict on one subscriber, at some point of a run that has made
    the reports [tr]. *)
Definition verdict (tr : list report) c (sub : SubscriberSpec) (b : bool) : Prop :=
  ∃ n target p, prober_run tr p ∧ (prober_IsReady n target c sub p).1.1 = b.

(** The statuses of the subscribers called ready. *)
Fixpoint statuses (subs : list SubscriberSpec) (verdicts : list bool) : list SubscriberStatus :=
  match subs, verdicts with
  | s :: subs, b :: verdicts => if b then subscriber_ready s :: statuses subs verdicts else statuses subs verdicts
  | _, _ => []
  end.

Lemma prober_run_IsReady tr n target c sub p :
  prober_run tr p → prober_run tr (prober_IsReady n target c sub p).2.
Proof. intros Hr. rewrite <-(app_nil_r tr). eapply run_step; [exact Hr|]. apply step_IsReady. Qed.

(** What the lister of the prober makes of the endpoints. *)
Definition listed_targets w c : string + ProbeTarget :=
  ListProbeTargets (λ _ _,
    match (lister_get w_endpoints (Namespace (meta c)) (Name (meta c) +:+ "-dispatcher") w).1 with
    | Ok (Found eps) => inr eps | Ok (GetError err) => inl err | _ => inl "not found" end) c.

Lemma manager_IsReady_eq c s w :
  let ready := prober_IsReady (w_calls (count_call w)) (listed_targets w c) c s (w_prober w) in
  manager_IsReady c s w = (Ok ready.1.1, set_prober ready.2 (count_call w)).
Proof.
  unfold listed_targets, manager_IsReady, lister_get, mbind, M_bind, gets, modify, mret, M_ret. simpl.
  destruct (lister_error (w_calls w)); [done|]. by destruct (w_endpoints w !! _).
Qed.

Lemma ready_subscribers_spec tr c subs : ∀ acc w,
  prober_run tr (w_prober w) →
  ∃ verdicts p n, Forall2 (verdict tr c) subs verdicts ∧ prober_run tr p ∧
    ready_subscribers c subs acc w =
      (Ok (acc ++ statuses subs verdicts),
       mkWorld (w_channel w) (w_clock w) (w_serviceAccounts w) (w_roleBindings w) (w_deployments w)
         (w_services w) (w_endpoints w) p n (w_writes w) (w_events w)).
Proof.
  induction subs as [|s subs IH]; intros acc w Hrun.
  - exists [], (w_prober w), (w_calls w). rewrite app_nil_r. by destruct w.
  - pose proof (manager_IsReady_eq c s w) as Hstep. cbv zeta in Hstep.
    set (ready := prober_IsReady (w_calls (count_call w)) (listed_targets w c) c s (w_prober w)) in Hstep.
    destruct (IH (if ready.1.1 then acc ++ [subscriber_ready s] else acc) (set_prober ready.2 (count_call w)))
      as (verdicts & p & n & Hv & Hp & Heq); [by apply prober_run_IsReady|].
    exists (ready.1.1 :: verdicts), p, n. split; [constructor; [by eexists _, _, (w_prober w)|done]|].
    split; [done|]. cbn [ready_subscribers]. unfold mbind at 1, M_bind at 1. rewrite Hstep, Heq. cbn [statuses].
    destruct (ready.1.1); simpl; [by rewrite <-app_assoc|done].
Qed.

Lemma reconcileSubscribers_eq w after w1 :
  ready_subscribers (w_channel w) (Subscribers (Spec (w_channel w))) [] w = (Ok after, w1) →
  let c := w_channel w in
  let ref := mkNamespacedName (Namespace (meta c)) (Name (meta c)) in
  reconcileSubscribers w =
    if decide (st_Subscribers (ch_Status c) = after) then (Ok (), w1)
    else (match patch_Subscribers (w_calls w1) ref after with
          | None => Ok ()
          | Some err => Err (PlainError ("Failed patching: " +:+ err))
          end, log_write (PatchSubscribers ref after) (count_call w1)).
Proof.
  intros Heq. cbv zeta. unfold reconcileSubscribers, gets, mbind at 1, M_bind at 1. unfold mbind at 1, M_bind at 1. rewrite Heq.
  destruct (decide _); [done|]. unfold mbind, M_bind, api_write. by destruct (patch_Subscribers _ _ _).
Qed.

(** The state after asking the prober. *)
Definition asked w (p : Prober) (n : nat) : World :=
  mkWorld (w_channel w) (w_clock w) (w_serviceAccounts w) (w_roleBindings w) (w_deployments w)
    (w_services w) (w_endpoints w) p n (w_writes w) (w_events w).

Lemma reconcileSubscribers_cases tr w :
  prober_run tr (w_prober w) →
  let c := w_channel w in
  let ref := mkNamespacedName (Namespace (meta c)) (Name (meta c)) in
  ∃ verdicts p n, Forall2 (verdict tr c) (Subscribers (Spec c)) verdicts ∧ prober_run tr p ∧
    let after := statuses (Subscribers (Spec c)) verdicts in
    reconcileSubscribers w =
      if decide (st_Subscribers (ch_Status c) = after) then (Ok (), asked w p n)
      else (match patch_Subscribers n ref after with
            | None => Ok ()
            | Some err => Err (PlainError ("Failed patching: " +:+ err))
            end, log_write (PatchSubscribers ref after) (count_call (asked w p n))).
Proof.
  intros run. cbv zeta.
  destruct (ready_subscribers_spec tr (w_channel w) (Subscribers (Spec (w_channel w))) [] w run)
    as (verdicts & p & n & Hv & Hp & Heq). cbn [app] in Heq.
  exists verdicts, p, n. split; [done|]. split; [done|]. exact (reconcileSubscribers_eq w _ _ Heq).
Qed.

(** The reconciler publishes the prober's verdicts: it asks about every
    subscriber of the spec, in order, and the list it wants in the status holds
    exactly those called ready, with their UID and generation.  Each of them has
    the evidence of the prober.  It patches the channel iff the status differs
    from the list, once, and fails only if the patch does. *)
Theorem reconcileSubscribers_spec tr w (run : prober_run tr (w_prober w)) :
  let c := w_channel w in
  let ref := mkNamespacedName (Namespace (meta c)) (Name (meta c)) in
  ∃ verdicts, Forall2 (verdict tr c) (Subscribers (Spec c)) verdicts ∧
    let after := statuses (Subscribers (Spec c)) verdicts in
    (∀ st, st ∈ after → ∃ l s, evidenced tr l s ∧ sub_UID (ts_sub s) = ss_UID st ∧
       sub_Generation (ts_sub s) = ss_ObservedGeneration st) ∧
    let (r, w') := reconcileSubscribers w in
    w_channel w' = c ∧ prober_run tr (w_prober w') ∧
    (st_Subscribers (ch_Status c) = after ∧ r = Ok () ∧ w_writes w' = w_writes w ∨
     st_Subscribers (ch_Status c) ≠ after ∧ w_writes w' = w_writes w ++ [PatchSubscribers ref after] ∧
     ∃ n, r = match patch_Subscribers n ref after with
              | None => Ok ()
              | Some err => Err (PlainError ("Failed patching: " +:+ err))
              end).
Proof.
  cbv zeta. destruct (reconcileSubscribers_cases tr w run) as (verdicts & p & n & Hv & Hp & Heq).
  exists verdicts. split; [done|]. split.
  - clear Heq. induction Hv as [|s b subs verdicts (k & target & q & Hq & Hb) _ IH]; cbn [statuses];
      [by intros ? ?%elem_of_nil|]. destruct b; [|exact IH].
    intros st [->|Hin]%elem_of_cons; [|by apply IH].
    destruct (prober_IsReady k target (w_channel w) s q) as [[r err] q'] eqn:Hr. simpl in Hb. subst r.
    assert (err = None) as ->.
    { revert Hr. unfold prober_IsReady. destruct target; [by intros [=]|].
      destruct (_ ≫= _) as [[? ?]|]; [|by intros [=]]. destruct (isOutdatedTargetState _ _ _); [by intros [=]|].
      destruct (checkReadiness _). by intros [=]. }
    destruct (IsReady_evidenced _ _ _ _ _ _ _ Hq Hr) as (l & s' & _ & ? & ? & ?). by exists l, s'.
  - rewrite Heq. destruct (decide _) as [He|He]; (split; [done|]; split; [done|]); [by left|right].
    split_and!; [done|done|by exists n].
Qed.

(** Finalizing cancels the probing of every subscriber of the channel and of
    no other subscription, writes nothing and lets the finalizer go. *)
Theorem FinalizeKind_spec w :
  let c := w_channel w in
  ∃ w', FinalizeKind w = (Ok (newReconciledNormal (Namespace (meta c)) (Name (meta c))), w') ∧
    w_writes w' = w_writes w ∧ w_channel w' = c ∧
    ∀ uid, targetStates (w_prober w') !! uid =
      if decide (uid ∈ sub_UID <$> Subscribers (Spec c)) then None else targetStates (w_prober w) !! uid.
Proof.
  cbv zeta. eexists. split; [reflexivity|]. split; [done|]. split; [done|]. intros uid. simpl.
  generalize (w_prober w). induction (Subscribers (Spec (w_channel w))) as [|s subs IH]; intros p; [done|].
  cbn [foldl fmap list_fmap]. rewrite IH. unfold CancelProbing, ejectStateUnsafe.
  assert (He : targetStates (match targetStates p !! sub_UID s with
      | None => p
      | Some l => with_targetStates (with_states p (alter set_cancelled l (states p))) (delete (sub_UID s) (targetStates p))
      end) !! uid = if decide (uid = sub_UID s) then None else targetStates p !! uid).
  { destruct (targetStates p !! sub_UID s) eqn:E; simpl.
    - rewrite lookup_delete. destruct (decide (sub_UID s = uid)), (decide (uid = sub_UID s)); congruence.
    - destruct (decide (uid = sub_UID s)) as [->|]; [exact E|done]. }
  rewrite He. destruct (decide (uid ∈ sub_UID <$> subs)) as [Hin|Hin].
  - by rewrite decide_True by by right.
  - destruct (decide (uid = sub_UID s)) as [->|Hne]; [by rewrite decide_True by left|].
    rewrite decide_False; [done|]. by rewrite elem_of_cons; intros [?|?].
Qed.

(** ** When the caches are filled *)

(** The service account and the role bindings of the dispatcher are cached. *)
Record rbac_cached ns w : Prop := {
  rc_sa : is_Some (w_serviceAccounts w !! mkNamespacedName ns dispatcherServiceAccount);
  rc_rb : is_Some (w_roleBindings w !! mkNamespacedName ns dispatcherCR);
  rc_reader : is_Some (w_roleBindings w !! mkNamespacedName systemNamespace (dispatcherCR +:+ "-" +:+ ns));
}.

Section calm.
(** No lister fails. *)
Context (calm : ∀ n, lister_error n = None).

Lemma lister_get_Found {A} (cache : World → gmap NamespacedName A) ns name a w :
  cache w !! mkNamespacedName ns name = Some a → lister_get cache ns name w = (Ok (Found a), count_call w).
Proof. intros Ha. unfold lister_get. by rewrite calm, Ha. Qed.

Lemma reconcileServiceAccount_cached ns w :
  rbac_cached ns w → ∃ sa, reconcileServiceAccount ns w = (Ok sa, count_call w).
Proof.
  intros [[sa Hsa] _ _]. exists sa. unfold reconcileServiceAccount, mbind, M_bind.
  by rewrite (lister_get_Found _ _ _ _ _ Hsa).
Qed.

Lemma reconcileRoleBinding_cached name ns role sa w :
  is_Some (w_roleBindings w !! mkNamespacedName ns name) →
  ∃ rb, reconcileRoleBinding name ns role sa w = (Ok rb, count_call w).
Proof.
  intros [rb Hrb]. exists rb. unfold reconcileRoleBinding, mbind, M_bind.
  by rewrite (lister_get_Found _ _ _ _ _ Hrb).
Qed.

Lemma reconcileDispatcher_cached ns d w :
  let key := mkNamespacedName ns (Name (meta (w_channel w)) +:+ "-dispatcher") in
  rbac_cached ns w → w_deployments w !! key = Some d →
  reconcileDispatcher ns w =
    refresh_dispatcher key (MakeDispatcher (dispatcher_args (w_channel w) ns)) d (Nat.iter 4 count_call w).
Proof.
  intros key Hrbac Hd. unfold reconcileDispatcher, mbind, M_bind.
  destruct (reconcileServiceAccount_cached ns w Hrbac) as [sa ->].
  edestruct (reconcileRoleBinding_cached dispatcherCR ns dispatcherCR sa (count_call w)) as [rb ->]; [apply Hrbac|].
  edestruct (reconcileRoleBinding_cached (dispatcherCR +:+ "-" +:+ ns) systemNamespace "eventing-config-reader" sa
    (count_call (count_call w))) as [rb' ->]; [apply Hrbac|].
  unfold gets. cbv zeta. by rewrite (lister_get_Found w_deployments _ _ d).
Qed.

(** The dispatcher's container, with its image, at its place. *)
Lemma FindContainer_expected c ns :
  FindContainer (MakeDispatcher (dispatcher_args c ns)) DispatcherContainerName =
    Some (0%nat, mkContainer DispatcherContainerName dispatcherImage (makeEnv (dispatcher_args c ns))
                   [mkContainerPort "metrics" 9090]).
Proof. done. Qed.

Lemma FindContainer_set_image i image d ctr :
  FindContainer d DispatcherContainerName = Some (i, ctr) →
  FindContainer (set_image i image d) DispatcherContainerName = Some (i, with_Image image ctr).
Proof.
  unfold FindContainer. cbn. rewrite !list_find_Some. intros (Hi & Hn & Hlt). split; [by rewrite list_lookup_alter_eq, Hi|].
  split; [done|]. intros j y Hj Hji. rewrite list_lookup_alter_ne in Hj by lia. by eapply Hlt.
Qed.

(** A deployment with the expected image and some replicas is left as it is. *)
Lemma refresh_dispatcher_fresh c ns key d i ctr r w :
  FindContainer d DispatcherContainerName = Some (i, ctr) → ctr_Image ctr = dispatcherImage →
  d_Replicas d = Some r → r ≠ 0%Z →
  refresh_dispatcher key (MakeDispatcher (dispatcher_args c ns)) d w =
    (Ok d, set_cell (PropagateDispatcherStatus (d_Conditions d) (cell w)) w).
Proof.
  intros Hf Hi Hr Hnz. unfold refresh_dispatcher. rewrite Hf, FindContainer_expected. cbn [ctr_Image]. cbv zeta.
  rewrite (bool_decide_false (ctr_Image ctr ≠ _)) by (by rewrite Hi; intros []). rewrite Hr.
  rewrite (bool_decide_false (r = 0%Z)) by done. done.
Qed.

(** The reconciler writes the new image of a stale deployment into the cached
    object before it sends the update.  When the server rejects the update, the
    channel's service, not its dispatcher, is marked failed, and the next
    reconciliation finds the new image in its cache and does not try again: it
    succeeds without a write, though the deployment of the cluster is stale. *)
Theorem failed_update_forgotten ns d i ctr r err w
    (rbac : rbac_cached ns w)
    (cached : w_deployments w !! mkNamespacedName ns (Name (meta (w_channel w)) +:+ "-dispatcher") = Some d)
    (found : FindContainer d DispatcherContainerName = Some (i, ctr))
    (stale : ctr_Image ctr ≠ dispatcherImage) (replicas : d_Replicas d = Some r) (running : r ≠ 0%Z)
    (rejected : ∀ n d, update_Deployment n d = inl err) :
  let (r1, w1) := reconcileDispatcher ns w in
  r1 = Err (newDeploymentWarn err) ∧
  w_writes w1 = w_writes w ++ [UpdateDeployment (set_image i dispatcherImage d)] ∧
  cell w1 = MarkServiceFailed "DispatcherDeploymentUpdateFailed"
              ("Failed to update the dispatcher deployment: " +:+ err) (cell w) ∧
  let (r2, w2) := reconcileDispatcher ns w1 in
  r2 = Ok (set_image i dispatcherImage d) ∧ w_writes w2 = w_writes w1.
Proof.
  rewrite (reconcileDispatcher_cached ns d w rbac cached).
  set (key := mkNamespacedName ns _) in *. set (w0 := Nat.iter 4 count_call w).
  assert (Hfirst : refresh_dispatcher key (MakeDispatcher (dispatcher_args (w_channel w) ns)) d w0 =
    (Err (newDeploymentWarn err),
     set_cell (MarkServiceFailed "DispatcherDeploymentUpdateFailed" ("Failed to update the dispatcher deployment: " +:+ err) (cell w))
       (log_write (UpdateDeployment (set_image i dispatcherImage d))
         (count_call (set_deployments (alter (set_image i dispatcherImage) key (w_deployments w)) w0))))).
  { unfold refresh_dispatcher. rewrite found, FindContainer_expected. cbn [ctr_Image]. cbv zeta.
    rewrite (bool_decide_true (ctr_Image ctr ≠ _)), replicas, (bool_decide_false (r = 0%Z)) by done.
    unfold mbind at 1, M_bind at 1. cbn [orb]. unfold write_cached, modify.
    unfold update_dispatcher, mbind, M_bind, api_write, mret, M_ret.
    cbv beta iota zeta. by rewrite rejected. }
  rewrite Hfirst. cbv beta iota.
  split; [done|]. split; [done|]. split; [by destruct (MarkServiceFailed _ _ _)|].
  set (w1 := set_cell _ _).
  rewrite (reconcileDispatcher_cached ns (set_image i dispatcherImage d) w1).
  - rewrite (refresh_dispatcher_fresh _ _ _ _ i (with_Image dispatcherImage ctr) r); [done| |done|done|done].
    by apply FindContainer_set_image.
  - destruct rbac. by split.
  - cbn. by rewrite lookup_alter_eq, cached.
Qed.

(** Only the status, the clock and the number of calls moved. *)
Record unchanged w w' : Prop := {
  un_meta : meta (w_channel w') = meta (w_channel w);
  un_spec : Spec (w_channel w') = Spec (w_channel w);
  un_sa : w_serviceAccounts w' = w_serviceAccounts w;
  un_rb : w_roleBindings w' = w_roleBindings w;
  un_deployments : w_deployments w' = w_deployments w;
  un_services : w_services w' = w_services w;
  un_endpoints : w_endpoints w' = w_endpoints w;
  un_prober : w_prober w' = w_prober w;
  un_writes : w_writes w' = w_writes w;
  un_events : w_events w' = w_events w;
}.

Lemma unchanged_trans w1 w2 w3 : unchanged w1 w2 → unchanged w2 w3 → unchanged w1 w3.
Proof. intros [] []. split; congruence. Qed.

(** The caches hold everything the channel needs: the objects exist, the
    container runs the expected image in a deployment with replicas, the endpoints
    are ready, and the service of the channel is its own, with the expected spec.
    The environment of the container does not matter. *)
Record converged w : Prop := {
  cv_rbac : rbac_cached (Namespace (meta (w_channel w))) w;
  cv_deployment : ∃ d i ctr r,
    w_deployments w !! mkNamespacedName (Namespace (meta (w_channel w))) (Name (meta (w_channel w)) +:+ "-dispatcher") = Some d ∧
    FindContainer d DispatcherContainerName = Some (i, ctr) ∧ ctr_Image ctr = dispatcherImage ∧
    d_Replicas d = Some r ∧ r ≠ 0%Z;
  cv_service : is_Some (w_services w !! mkNamespacedName (Namespace (meta (w_channel w))) (Name (meta (w_channel w)) +:+ "-dispatcher"));
  cv_endpoints : ∃ eps,
    w_endpoints w !! mkNamespacedName (Namespace (meta (w_channel w))) (Name (meta (w_channel w)) +:+ "-dispatcher") = Some eps ∧
    ep_Subsets eps ≠ [];
  cv_channel : ∃ svc k,
    w_services w !! mkNamespacedName (Namespace (meta (w_channel w))) (MakeChannelServiceName (Name (meta (w_channel w)))) = Some svc ∧
    channel_service (w_channel w) (Namespace (meta (w_channel w))) = inr k ∧
    same_spec (s_Spec svc) (s_Spec k) = true ∧ IsControlledBy (s_meta svc) (meta (w_channel w)) = true;
}.

Lemma converged_unchanged w w' : converged w → unchanged w w' → converged w'.
Proof.
  intros [[] Hd Hs He Hc] []. split; [split; congruence|..].
  - rewrite un_meta0, un_deployments0. exact Hd.
  - rewrite un_meta0, un_services0. exact Hs.
  - rewrite un_meta0, un_endpoints0. exact He.
  - unfold channel_service, MakeK8sService, ch_controller_ref in *. rewrite un_meta0, un_services0. exact Hc.
Qed.

(** [m] returns a value and changes nothing. *)
Definition quiet {A} (m : M A) w : Prop := ∃ a w', m w = (Ok a, w') ∧ unchanged w w'.

Lemma quiet_bind {A B} (m : M A) (f : A → M B) w (Q : res Event B * World → Prop) :
  quiet m w → (∀ a w', m w = (Ok a, w') → unchanged w w' → Q (f a w')) → Q ((m ≫= f) w).
Proof. intros (a & w' & Hm & Hu) Hf. unfold mbind, M_bind. rewrite Hm. by apply Hf. Qed.

Lemma quiet_on_status f w : quiet (on_status f) w.
Proof. by eexists _, _. Qed.

Lemma quiet_dispatcher w : converged w → quiet (reconcileDispatcher (Namespace (meta (w_channel w)))) w.
Proof.
  intros [Hrbac (d & i & ctr & r & Hd & Hf & Hi & Hr & Hnz) _ _ _]. unfold quiet.
  rewrite (reconcileDispatcher_cached _ d w Hrbac Hd), (refresh_dispatcher_fresh _ _ _ _ i ctr r) by done.
  by eexists _, _.
Qed.

Lemma quiet_service w : converged w → quiet (reconcileDispatcherService (Namespace (meta (w_channel w)))) w.
Proof.
  intros [_ _ [svc Hs] _ _]. unfold quiet, reconcileDispatcherService, mbind, M_bind, gets.
  rewrite (lister_get_Found w_services _ _ svc) by done. by eexists _, _.
Qed.

Lemma quiet_endpoints w : converged w →
  quiet (reconcileEndpoints (Namespace (meta (w_channel w))) (Name (meta (w_channel w)) +:+ "-dispatcher")) w.
Proof.
  intros [_ _ _ (eps & He & Hne) _]. unfold quiet, reconcileEndpoints, mbind, M_bind.
  rewrite (lister_get_Found w_endpoints _ _ eps) by done.
  destruct (decide _) as [Hl|]; [by apply length_zero_iff_nil in Hl|]. by eexists _, _.
Qed.

Lemma quiet_channel_service w : converged w → quiet (reconcileChannelService (Namespace (meta (w_channel w)))) w.
Proof.
  intros [_ _ _ _ (svc & k & Hs & Hk & Hsame & Ho)]. unfold quiet, reconcileChannelService, mbind at 1, M_bind at 1, gets.
  unfold channel_service in Hk. rewrite Hk. unfold mbind, M_bind.
  rewrite (lister_get_Found w_services _ _ svc) by done. rewrite Hsame. unfold check_owner. rewrite Ho. by eexists _, _.
Qed.

(** How a reconciliation on filled caches ends. *)
Definition quiet_outcome w (p : res Event Event * World) : Prop :=
  let ref := mkNamespacedName (Namespace (meta (w_channel w))) (Name (meta (w_channel w))) in
  let (r, w') := p in
  w_deployments w' = w_deployments w ∧ w_services w' = w_services w ∧ w_events w' = w_events w ∧
  (r = Ok (newReconciledNormal (nn_Namespace ref) (nn_Name ref)) ∧
     (w_writes w' = w_writes w ∨ ∃ subs, w_writes w' = w_writes w ++ [PatchSubscribers ref subs]) ∨
   ∃ n subs err, r = Err (PlainError ("error reconciling subscribers Failed patching: " +:+ err)) ∧
     patch_Subscribers n ref subs = Some err).

Lemma quiet_subscribers tr w w1 :
  prober_run tr (w_prober w) → unchanged w w1 →
  quiet_outcome w ((wrap "error reconciling subscribers " reconcileSubscribers;;
    mret (newReconciledNormal (Namespace (meta (w_channel w))) (Name (meta (w_channel w))))) w1).
Proof.
  intros Hp []. unfold quiet_outcome, mbind, M_bind, wrap. rewrite <-un_prober0 in Hp.
  destruct (reconcileSubscribers_cases tr w1 Hp) as (verdicts & p & n & _ & _ & ->).
  destruct (decide _); [split_and!; [done..|]; left; split; [done|by left]|].
  rewrite un_meta0. destruct (patch_Subscribers _ _ _) as [err|] eqn:Hpatch; (split_and!; [done..|]).
  - right. by eexists n, _, err.
  - left. split; [done|]. right. eexists. simpl. by rewrite un_writes0.
Qed.

Lemma quiet_next {A} (m : M A) (f : A → M Event) w w1 :
  unchanged w w1 → quiet m w1 → (∀ a w2, unchanged w w2 → quiet_outcome w (f a w2)) →
  quiet_outcome w ((m ≫= f) w1).
Proof. intros Hu Hm HQ. apply quiet_bind; [done|]. intros a w2 _ Hu'. apply HQ. by eapply unchanged_trans. Qed.

Lemma quiet_reconcile_valid tr w :
  prober_run tr (w_prober w) → converged w → quiet_outcome w (reconcile_valid (w_channel w) w).
Proof.
  intros Hp Hc. unfold reconcile_valid. cbv zeta.
  assert (Hq : ∀ {A} (op : World → M A) w1, (∀ w1, converged w1 → quiet (op w1) w1) →
            (op w1 = op w) → unchanged w w1 → quiet (op w) w1).
  { intros A op w1 Hop <- Hu. apply Hop. by eapply converged_unchanged. }
  eapply quiet_next; [by split|apply quiet_on_status|intros _ w1 Hu1].
  eapply quiet_next; [done|apply quiet_on_status|intros _ w2 Hu2].
  eapply quiet_next; [done|apply (Hq _ (λ w, reconcileDispatcher (Namespace (meta (w_channel w)))));
    [apply quiet_dispatcher|by rewrite (un_meta _ _ Hu2)|done]|intros _ w3 Hu3].
  eapply quiet_next; [done|apply (Hq _ (λ w, reconcileDispatcherService (Namespace (meta (w_channel w)))));
    [apply quiet_service|by rewrite (un_meta _ _ Hu3)|done]|intros _ w4 Hu4].
  eapply quiet_next; [done|apply (Hq _ (λ w, reconcileEndpoints (Namespace (meta (w_channel w))) (Name (meta (w_channel w)) +:+ "-dispatcher")));
    [apply quiet_endpoints|by rewrite (un_meta _ _ Hu4)|done]|intros _ w5 Hu5].
  eapply quiet_next; [done|apply (Hq _ (λ w, reconcileChannelService (Namespace (meta (w_channel w)))));
    [apply quiet_channel_service|by rewrite (un_meta _ _ Hu5)|done]|intros svc w6 Hu6].
  eapply quiet_next; [done|apply quiet_on_status|intros _ w7 Hu7].
  eapply quiet_next; [done|apply quiet_on_status|intros _ w8 Hu8].
  by eapply quiet_subscribers.
Qed.

(** Reconciling a valid channel whose objects the caches hold as expected
    succeeds and leaves the cluster alone: no object is written, no event is
    recorded, and the only write there can be is the patch of the subscribers'
    statuses.  It fails only if that patch does.  Whatever else the channel's spec
    asks for (other servers, other secrets), the deployment is left as it is. *)
Theorem converged_reconcile_is_quiet tr w (run : prober_run tr (w_prober w)) (conv : converged w)
    (val : valid (SetDefaults (w_channel w))) :
  let ref := mkNamespacedName (Namespace (meta (w_channel w))) (Name (meta (w_channel w))) in
  let (r, w') := ReconcileKind w in
  w_deployments w' = w_deployments w ∧ w_services w' = w_services w ∧ w_events w' = w_events w ∧
  (r = Ok (newReconciledNormal (nn_Namespace ref) (nn_Name ref)) ∧
     (w_writes w' = w_writes w ∨ ∃ subs, w_writes w' = w_writes w ++ [PatchSubscribers ref subs]) ∨
   ∃ n subs err, r = Err (PlainError ("error reconciling subscribers Failed patching: " +:+ err)) ∧
     patch_Subscribers n ref subs = Some err).
Proof.
  change (quiet_outcome (prepared w) (ReconcileKind w)). rewrite ReconcileKind_prepared.
  apply Validate_valid in val. rewrite val. apply (quiet_reconcile_valid tr); [done|].
  destruct conv as [[] ? ? ? ?]. by split.
Qed.
End calm.
End properties.

(** ** Witnesses *)
Section demo.
#[local] Existing Instance Channel.demo_runtime.
#[local] Instance demo_resolver : Resolver := {| resolv_conf := None; CLUSTER_DOMAIN := "" |}.
#[local] Instance demo_reconciler : Reconciler := {|
  systemNamespace := "knative-eventing"; dispatcherImage := "v2"; dispatcherServiceAccount := dispatcherSA |}.

Definition available (d : Deployment) : Deployment :=
  {| d_APIVersion := d_APIVersion d; d_Kind := d_Kind d; d_meta := d_meta d; d_Replicas := d_Replicas d;
     d_Selector := d_Selector d; d_Template := d_Template d;
     d_Conditions := [mkDeploymentCondition "Available" "True" "" ""] |}.

(** A server that accepts everything, up to updates of deployments. *)
#[local] Instance demo_client : KubeClient := {|
  lister_error n := None;
  create_ServiceAccount n := inr;
  create_RoleBinding n := inr;
  create_Deployment n d := inr (available d);
  update_Deployment n d := inl "conflict";
  create_Service n := inr;
  update_Service n := inr;
  patch_Subscribers n ref subs := None;
|}.

Definition demo_kc (subs : list SubscriberSpec) : KafkaTopicChannel :=
  mkChannel (new_meta "ch" "ns" None [])
    (mkSpec 1 1 ["kafka:9092"] (mkNet (mkSASL false None None None) (mkTLS false None None None)) "topic" subs None)
    (mkStatus 0 [] None []).

Definition demo_endpoints : gmap NamespacedName Endpoints :=
  {[mkNamespacedName "ns" "ch-dispatcher" := mkEndpoints (new_meta "ch-dispatcher" "ns" None []) [["10.0.0.1"]]]}.

(** Nothing exists but the endpoints. *)
Definition demo_world : World :=
  mkWorld (demo_kc [demo_sub]) 0 ∅ ∅ ∅ ∅ demo_endpoints NewProber 0 [] [].

(** A channel that was ready before, as the server has it: with the generation and a
    subscriber of its last reconciliation. *)
Definition demo_written_cell : StatusCell :=
  mkCell (mkStatus 3 (Conditions (status demo_status)) (Address (status demo_status)) [mkSubscriberStatus "u1" 1 "True" ""])
    (clock demo_status).
Definition demo_written_world : World :=
  mkWorld (with_Status (demo_kc [demo_sub]) (status demo_written_cell)) 0 ∅ ∅ ∅ ∅ demo_endpoints NewProber 0 [] [].

Lemma demo_written_sane : sane (status demo_written_cell).
Proof.
  apply (lifecycle_reachable_sane 0). eapply rtc_r; [eapply rtc_r; [apply demo_status_reachable|apply (step_generation 3)]|].
  apply (step_subscribers [mkSubscriberStatus "u1" 1 "True" ""]).
Qed.

Lemma ReconcileKind_spec_witness :
  ∃ e w', ReconcileKind demo_written_world = (Ok e, w') ∧ reconciled (SetDefaults (w_channel demo_written_world)) w' ∧
    w_writes w' ≠ [].
Proof.
  assert (Hs := ReconcileKind_spec demo_written_world demo_written_sane). cbv zeta in Hs.
  destruct (ReconcileKind demo_written_world) as [r w'] eqn:Hr.
  assert (Hok : match ReconcileKind demo_written_world with (Ok _, w') => w_writes w' ≠ [] | _ => False end)
    by (vm_compute; discriminate).
  rewrite Hr in Hok. destruct r as [e|e|why]; [|destruct Hok|destruct Hok].
  exists e, w'. split; [reflexivity|]. destruct Hs as (_ & _ & Hs). split; [exact Hs|exact Hok].
Defined.

(** A subscription with its partition reported ready. *)
Definition demo_probed_world : World :=
  mkWorld (demo_kc [demo_sub]) 0 ∅ ∅ ∅ ∅ demo_endpoints (demo_probed 1 [0%Z]) 0 [] [].

Lemma reconcileSubscribers_spec_witness :
  w_writes (reconcileSubscribers demo_probed_world).2 =
    [PatchSubscribers (mkNamespacedName "ns" "ch") [mkSubscriberStatus "u1" 1 "True" ""]] ∧
  prober_run ([] ++ report_of 2 (demo_answer [0%Z]) (demo_queued 1)) (w_prober (reconcileSubscribers demo_probed_world).2).
Proof.
  split; [vm_compute; reflexivity|].
  destruct (reconcileSubscribers_spec _ demo_probed_world (demo_run_probed 1 [0%Z])) as (verdicts & _ & _ & Hs).
  destruct (reconcileSubscribers demo_probed_world) as [r w']. exact (proj1 (proj2 Hs)).
Defined.

(** A cluster with an old dispatcher. *)
Definition demo_cluster (image : string) : World :=
  mkWorld (demo_kc []) 0
    {[mkNamespacedName "ns" dispatcherSA := MakeServiceAccount "ns" dispatcherSA]}
    {[mkNamespacedName "ns" dispatcherCR := MakeRoleBinding "ns" dispatcherCR (MakeServiceAccount "ns" dispatcherSA) dispatcherCR;
      mkNamespacedName "knative-eventing" "kt-channel-dispatcher-ns" :=
        MakeRoleBinding "knative-eventing" "kt-channel-dispatcher-ns" (MakeServiceAccount "ns" dispatcherSA) "eventing-config-reader"]}
    {[mkNamespacedName "ns" "ch-dispatcher" :=
        set_image 0 image (available (MakeDispatcher (dispatcher_args (demo_kc []) "ns")))]}
    {[mkNamespacedName "ns" "ch-dispatcher" := MakeDispatcherService "ns" (demo_kc []);
      mkNamespacedName "ns" "ch-kn-channel" :=
        match channel_service (demo_kc []) "ns" with inr s => s | inl _ => MakeDispatcherService "ns" (demo_kc []) end]}
    demo_endpoints NewProber 0 [] [].

Lemma demo_cluster_rbac image : rbac_cached "ns" (demo_cluster image).
Proof. split; vm_compute; eauto. Defined.

Lemma failed_update_forgotten_witness :
  let (r1, w1) := reconcileDispatcher "ns" (demo_cluster "v1") in
  r1 = Err (newDeploymentWarn "conflict") ∧ w_writes (reconcileDispatcher "ns" w1).2 = w_writes w1.
Proof.
  pose proof (failed_update_forgotten (λ _, eq_refl) "ns" (set_image 0 "v1" (available (MakeDispatcher (dispatcher_args (demo_kc []) "ns"))))
    0 (mkContainer DispatcherContainerName "v1" (makeEnv (dispatcher_args (demo_kc []) "ns")) [mkContainerPort "metrics" 9090])
    1 "conflict" (demo_cluster "v1") (demo_cluster_rbac "v1") eq_refl eq_refl ltac:(vm_compute; discriminate) eq_refl
    ltac:(discriminate) (λ _ _, eq_refl)) as Hs.
  destruct (reconcileDispatcher "ns" (demo_cluster "v1")) as [r1 w1]. destruct Hs as (Hr & _ & _ & Hs).
  split; [exact Hr|]. destruct (reconcileDispatcher "ns" w1) as [r2 w2]. exact (proj2 Hs).
Defined.

Lemma demo_converged : converged (demo_cluster "v2").
Proof.
  split.
  - apply demo_cluster_rbac.
  - eexists _, 0%nat, _, 1%Z. split; [vm_compute; reflexivity|]. split; [vm_compute; reflexivity|].
    split; [reflexivity|]. split; [reflexivity|discriminate].
  - vm_compute. eauto.
  - eexists. split; [vm_compute; reflexivity|discriminate].
  - eexists _, _. split; [vm_compute; reflexivity|]. split; [vm_compute; reflexivity|]. split; vm_compute; reflexivity.
Qed.

Lemma converged_reconcile_is_quiet_witness :
  w_events (ReconcileKind (demo_cluster "v2")).2 = [] ∧
  w_deployments (ReconcileKind (demo_cluster "v2")).2 = w_deployments (demo_cluster "v2").
Proof.
  pose proof (converged_reconcile_is_quiet (λ _, eq_refl) [] (demo_cluster "v2") run_new demo_converged) as Hs.
  destruct (ReconcileKind (demo_cluster "v2")) as [r w'].
  destruct Hs as (Hd & _ & He & _).
  - apply Validate_valid. vm_compute. reflexivity.
  - split; [exact He|exact Hd].
Defined.
End demo.
