(* ===== verification/GenReconciler.v ===== *)
(** * GenReconciler: the generated reconciler around [ReconcileKind]

    Models [reconciler.go] and [state.go] of
    [src/pkg/client/injection/reconciler/messaging/v1alpha1/kafkatopicchannel] and
    [PreProcessReconcile], [PostProcessReconcile] and [RetryUpdateConflicts] of
    [vendor/knative.dev/pkg/reconciler].

    A typed reconciler is a record of its methods, [reconcilerImpl]: the controller
    and the dispatcher are two of them.  The API server is the class [ApiClient];
    the writes to it and the events recorded are logged.  The reconcilers of this
    program set no [configStore] and do not implement [ObserveDeletion]. *)
From Stdlib Require Import Ascii.
From S2P Require Import Prelude GoStrings Conditions ApiTypes Channel Prober Resources Controller.

(** ** State *)
Inductive ClientWrite :=
  | PatchFinalizers (ref : NamespacedName) (finalizers : list string) (resourceVersion : string)
  | UpdateStatus (c : KafkaTopicChannel).

Record GState (W : Type) := mkGState {
  g_lister : gmap NamespacedName KafkaTopicChannel;
  g_inner : W;
  g_clock : nat;
  g_calls : nat;
  g_writes : list ClientWrite;
  g_events : list Recorded;
}.
Arguments mkGState {W} _ _ _ _ _ _.
Arguments g_lister {W} _.
Arguments g_inner {W} _.
Arguments g_clock {W} _.
Arguments g_calls {W} _.
Arguments g_writes {W} _.
Arguments g_events {W} _.

(** The answer to an update of the status. *)
Inductive update_answer := Updated | Conflict (err : string) | UpdateFailed (err : string).

Class ApiClient := {
  channel_lister_error : nat → option string;
  client_Get : nat → NamespacedName → string + KafkaTopicChannel;
  client_UpdateStatus : nat → KafkaTopicChannel → update_answer;
  client_PatchFinalizers : nat → NamespacedName → list string → string → string + KafkaTopicChannel;
}.

(** A method on a channel: what it returned ([None] is nil), the channel, the
    clock and the state behind it. *)
Inductive kind_result (W : Type) :=
  | Returned (e : option Event) (c : KafkaTopicChannel) (clock : nat) (w : W)
  | Panicked (why : string).
Arguments Returned {W} e c clock w.
Arguments Panicked {W} why.

Definition Method (W : Type) : Type := KafkaTopicChannel → nat → W → kind_result W.

(** [reconcilerImpl] with the interfaces its reconciler implements. *)
Record reconcilerImpl (W : Type) := mkImpl {
  IsLeaderFor : NamespacedName → bool;
  r_ReconcileKind : Method W;
  r_FinalizeKind : option (Method W);
  r_ObserveKind : option (Method W);
  r_ObserveFinalizeKind : option (Method W);
  finalizerName : string;
  skipStatusUpdates : bool;
}.
Arguments IsLeaderFor {W} _ _.
Arguments r_ReconcileKind {W} _.
Arguments r_FinalizeKind {W} _.
Arguments r_ObserveKind {W} _.
Arguments r_ObserveFinalizeKind {W} _.
Arguments finalizerName {W} _.
Arguments skipStatusUpdates {W} _.

(** What [Reconcile] returns to the work queue: nil, a skip or an error (then the
    key is queued again), or the panic of the method. *)
Inductive reconcile_return := Forget | SkipKey | Requeue (err : string) | Crash (why : string).
#[export] Instance reconcile_return_eq_dec : EqDecision reconcile_return.
Proof. solve_decision. Defined.

(** The order of strings by bytes. *)
Definition string_le (a b : string) : Prop := String.leb a b = true.
#[export] Instance string_le_dec : RelDecision string_le.
Proof. intros a b. unfold string_le. apply _. Defined.

(** ** Keys and methods ([state.go]) *)

(** [cache.SplitMetaNamespaceKey]. *)
Definition SplitMetaNamespaceKey (key : string) : option (string * string) :=
  match Split "/"%char key with
  | [name] => Some ("", name)
  | [namespace; name] => Some (namespace, name)
  | _ => None
  end.

Inductive method_name := DoReconcileKind | DoFinalizeKind | DoObserveKind | DoObserveFinalizeKind | unknown.

(** The state of one run of the reconciler. *)
Record state (W : Type) := mkState {
  s_key : string;
  s_namespace : string;
  s_name : string;
  s_reconciler : reconcilerImpl W;
  s_roi : option (Method W);
  s_isROI : bool;
  s_rof : option (Method W);
  s_isROF : bool;
  s_isLeader : bool;
}.
Arguments s_key {W} _. Arguments s_namespace {W} _. Arguments s_name {W} _.
Arguments s_reconciler {W} _. Arguments s_roi {W} _. Arguments s_isROI {W} _.
Arguments s_rof {W} _. Arguments s_isROF {W} _. Arguments s_isLeader {W} _.

Section generated.
Context {W : Type} `{GoRuntime} `{ApiClient} (r : reconcilerImpl W).
Implicit Types (st : GState W) (c : KafkaTopicChannel).

(** [newState]; [None] for the type assertions that fail.  Whether this instance
    leads is asked once, here. *)
Definition newState (key : string) : string + state W :=
  match SplitMetaNamespaceKey key with
  | None => inl ("invalid resource key: " +:+ key)
  | Some (namespace, name) =>
      let isROI := bool_decide (is_Some (r_ObserveKind r)) in
      let isROF := bool_decide (is_Some (r_ObserveFinalizeKind r)) in
      let isLeader := IsLeaderFor r (mkNamespacedName namespace name) in
      inr {| s_key := key; s_namespace := namespace; s_name := name; s_reconciler := r;
             s_roi := r_ObserveKind r; s_isROI := isROI;
             s_rof := r_ObserveFinalizeKind r; s_isROF := isROF; s_isLeader := isLeader |}
  end.

Definition isNotLeaderNorObserver (s : state W) : bool :=
  if negb (s_isLeader s) && negb (s_isROI s) && negb (s_isROF s) then true else false.

Definition reconcileMethodFor (s : state W) c : method_name * option (Method W) :=
  match DeletionTimestamp (meta c) with
  | None =>
      if s_isLeader s then (DoReconcileKind, Some (r_ReconcileKind (s_reconciler s)))
      else if s_isROI s then (DoObserveKind, s_roi s)
      else (unknown, None)
  | Some _ =>
      match s_isLeader s, r_FinalizeKind (s_reconciler s) with
      | true, Some fin => (DoFinalizeKind, Some fin)
      | _, _ =>
          if negb (s_isLeader s) && s_isROF s then (DoObserveFinalizeKind, s_rof s)
          else (unknown, None)
      end
  end.

(** ** State updates *)
Definition g_call st : GState W :=
  mkGState (g_lister st) (g_inner st) (g_clock st) (S (g_calls st)) (g_writes st) (g_events st).
Definition g_write (x : ClientWrite) st : GState W :=
  mkGState (g_lister st) (g_inner st) (g_clock st) (g_calls st) (g_writes st ++ [x]) (g_events st).
Definition g_record (type : EventType) (reason message : string) st : GState W :=
  mkGState (g_lister st) (g_inner st) (g_clock st) (g_calls st) (g_writes st)
    (g_events st ++ [mkRecorded type reason message]).
Definition g_set_clock (n : nat) st : GState W :=
  mkGState (g_lister st) (g_inner st) n (g_calls st) (g_writes st) (g_events st).
Definition g_set_inner (w : W) st : GState W :=
  mkGState (g_lister st) w (g_clock st) (g_calls st) (g_writes st) (g_events st).

Definition with_meta c (m : ObjectMeta) : KafkaTopicChannel := mkChannel m (Spec c) (ch_Status c).
Definition with_Finalizers (fs : list string) c : KafkaTopicChannel :=
  let m := meta c in
  with_meta c {| Name := Name m; Namespace := Namespace m; UID := UID m; ResourceVersion := ResourceVersion m;
                 Generation := Generation m; DeletionTimestamp := DeletionTimestamp m; Labels := Labels m;
                 Annotations := Annotations m; OwnerReferences := OwnerReferences m; Finalizers := fs |}.
Definition ref_of c : NamespacedName := mkNamespacedName (Namespace (meta c)) (Name (meta c)).

(** ** Pre- and post-processing ([reconcile_common.go]) *)
Definition failedGenerationBump : string := "NewObservedGenFailure".

Definition PreProcessReconcile c (n : nat) : KafkaTopicChannel * nat :=
  let c := SetDefaults c in
  let cs := Status_InitializeConditions (mkCell (ch_Status c) n) in
  let cs := if decide (ObservedGeneration (status cs) ≠ Generation (meta c))
            then manage (MarkUnknown GetConditionSet (GetTopLevelConditionType GetConditionSet) failedGenerationBump
                           "unsuccessfully observed a new generation") cs
            else cs in
  (with_Status c (status cs), clock cs).

Definition groom_condition (now : Z) (old : Managed) (cond : Condition) : Condition :=
  match GetCondition old (Type_ cond) with
  | Some oldCond =>
      let cond := with_time cond (LastTransitionTime oldCond) in
      if decide (cond = oldCond) then cond else with_time cond now
  | None => with_time cond now
  end.

(** The transition times only advance for conditions that changed. *)
Definition groomConditionsTransitionTime (t : Z) c old : KafkaTopicChannel :=
  let s := ch_Status c in
  with_Status c (mkStatus (ObservedGeneration s)
    (groom_condition t (mkManaged (Conditions (ch_Status old)) 0) <$> Conditions s) (Address s) (st_Subscribers s)).

Definition PostProcessReconcile c old (n : nat) : KafkaTopicChannel * nat :=
  let s := ch_Status c in
  let c := with_Status c (mkStatus (Generation (meta c)) (Conditions s) (Address s) (st_Subscribers s)) in
  (groomConditionsTransitionTime (now n) c old, S n).

(** ** Finalizers *)

(** [sets.String.List]: sorted, without duplicates. *)
Definition sorted_list (s : gset string) : list string := merge_sort string_le (elements s).

Definition lister_Get (ref : NamespacedName) st : (string + option KafkaTopicChannel) * GState W :=
  (match channel_lister_error (g_calls st) with
   | Some err => inl err
   | None => inr (g_lister st !! ref)
   end, g_call st).

(** The finalizers to write, if any. *)
Definition finalizers_to_write (existing resource : KafkaTopicChannel) : option (list string) :=
  let existingFinalizers : gset string := list_to_set (Finalizers (meta existing)) in
  let desiredFinalizers : gset string := list_to_set (Finalizers (meta resource)) in
  if decide (finalizerName r ∈ desiredFinalizers) then
    if decide (finalizerName r ∈ existingFinalizers) then None
    else Some (Finalizers (meta existing) ++ [finalizerName r])
  else
    if decide (finalizerName r ∉ existingFinalizers) then None
    else Some (sorted_list (existingFinalizers ∖ {[finalizerName r]})).

Definition updateFinalizersFiltered c st : (string + KafkaTopicChannel) * GState W :=
  let (found, st) := lister_Get (ref_of c) st in
  match found with
  | inl err => (inl err, st)
  | inr None => (inl ("kafkatopicchannel " +:+ quote (Name (meta c)) +:+ " not found"), st)
  | inr (Some existing) =>
      match finalizers_to_write existing c with
      | None => (inr c, st)
      | Some finalizers =>
          let x := PatchFinalizers (ref_of c) finalizers (ResourceVersion (meta existing)) in
          let answer := client_PatchFinalizers (g_calls st) (ref_of c) finalizers (ResourceVersion (meta existing)) in
          let st := g_write x (g_call st) in
          match answer with
          | inl err =>
              (inl err, g_record EventTypeWarning "FinalizerUpdateFailed"
                          ("Failed to update finalizers for " +:+ quote (Name (meta c)) +:+ ": " +:+ err) st)
          | inr updated =>
              (inr updated, g_record EventTypeNormal "FinalizerUpdate"
                              ("Updated " +:+ quote (Name (meta c)) +:+ " finalizers") st)
          end
      end
  end.

Definition setFinalizerIfFinalizer c st : (string + KafkaTopicChannel) * GState W :=
  match r_FinalizeKind r with
  | None => (inr c, st)
  | Some _ =>
      let finalizers : gset string := list_to_set (Finalizers (meta c)) in
      let finalizers := match DeletionTimestamp (meta c) with
                        | None => {[finalizerName r]} ∪ finalizers
                        | Some _ => finalizers
                        end in
      updateFinalizersFiltered (with_Finalizers (sorted_list finalizers) c) st
  end.

(** The events that let the finalizer go: nil and a normal event. *)
Definition is_clean (e : option Event) : bool :=
  match e with
  | None => true
  | Some (ReconcilerEvent EventTypeNormal _ _) => true
  | Some _ => false
  end.

Definition clearFinalizer c (e : option Event) st : (string + KafkaTopicChannel) * GState W :=
  match r_FinalizeKind r, DeletionTimestamp (meta c) with
  | None, _ => (inr c, st)
  | Some _, None => (inr c, st)
  | Some _, Some _ =>
      let finalizers : gset string := list_to_set (Finalizers (meta c)) in
      let finalizers := if is_clean e then finalizers ∖ {[finalizerName r]} else finalizers in
      updateFinalizersFiltered (with_Finalizers (sorted_list finalizers) c) st
  end.

(** ** Status *)

(** [RetryUpdateConflicts]: at most [steps] attempts; the first one on the
    informer's copy, the others on what the server returns. *)
Fixpoint update_attempts (steps : nat) (existing : option KafkaTopicChannel) (desired : KafkaTopicChannel) (last : string)
    st : option string * GState W :=
  match steps with
  | O => (Some last, st)
  | S steps =>
      let (found, st) := match existing with
                         | Some existing => (inr existing, st)
                         | None => (client_Get (g_calls st) (ref_of desired), g_call st)
                         end in
      match found with
      | inl err => (Some err, st)
      | inr existing =>
          if decide (ch_Status existing = ch_Status desired) then (None, st)
          else
            let obj := with_Status existing (ch_Status desired) in
            let answer := client_UpdateStatus (g_calls st) obj in
            let st := g_write (UpdateStatus obj) (g_call st) in
            match answer with
            | Updated => (None, st)
            | Conflict err => update_attempts steps None desired err st
            | UpdateFailed err => (Some err, st)
            end
      end
  end.

(** [retry.DefaultRetry.Steps]. *)
Definition DefaultRetry_Steps : nat := 5.

Definition updateStatus (existing desired : KafkaTopicChannel) st : option string * GState W :=
  update_attempts DefaultRetry_Steps (Some existing) desired "" st.

Definition report_event (e : option Event) st : reconcile_return * GState W :=
  match e with
  | None => (Forget, st)
  | Some (ReconcilerEvent type reason message) => (Forget, g_record type reason message st)
  | Some e => (Requeue (event_text e), g_record EventTypeWarning "InternalError" (event_text e) st)
  end.

(** Synchronize the status, then report the event. *)
Definition finish (s : state W) (original c : KafkaTopicChannel) (e : option Event) st :
    reconcile_return * GState W :=
  if skipStatusUpdates r then report_event e st
  else if decide (ch_Status original = ch_Status c) then report_event e st
  else if negb (s_isLeader s) then report_event e st
  else
    let (err, st) := updateStatus original c st in
    match err with
    | Some err =>
        (Requeue err, g_record EventTypeWarning "UpdateFailed"
                        ("Failed to update status for " +:+ quote (Name (meta c)) +:+ ": " +:+ err) st)
    | None => report_event e st
    end.

(** Run a method on a channel. *)
Definition run_method (do : Method W) c st (k : option Event → KafkaTopicChannel → GState W → reconcile_return * GState W) :
    reconcile_return * GState W :=
  match do c (g_clock st) (g_inner st) with
  | Returned e c n w => k e c (g_set_clock n (g_set_inner w st))
  | Panicked why => (Crash why, st)
  end.

(** The case [DoReconcileKind]. *)
Definition reconcile_case (s : state W) (do : Method W) (original c : KafkaTopicChannel) st :
    reconcile_return * GState W :=
  let (set, st) := setFinalizerIfFinalizer c st in
  match set with
  | inl err => (Requeue ("failed to set finalizers: " +:+ err), st)
  | inr c =>
      let (c, n) := if skipStatusUpdates r then (c, g_clock st) else PreProcessReconcile c (g_clock st) in
      run_method do c (g_set_clock n st) (λ e c st,
        let (c, n) := if skipStatusUpdates r then (c, g_clock st) else PostProcessReconcile c original (g_clock st) in
        finish s original c e (g_set_clock n st))
  end.

(** The case [DoFinalizeKind]. *)
Definition finalize_case (s : state W) (do : Method W) (original c : KafkaTopicChannel) st :
    reconcile_return * GState W :=
  run_method do c st (λ e c st,
    let (cleared, st) := clearFinalizer c e st in
    match cleared with
    | inl err => (Requeue ("failed to clear finalizers: " +:+ err), st)
    | inr c => finish s original c e st
    end).

Definition Reconcile (key : string) st : reconcile_return * GState W :=
  match newState key with
  | inl _ => (Forget, st)
  | inr s =>
      if isNotLeaderNorObserver s then (SkipKey, st)
      else
        let (found, st) := lister_Get (mkNamespacedName (s_namespace s) (s_name s)) st in
        match found with
        | inl err => (Requeue err, st)
        | inr None => (Forget, st)
        | inr (Some original) =>
            match reconcileMethodFor s original with
            | (DoReconcileKind, Some do) => reconcile_case s do original original st
            | (DoFinalizeKind, Some do) => finalize_case s do original original st
            | (_, Some do) => run_method do original st (λ e c, finish s original c e)
            | (_, None) => finish s original original None st
            end
        end
  end.

Lemma newState_split key namespace name :
  SplitMetaNamespaceKey key = Some (namespace, name) →
  newState key = inr (mkState W key namespace name r (r_ObserveKind r)
    (bool_decide (is_Some (r_ObserveKind r))) (r_ObserveFinalizeKind r)
    (bool_decide (is_Some (r_ObserveFinalizeKind r))) (IsLeaderFor r (mkNamespacedName namespace name))).
Proof. intros E. unfold newState. by rewrite E. Qed.
End generated.

(** ** The controller as a typed reconciler *)
Section controller.
Context `{GoRuntime} `{KubeClient} `{Resolver} `{Reconciler}.

(** A method of [Controller] on the channel and clock it is given. *)
Definition controller_method (m : M Event) : Method World := λ c n w,
  match m (set_clock n (set_channel c w)) with
  | (Ok e, w) | (Err e, w) => Returned (Some e) (w_channel w) (w_clock w) w
  | (Panic why, _) => Panicked why
  end.

Definition defaultFinalizerName : string := "kafkatopicchannels.messaging.optum.dev".

(** [NewImpl(ctx, r)] of the controller: a finalizer, no observers. *)
Definition controller_impl (leader : NamespacedName → bool) : reconcilerImpl World :=
  {| IsLeaderFor := leader;
     r_ReconcileKind := controller_method ReconcileKind;
     r_FinalizeKind := Some (controller_method FinalizeKind);
     r_ObserveKind := None;
     r_ObserveFinalizeKind := None;
     finalizerName := defaultFinalizerName;
     skipStatusUpdates := false |}.
End controller.

(** Enter [Reconcile] on a key that splits by [ref]. *)
Ltac enter_Reconcile ref :=
  unfold Reconcile; rewrite (newState_split _ _ _ _ ref); unfold isNotLeaderNorObserver;
  cbn [s_key s_namespace s_name s_reconciler s_roi s_isROI s_rof s_isROF s_isLeader
       IsLeaderFor controller_impl].

(** ** The writes of a reconciliation *)
Section lemmas.
Context {W : Type} `{GoRuntime} `{ApiClient} (r : reconcilerImpl W).
Implicit Types (st : GState W) (c : KafkaTopicChannel).

(** [st'] extends the log of [st] with writes that all satisfy [P]. *)
Definition writes_only (P : ClientWrite → Prop) st st' : Prop :=
  ∃ xs, g_writes st' = g_writes st ++ xs ∧ Forall P xs.

Lemma writes_only_same P st st' : g_writes st' = g_writes st → writes_only P st st'.
Proof. intros Hw. exists []. by rewrite app_nil_r. Qed.

Lemma writes_only_trans P st1 st2 st3 : writes_only P st1 st2 → writes_only P st2 st3 → writes_only P st1 st3.
Proof.
  intros (xs & Hx & ?) (ys & Hy & ?). exists (xs ++ ys). rewrite Hy, Hx, <-app_assoc. by rewrite Forall_app.
Qed.

Lemma writes_only_mono (P Q : ClientWrite → Prop) st st' : (∀ x, P x → Q x) → writes_only P st st' → writes_only Q st st'.
Proof. intros HPQ (xs & ? & ?). exists xs. split; [done|]. by eapply Forall_impl. Qed.

(** A patch of the finalizers of [ref] that concerns the reconciler's own only. *)
Definition is_finalizer_patch (ref : NamespacedName) (x : ClientWrite) : Prop :=
  ∃ fs rv, x = PatchFinalizers ref fs rv.

(** The finalizer update keeps everything but what the server answers. *)
Lemma updateFinalizersFiltered_writes c st :
  let (res, st') := updateFinalizersFiltered r c st in
  writes_only (is_finalizer_patch (ref_of c)) st st' ∧
  g_inner st' = g_inner st ∧ g_clock st' = g_clock st ∧ g_lister st' = g_lister st.
Proof.
  unfold updateFinalizersFiltered, lister_Get.
  destruct (match channel_lister_error _ with Some err => _ | None => _ end) as [err|[existing|]];
    [by split; [apply writes_only_same|]| |by split; [apply writes_only_same|]].
  destruct (finalizers_to_write r existing c) as [fs|]; [|by split; [apply writes_only_same|]].
  destruct (client_PatchFinalizers _ _ _ _); (split; [|done]); eexists [_]; (split; [done|]);
    apply Forall_singleton; by eexists _, _.
Qed.

(** The patches of finalizers among the writes. *)
Definition finalizer_patches (ws : list ClientWrite) : list (NamespacedName * list string * string) :=
  omap (λ x, match x with PatchFinalizers ref fs rv => Some (ref, fs, rv) | UpdateStatus _ => None end) ws.

Lemma sorted_list_set (s : gset string) : list_to_set (sorted_list s) = s.
Proof.
  apply set_eq. intros x. unfold sorted_list. by rewrite elem_of_list_to_set, merge_sort_Permutation, elem_of_elements.
Qed.

(** A status write of [desired]: on the informer's copy first, then on copies
    that the server returned. *)
Definition is_status_write (desired : KafkaTopicChannelStatus) (x : ClientWrite) : Prop :=
  ∃ existing, x = UpdateStatus (with_Status existing desired).

Lemma update_attempts_writes steps : ∀ existing desired last st,
  let (err, st') := update_attempts (W:=W) steps existing desired last st in
  ∃ xs, g_writes st' = g_writes st ++ xs ∧ Forall (is_status_write (ch_Status desired)) xs ∧ length xs ≤ steps.
Proof.
  induction steps as [|steps IH]; intros existing desired last st; cbn [update_attempts];
    [by exists []; rewrite app_nil_r|].
  set (found := match existing with Some existing => (inr existing, st) | None => _ end).
  assert (Hf : g_writes found.2 = g_writes st) by (unfold found; by destruct existing).
  destruct found as [found st0]. simpl in Hf. destruct found as [err|ex].
  - exists []. rewrite app_nil_r. split_and!; [done|done|simpl; lia].
  - destruct (decide _); [exists []; rewrite app_nil_r; split_and!; [done|done|simpl; lia]|].
    assert (Hx : is_status_write (ch_Status desired) (UpdateStatus (with_Status ex (ch_Status desired)))) by by exists ex.
    destruct (client_UpdateStatus _ _) as [|err|err].
    + eexists [_]. simpl. rewrite Hf. split_and!; [done|by apply Forall_singleton|lia].
    + specialize (IH None desired err (g_write (UpdateStatus (with_Status ex (ch_Status desired))) (g_call st0))).
      destruct (update_attempts _ _ _ _ _) as [err' st']. destruct IH as (xs & Hw & Hall & Hlen).
      exists (UpdateStatus (with_Status ex (ch_Status desired)) :: xs). rewrite Hw. simpl. rewrite Hf, <-app_assoc.
      split_and!; [done|by constructor|lia].
    + eexists [_]. simpl. rewrite Hf. split_and!; [done|by apply Forall_singleton|lia].
Qed.

Lemma report_event_writes e st : g_writes (report_event (W:=W) e st).2 = g_writes st.
Proof. by destruct e as [[? ? ?|?|?]|]. Qed.

Lemma finish_writes (s : state W) original c e st :
  let st' := (finish r s original c e st).2 in
  ∃ xs, g_writes st' = g_writes st ++ xs ∧ Forall (is_status_write (ch_Status c)) xs ∧ length xs ≤ DefaultRetry_Steps ∧
    (xs ≠ [] → skipStatusUpdates r = false ∧ ch_Status original ≠ ch_Status c ∧ s_isLeader s = true).
Proof.
  cbv zeta. unfold finish.
  assert (Hreport : ∀ e st0, g_writes st0 = g_writes st → ∃ xs, g_writes (report_event e st0).2 = g_writes st ++ xs ∧
    Forall (is_status_write (ch_Status c)) xs ∧ length xs ≤ DefaultRetry_Steps ∧
    (xs ≠ [] → skipStatusUpdates r = false ∧ ch_Status original ≠ ch_Status c ∧ s_isLeader s = true)).
  { intros e0 st0 Hw. exists []. rewrite app_nil_r, report_event_writes.
    split_and!; [done|done|unfold DefaultRetry_Steps; simpl; lia|done]. }
  destruct (skipStatusUpdates r) eqn:Hskip; [by apply Hreport|].
  destruct (decide _) as [He|He]; [by apply Hreport|]. destruct (s_isLeader s) eqn:Hl; [|by apply Hreport].
  cbn [negb]. unfold updateStatus.
  pose proof (update_attempts_writes DefaultRetry_Steps (Some original) c "" st) as Hu.
  destruct (update_attempts _ _ _ _ _) as [err st']. destruct Hu as (xs & Hw & Hall & Hlen).
  exists xs. destruct err; simpl; [|rewrite report_event_writes]; done.
Qed.
End lemmas.

(** ** Properties *)
Section properties.
Context {W : Type} `{GoRuntime} `{ApiClient} (r : reconcilerImpl W).
Implicit Types (st : GState W) (c : KafkaTopicChannel).

(** An instance that does not lead for a channel writes nothing to the API
    server, whatever its observer does; without observers it does not even look. *)
Theorem not_leader_never_writes key namespace name st
    (ref : SplitMetaNamespaceKey key = Some (namespace, name))
    (follower : IsLeaderFor r (mkNamespacedName namespace name) = false) :
  g_writes (Reconcile r key st).2 = g_writes st ∧
  (r_ObserveKind r = None → r_ObserveFinalizeKind r = None → Reconcile r key st = (SkipKey, st)).
Proof.
  enter_Reconcile ref. rewrite follower. split.
  2:{ intros -> ->. done. }
  set (s := mkState _ _ _ _ _ _ _ _ _ _).
  destruct (if negb false && _ && _ then _ else _); [done|]. unfold lister_Get.
  destruct (match channel_lister_error _ with Some err => _ | None => _ end) as [err|[original|]]; [done| |done].
  assert (Hfin : ∀ c e st0, g_writes (finish r s original c e st0).2 = g_writes st0).
  { intros c e st0. destruct (finish_writes r s original c e st0) as ([|x xs] & Hw & _ & _ & Hx).
    - by rewrite Hw, app_nil_r.
    - destruct Hx as (_ & _ & Hl); [done|]. discriminate Hl. }
  assert (Hrun : ∀ do, g_writes (run_method do original (g_call st)
      (λ e c, finish r s original c e)).2 = g_writes st).
  { intros do. unfold run_method. destruct (do _ _ _) as [e c n w|why]; [|done]. by rewrite Hfin. }
  unfold reconcileMethodFor. cbn [s s_isLeader s_reconciler s_roi s_isROI s_rof s_isROF].
  destruct (DeletionTimestamp (meta original)); destruct (r_FinalizeKind r), (r_ObserveFinalizeKind r), (r_ObserveKind r);
    cbn [negb andb];
    first [apply Hrun | exact (Hfin _ _ (g_call st))].
Qed.

(** C35: What becomes of the key after [ReconcileKind] ran on a channel: unless the
    status could not be written, only the kind of the returned event counts.  Nil
    and every [ReconcilerEvent], a Warning as well as a Normal one, are recorded
    and the key is forgotten; any other error queues the key again.  So the errors
    of the API server that the controller wraps in a Warning are not retried. *)
Theorem event_decides_retry key namespace name st original c st1 e c' (n' : nat) (w : W)
    (ref : SplitMetaNamespaceKey key = Some (namespace, name))
    (leader : IsLeaderFor r (mkNamespacedName namespace name) = true)
    (listed : lister_Get (mkNamespacedName namespace name) st = (inr (Some original), g_call st))
    (live : DeletionTimestamp (meta original) = None)
    (set : setFinalizerIfFinalizer r original (g_call st) = (inr c, st1))
    (ran : let (c, n) := if skipStatusUpdates r then (c, g_clock st1) else PreProcessReconcile c (g_clock st1) in
           r_ReconcileKind r c n (g_inner st1) = Returned e c' n' w) :
  let (ret, st') := Reconcile r key st in
  (∃ err msg, ret = Requeue err ∧ last (g_events st') = Some (mkRecorded EventTypeWarning "UpdateFailed" msg)) ∨
  match e with
  | None => ret = Forget
  | Some (ReconcilerEvent type reason message) =>
      ret = Forget ∧ last (g_events st') = Some (mkRecorded type reason message)
  | Some e => ret = Requeue (event_text e)
  end.
Proof.
  enter_Reconcile ref. rewrite leader. cbn [negb andb]. rewrite listed.
  unfold reconcileMethodFor. rewrite live. cbn [s_isLeader s_reconciler].
  unfold reconcile_case. rewrite set.
  destruct (if skipStatusUpdates r then _ else PreProcessReconcile _ _) as [c0 n0].
  unfold run_method. cbn [g_inner g_set_clock g_clock]. rewrite ran.
  destruct (if skipStatusUpdates r then _ else PostProcessReconcile _ _ _) as [c2 n2]. cbv zeta.
  set (st2 := g_set_clock n2 _). clearbody st2.
  assert (Hreport : ∀ st0, let (ret, st') := report_event e st0 in
    match e with
    | None => ret = Forget
    | Some (ReconcilerEvent type reason message) =>
        ret = Forget ∧ last (g_events st') = Some (mkRecorded type reason message)
    | Some e => ret = Requeue (event_text e)
    end).
  { intros st0. destruct e as [[? ? ?|?|?]|]; simpl; rewrite ?last_snoc; done. }
  assert (Hright : ∀ st0, let (ret, st') := report_event e st0 in
    (∃ err msg, ret = Requeue err ∧ last (g_events st') = Some (mkRecorded EventTypeWarning "UpdateFailed" msg)) ∨
    match e with
    | None => ret = Forget
    | Some (ReconcilerEvent type reason message) =>
        ret = Forget ∧ last (g_events st') = Some (mkRecorded type reason message)
    | Some e => ret = Requeue (event_text e)
    end) by (intros st0; specialize (Hreport st0); destruct (report_event e st0); by right).
  unfold finish. destruct (skipStatusUpdates r); [apply Hright|].
  destruct (decide _); [apply Hright|]. cbn [s_isLeader negb].
  destruct (updateStatus _ _ _) as [[err|] st3]; [|apply Hright].
  left. eexists err, _. split; [done|]. simpl. by rewrite last_snoc.
Qed.

Lemma finalizer_release key namespace name st original fin e c (n : nat) (w : W)
    (ref : SplitMetaNamespaceKey key = Some (namespace, name))
    (leader : IsLeaderFor r (mkNamespacedName namespace name) = true)
    (calm : ∀ n, channel_lister_error n = None)
    (cached : g_lister st !! mkNamespacedName namespace name = Some original)
    (named : ref_of original = mkNamespacedName namespace name)
    (deleted : is_Some (DeletionTimestamp (meta original)))
    (finalizes : r_FinalizeKind r = Some fin) (held : finalizerName r ∈ Finalizers (meta original))
    (ran : fin original (g_clock st) (g_inner st) = Returned e c n w) (kept : meta c = meta original) :
  ∃ patches, finalizer_patches (g_writes (Reconcile r key st).2) = finalizer_patches (g_writes st) ++ patches ∧
  if is_clean e then
    ∃ fs, patches = [(mkNamespacedName namespace name, fs, ResourceVersion (meta original))] ∧
      (list_to_set fs : gset string) = list_to_set (Finalizers (meta original)) ∖ {[finalizerName r]}
  else patches = [].
Proof.
  assert (Hfin : ∀ s c e st0, finalizer_patches (g_writes (finish r s original c e st0).2) =
                              finalizer_patches (g_writes st0)).
  { intros s c0 e0 st0. destruct (finish_writes r s original c0 e0 st0) as (xs & -> & Hx & _).
    unfold finalizer_patches. rewrite omap_app. rewrite <-(app_nil_r (omap _ (g_writes st0))) at 2. f_equal.
    induction Hx as [|x xs [ex ->] _ IH]; [done|exact IH]. }
  set (S := (if is_clean e then list_to_set (Finalizers (meta original)) ∖ {[finalizerName r]}
             else list_to_set (Finalizers (meta original))) : gset string).
  assert (Hcl : clearFinalizer r c e (g_set_clock n (g_set_inner w (g_call st))) =
    updateFinalizersFiltered r (with_Finalizers (sorted_list S) c) (g_set_clock n (g_set_inner w (g_call st)))).
  { unfold clearFinalizer. rewrite finalizes, kept. by destruct deleted as [t ->]. }
  enter_Reconcile ref. rewrite leader. cbn [negb andb]. unfold lister_Get.
  rewrite calm, cached. unfold reconcileMethodFor. cbn [s_isLeader s_reconciler]. rewrite finalizes.
  destruct (DeletionTimestamp (meta original)) as [t|] eqn:Ht; [|by destruct deleted].
  unfold finalize_case, run_method. cbn [g_clock g_inner g_call]. rewrite ran, Hcl.
  unfold updateFinalizersFiltered, lister_Get. rewrite calm.
  assert (Href : ref_of (with_Finalizers (sorted_list S) c) = mkNamespacedName namespace name)
    by (unfold ref_of, with_Finalizers; simpl; rewrite kept; exact named).
  rewrite Href. cbn [g_lister g_set_clock g_set_inner g_call]. rewrite cached.
  unfold finalizers_to_write. cbn [meta with_Finalizers with_meta Finalizers]. rewrite sorted_list_set.
  unfold S in *. clear S. destruct (is_clean e).
  - rewrite decide_False by set_solver. rewrite decide_False by (intros Hno; apply Hno; by apply elem_of_list_to_set).
    eexists [(_, _, _)]. split; [|by eexists; split; [done|apply sorted_list_set]].
    destruct (client_PatchFinalizers _ _ _ _) as [err|c']; [|rewrite Hfin]; cbn; unfold finalizer_patches; by rewrite omap_app.
  - rewrite !decide_True by by apply elem_of_list_to_set. exists []. rewrite app_nil_r. split; [|done]. by rewrite Hfin.
Qed.

(** C14: The finalizer of a deleted channel: it is released, in one patch that
    keeps the other finalizers, iff finalizing returned nil or a Normal event;
    after any other event no finalizer is written. *)
Theorem finalizer_released_iff_clean key namespace name st original fin e c (n : nat) (w : W)
    (ref : SplitMetaNamespaceKey key = Some (namespace, name))
    (leader : IsLeaderFor r (mkNamespacedName namespace name) = true)
    (calm : ∀ n, channel_lister_error n = None)
    (cached : g_lister st !! mkNamespacedName namespace name = Some original)
    (named : ref_of original = mkNamespacedName namespace name)
    (deleted : is_Some (DeletionTimestamp (meta original)))
    (finalizes : r_FinalizeKind r = Some fin) (held : finalizerName r ∈ Finalizers (meta original))
    (ran : fin original (g_clock st) (g_inner st) = Returned e c n w) (kept : meta c = meta original) :
  let released := e = None ∨ ∃ reason message, e = Some (ReconcilerEvent EventTypeNormal reason message) in
  ∃ patches, finalizer_patches (g_writes (Reconcile r key st).2) = finalizer_patches (g_writes st) ++ patches ∧
  (released → ∃ fs, patches = [(mkNamespacedName namespace name, fs, ResourceVersion (meta original))] ∧
      (list_to_set fs : gset string) = list_to_set (Finalizers (meta original)) ∖ {[finalizerName r]}) ∧
  (¬ released → patches = []).
Proof.
  destruct (finalizer_release key namespace name st original fin e c n w) as (patches & Heq & Hcase); [done..|].
  exists patches. split; [done|]. destruct (is_clean e) eqn:He.
  - split; [done|]. intros Hno. exfalso. apply Hno.
    destruct e as [[[] reason message| |]|]; try discriminate He; eauto.
  - split; [|done]. intros [->|(? & ? & ->)]; discriminate He.
Qed.
End properties.

(** ** The status of the controller's channels *)
Section controller_status.
Context `{GoRuntime} `{ApiClient} `{KubeClient} `{Resolver} `{Reconciler}.
Implicit Types (st : GState World) (c : KafkaTopicChannel).

Lemma PreProcessReconcile_sane c n :
  sane (ch_Status c) →
  let (c', n') := PreProcessReconcile c n in
  sane (ch_Status c') ∧ st_Subscribers (ch_Status c') = st_Subscribers (ch_Status c).
Proof.
  intros Hr. unfold PreProcessReconcile. change (ch_Status (SetDefaults c)) with (ch_Status c).
  set (cs := Status_InitializeConditions (mkCell (ch_Status c) n)).
  assert (Hcs : status_inv cs) by (apply init_inv; by apply (sane_cell (mkCell (ch_Status c) n))).
  assert (Hsub : st_Subscribers (status cs) = st_Subscribers (ch_Status c)) by done. clearbody cs.
  destruct (decide _); simpl; (split; [|done]); [|by apply sane_cell].
  apply (sane_cell (manage (MarkUnknown kc ConditionReady failedGenerationBump "unsuccessfully observed a new generation") cs)).
  eapply lifecycle_step_inv; [apply step_observe_generation|done].
Qed.

(** Observing the generation and grooming the transition times. *)
Lemma PostProcessReconcile_sane c old n : sane (ch_Status c) → sane (ch_Status (PostProcessReconcile c old n).1).
Proof.
  intros Hc. unfold PostProcessReconcile, groomConditionsTransitionTime. simpl.
  set (m := mkManaged (Conditions (ch_Status old)) 0).
  assert (Hg : ∀ cond, groom_condition (now n) m cond = with_time cond (LastTransitionTime (groom_condition (now n) m cond))).
  { intros cond. unfold groom_condition. destruct (GetCondition m (Type_ cond)); [|done]. by destruct (decide _). }
  rewrite (list_fmap_ext (groom_condition (now n) m) (λ x : Condition, with_time x (LastTransitionTime (groom_condition (now n) m x))))
    by (intros; apply Hg).
  by eapply (retimed_inv (λ x : Condition, LastTransitionTime (groom_condition (now n) m x)) (ch_Status c)).
Qed.

(** The server answers a patch of the finalizers with a channel that it stored. *)
Definition patches_sane : Prop :=
  ∀ n ref fs rv c, client_PatchFinalizers n ref fs rv = inr c → sane (ch_Status c).

Lemma setFinalizer_sane leaders original st c st' :
  patches_sane → sane (ch_Status original) →
  setFinalizerIfFinalizer (controller_impl leaders) original st = (inr c, st') → sane (ch_Status c).
Proof.
  intros Hp Ho. unfold setFinalizerIfFinalizer, updateFinalizersFiltered. cbn [r_FinalizeKind controller_impl].
  destruct (lister_Get _ st) as [[err|[existing|]] st0]; [done| |done].
  destruct (finalizers_to_write _ _ _); [|by intros [= <- _]].
  destruct (client_PatchFinalizers _ _ _ _) as [err|updated] eqn:E; [done|]. intros [= <- _]. by eapply Hp.
Qed.

(** Every status that the controller's reconciler writes for a channel
    carries the generation of the channel as observed, and the subscriber statuses
    of the copy it started from, not those that [reconcileSubscribers] patched in
    the meantime: on a conflict with its own patch the retry writes the old list
    over the new one.  A status that is written is sane if that copy was. *)
Theorem status_updates_keep_subscribers leaders key namespace name st original c st1
    (ref : SplitMetaNamespaceKey key = Some (namespace, name))
    (leader : leaders (mkNamespacedName namespace name) = true)
    (listed : lister_Get (mkNamespacedName namespace name) st = (inr (Some original), g_call st))
    (live : DeletionTimestamp (meta original) = None)
    (set : setFinalizerIfFinalizer (controller_impl leaders) original (g_call st) = (inr c, st1))
    (stored : sane (ch_Status c)) :
  ∃ xs, g_writes (Reconcile (controller_impl leaders) key st).2 = g_writes st1 ++ xs ∧
    ∀ x, x ∈ xs → ∃ obj, x = UpdateStatus obj ∧
      st_Subscribers (ch_Status obj) = st_Subscribers (ch_Status c) ∧
      ObservedGeneration (ch_Status obj) = Generation (meta c) ∧ sane (ch_Status obj).
Proof.
  enter_Reconcile ref. rewrite leader.
  cbn [negb andb]. rewrite listed. unfold reconcileMethodFor. rewrite live. cbn [s_isLeader s_reconciler].
  unfold reconcile_case. rewrite set. cbn [skipStatusUpdates controller_impl].
  pose proof (PreProcessReconcile_sane c (g_clock st1) stored) as Hpre.
  assert (Hgen : Generation (meta (PreProcessReconcile c (g_clock st1)).1) = Generation (meta c)) by done.
  destruct (PreProcessReconcile c (g_clock st1)) as [c0 n0]. destruct Hpre as [Hreach Hsub]. simpl in Hgen.
  unfold run_method. cbn [r_ReconcileKind controller_impl g_inner g_set_clock g_clock]. unfold controller_method.
  pose proof (ReconcileKind_cases (set_clock n0 (set_channel c0 (g_inner st1))) Hreach) as Hcases.
  assert (Hres : match ReconcileKind (set_clock n0 (set_channel c0 (g_inner st1))) with
    | (Ok _, w') | (Err _, w') => Generation (meta (w_channel w')) = Generation (meta c) ∧
        st_Subscribers (ch_Status (w_channel w')) = st_Subscribers (ch_Status c) ∧ sane (ch_Status (w_channel w'))
    | _ => True end).
  { cbv zeta in Hcases. destruct (ReconcileKind _) as [[e|e|why] w']; [| |done].
    - destruct Hcases as (_ & _ & Hr). rewrite (rd_meta _ _ Hr), (rd_subs _ _ Hr). split_and!; [done..|by apply rd_sane in Hr].
    - destruct Hcases as (Hm & Hs & Hsane & _). rewrite Hm, Hs. by split_and!. }
  clear Hcases. destruct (ReconcileKind _) as [[e|e|why] w']; [| |exists []; by rewrite app_nil_r; split; [|intros ? ?%elem_of_nil]].
  all: destruct Hres as (Hg & Hs & Hsane); cbv zeta;
    match goal with |- context [PostProcessReconcile ?a ?b ?n] =>
      assert (Hpost : st_Subscribers (ch_Status (PostProcessReconcile a b n).1) = st_Subscribers (ch_Status c) ∧
                      ObservedGeneration (ch_Status (PostProcessReconcile a b n).1) = Generation (meta c) ∧
                      sane (ch_Status (PostProcessReconcile a b n).1))
        by (split_and!; [exact Hs|exact Hg|by apply PostProcessReconcile_sane]);
      destruct (PostProcessReconcile a b n) as [c2 n2] end;
    simpl in Hpost;
    match goal with |- context [finish ?r ?ref ?o ?c ?e ?s] =>
      destruct (finish_writes r ref o c e s) as (xs & Hw & Hall & _) end;
    exists xs; (split; [exact Hw|]); intros x Hin;
    rewrite Forall_forall in Hall; destruct (Hall x Hin) as [ex ->]; eexists; (split; [reflexivity|]); exact Hpost.
Qed.

(** What the controller made of a live channel, when its key was not queued again: it
    is reconciled, or it is not ready and the event was returned as a mere event. *)
Definition settled_well (c0 : KafkaTopicChannel) (n0 : nat) (w w' : World) (e : Event) : Prop :=
  let w0 := set_clock n0 (set_channel c0 w) in
  (ReconcileKind w0 = (Ok e, w') ∧ valid (SetDefaults c0) ∧ reconciled (SetDefaults c0) w') ∨
  (ReconcileKind w0 = (Err e, w') ∧ (∃ type reason msg, e = ReconcilerEvent type reason msg) ∧ IsReady (cell w') = false).

Lemma unmarked_not_event e type reason msg : e = ReconcilerEvent type reason msg → ¬ unmarked e.
Proof. by intros -> (n & err & [[[=] _]|[(svc & [=] & _)|(ref & subs & [=] & _)]]). Qed.

Lemma finish_forgets (r : reconcilerImpl World) (s : state World) original c e st :
  skipStatusUpdates r = false → s_isLeader s = true → (finish r s original c (Some e) st).1 = Forget →
  (∃ type reason msg, e = ReconcilerEvent type reason msg) ∧
  (ch_Status original = ch_Status c ∨
   ∃ st3, updateStatus original c st = (None, st3) ∧ g_writes (finish r s original c (Some e) st).2 = g_writes st3).
Proof.
  intros Hskip Hlead. unfold finish. rewrite Hskip, Hlead. cbn [negb].
  assert (Hreport : ∀ st0, (report_event (W:=World) (Some e) st0).1 = Forget → ∃ type reason msg, e = ReconcilerEvent type reason msg)
    by (intros st0; destruct e; simpl; [by eauto|done..]).
  destruct (decide _) as [Heq|_]; [intros Hf; split; [by eapply Hreport|by left]|].
  destruct (updateStatus original c st) as [[err|] st3]; simpl; [done|]. intros Hf. split; [by eapply Hreport|right].
  exists st3. split; [done|]. apply (report_event_writes (Some e)).
Qed.

Lemma finish_not_skipped (r : reconcilerImpl World) (s : state World) original c e st :
  (finish r s original c e st).1 ≠ SkipKey.
Proof.
  assert (Hreport : ∀ st0, (report_event (W:=World) e st0).1 ≠ SkipKey) by (intros st0; by destruct e as [[]|]).
  unfold finish. destruct (skipStatusUpdates r); [done|]. destruct (decide _); [done|]. destruct (negb _); [done|].
  destruct (updateStatus _ _ _) as [[err|] st3]; [done|apply Hreport].
Qed.

(** Only what is not the leader skips a key. *)
Lemma leader_never_skips leaders key namespace name st (ref : SplitMetaNamespaceKey key = Some (namespace, name))
    (leader : leaders (mkNamespacedName namespace name) = true) :
  (Reconcile (controller_impl leaders) key st).1 ≠ SkipKey.
Proof.
  assert (Hm : ∀ do c st0 k, (∀ e c st, (k e c st).1 ≠ SkipKey) → (run_method (W:=World) do c st0 k).1 ≠ SkipKey).
  { intros do c st0 k Hk. unfold run_method. destruct (do _ _ _); [apply Hk|done]. }
  enter_Reconcile ref. rewrite leader. cbn [negb andb]. destruct (lister_Get _ st) as [[err|[original|]] st0]; [done| |done].
  unfold reconcileMethodFor. destruct (DeletionTimestamp (meta original)); cbn [s_isLeader s_reconciler r_FinalizeKind controller_impl].
  - unfold finalize_case. apply Hm. intros e c st1. destruct (clearFinalizer _ c e st1) as [[err|c'] st2]; [done|apply finish_not_skipped].
  - unfold reconcile_case. destruct (setFinalizerIfFinalizer _ _ _) as [[err|c] st1]; [done|]. cbn [skipStatusUpdates controller_impl].
    destruct (PreProcessReconcile _ _). apply Hm. intros e c' st2. destruct (PostProcessReconcile _ _ _). apply finish_not_skipped.
Qed.

Lemma controller_forgets leaders key namespace name st original
    (ref : SplitMetaNamespaceKey key = Some (namespace, name))
    (leader : leaders (mkNamespacedName namespace name) = true)
    (calm : ∀ n, channel_lister_error n = None)
    (listed : g_lister st !! mkNamespacedName namespace name = Some original)
    (live : DeletionTimestamp (meta original) = None)
    (stored : sane (ch_Status original)) (patches : patches_sane)
    (forgotten : (Reconcile (controller_impl leaders) key st).1 = Forget) :
  ∃ c st1 e w',
    setFinalizerIfFinalizer (controller_impl leaders) original (g_call st) = (inr c, st1) ∧
    let '(c0, n0) := PreProcessReconcile c (g_clock st1) in
    settled_well c0 n0 (g_inner st1) w' e ∧
    let c2 := (PostProcessReconcile (w_channel w') original (w_clock w')).1 in
    (ch_Status original = ch_Status c2 ∨
     ∃ st2 st3, g_writes st2 = g_writes st1 ∧ updateStatus (W:=World) original c2 st2 = (None, st3) ∧
       g_writes (Reconcile (controller_impl leaders) key st).2 = g_writes st3).
Proof.
  revert forgotten. enter_Reconcile ref. rewrite leader. cbn [negb andb].
  unfold lister_Get. rewrite calm, listed. unfold reconcileMethodFor. rewrite live. cbn [s_isLeader s_reconciler].
  unfold reconcile_case. destruct (setFinalizerIfFinalizer _ _ _) as [[err|c] st1] eqn:Hset; [done|].
  pose proof (setFinalizer_sane leaders original _ c st1 patches stored Hset) as Hk. cbn [skipStatusUpdates controller_impl].
  pose proof (PreProcessReconcile_sane c (g_clock st1) Hk) as Hpre.
  destruct (PreProcessReconcile c (g_clock st1)) as [c0 n0] eqn:Hpp. destruct Hpre as [Hreach _].
  unfold run_method. cbn [r_ReconcileKind controller_impl g_inner g_set_clock g_clock]. unfold controller_method.
  pose proof (ReconcileKind_cases (set_clock n0 (set_channel c0 (g_inner st1))) Hreach) as Hcases. cbv zeta in Hcases.
  destruct (ReconcileKind _) as [[e|e|why] w'] eqn:Hrun; [| |done]; cbv zeta;
    destruct (PostProcessReconcile (w_channel w') original _) as [c2 n2] eqn:Hpost; intros Hf;
    apply finish_forgets in Hf as [(type & reason & msg & He) Hst]; try done;
    exists c, st1, e, w'; (split; [done|]); rewrite Hpp; (split; [|simpl in Hpost; rewrite Hpost; cbn [fst]; destruct Hst as [?|(st3 & Hup & Hwr)]; [by left|right]; eexists _, st3; split; [|split; [exact Hup|]]; done]).
  - left. destruct Hcases as (_ & Hv & Hr). done.
  - right. split; [done|]. split; [by eauto|]. destruct Hcases as (_ & _ & _ & [Hn|[Hu|(_ & [errs ->] & _)]]); [done| |done].
    by destruct (unmarked_not_event e type reason msg He).
Qed.
End controller_status.

(** ** Witnesses *)
Section demo.
#[local] Existing Instance Channel.demo_runtime.
#[local] Existing Instance Controller.demo_resolver.
#[local] Existing Instance Controller.demo_reconciler.
#[local] Existing Instance Controller.demo_client.

Definition demo_leader (b : bool) : NamespacedName → bool := λ _, b.

(** A channel with the finalizer, in a lister and on the server. *)
Definition demo_listed (deleted : option Z) : KafkaTopicChannel :=
  let m := new_meta "ch" "ns" None [] in
  mkChannel (mkObjectMeta "ch" "ns" "uid" "7" 1 deleted None None [] [defaultFinalizerName])
    (Spec (demo_kc [demo_sub])) (mkStatus 0 [] None []).

(** The first update of a status meets a newer version of the channel. *)
#[local] Instance demo_api : ApiClient := {|
  channel_lister_error n := None;
  client_Get n ref := inr (with_Status (demo_listed None) (mkStatus 0 [] None [mkSubscriberStatus "u1" 1 "True" ""]));
  client_UpdateStatus n c := if decide (st_Subscribers (ch_Status c) = []) then (if decide (n ≤ 2) then Conflict "conflict" else Updated) else Updated;
  client_PatchFinalizers n ref fs rv := inr (demo_listed (Some 0%Z));
|}.

Definition demo_gstate (c : KafkaTopicChannel) (w : World) : GState World :=
  mkGState {[mkNamespacedName "ns" "ch" := c]} w 0 0 [] [].

Lemma not_leader_never_writes_witness :
  g_writes (Reconcile (controller_impl (demo_leader false)) "ns/ch" (demo_gstate (demo_listed None) demo_world)).2 = [].
Proof. exact (proj1 (not_leader_never_writes (controller_impl (demo_leader false)) "ns/ch" "ns" "ch" _ eq_refl eq_refl)). Defined.

(** A reconciler whose server rejects the deployment. *)
Definition demo_impl : reconcilerImpl () :=
  {| IsLeaderFor := demo_leader true;
     r_ReconcileKind := λ c n w, Returned (Some (newDeploymentWarn "rejected")) c n w;
     r_FinalizeKind := None; r_ObserveKind := None; r_ObserveFinalizeKind := None;
     finalizerName := ""; skipStatusUpdates := true |}.

Lemma event_decides_retry_witness :
  (Reconcile demo_impl "ns/ch" (mkGState {[mkNamespacedName "ns" "ch" := demo_listed None]} () 0 0 [] [])).1 = Forget.
Proof.
  pose proof (event_decides_retry demo_impl "ns/ch" "ns" "ch"
    (mkGState {[mkNamespacedName "ns" "ch" := demo_listed None]} () 0 0 [] [])
    (demo_listed None) (demo_listed None) _ _ _ _ _ eq_refl eq_refl eq_refl eq_refl eq_refl eq_refl) as Hs.
  destruct (Reconcile demo_impl _ _) as [ret st'] eqn:Hr. destruct Hs as [(err & msg & _ & Hl)|[Hret _]]; [|exact Hret].
  exfalso. assert (Hev : g_events st' = g_events (Reconcile demo_impl "ns/ch"
    (mkGState {[mkNamespacedName "ns" "ch" := demo_listed None]} () 0 0 [] [])).2) by (rewrite Hr; reflexivity).
  rewrite Hev in Hl. vm_compute in Hl. discriminate Hl.
Defined.

Lemma finalizer_released_iff_clean_witness :
  ∃ fs, finalizer_patches (g_writes (Reconcile (controller_impl (demo_leader true)) "ns/ch"
          (demo_gstate (demo_listed (Some 0%Z)) demo_world)).2) = [(mkNamespacedName "ns" "ch", fs, "7")] ∧
    (list_to_set fs : gset string) = list_to_set [defaultFinalizerName] ∖ {[defaultFinalizerName]}.
Proof.
  assert (calm : ∀ n, channel_lister_error n = None) by reflexivity.
  destruct (finalizer_released_iff_clean (controller_impl (demo_leader true)) "ns/ch" "ns" "ch"
    (demo_gstate (demo_listed (Some 0%Z)) demo_world) (demo_listed (Some 0%Z)) (controller_method FinalizeKind)
    (Some (newReconciledNormal "ns" "ch")) (demo_listed (Some 0%Z)) _ _ eq_refl eq_refl calm eq_refl eq_refl
    ltac:(eexists; reflexivity) eq_refl ltac:(apply list_elem_of_here) eq_refl eq_refl) as (patches & Hw & Hrel & _).
  destruct Hrel as (fs & -> & Hfs); [right; by eexists _, _|].
  exists fs. split; [exact Hw|exact Hfs].
Defined.

(** The controller with a subscriber whose partition was just reported. *)
Definition demo_reverting : GState World := demo_gstate (demo_listed None) demo_probed_world.

Lemma status_updates_keep_subscribers_witness :
  ∃ xs, g_writes (Reconcile (controller_impl (demo_leader true)) "ns/ch" demo_reverting).2 = xs ∧
    ∀ x, x ∈ xs → ∃ obj, x = UpdateStatus obj ∧ st_Subscribers (ch_Status obj) = [].
Proof.
  assert (listed : lister_Get (mkNamespacedName "ns" "ch") demo_reverting =
                   (inr (Some (demo_listed None)), g_call demo_reverting)) by reflexivity.
  assert (set : setFinalizerIfFinalizer (controller_impl (demo_leader true)) (demo_listed None) (g_call demo_reverting) =
                (inr (demo_listed None), g_call (g_call demo_reverting))) by (vm_compute; reflexivity).
  destruct (status_updates_keep_subscribers (demo_leader true) "ns/ch" "ns" "ch" demo_reverting (demo_listed None)
    _ _ eq_refl eq_refl listed eq_refl set (lifecycle_reachable_sane 0 (fresh 0) (rtc_refl _ _))) as (xs & Hw & Hall).
  exists xs. split; [exact Hw|]. intros x Hx. destruct (Hall x Hx) as (obj & Hobj & Hs & _). exists obj. split; [exact Hobj|exact Hs].
Defined.

(** In this run the reconciler patches the ready subscriber into the status, and
    the retry of its status update then writes the empty list over it. *)
Example subscriber_patch_reverted :
  let st := (Reconcile (controller_impl (demo_leader true)) "ns/ch" demo_reverting).2 in
  last (w_writes (g_inner st)) = Some (PatchSubscribers (mkNamespacedName "ns" "ch") [mkSubscriberStatus "u1" 1 "True" ""]) ∧
  (λ x, match x with UpdateStatus c => Some (st_Subscribers (ch_Status c)) | _ => None end) <$> g_writes st =
    [Some []; Some []].
Proof. vm_compute. split; reflexivity. Qed.
End demo.
