(* ===== verification/ItemQueue.v ===== *)
(** * ItemQueue: the work queue of client-go

    Models [Type] of [vendor/k8s.io/client-go/util/workqueue/queue.go] and the rate
    limiter of [default_rate_limiters.go] there, over any type of items: the keys of
    the two lanes of a controller ([WorkQueue]) and the work items of the prober
    ([ProbeWorkers]).  The methods of the queue hold its lock, so that each is one
    transition. *)
From S2P Require Import Prelude GoStrings.

(** ** [ItemExponentialFailureRateLimiter] *)
Definition MaxInt64 : Z := 2 ^ 63 - 1.

(** The delay after [exp] failures; the products are exact as [float64]. *)
Definition exponential_delay (baseDelay maxDelay : Z) (exp : nat) : Z :=
  let backoff := (baseDelay * 2 ^ Z.of_nat exp)%Z in
  if decide (MaxInt64 < backoff)%Z then maxDelay
  else if decide (maxDelay < backoff)%Z then maxDelay else backoff.

Section queue.
Context {K : Type} `{Countable K}.

(** ** [workqueue.Type] *)
Record Queue := mkQueue {
  q_queue : list K;
  q_dirty : gset K;
  q_processing : gset K;
  q_shuttingDown : bool;
}.

Definition New : Queue := mkQueue [] ∅ ∅ false.

Definition Add (item : K) (q : Queue) : Queue :=
  if q_shuttingDown q then q
  else if decide (item ∈ q_dirty q) then q
  else
    let dirty := {[item]} ∪ q_dirty q in
    if decide (item ∈ q_processing q) then mkQueue (q_queue q) dirty (q_processing q) false
    else mkQueue (q_queue q ++ [item]) dirty (q_processing q) false.

(** [Get]: an item, or [shutdown] ([None]); it blocks while the queue is empty. *)
Inductive get_outcome := Blocked | ShutdownSeen | Item (item : K) (q : Queue).

Definition Get (q : Queue) : get_outcome :=
  match q_queue q with
  | [] => if q_shuttingDown q then ShutdownSeen else Blocked
  | item :: rest =>
      Item item (mkQueue rest (q_dirty q ∖ {[item]}) ({[item]} ∪ q_processing q) (q_shuttingDown q))
  end.

Definition Done (item : K) (q : Queue) : Queue :=
  let queue := if decide (item ∈ q_dirty q) then q_queue q ++ [item] else q_queue q in
  mkQueue queue (q_dirty q) (q_processing q ∖ {[item]}) (q_shuttingDown q).

Definition ShutDown (q : Queue) : Queue := mkQueue (q_queue q) (q_dirty q) (q_processing q) true.

Definition When (baseDelay maxDelay : Z) (item : K) (failures : gmap K nat) : Z * gmap K nat :=
  let exp := default 0 (failures !! item) in
  (exponential_delay baseDelay maxDelay exp, <[item := S exp]> failures).

(** ** One queue *)

(** The comment on [Type.queue]: every element of the queue is in the dirty set and
    not in the processing set; the converse, and no key twice. *)
Record queue_ok (q : Queue) : Prop := {
  qo_nodup : NoDup (q_queue q);
  qo_queue k : k ∈ q_queue q ↔ k ∈ q_dirty q ∧ k ∉ q_processing q;
}.

Lemma New_ok : queue_ok New.
Proof. split; simpl; [constructor|set_solver]. Qed.

Lemma Add_ok k q : queue_ok q → queue_ok (Add k q).
Proof.
  intros [Hn Hq]. unfold Add. destruct (q_shuttingDown q); [done|]. destruct (decide (k ∈ q_dirty q)) as [|Hd]; [done|].
  destruct (decide _); split; simpl; [done|set_solver| |set_solver].
  apply NoDup_app. split; [done|]. split; [set_solver|apply NoDup_singleton].
Qed.

Lemma Add_dirty k q : q_dirty (Add k q) ⊆ {[k]} ∪ q_dirty q.
Proof. unfold Add. repeat case_match; simpl; set_solver. Qed.
Lemma Add_dirty_mono k q : q_dirty q ⊆ q_dirty (Add k q).
Proof. unfold Add. repeat case_match; simpl; set_solver. Qed.
Lemma Add_accepted k q : q_shuttingDown q = false → k ∈ q_dirty (Add k q).
Proof. intros Hs. unfold Add. rewrite Hs. repeat case_match; simpl; set_solver. Qed.
Lemma Add_processing k q : q_processing (Add k q) = q_processing q.
Proof. unfold Add. by repeat case_match. Qed.
Lemma Add_shuttingDown k q : q_shuttingDown (Add k q) = q_shuttingDown q.
Proof. unfold Add. by repeat case_match. Qed.
Lemma Add_shut k q : q_shuttingDown q = true → Add k q = q.
Proof. intros Hs. unfold Add. by rewrite Hs. Qed.

Lemma Get_Item q k q' :
  queue_ok q → Get q = Item k q' →
  queue_ok q' ∧ k ∈ q_dirty q ∧ (k ∉ q_processing q) ∧ q_dirty q' = q_dirty q ∖ {[k]} ∧
  q_processing q' = {[k]} ∪ q_processing q ∧ q_shuttingDown q' = q_shuttingDown q.
Proof.
  intros [Hn Hq] Hg. unfold Get in Hg. destruct (q_queue q) as [|i rest] eqn:E; [by destruct (q_shuttingDown q)|].
  injection Hg as <- <-. apply NoDup_cons in Hn as [Hi Hn].
  assert (Hk : i ∈ q_dirty q ∧ i ∉ q_processing q) by (apply Hq; left).
  split; [|by destruct Hk]. split; simpl; [done|]. intros k'. specialize (Hq k'). set_solver.
Qed.

Lemma Get_shuttingDown q k q' : Get q = Item k q' → q_shuttingDown q' = q_shuttingDown q.
Proof. unfold Get. destruct (q_queue q); [by destruct (q_shuttingDown q)|]. by intros [= <- <-]. Qed.

Lemma Get_empty q : queue_ok q → (∀ k q', Get q ≠ Item k q') → q_dirty q ⊆ q_processing q.
Proof.
  intros [_ Hq] Hg k Hk. destruct (decide (k ∈ q_processing q)) as [|Hp]; [done|].
  assert (Hin : k ∈ q_queue q) by (by apply Hq). unfold Get in Hg.
  destruct (q_queue q); [by apply elem_of_nil in Hin|by destruct (Hg _ _ eq_refl)].
Qed.

Lemma Get_shutdown q : Get q = ShutdownSeen → q_shuttingDown q = true ∧ ∀ k q', Get q ≠ Item k q'.
Proof. unfold Get. destruct (q_queue q); [|done]. by destruct (q_shuttingDown q). Qed.

Lemma Done_ok k q : queue_ok q → k ∈ q_processing q → queue_ok (Done k q).
Proof.
  intros [Hn Hq] Hk. unfold Done. assert (k ∉ q_queue q) by (rewrite Hq; naive_solver).
  split; simpl; destruct (decide (k ∈ q_dirty q)).
  - apply NoDup_app. split; [done|]. split; [set_solver|apply NoDup_singleton].
  - done.
  - intros k'. specialize (Hq k'). destruct (decide (k' = k)); set_solver.
  - intros k'. specialize (Hq k'). destruct (decide (k' = k)); set_solver.
Qed.

Lemma ShutDown_ok q : queue_ok q → queue_ok (ShutDown q).
Proof. by intros []. Qed.

(** The delay of a rate limiter with a positive base is never zero. *)
Lemma When_positive baseDelay maxDelay k f : (0 < baseDelay → 0 < maxDelay → 0 < (When baseDelay maxDelay k f).1)%Z.
Proof.
  intros Hb Hm. unfold When, exponential_delay. simpl. destruct (decide _); [done|]. destruct (decide _); [done|].
  apply Z.mul_pos_pos; [done|]. apply Z.pow_pos_nonneg; lia.
Qed.
End queue.
Arguments Queue K {_ _}.
Arguments get_outcome K {_ _}.
