(* ===== verification/WorkQueue.v ===== *)
(** * WorkQueue: the queue between the informers and the reconcilers

    Models, over the queue of [ItemQueue], the delays of [delaying_queue.go] and
    [rate_limiting_queue.go] in [vendor/k8s.io/client-go/util/workqueue], the two lanes of [vendor/knative.dev/pkg/controller/two_lane_queue.go] and the
    workers of [controller.go] there ([processNextWorkItem], [handleErr]).

    Each goroutine (the producer of a lane, the consumer, a worker, the waiting
    loop of the delays) moves in steps of its own; [step] interleaves them.  The
    preference of the consumer for the fast lane is not a guarantee in the code (a
    producer between [Get] and its send is not seen), so that the model lets either
    lane go first.  [NewReconciler] of the generated code never makes a key
    permanent; the outcome is there since [handleErr] tests it. *)
From S2P Require Import Prelude GoStrings ApiTypes ItemQueue.

Abbreviation Key := NamespacedName.

(** ** The rates of [DefaultControllerRateLimiter] *)
Definition baseDelay : Z := 5 * 10 ^ 6.
Definition maxDelay : Z := 1000 * 10 ^ 9.

(** ** The two lanes *)
Inductive Lane := Fast | Slow.
#[export] Instance Lane_eq_dec : EqDecision Lane.
Proof. solve_decision. Defined.

(** The goroutine [process] of a lane: waiting in [Get], having got an item,
    sending it, or ended with its channel closed. *)
Inductive producer := Waiting | Got (item : Key) | Sending (item : Key) | Closed.

(** A lane, its producer and whether [runConsumer] still reads its channel. *)
Record lane_state := mkLane { ln_queue : Queue Key; ln_producer : producer; ln_reading : bool }.

(** What a worker does with its key: run the reconciler, or [handleErr] is past
    and [Done] to come. *)
Inductive worker_state := Reconciling (key : Key) | Finishing (key : Key).
Definition worker_key (s : worker_state) : Key := match s with Reconciling k | Finishing k => k end.

Record twoLaneQueue := mkTwoLane {
  fastLane : lane_state;
  slowLane : lane_state;
  consumerQueue : Queue Key;
  (** keys whose delay has not passed *)
  delayed : gset Key;
  failures : gmap Key nat;
  workers : gmap nat worker_state;
}.

Definition newLane : lane_state := mkLane New Waiting true.
Definition newTwoLaneWorkQueue : twoLaneQueue := mkTwoLane newLane newLane New ∅ ∅ ∅.

Definition lane (ln : Lane) (t : twoLaneQueue) : lane_state :=
  match ln with Fast => fastLane t | Slow => slowLane t end.
Definition set_lane (ln : Lane) (x : lane_state) (t : twoLaneQueue) : twoLaneQueue :=
  match ln with
  | Fast => mkTwoLane x (slowLane t) (consumerQueue t) (delayed t) (failures t) (workers t)
  | Slow => mkTwoLane (fastLane t) x (consumerQueue t) (delayed t) (failures t) (workers t)
  end.
Definition set_consumer (q : Queue Key) (t : twoLaneQueue) : twoLaneQueue :=
  mkTwoLane (fastLane t) (slowLane t) q (delayed t) (failures t) (workers t).
Definition set_delayed (d : gset Key) (f : gmap Key nat) (t : twoLaneQueue) : twoLaneQueue :=
  mkTwoLane (fastLane t) (slowLane t) (consumerQueue t) d f (workers t).
Definition set_workers (ws : gmap nat worker_state) (t : twoLaneQueue) : twoLaneQueue :=
  mkTwoLane (fastLane t) (slowLane t) (consumerQueue t) (delayed t) (failures t) ws.

(** [EnqueueKey] on the fast lane, [EnqueueSlowKey] on the slow one. *)
Definition enqueue (ln : Lane) (key : Key) (t : twoLaneQueue) : twoLaneQueue :=
  let l := lane ln t in set_lane ln (mkLane (Add key (ln_queue l)) (ln_producer l) (ln_reading l)) t.

Definition ShuttingDown (t : twoLaneQueue) : bool := q_shuttingDown (ln_queue (fastLane t)).

Definition tlq_ShutDown (t : twoLaneQueue) : twoLaneQueue :=
  let stop l := mkLane (ShutDown (ln_queue l)) (ln_producer l) (ln_reading l) in
  mkTwoLane (stop (fastLane t)) (stop (slowLane t)) (consumerQueue t) (delayed t) (failures t) (workers t).

(** [AddAfter] of the fast lane. *)
Definition AddAfter (key : Key) (duration : Z) (t : twoLaneQueue) : twoLaneQueue :=
  if ShuttingDown t then t
  else if decide (duration ≤ 0)%Z then enqueue Fast key t
  else set_delayed ({[key]} ∪ delayed t) (failures t) t.

Definition AddRateLimited (key : Key) (t : twoLaneQueue) : twoLaneQueue :=
  let (duration, failures) := When baseDelay maxDelay key (failures t) in
  AddAfter key duration (set_delayed (delayed t) failures t).

Definition Forget (key : Key) (t : twoLaneQueue) : twoLaneQueue :=
  set_delayed (delayed t) (delete key (failures t)) t.

(** ** Workers *)

(** What [Reconcile] of the key returned. *)
Inductive outcome := Succeeded | Skipped | Failed (permanent : bool).

Definition handleErr (permanent : bool) (key : Key) (t : twoLaneQueue) : twoLaneQueue :=
  if negb permanent && negb (ShuttingDown t) then AddRateLimited key t else Forget key t.

(** [processNextWorkItem] from the return of [Reconcile] to [Done]. *)
Definition after_reconcile (o : outcome) (key : Key) (t : twoLaneQueue) : twoLaneQueue :=
  match o with
  | Succeeded | Skipped => Forget key t
  | Failed permanent => handleErr permanent key t
  end.

(** ** Steps *)
Inductive label :=
  | LAdd (ln : Lane) (key : Key)
  | LStart (w : nat) (key : Key)
  | LReturn (w : nat) (key : Key) (o : outcome)
  | LInternal
  | LShutDown.

(** The consumer has seen the lane [ln] closed; it ends when both are. *)
Definition stop_reading (ln : Lane) (t : twoLaneQueue) : twoLaneQueue :=
  let l := lane ln t in
  let t := set_lane ln (mkLane (ln_queue l) (ln_producer l) false) t in
  if ln_reading (fastLane t) || ln_reading (slowLane t) then t
  else set_consumer (ShutDown (consumerQueue t)) t.

(** [threads] workers, the [threadiness] of [RunContext]. *)
Inductive step (threads : nat) (t : twoLaneQueue) : label → twoLaneQueue → Prop :=
  | step_add ln key : step threads t (LAdd ln key) (enqueue ln key t)
  | step_get ln item q :
      ln_producer (lane ln t) = Waiting → Get (ln_queue (lane ln t)) = Item item q →
      step threads t LInternal (set_lane ln (mkLane q (Got item) (ln_reading (lane ln t))) t)
  | step_got ln item :
      ln_producer (lane ln t) = Got item →
      step threads t LInternal
        (set_lane ln (mkLane (Done item (ln_queue (lane ln t))) (Sending item) (ln_reading (lane ln t))) t)
  | step_close ln :
      ln_producer (lane ln t) = Waiting → Get (ln_queue (lane ln t)) = ShutdownSeen →
      step threads t LInternal (set_lane ln (mkLane (ln_queue (lane ln t)) Closed (ln_reading (lane ln t))) t)
  | step_forward ln item :
      ln_producer (lane ln t) = Sending item → ln_reading (lane ln t) = true →
      step threads t LInternal
        (set_consumer (Add item (consumerQueue t)) (set_lane ln (mkLane (ln_queue (lane ln t)) Waiting true) t))
  | step_closed ln :
      ln_producer (lane ln t) = Closed → ln_reading (lane ln t) = true →
      step threads t LInternal (stop_reading ln t)
  | step_expire key :
      key ∈ delayed t → ShuttingDown t = false →
      step threads t LInternal (enqueue Fast key (set_delayed (delayed t ∖ {[key]}) (failures t) t))
  | step_start w key q :
      w < threads → workers t !! w = None → Get (consumerQueue t) = Item key q →
      step threads t (LStart w key) (set_workers (<[w := Reconciling key]> (workers t)) (set_consumer q t))
  | step_return w key o :
      workers t !! w = Some (Reconciling key) →
      step threads t (LReturn w key o)
        (let t' := after_reconcile o key t in set_workers (<[w := Finishing key]> (workers t')) t')
  | step_done w key :
      workers t !! w = Some (Finishing key) →
      step threads t LInternal (set_workers (delete w (workers t)) (set_consumer (Done key (consumerQueue t)) t))
  | step_shutdown : step threads t LShutDown (tlq_ShutDown t).

Inductive run (threads : nat) : twoLaneQueue → list label → twoLaneQueue → Prop :=
  | run_nil t : run threads t [] t
  | run_cons t l t' ls t'' : step threads t l t' → run threads t' ls t'' → run threads t (l :: ls) t''.

(** A key that some queue or goroutine still has to bring to a worker. *)
Definition in_lane (key : Key) (l : lane_state) : Prop :=
  key ∈ q_dirty (ln_queue l) ∨ ln_producer l = Got key ∨ ln_producer l = Sending key.
Definition pending (key : Key) (t : twoLaneQueue) : Prop :=
  (∃ ln, in_lane key (lane ln t)) ∨ key ∈ q_dirty (consumerQueue t).

(** A step of the queue's own goroutines and of workers that do not fail; what
    comes from outside, and retries, are the others. *)
Definition working (l : label) : Prop :=
  match l with LAdd _ _ | LShutDown | LReturn _ _ (Failed false) => False | _ => True end.

Definition quiescent (threads : nat) (t : twoLaneQueue) : Prop :=
  ∀ l t', working l → ¬ step threads t l t'.

(** ** The invariant *)
Section inv.
Context (threads : nat).
Implicit Types (t : twoLaneQueue) (k : Key) (l : lane_state).

Record lane_ok l : Prop := {
  lo_queue : queue_ok (ln_queue l);
  lo_processing : q_processing (ln_queue l) = match ln_producer l with Got k => {[k]} | _ => ∅ end;
  lo_closed : ln_producer l = Closed → q_shuttingDown (ln_queue l) = true ∧ q_dirty (ln_queue l) = ∅;
  lo_reading : ln_reading l = false → ln_producer l = Closed;
}.

Record inv t : Prop := {
  in_lane_ok ln : lane_ok (lane ln t);
  in_consumer : queue_ok (consumerQueue t);
  in_down : q_shuttingDown (consumerQueue t) = true → ∀ ln, ln_reading (lane ln t) = false;
  in_workers k : k ∈ q_processing (consumerQueue t) ↔ ∃ w s, workers t !! w = Some s ∧ worker_key s = k;
  in_one w1 w2 s1 s2 : workers t !! w1 = Some s1 → workers t !! w2 = Some s2 → worker_key s1 = worker_key s2 → w1 = w2;
  in_threads w s : workers t !! w = Some s → w < threads;
}.

Lemma lane_set_lane ln ln' l t : lane ln' (set_lane ln l t) = if decide (ln = ln') then l else lane ln' t.
Proof. by destruct ln, ln'. Qed.
Lemma set_lane_rest ln l t :
  consumerQueue (set_lane ln l t) = consumerQueue t ∧ workers (set_lane ln l t) = workers t ∧
  delayed (set_lane ln l t) = delayed t.
Proof. by destruct ln. Qed.

(** Changing a lane, and the delays. *)
Lemma inv_lane t t' ln l :
  inv t → lane_ok l → ln_reading l = ln_reading (lane ln t) →
  (∀ ln', lane ln' t' = if decide (ln = ln') then l else lane ln' t) →
  consumerQueue t' = consumerQueue t → workers t' = workers t → inv t'.
Proof.
  intros [H1 H2 H3 H4 H5 H6] Hl Hr Hln Hc Hw. split; rewrite ?Hc, ?Hw; try done.
  - intros ln'. rewrite Hln. by destruct (decide _).
  - intros Hd ln'. rewrite Hln. destruct (decide _) as [<-|]; [rewrite Hr|]; auto.
Qed.

Lemma inv_same t t' :
  inv t → (∀ ln, lane ln t' = lane ln t) → consumerQueue t' = consumerQueue t → workers t' = workers t → inv t'.
Proof.
  intros Hi Hln Hc Hw. apply (inv_lane t t' Fast (lane Fast t)); [done|apply Hi|done| |done|done].
  intros []; by rewrite Hln.
Qed.

Lemma enqueue_inv ln k t : inv t → inv (enqueue ln k t).
Proof.
  intros Hi. destruct (in_lane_ok _ Hi ln) as [Hq Hp Hc Hr]. unfold enqueue. cbv zeta.
  set (l := mkLane _ _ _). destruct (set_lane_rest ln l t) as (Hcq & Hw & _).
  eapply (inv_lane t _ ln l); [done| |done|intros ln'; apply lane_set_lane|done|done].
  split; simpl; [by apply Add_ok|by rewrite Add_processing| |done].
  intros Hcl. rewrite Add_shut; by apply Hc.
Qed.

(** What [handleErr] and the delays touch. *)
Lemma after_reconcile_shape o k t :
  fastLane (after_reconcile o k t) = fastLane t ∧ slowLane (after_reconcile o k t) = slowLane t ∧
  consumerQueue (after_reconcile o k t) = consumerQueue t ∧ workers (after_reconcile o k t) = workers t.
Proof.
  destruct o as [| |permanent]; [done..|]. simpl. unfold handleErr. destruct (negb permanent && _); [|done].
  unfold AddRateLimited. pose proof (When_positive baseDelay maxDelay k (failures t)) as Hw.
  destruct (When _ _ _ _) as [d f]. unfold AddAfter. destruct (ShuttingDown _); [done|].
  rewrite decide_False; [done|]. simpl in Hw. unfold baseDelay, maxDelay in Hw. lia.
Qed.

Lemma inv_new : inv newTwoLaneWorkQueue.
Proof.
  split; simpl; try done.
  - intros ln. destruct ln; (split; simpl; [apply New_ok|done|done|done]).
  - apply New_ok.
  - set_solver.
Qed.

Lemma inv_forward ln k t :
  inv t → ln_producer (lane ln t) = Sending k → ln_reading (lane ln t) = true →
  inv (set_consumer (Add k (consumerQueue t)) (set_lane ln (mkLane (ln_queue (lane ln t)) Waiting true) t)).
Proof.
  intros Hi Hs Hr. destruct (in_lane_ok _ Hi ln) as [Hq Hp _ _]. rewrite Hs in Hp.
  set (l := mkLane _ _ _). destruct (set_lane_rest ln l t) as (Hc & Hw & _).
  assert (Hi1 : inv (set_lane ln l t)).
  { eapply (inv_lane t _ ln l); [done| |by rewrite Hr|intros ln'; apply lane_set_lane|done|done]. by split. }
  destruct Hi1 as [H1 H2 H3 H4 H5 H6]. split; simpl; try done.
  - rewrite <-Hc. by apply Add_ok.
  - rewrite Add_shuttingDown. intros Hd ln'. specialize (H3 ltac:(by rewrite Hc) ln'). by destruct ln'.
  - intros k'. rewrite Add_processing, <-Hc. apply H4.
Qed.

Lemma inv_closed ln t :
  inv t → ln_producer (lane ln t) = Closed → inv (stop_reading ln t).
Proof.
  intros Hi Hs. unfold stop_reading. set (l := mkLane _ _ _). destruct (set_lane_rest ln l t) as (Hc & Hw & _).
  destruct Hi as [H1 H2 H3 H4 H5 H6].
  assert (Hl : lane_ok l) by (destruct (H1 ln); by split).
  assert (Hi1 : inv (set_lane ln l t)).
  { split; rewrite ?Hc, ?Hw; try done.
    - intros ln'. rewrite lane_set_lane. by destruct (decide _).
    - intros Hd ln'. rewrite lane_set_lane. destruct (decide _); [done|auto]. }
  destruct (ln_reading _ || ln_reading _) eqn:Hr; [done|]. apply orb_false_iff in Hr as [Hr1 Hr2].
  destruct Hi1 as [I1 I2 I3 I4 I5 I6]. split; simpl; try done.
  - by apply ShutDown_ok.
  - intros _ []; done.
Qed.

Lemma inv_start w k q t :
  inv t → w < threads → workers t !! w = None → Get (consumerQueue t) = Item k q →
  inv (set_workers (<[w := Reconciling k]> (workers t)) (set_consumer q t)).
Proof.
  intros [H1 H2 H3 H4 H5 H6] Hw Hn Hg. destruct (Get_Item _ _ _ H2 Hg) as (Hq & Hd & Hp & _ & Hp' & Hs).
  split; simpl.
  - intros ln. specialize (H1 ln). by destruct ln.
  - done.
  - rewrite Hs. intros Hd' ln. specialize (H3 Hd' ln). by destruct ln.
  - intros k'. rewrite Hp', elem_of_union, elem_of_singleton, H4. split.
    + intros [->|(w' & s & Hs' & <-)]; [by exists w, (Reconciling k); rewrite lookup_insert_eq|].
      exists w', s. rewrite lookup_insert_ne by congruence. done.
    + intros (w' & s & Hs' & <-). apply lookup_insert_Some in Hs' as [[<- <-]|[_ Hs']]; [by left|right; eauto].
  - intros w1 w2 s1 s2. rewrite !lookup_insert_Some. intros [[<- <-]|[_ Hs1]] [[<- <-]|[_ Hs2]] Hk; try done; simpl in Hk.
    + destruct Hp. apply H4. by eexists _, _.
    + destruct Hp. apply H4. by eexists _, _.
    + by eapply H5.
  - intros w' s. rewrite lookup_insert_Some. intros [[<- _]|[_ Hs']]; [done|by eapply H6].
Qed.

Lemma inv_return w k t :
  inv t → workers t !! w = Some (Reconciling k) → inv (set_workers (<[w := Finishing k]> (workers t)) t).
Proof.
  intros [H1 H2 H3 H4 H5 H6] Hw.
  assert (Hk : ∀ w' s, <[w := Finishing k]> (workers t) !! w' = Some s →
             ∃ s', workers t !! w' = Some s' ∧ worker_key s' = worker_key s).
  { intros w' s. rewrite lookup_insert_Some. intros [[<- <-]|[_ Hs]]; eauto. }
  split; simpl; try done.
  - intros k'. rewrite H4. split.
    + intros (w' & s & Hs & <-). destruct (decide (w = w')) as [<-|].
      * exists w, (Finishing k). rewrite lookup_insert_eq. by simplify_eq.
      * exists w', s. by rewrite lookup_insert_ne.
    + intros (w' & s & (s' & Hs' & Hk')%Hk & <-). eauto.
  - intros w1 w2 s1 s2 (s1' & Hs1 & Hk1)%Hk (s2' & Hs2 & Hk2)%Hk Heq. eapply H5; [done..|congruence].
  - intros w' s (s' & Hs' & _)%Hk. by eapply H6.
Qed.

Lemma inv_done w k t :
  inv t → workers t !! w = Some (Finishing k) →
  inv (set_workers (delete w (workers t)) (set_consumer (Done k (consumerQueue t)) t)).
Proof.
  intros [H1 H2 H3 H4 H5 H6] Hw. assert (Hp : k ∈ q_processing (consumerQueue t)) by (apply H4; by eexists _, _).
  split; simpl.
  - intros ln. specialize (H1 ln). by destruct ln.
  - by apply Done_ok.
  - intros Hd ln. specialize (H3 Hd ln). by destruct ln.
  - intros k'. rewrite elem_of_difference, elem_of_singleton, H4. split.
    + intros [(w' & s & Hs & <-) Hne]. exists w', s. rewrite lookup_delete_ne; [done|]. intros <-. by simplify_eq.
    + intros (w' & s & [Hne Hs]%lookup_delete_Some & <-). split; [eauto|]. intros Heq. by destruct Hne, (H5 _ _ _ _ Hw Hs).
  - intros w1 w2 s1 s2 [_ Hs1]%lookup_delete_Some [_ Hs2]%lookup_delete_Some. by eapply H5.
  - intros w' s [_ Hs]%lookup_delete_Some. by eapply H6.
Qed.

Lemma step_inv t lb t' : inv t → step threads t lb t' → inv t'.
Proof.
  intros Hi Hstep. destruct Hstep as [ln k|ln k q Hw Hg|ln k Hg|ln Hw Hg|ln k Hs Hr|ln Hc Hr|k Hk Hd|w k q Hw Hn Hg|w k o Hw|w k Hw|].
  - by apply enqueue_inv.
  - destruct (in_lane_ok _ Hi ln) as [Hq Hp Hc Hr]. destruct (Get_Item _ _ _ Hq Hg) as (Hq' & _ & _ & _ & Hp' & _).
    set (l := mkLane _ _ _). destruct (set_lane_rest ln l t) as (? & ? & _).
    eapply (inv_lane t _ ln l); [done| |done|intros ln'; apply lane_set_lane|done|done].
    rewrite Hw in Hp. split; simpl; [done|by rewrite Hp', Hp, union_empty_r_L|done|].
    intros Hf. apply Hr in Hf. congruence.
  - destruct (in_lane_ok _ Hi ln) as [Hq Hp Hc Hr]. rewrite Hg in Hp.
    set (l := mkLane _ _ _). destruct (set_lane_rest ln l t) as (? & ? & _).
    eapply (inv_lane t _ ln l); [done| |done|intros ln'; apply lane_set_lane|done|done].
    split; simpl; [apply Done_ok; [done|rewrite Hp; set_solver]|rewrite Hp; set_solver|done|].
    intros Hf. apply Hr in Hf. congruence.
  - destruct (in_lane_ok _ Hi ln) as [Hq Hp Hc Hr]. rewrite Hw in Hp. destruct (Get_shutdown _ Hg) as [Hs He].
    set (l := mkLane _ _ _). destruct (set_lane_rest ln l t) as (? & ? & _).
    eapply (inv_lane t _ ln l); [done| |done|intros ln'; apply lane_set_lane|done|done].
    split; simpl; [done|done| |done]. intros _. split; [done|]. pose proof (Get_empty _ Hq He). set_solver.
  - by apply inv_forward.
  - by apply inv_closed.
  - apply enqueue_inv. by apply (inv_same t); [|intros []| |].
  - by apply inv_start.
  - destruct (after_reconcile_shape o k t) as (Hf & Hs & Hc & Hws). apply inv_return; [|by rewrite Hws].
    apply (inv_same t); [done|intros []; done|done|done].
  - by apply inv_done.
  - destruct Hi as [H1 H2 H3 H4 H5 H6]. split; simpl; try done.
    + intros ln. specialize (H1 ln). destruct H1 as [Hq Hp Hc Hr].
      assert (Hl : lane_ok (mkLane (ShutDown (ln_queue (lane ln t))) (ln_producer (lane ln t)) (ln_reading (lane ln t)))).
      { split; simpl; [by apply ShutDown_ok|done| |done]. intros Hcl. split; [done|by apply Hc]. }
      by destruct ln.
    + intros Hd ln. specialize (H3 Hd ln). by destruct ln.
Qed.

Lemma run_inv t ls t' : inv t → run threads t ls t' → inv t'.
Proof. intros Hi Hrun. induction Hrun; [done|]. apply IHHrun. by eapply step_inv. Qed.

(** ** Nothing is lost *)

Lemma pending_lanes k t t' :
  pending k t → (∀ ln, in_lane k (lane ln t) → in_lane k (lane ln t') ∨ k ∈ q_dirty (consumerQueue t')) →
  q_dirty (consumerQueue t) ⊆ q_dirty (consumerQueue t') → pending k t'.
Proof.
  intros [(ln & Hln)|Hc] Hl Hq; [|right; by apply Hq].
  destruct (Hl ln Hln); [left; by exists ln|by right].
Qed.

Lemma pending_set_lane k ln l t :
  pending k t → (in_lane k (lane ln t) → in_lane k l) → pending k (set_lane ln l t).
Proof.
  intros Hp Hl. destruct (set_lane_rest ln l t) as (Hc & _). eapply pending_lanes; [done| |by rewrite Hc].
  intros ln' Hln. left. rewrite lane_set_lane. destruct (decide _) as [<-|]; auto.
Qed.

Lemma enqueue_pending k ln k' t : pending k t → pending k (enqueue ln k' t).
Proof.
  intros Hp. unfold enqueue. cbv zeta. apply pending_set_lane; [done|]. intros [Hd|[Hg|Hs]].
  - left. by apply Add_dirty_mono.
  - right. by left.
  - right. by right.
Qed.

Lemma pending_set_consumer k t q t' :
  pending k t → (∀ ln, lane ln t' = lane ln t) → consumerQueue t' = q →
  q_dirty (consumerQueue t) ⊆ q_dirty q → pending k t'.
Proof. intros Hp Hl Hc Hq. eapply pending_lanes; [done| |by rewrite Hc]. intros ln. rewrite Hl. by left. Qed.

Lemma step_pending k t lb t' :
  inv t → pending k t → step threads t lb t' → pending k t' ∨ ∃ w, lb = LStart w k.
Proof.
  intros Hi Hp Hstep. destruct Hstep as [ln k'|ln k' q Hw Hg|ln k' Hg|ln Hw Hg|ln k' Hs Hr|ln Hc Hr|k' Hk Hd|w k' q Hw Hn Hg|w k' o Hw|w k' Hw|].
  - left. by apply enqueue_pending.
  - left. destruct (in_lane_ok _ Hi ln) as [Hq _ _ _]. destruct (Get_Item _ _ _ Hq Hg) as (_ & _ & _ & Hd & _).
    apply pending_set_lane; [done|]. intros [Hin|[Hin|Hin]]; [|congruence..].
    destruct (decide (k = k')) as [->|]; [right; by left|left]. simpl. rewrite Hd. set_solver.
  - left. apply pending_set_lane; [done|]. intros [Hin|[Hin|Hin]]; [by left|right; right; simpl; congruence|congruence].
  - left. destruct (in_lane_ok _ Hi ln) as [Hq Hpr _ _]. rewrite Hw in Hpr. destruct (Get_shutdown _ Hg) as [_ He].
    pose proof (Get_empty _ Hq He). apply pending_set_lane; [done|]. intros [Hin|[Hin|Hin]]; [set_solver|congruence..].
  - left. set (l := mkLane _ _ _). destruct (set_lane_rest ln l t) as (Hc & _).
    assert (Hs0 : q_shuttingDown (consumerQueue t) = false).
    { destruct (q_shuttingDown (consumerQueue t)) eqn:E; [|done]. pose proof (in_down _ Hi E ln). congruence. }
    eapply pending_lanes; [done| |simpl; apply Add_dirty_mono].
    intros ln' Hin. destruct (decide (ln = ln')) as [<-|Hne].
    + destruct Hin as [Hin|[Hin|Hin]]; [|congruence|].
      * left. left. destruct ln; exact Hin.
      * right. simpl. assert (k = k') as -> by congruence. by apply Add_accepted.
    + left. by destruct ln, ln'.
  - left. unfold stop_reading. set (l := mkLane _ _ _). assert (Hl : pending k (set_lane ln l t)).
    { apply pending_set_lane; [done|]. intros [Hin|[Hin|Hin]]; [by left|congruence..]. }
    destruct (_ || _); [done|]. eapply pending_lanes; [exact Hl| |done]. intros []; by left.
  - left. apply enqueue_pending. eapply pending_lanes; [exact Hp| |done]. intros []; by left.
  - destruct (decide (k = k')) as [->|Hne]; [right; by exists w|left].
    destruct (Get_Item _ _ _ (in_consumer _ Hi) Hg) as (_ & _ & _ & Hd & _).
    destruct Hp as [(ln & Hln)|Hc]; [left; by exists ln; destruct ln|right]. simpl. rewrite Hd. set_solver.
  - left. destruct (after_reconcile_shape o k' t) as (Hf & Hs & Hc & _).
    apply (pending_set_consumer k t (consumerQueue t)); [done| |done|done]. intros []; done.
  - left. apply (pending_set_consumer k t (Done k' (consumerQueue t))); [done|by intros []|done|done].
  - left. apply (pending_set_consumer k t (consumerQueue t)) with (t' := t) in Hp; [|done..].
    destruct Hp as [(ln & Hln)|Hc]; [left; exists ln; by destruct ln|by right].
Qed.

Lemma run_pending k t ls t' :
  inv t → pending k t → run threads t ls t' → pending k t' ∨ ∃ w, LStart w k ∈ ls.
Proof.
  intros Hi Hp Hrun. induction Hrun as [|t lb t1 ls t' Hstep Hrun IH]; [by left|].
  destruct (step_pending k t lb t1 Hi Hp Hstep) as [Hp1|[w ->]]; [|right; exists w; left].
  destruct (IH (step_inv _ _ _ Hi Hstep) Hp1) as [?|[w Hw]]; [by left|right; exists w; by right].
Qed.

Lemma enqueue_accepted ln k t : q_shuttingDown (ln_queue (lane ln t)) = false → pending k (enqueue ln k t).
Proof.
  intros Hs. left. exists ln. unfold enqueue. cbv zeta. rewrite lane_set_lane, decide_True by done.
  left. by apply Add_accepted.
Qed.

Lemma step_delayed k t lb t' :
  k ∈ delayed t → step threads t lb t' → k ∈ delayed t' ∨ pending k t'.
Proof.
  intros Hk Hstep. destruct Hstep as [ln k'|ln k' q Hw Hg|ln k' Hg|ln Hw Hg|ln k' Hs Hr|ln Hc Hr|k' Hk' Hd|w k' q Hw Hn Hg|w k' o Hw|w k' Hw|].
  1-5: left; by destruct ln.
  - left. unfold stop_reading. cbv zeta. destruct (_ || _); by destruct ln.
  - destruct (decide (k = k')) as [->|]; [right; by apply enqueue_accepted|left]. simpl. set_solver.
  - by left.
  - left. destruct o as [| |permanent]; [done..|]. simpl. unfold handleErr. destruct (negb permanent && _); [|done].
    unfold AddRateLimited, When, AddAfter. destruct (ShuttingDown _); [done|].
    destruct (decide _); [done|]. simpl. set_solver.
  - by left.
  - by left.
Qed.

Lemma run_delayed k t ls t' :
  inv t → k ∈ delayed t → run threads t ls t' → k ∈ delayed t' ∨ pending k t' ∨ ∃ w, LStart w k ∈ ls.
Proof.
  intros Hi Hk Hrun. induction Hrun as [|t lb t1 ls t' Hstep Hrun IH]; [by left|].
  pose proof (step_inv _ _ _ Hi Hstep) as Hi1.
  destruct (step_delayed k t lb t1 Hk Hstep) as [Hk1|Hp1].
  - destruct (IH Hi1 Hk1) as [?|[?|[w Hw]]]; [by left|by right; left|right; right; exists w; by right].
  - right. destruct (run_pending k t1 ls t' Hi1 Hp1 Hrun) as [?|[w Hw]]; [by left|right; exists w; by right].
Qed.

(** Nothing but a shutdown makes the queue shut down. *)
Lemma run_accepting t ls t' : LShutDown ∉ ls → ShuttingDown t = false → run threads t ls t' → ShuttingDown t' = false.
Proof.
  intros Hn Hs Hrun. induction Hrun as [|t lb t1 ls t' Hstep Hrun IH]; [done|]. apply not_elem_of_cons in Hn as [Hl Hn].
  apply IH; [done|]. clear IH Hrun. unfold ShuttingDown in *.
  destruct Hstep as [ln k'|ln k' q Hw Hg|ln k' Hg|ln Hw Hg|ln k' Hse Hr|ln Hc Hr|k' Hk' Hd|w k' q Hw Hnw Hg|w k' o Hw|w k' Hw|]; try done.
  - destruct ln; [|done]. simpl. by rewrite Add_shuttingDown.
  - apply Get_shuttingDown in Hg. destruct ln; simpl in *; congruence.
  - by destruct ln.
  - by destruct ln.
  - by destruct ln.
  - unfold stop_reading. cbv zeta. destruct (_ || _); by destruct ln.
  - simpl. by rewrite Add_shuttingDown.
  - destruct (after_reconcile_shape o k' t) as (Hf & _). simpl. by rewrite Hf.
Qed.

(** The lanes shut down together. *)
Lemma step_lanes t lb t' :
  q_shuttingDown (ln_queue (slowLane t)) = q_shuttingDown (ln_queue (fastLane t)) → step threads t lb t' →
  q_shuttingDown (ln_queue (slowLane t')) = q_shuttingDown (ln_queue (fastLane t')).
Proof.
  intros Hs Hstep.
  destruct Hstep as [ln k'|ln k' q Hw Hg|ln k' Hg|ln Hw Hg|ln k' Hse Hr|ln Hc Hr|k' Hk' Hd|w k' q Hw Hnw Hg|w k' o Hw|w k' Hw|]; try done.
  - destruct ln; simpl; by rewrite Add_shuttingDown.
  - apply Get_shuttingDown in Hg. destruct ln; simpl in *; congruence.
  - by destruct ln.
  - by destruct ln.
  - by destruct ln.
  - unfold stop_reading. cbv zeta. destruct (_ || _); by destruct ln.
  - simpl. by rewrite Add_shuttingDown.
  - destruct (after_reconcile_shape o k' t) as (Hf & Hsl & _). simpl. by rewrite Hf, Hsl.
Qed.

Lemma run_lanes t ls t' :
  q_shuttingDown (ln_queue (slowLane t)) = q_shuttingDown (ln_queue (fastLane t)) → run threads t ls t' →
  q_shuttingDown (ln_queue (slowLane t')) = q_shuttingDown (ln_queue (fastLane t')).
Proof. intros Hs Hrun. induction Hrun; [done|]. eauto using step_lanes. Qed.

(** ** The work runs out *)

Definition producer_weight (p : producer) : nat :=
  match p with Waiting => 1 | Got _ => 6 | Sending _ => 5 | Closed => 0 end.
Definition lane_weight l : nat :=
  6 * size (q_dirty (ln_queue l)) + producer_weight (ln_producer l) + (if ln_reading l then 1 else 0).
Definition worker_weight (s : worker_state) : nat := match s with Reconciling _ => 2 | Finishing _ => 1 end.
Definition workers_weight (ws : gmap nat worker_state) : nat := map_fold (λ _ s n, worker_weight s + n) 0 ws.

(** What is left to do: the steps that the keys in the queues, the delays and the
    workers can still give rise to. *)
Definition weight t : nat :=
  lane_weight (fastLane t) + lane_weight (slowLane t) + 3 * size (q_dirty (consumerQueue t)) +
  7 * size (delayed t) + workers_weight (workers t).

Lemma workers_weight_insert w s ws :
  ws !! w = None → workers_weight (<[w := s]> ws) = worker_weight s + workers_weight ws.
Proof. intros Hw. unfold workers_weight. rewrite map_fold_insert_L; [done| |done]. intros. lia. Qed.

Lemma workers_weight_delete w s ws :
  ws !! w = Some s → workers_weight ws = worker_weight s + workers_weight (delete w ws).
Proof. intros Hw. rewrite <-(workers_weight_insert w) by apply lookup_delete_eq. by rewrite insert_delete_id. Qed.

Lemma lane_weights ln l t :
  lane_weight (fastLane (set_lane ln l t)) + lane_weight (slowLane (set_lane ln l t)) + lane_weight (lane ln t) =
  lane_weight (fastLane t) + lane_weight (slowLane t) + lane_weight l.
Proof. destruct ln; simpl; lia. Qed.

Lemma weight_set_lane ln l t : weight (set_lane ln l t) + lane_weight (lane ln t) = weight t + lane_weight l.
Proof.
  unfold weight. destruct (set_lane_rest ln l t) as (-> & -> & ->). pose proof (lane_weights ln l t). lia.
Qed.

Lemma size_remove (k : Key) (X : gset Key) : k ∈ X → S (size (X ∖ {[k]})) = size X.
Proof.
  intros Hk. rewrite size_difference by set_solver. rewrite size_singleton.
  assert (size X ≠ 0) by (apply size_non_empty_iff; set_solver). lia.
Qed.

Lemma size_Add k q : size (q_dirty (Add k q)) ≤ S (size (q_dirty q)).
Proof.
  pose proof (subseteq_size _ _ (Add_dirty k q)). pose proof (size_union_alt {[k]} (q_dirty q)) as Hu.
  rewrite size_singleton in Hu. pose proof (subseteq_size (q_dirty q ∖ {[k]}) (q_dirty q) ltac:(set_solver)). lia.
Qed.

Lemma step_weight t lb t' : inv t → working lb → step threads t lb t' → weight t' < weight t.
Proof.
  intros Hi Hwk Hstep. destruct Hstep as [ln k|ln k q Hw Hg|ln k Hg|ln Hw Hg|ln k Hs Hr|ln Hc Hr|k Hk Hd|w k q Hw Hn Hg|w k o Hw|w k Hw|]; [done|..].
  - pose proof (weight_set_lane ln (mkLane q (Got k) (ln_reading (lane ln t))) t) as Hwt.
    destruct (Get_Item _ _ _ (lo_queue _ (in_lane_ok _ Hi ln)) Hg) as (_ & Hin & _ & Hd & _).
    unfold lane_weight at 1 2 in Hwt. simpl in Hwt. rewrite Hw, Hd in Hwt. pose proof (size_remove _ _ Hin). simpl in *. lia.
  - pose proof (weight_set_lane ln (mkLane (Done k (ln_queue (lane ln t))) (Sending k) (ln_reading (lane ln t))) t) as Hwt.
    unfold lane_weight at 1 2 in Hwt. simpl in Hwt. rewrite Hg in Hwt. simpl in *. lia.
  - pose proof (weight_set_lane ln (mkLane (ln_queue (lane ln t)) Closed (ln_reading (lane ln t))) t) as Hwt.
    unfold lane_weight at 1 2 in Hwt. simpl in Hwt. rewrite Hw in Hwt. simpl in *. lia.
  - pose proof (weight_set_lane ln (mkLane (ln_queue (lane ln t)) Waiting true) t) as Hwt.
    destruct (set_lane_rest ln (mkLane (ln_queue (lane ln t)) Waiting true) t) as (Hcq & _).
    unfold lane_weight at 1 2 in Hwt. simpl in Hwt. rewrite Hs, Hr in Hwt. pose proof (size_Add k (consumerQueue t)).
    unfold weight in *. simpl. rewrite Hcq in Hwt. simpl in Hwt. lia.
  - pose proof (weight_set_lane ln (mkLane (ln_queue (lane ln t)) (ln_producer (lane ln t)) false) t) as Hwt.
    unfold lane_weight at 1 2 in Hwt. simpl in Hwt. rewrite Hr in Hwt. unfold stop_reading. cbv zeta.
    destruct (_ || _); [simpl in *; lia|]. unfold weight in *. simpl in *. lia.
  - unfold enqueue. cbv zeta. set (t1 := set_delayed _ _ t). set (l := mkLane _ _ _).
    pose proof (weight_set_lane Fast l t1) as Hwt. unfold lane_weight at 1 2 in Hwt. simpl in Hwt.
    pose proof (size_Add k (ln_queue (fastLane t))). pose proof (size_remove _ _ Hk).
    assert (Hw1 : weight t1 + 7 = weight t) by (unfold weight, t1; simpl; lia). simpl in *. lia.
  - destruct (Get_Item _ _ _ (in_consumer _ Hi) Hg) as (_ & Hin & _ & Hd & _). pose proof (size_remove _ _ Hin).
    unfold weight. simpl. rewrite Hd, workers_weight_insert by done. simpl. lia.
  - assert (Ho : match o with Failed false => False | _ => True end) by by destruct o as [| |[]].
    destruct (after_reconcile_shape o k t) as (Hf & Hs & Hc & Hws).
    assert (Hdl : delayed (after_reconcile o k t) = delayed t) by by destruct o as [| |[]].
    unfold weight. simpl. rewrite Hf, Hs, Hc, Hws, Hdl.
    rewrite <-insert_delete_eq, workers_weight_insert by apply lookup_delete_eq.
    rewrite (workers_weight_delete w _ (workers t) Hw). simpl. lia.
  - unfold weight. simpl. rewrite (workers_weight_delete w _ (workers t) Hw). simpl. lia.
  - done.
Qed.

(** ** When no goroutine has work *)

Lemma quiescent_lane ln t : inv t → quiescent threads t → ln_reading (lane ln t) = true →
  q_dirty (ln_queue (lane ln t)) = ∅ ∧ ln_producer (lane ln t) = Waiting.
Proof.
  intros Hi Hq Hr. destruct (in_lane_ok _ Hi ln) as [Hok Hp _ _]. destruct (ln_producer (lane ln t)) as [|k|k|] eqn:E.
  - split; [|done]. assert (Hsub : q_dirty (ln_queue (lane ln t)) ⊆ q_processing (ln_queue (lane ln t))).
    { apply Get_empty; [done|]. intros k q Hg. eapply (Hq LInternal); [done|]. by eapply step_get. }
    set_solver.
  - exfalso. eapply (Hq LInternal); [done|]. by eapply step_got.
  - exfalso. eapply (Hq LInternal); [done|]. by eapply step_forward.
  - exfalso. eapply (Hq LInternal); [done|]. by eapply step_closed.
Qed.

Lemma quiescent_idle t :
  inv t → 0 < threads → quiescent threads t →
  (∀ k, ¬ pending k t) ∧ workers t = ∅ ∧ (ShuttingDown t = true ∨ delayed t = ∅).
Proof.
  intros Hi Hth Hq.
  assert (Hws : workers t = ∅).
  { apply map_empty. intros w. destruct (workers t !! w) as [[k|k]|] eqn:E; [..|done]; exfalso.
    - eapply (Hq (LReturn w k Succeeded)); [done|]. by apply step_return.
    - eapply (Hq LInternal); [done|]. by eapply step_done. }
  split; [|split; [done|]].
  - intros k [(ln & Hin)|Hin].
    + destruct (ln_reading (lane ln t)) eqn:Hr.
      * destruct (quiescent_lane ln t Hi Hq Hr) as [Hd Hp]. destruct Hin as [Hin|[Hin|Hin]]; [set_solver|congruence..].
      * destruct (in_lane_ok _ Hi ln) as [_ _ Hc Hcl]. destruct (Hc (Hcl Hr)) as [_ Hd].
        destruct Hin as [Hin|[Hin|Hin]]; [set_solver|rewrite Hcl in Hin by done; congruence..].
    + assert (Hsub : q_dirty (consumerQueue t) ⊆ q_processing (consumerQueue t)).
      { apply Get_empty; [apply Hi|]. intros k' q Hg. eapply (Hq (LStart 0 k')); [done|].
        apply step_start; [done|by rewrite Hws|done]. }
      apply Hsub, (in_workers _ Hi) in Hin as (w & s & Hs & _). by rewrite Hws in Hs.
  - destruct (ShuttingDown t) eqn:Hs; [by left|right]. apply set_eq. intros k. split; [|set_solver].
    intros Hk. exfalso. eapply (Hq LInternal); [done|]. by eapply step_expire.
Qed.
(** A pending key of a well formed queue in every run from it. *)
Lemma pending_is_reconciled k t ls t' :
  inv t → pending k t → run threads t ls t' →
  (pending k t' ∨ ∃ w, LStart w k ∈ ls) ∧ (0 < threads → quiescent threads t' → ∃ w, LStart w k ∈ ls).
Proof.
  intros Hi Hp Hrun. destruct (run_pending k _ _ _ Hi Hp Hrun) as [Hp'|Hs]; [|by eauto].
  split; [by left|]. intros Hth Hq. pose proof (run_inv _ _ _ Hi Hrun) as Hi'.
  by destruct (quiescent_idle t' Hi' Hth Hq) as [Hn _], (Hn k).
Qed.

End inv.

(** ** The last reconciliation of a key *)
Section settled.
Context (threads : nat).
Implicit Types (t : twoLaneQueue) (k : Key) (ls : list label).

Lemma run_app ls1 : ∀ t ls2 t', run threads t (ls1 ++ ls2) t' → ∃ t1, run threads t ls1 t1 ∧ run threads t1 ls2 t'.
Proof.
  induction ls1 as [|lb ls1 IH]; intros t ls2 t' Hrun; [exists t; split; [constructor|done]|].
  inversion Hrun as [|? ? t2 ? ? Hstep Hrun']; subst. destruct (IH _ _ _ Hrun') as (t1 & H1 & H2).
  exists t1. split; [by econstructor|done].
Qed.

Lemma run_trans t ls1 t1 ls2 t' : run threads t ls1 t1 → run threads t1 ls2 t' → run threads t (ls1 ++ ls2) t'.
Proof. intros H1 H2. induction H1; [done|]. econstructor; [done|]. by apply IHrun. Qed.

Definition starts_key k (l : label) : bool := match l with LStart _ k' => bool_decide (k' = k) | _ => false end.

Lemma last_start k ls w :
  LStart w k ∈ ls → ∃ ls1 w' ls2, ls = ls1 ++ LStart w' k :: ls2 ∧ ∀ w'', LStart w'' k ∉ ls2.
Proof.
  revert w. induction ls as [|lb ls IH]; intros w Hin; [by apply elem_of_nil in Hin|].
  destruct (existsb (starts_key k) ls) eqn:He.
  - apply existsb_exists in He as (l & Hl%list_elem_of_In & Hk). destruct l as [|w' k'| | |]; try done.
    apply bool_decide_eq_true in Hk as ->. destruct (IH _ Hl) as (ls1 & w'' & ls2 & -> & Hn). by exists (lb :: ls1), w'', ls2.
  - assert (Hn : ∀ w', LStart w' k ∉ ls).
    { intros w' Hl%list_elem_of_In. assert (Ht : existsb (starts_key k) ls = true); [|congruence].
      apply existsb_exists. exists (LStart w' k). split; [done|]. simpl. by rewrite bool_decide_true. }
    apply elem_of_cons in Hin as [<-|Hin]; [by exists [], w, ls|by destruct (Hn w)].
Qed.

(** A worker that reconciles [k] goes on until it returns. *)
Lemma run_reconciling k w t ls t' :
  workers t !! w = Some (Reconciling k) → run threads t ls t' →
  workers t' !! w = Some (Reconciling k) ∨ ∃ ls1 o ls2, ls = ls1 ++ LReturn w k o :: ls2.
Proof.
  intros Hw Hrun. induction Hrun as [|t lb t1 ls t' Hstep _ IH]; [by left|].
  assert (Hone : workers t1 !! w = Some (Reconciling k) ∨ ∃ o, lb = LReturn w k o).
  { destruct Hstep as [ln k'|ln k' q Hp Hg|ln k' Hg|ln Hp Hg|ln k' Hs Hr|ln Hc Hr|k' Hk' Hd|w' k' q Hw' Hn Hg|w' k' o Hw'|w' k' Hw'|].
    all: try (left; (destruct ln || idtac); exact Hw).
    - left. unfold stop_reading. by destruct ln; simpl; case_match.
    - left. simpl. rewrite lookup_insert_ne; [done|]. intros ->. congruence.
    - simpl. destruct (decide (w' = w)) as [->|Hne]; [right; exists o; congruence|left].
      rewrite lookup_insert_ne by done. destruct (after_reconcile_shape o k' t) as (_ & _ & _ & ->). done.
    - left. simpl. rewrite lookup_delete_ne; [done|]. intros ->. congruence. }
  destruct Hone as [H1|[o ->]]; [|right; by exists [], o, ls].
  destruct (IH H1) as [?|(ls1 & o & ls2 & ->)]; [by left|right; by exists (lb :: ls1), o, ls2].
Qed.

(** Who does not reconcile [k] only does so after a start. *)
Lemma step_reconciling k w t lb t1 :
  step threads t lb t1 → workers t1 !! w = Some (Reconciling k) → workers t !! w = Some (Reconciling k) ∨ lb = LStart w k.
Proof.
  intros Hstep Hw.
  destruct Hstep as [ln k'|ln k' q Hp Hg|ln k' Hg|ln Hp Hg|ln k' Hs Hr|ln Hc Hr|k' Hk' Hd|w' k' q Hw' Hn Hg|w' k' o Hw'|w' k' Hw'|].
  all: try (left; (destruct ln || idtac); exact Hw).
  - left. revert Hw. unfold stop_reading. by destruct ln; simpl; case_match.
  - simpl in Hw. apply lookup_insert_Some in Hw as [[-> [= ->]]|[_ Hw]]; [by right|by left].
  - simpl in Hw. apply lookup_insert_Some in Hw as [[_ [=]]|[_ Hw]].
    destruct (after_reconcile_shape o k' t) as (_ & _ & _ & Heq). rewrite Heq in Hw. by left.
  - simpl in Hw. apply lookup_delete_Some in Hw as [_ Hw]. by left.
Qed.

Lemma run_no_return k t ls t' :
  (∀ w, workers t !! w ≠ Some (Reconciling k)) → run threads t ls t' → (∀ w, LStart w k ∉ ls) →
  ∀ w o, LReturn w k o ∉ ls.
Proof.
  intros Hnone Hrun. induction Hrun as [|t lb t1 ls t' Hstep _ IH]; intros Hns w o Hin; [by apply elem_of_nil in Hin|].
  apply elem_of_cons in Hin as [<-|Hin].
  - inversion Hstep; subst. by destruct (Hnone w).
  - eapply IH; [|intros w' Hw'; apply (Hns w'); by right|exact Hin].
    intros w' [Hw'| ->]%(step_reconciling k w' _ _ _ Hstep); [by destruct (Hnone w')|]. apply (Hns w'). left.
Qed.

(** A failure that is retried. *)
Lemma failed_started t w k t1 ls t' :
  inv threads t → step threads t (LReturn w k (Failed false)) t1 → ShuttingDown t = false → run threads t1 ls t' →
  LShutDown ∉ ls →
  (k ∈ delayed t' ∨ pending k t' ∨ ∃ w, LStart w k ∈ ls) ∧
  (0 < threads → quiescent threads t' → ∃ w, LStart w k ∈ ls).
Proof.
  intros Hi0 failed accepting later running. pose proof (step_inv threads _ _ _ Hi0 failed) as Hi.
  assert (Ht1 : k ∈ delayed t1 ∧ ShuttingDown t1 = false).
  { inversion failed; subst. simpl. unfold handleErr. rewrite accepting. simpl. unfold AddRateLimited, When, AddAfter.
    replace (ShuttingDown (set_delayed _ _ t)) with false by done. rewrite decide_False; [simpl; split; [set_solver|done]|].
    unfold exponential_delay, maxDelay, baseDelay. destruct (decide _); [lia|]. destruct (decide _); lia. }
  destruct Ht1 as [Hk Hs]. pose proof (run_delayed threads k _ _ _ Hi Hk later) as Hd. split; [done|]. intros Hth Hq.
  pose proof (run_inv threads _ _ _ Hi later) as Hi'. destruct (quiescent_idle threads t' Hi' Hth Hq) as (Hn & _ & Hdl).
  rewrite (run_accepting threads _ _ _ running Hs later) in Hdl. destruct Hdl as [|Hdl]; [done|].
  destruct Hd as [Hd|[Hd|Hd]]; [by rewrite Hdl in Hd|by destruct (Hn k)|done].
Qed.

(** Once everything is at rest, the last reconciliation of a key that was pending
    did not fail: it started, returned, and neither started nor returned again. *)
Lemma settled k t ls t' :
  inv threads t → pending k t → run threads t ls t' → LShutDown ∉ ls → ShuttingDown t = false →
  0 < threads → quiescent threads t' →
  ∃ ls1 w ls2 o ls3, ls = ls1 ++ LStart w k :: ls2 ++ LReturn w k o :: ls3 ∧ o ≠ Failed false ∧
    (∀ w', LStart w' k ∉ ls2 ++ ls3) ∧ (∀ w' o', LReturn w' k o' ∉ ls3).
Proof.
  intros Hi Hp Hrun Hnd Hs Hth Hq.
  destruct (pending_is_reconciled threads k _ _ _ Hi Hp Hrun) as [_ Hst]. destruct (Hst Hth Hq) as [w0 Hin].
  destruct (last_start _ _ _ Hin) as (ls1 & w & rest & -> & Hlast).
  destruct (run_app _ _ _ _ Hrun) as (t1 & Hrun1 & Hrun2). inversion Hrun2 as [|? ? t2 ? ? Hstart Hrun3]; subst.
  assert (Hi1 := run_inv threads _ _ _ Hi Hrun1). assert (Hi2 := step_inv threads _ _ _ Hi1 Hstart).
  assert (Hw : workers t2 !! w = Some (Reconciling k)) by (inversion Hstart; subst; apply lookup_insert_eq).
  destruct (quiescent_idle threads t' (run_inv threads _ _ _ Hi Hrun) Hth Hq) as (_ & Hidle & _).
  destruct (run_reconciling _ _ _ _ _ Hw Hrun3) as [Hw'|(ls2 & o & ls3 & ->)]; [by rewrite Hidle in Hw'|].
  destruct (run_app _ _ _ _ Hrun3) as (t3 & Hrun4 & Hrun5). inversion Hrun5 as [|? ? t4 ? ? Hret Hrun6]; subst.
  assert (Hi3 := run_inv threads _ _ _ Hi2 Hrun4).
  assert (Hnd' : (LShutDown ∉ ls1 ++ LStart w k :: ls2) ∧ LShutDown ∉ ls3) by set_solver.
  assert (Hs3 : ShuttingDown t3 = false).
  { eapply run_accepting; [|exact Hs|]; [exact (proj1 Hnd')|].
    eapply run_trans; [exact Hrun1|]. by econstructor. }
  exists ls1, w, ls2, o, ls3. split; [done|]. split; [|split].
  - intros ->. destruct (failed_started _ _ _ _ _ _ Hi3 Hret Hs3 Hrun6 (proj2 Hnd')) as [_ Hagain].
    destruct (Hagain Hth Hq) as [w' Hw']. apply (Hlast w'). set_solver.
  - intros w' Hin'. apply (Hlast w'). set_solver.
  - eapply (run_no_return k t4 ls3 t'); [|done|intros w' Hin'; apply (Hlast w'); set_solver].
    intros w' Hw4. assert (Hold : workers t3 !! w' = Some (Reconciling k)).
    { by destruct (step_reconciling _ _ _ _ _ Hret Hw4). }
    assert (Hw3 : workers t3 !! w = Some (Reconciling k)) by (inversion Hret; by subst).
    assert (w' = w) as -> by (by eapply (in_one threads _ Hi3)).
    inversion Hret; subst. simpl in Hw4. by rewrite lookup_insert_eq in Hw4.
Qed.
End settled.

(** ** Properties *)

(** C17: No key is reconciled by two workers at once, whatever is enqueued in
    either lane: in every run from the new queue the keys of the workers differ,
    and each of the three queues holds exactly the keys to be processed that are
    not being processed, each once. *)
Theorem one_worker_per_key threads ls t (queues : run threads newTwoLaneWorkQueue ls t) :
  (∀ w1 w2 s1 s2, workers t !! w1 = Some s1 → workers t !! w2 = Some s2 →
     worker_key s1 = worker_key s2 → w1 = w2) ∧
  queue_ok (ln_queue (fastLane t)) ∧ queue_ok (ln_queue (slowLane t)) ∧ queue_ok (consumerQueue t).
Proof.
  apply (run_inv threads) in queues; [|apply (inv_new threads)]. split; [by apply (in_one threads)|].
  split; [exact (lo_queue _ (in_lane_ok threads _ queues Fast))|].
  split; [exact (lo_queue _ (in_lane_ok threads _ queues Slow))|by apply (in_consumer threads)].
Qed.

(** C9: A key that is enqueued is reconciled: unless the lane is shutting down, in
    every run after [EnqueueKey] or [EnqueueSlowKey] either a worker has started to
    reconcile the key since then, or some queue or goroutine still holds it; in
    particular, when no goroutine has work left, a worker has.  A shutdown that
    comes later does not lose the key. *)
Theorem enqueued_key_is_reconciled threads ls t ln k ls' t'
    (queues : run threads newTwoLaneWorkQueue ls t) (accepting : q_shuttingDown (ln_queue (lane ln t)) = false)
    (later : run threads (enqueue ln k t) ls' t') :
  (pending k t' ∨ ∃ w, LStart w k ∈ ls') ∧
  (0 < threads → quiescent threads t' → ∃ w, LStart w k ∈ ls').
Proof.
  apply (run_inv threads) in queues; [|apply (inv_new threads)].
  exact (pending_is_reconciled threads k _ _ _ (enqueue_inv threads ln k t queues) (enqueue_accepted ln k t accepting) later).
Qed.

(** C33: The queue drains: between two enqueued keys and failures of [Reconcile] its
    goroutines and workers take at most [weight t] steps, in whatever order; and
    where they stop, no key is left in the queues and no worker is busy. *)
Theorem queue_drains threads ls t ls' t'
    (queues : run threads newTwoLaneWorkQueue ls t) (later : run threads t ls' t') (undisturbed : Forall working ls') :
  length ls' ≤ weight t ∧
  (0 < threads → quiescent threads t' →
   (∀ k, ¬ pending k t') ∧ workers t' = ∅ ∧ (ShuttingDown t' = true ∨ delayed t' = ∅)).
Proof.
  apply (run_inv threads) in queues; [|apply (inv_new threads)]. split.
  - induction later as [|t lb t1 ls' t' Hstep _ IH]; simpl; [lia|].
    apply Forall_cons in undisturbed as [Hw Hws]. pose proof (step_weight threads _ _ _ queues Hw Hstep).
    specialize (IH (step_inv threads _ _ _ queues Hstep) Hws). lia.
  - intros Hth Hq. apply (quiescent_idle threads); [by eapply (run_inv threads)|done|done].
Qed.

(** A failed key is tried again: when [Reconcile] of a key fails with an error
    that is not permanent, and the queue does not shut down, the key waits out its
    delay and is then brought to a worker again; when no goroutine has work left, a
    worker has started to reconcile it again. *)
Theorem failed_key_is_retried threads ls t w k t1 ls' t'
    (queues : run threads newTwoLaneWorkQueue ls t) (failed : step threads t (LReturn w k (Failed false)) t1)
    (accepting : ShuttingDown t = false) (later : run threads t1 ls' t') (running : LShutDown ∉ ls') :
  (k ∈ delayed t' ∨ pending k t' ∨ ∃ w, LStart w k ∈ ls') ∧
  (0 < threads → quiescent threads t' → ∃ w, LStart w k ∈ ls').
Proof.
  eapply failed_started; [|done..]. by eapply run_inv; [apply inv_new|].
Qed.

(** ** Witnesses: a key goes through the fast lane to the only worker. *)
Section demo.
Definition demo_key : Key := mkNamespacedName "ns" "ch".
Definition demo_added : twoLaneQueue := enqueue Fast demo_key newTwoLaneWorkQueue.
Definition demo_lane (d : gset Key) (pr : producer) : lane_state := mkLane (mkQueue [] d ∅ false) pr true.
Definition demo_reconciling : twoLaneQueue :=
  mkTwoLane (demo_lane ∅ Waiting) newLane (mkQueue [] ∅ {[demo_key]} false) ∅ ∅ {[0 := Reconciling demo_key]}.
Definition demo_failed : twoLaneQueue :=
  mkTwoLane (demo_lane ∅ Waiting) newLane (mkQueue [] ∅ {[demo_key]} false) {[demo_key]} {[demo_key := 1]} {[0 := Finishing demo_key]}.
Definition demo_idle : twoLaneQueue := mkTwoLane (demo_lane ∅ Waiting) newLane New ∅ ∅ ∅.

(** Taking the step given by the constructor. *)
Ltac take c := eapply run_cons; [eapply c; reflexivity|].

Lemma demo_to_worker : run 1 demo_added [LInternal; LInternal; LInternal; LStart 0 demo_key] demo_reconciling.
Proof.
  take (step_get 1 demo_added Fast). take (λ t, step_got 1 t Fast). take (λ t, step_forward 1 t Fast).
  eapply run_cons; [apply (step_start _ _ 0); [lia|reflexivity..]|]. apply run_nil.
Qed.

Lemma demo_run_worker :
  run 1 newTwoLaneWorkQueue (LAdd Fast demo_key :: [LInternal; LInternal; LInternal; LStart 0 demo_key]) demo_reconciling.
Proof. eapply run_cons; [apply step_add|exact demo_to_worker]. Qed.

Lemma one_worker_per_key_witness : queue_ok (consumerQueue demo_reconciling).
Proof. apply (one_worker_per_key 1 _ _ demo_run_worker). Defined.

Lemma enqueued_key_is_reconciled_witness :
  pending demo_key demo_reconciling ∨
  ∃ w, LStart w demo_key ∈ [LInternal; LInternal; LInternal; LStart 0 demo_key].
Proof.
  exact (proj1 (enqueued_key_is_reconciled 1 [] newTwoLaneWorkQueue Fast demo_key _ _
    (run_nil _ _) eq_refl demo_to_worker)).
Defined.

Lemma queue_drains_witness :
  length [LInternal; LInternal; LInternal; LStart 0 demo_key] ≤ weight demo_added ∧ weight demo_added = 10.
Proof.
  split; [|vm_compute; reflexivity].
  refine (proj1 (queue_drains 1 [LAdd Fast demo_key] demo_added _ _ _ demo_to_worker _)).
  - eapply run_cons; [apply step_add|apply run_nil].
  - repeat constructor.
Defined.

Lemma failed_key_is_retried_witness :
  demo_key ∈ delayed demo_failed ∨ pending demo_key demo_failed ∨ ∃ w, LStart w demo_key ∈ ([] : list label).
Proof.
  refine (proj1 (failed_key_is_retried 1 _ demo_reconciling 0 demo_key demo_failed [] demo_failed
    demo_run_worker _ eq_refl (run_nil _ _) ltac:(set_solver))).
  assert (Hs := step_return 1 demo_reconciling 0 demo_key (Failed false) eq_refl). vm_compute in Hs. exact Hs.
Defined.
End demo.
