(* ===== verification/ProbeWorkers.v ===== *)
(** * ProbeWorkers: the goroutines and the queue of the prober

    Models [Start] and [processWorkItem] of [src/pkg/channel/kt/status/status.go] over
    the rate limited queue of client-go ([ItemQueue] and [delaying_queue.go],
    [rate_limiting_queue.go] in [vendor/k8s.io/client-go/util/workqueue]).

    [Prober] has the set of the work items still to be probed.  Here the set is a
    queue, a waiting loop for the delays and [probeConcurrency] workers, each moving in
    steps of its own; the answer of a pod, which has to come within [probeTimeout], is
    one step with what [processWorkItem] does about it.  The operations of the
    controller are those of [Prober]; they put new items into the queue with
    [AddAfter].  [start_refines] is the refinement of [Prober] by this. *)
From S2P Require Import Prelude GoStrings ApiTypes Channel ItemQueue Prober.

(** ** State *)
Inductive worker :=
  | Looping
  | Probing (id : nat)
  | Finishing (id : nat)
  | Exited.

Record Pool := mkPool {
  (** [workQueue]: the queue, the items whose delay has not passed, the failures *)
  p_queue : Queue nat;
  p_delayed : gset nat;
  p_failures : gmap nat nat;
  (** the goroutines of [Start] *)
  p_workers : list worker;
  p_prober : Prober;
  (** [done] and the channel [Start] returns *)
  p_done : bool;
  p_closed : bool;
}.

(** The rates that [NewProber] gives the queue, in nanoseconds. *)
Definition probe_baseDelay : Z := 50 * 10 ^ 6.
Definition probe_maxDelay : Z := 30 * 10 ^ 9.
Definition initialDelay : Z := 200 * 10 ^ 6.
Definition probeConcurrency : nat := 100.

(** [Start] on a prober that [NewProber] made. *)
Definition Start (concurrency : nat) : Pool :=
  mkPool New ∅ ∅ (replicate concurrency Looping) NewProber false false.

Definition with_workQueue (q : Queue nat) (delayed : gset nat) (failures : gmap nat nat) (P : Pool) : Pool :=
  mkPool q delayed failures (p_workers P) (p_prober P) (p_done P) (p_closed P).
Definition with_worker (w : nat) (s : worker) (P : Pool) : Pool :=
  mkPool (p_queue P) (p_delayed P) (p_failures P) (<[w := s]> (p_workers P)) (p_prober P) (p_done P) (p_closed P).
Definition with_prober (m : Prober) (P : Pool) : Pool :=
  mkPool (p_queue P) (p_delayed P) (p_failures P) (p_workers P) m (p_done P) (p_closed P).

(** ** The queue *)
Definition AddAfter (id : nat) (duration : Z) (P : Pool) : Pool :=
  if q_shuttingDown (p_queue P) then P
  else if decide (duration ≤ 0)%Z then with_workQueue (Add id (p_queue P)) (p_delayed P) (p_failures P) P
  else with_workQueue (p_queue P) ({[id]} ∪ p_delayed P) (p_failures P) P.

(** The delay is the larger one of two limiters: that of the item and that of the
    bucket, [bucket], which depends on the clock. *)
Definition AddRateLimited (bucket : Z) (id : nat) (P : Pool) : Pool :=
  let (delay, failures) := When probe_baseDelay probe_maxDelay id (p_failures P) in
  AddAfter id (delay `max` bucket)%Z (with_workQueue (p_queue P) (p_delayed P) failures P).

Definition Forget (id : nat) (P : Pool) : Pool :=
  with_workQueue (p_queue P) (p_delayed P) (delete id (p_failures P)) P.

(** ** A worker *)

(** What [processWorkItem] finds out of the answer to a probe. *)
Inductive probe_outcome := OutcomeCancelled | OutcomeFailed | OutcomeSucceeded.
#[export] Instance probe_outcome_eq_dec : EqDecision probe_outcome.
Proof. solve_decision. Defined.

Definition outcome_of_probe (id : nat) (a : probe_answer) (m : Prober) : option probe_outcome :=
  wi ← probes m !! id;
  s ← states m !! wi_targetStates wi;
  let (ok, s) := probeVerifier a s in
  Some (if context_done wi s m then OutcomeCancelled else if ok then OutcomeSucceeded else OutcomeFailed).

(** [processWorkItem] from the answer to its return.  Only a cancelled item is
    forgotten by the rate limiter. *)
Definition after_answer (bucket : Z) (id : nat) (a : probe_answer) (P : Pool) : Pool :=
  let P' := with_prober (processWorkItem id a (p_prober P)) P in
  match outcome_of_probe id a (p_prober P) with
  | Some OutcomeCancelled => Forget id P'
  | Some OutcomeFailed => AddRateLimited bucket id P'
  | Some OutcomeSucceeded | None => P'
  end.

(** What an operation of the controller puts into the queue. *)
Definition add_new (m : Prober) (P : Pool) : Pool :=
  foldr (λ id, AddAfter id initialDelay) (with_prober m P) (elements (workQueue m ∖ workQueue (p_prober P))).

(** ** Steps *)
Section steps.
Context `{GoRuntime}.

(** The operations of the controller, whole or a piece at a time, and the goroutines that wait for a context:
    the steps of [Prober] but the probes.  Of these pieces, only making a new item changes the queue. *)
Inductive api_step (m : Prober) : Prober → Prop :=
  | api_piece m' : piece m m' → (dom (probes m') = dom (probes m) → workQueue m' = workQueue m) → api_step m m'
  | api_IsReady n target c sub : api_step m (prober_IsReady n target c sub m).2
  | api_CancelProbing sub : api_step m (CancelProbing sub m)
  | api_CancelPodProbing ip : api_step m (CancelPodProbing ip m)
  | api_Refresh n list_targets : api_step m (RefreshPodProbing n list_targets m)
  | api_notice id : api_step m (notice_cancellation id m).

(** The goroutines of [Start] and the waiting loop of the queue. *)
Inductive worker_step (P : Pool) : list report → Pool → Prop :=
  | ws_get w id q :
      p_workers P !! w = Some Looping → Get (p_queue P) = Item id q →
      worker_step P [] (with_worker w (Probing id) (with_workQueue q (p_delayed P) (p_failures P) P))
  | ws_exit w :
      p_workers P !! w = Some Looping → Get (p_queue P) = ShutdownSeen →
      worker_step P [] (with_worker w Exited P)
  | ws_answer w id bucket a :
      p_workers P !! w = Some (Probing id) →
      worker_step P (report_of id a (p_prober P)) (with_worker w (Finishing id) (after_answer bucket id a P))
  | ws_done w id :
      p_workers P !! w = Some (Finishing id) →
      worker_step P []
        (with_worker w Looping (with_workQueue (Done id (p_queue P)) (p_delayed P) (p_failures P) P))
  | ws_expire id :
      id ∈ p_delayed P → q_shuttingDown (p_queue P) = false →
      worker_step P [] (with_workQueue (Add id (p_queue P)) (p_delayed P ∖ {[id]}) (p_failures P) P)
  | ws_shutdown :
      p_done P = true → q_shuttingDown (p_queue P) = false →
      worker_step P [] (with_workQueue (ShutDown (p_queue P)) (p_delayed P) (p_failures P) P)
  | ws_close :
      Forall (eq Exited) (p_workers P) → p_closed P = false →
      worker_step P []
        (mkPool (p_queue P) (p_delayed P) (p_failures P) (p_workers P) (p_prober P) (p_done P) true).

Inductive pool_step (P : Pool) : list report → Pool → Prop :=
  | ps_worker rs P' : worker_step P rs P' → pool_step P rs P'
  | ps_api m : api_step (p_prober P) m → pool_step P [] (add_new m P)
  | ps_cancel :
      pool_step P []
        (mkPool (p_queue P) (p_delayed P) (p_failures P) (p_workers P) (p_prober P) true (p_closed P)).

Inductive pool_run (concurrency : nat) : list report → Pool → Prop :=
  | pool_start : pool_run concurrency [] (Start concurrency)
  | pool_more tr P rs P' : pool_run concurrency tr P → pool_step P rs P' → pool_run concurrency (tr ++ rs) P'.
End steps.

(** ** How the operations of [Prober] move its set of items *)
Section prober_queue.
Context `{GoRuntime}.
Implicit Types (m : Prober).

(** Items come with their probes, and none goes. *)
Record grows m m' : Prop := {
  gr_queue : workQueue m ⊆ workQueue m';
  gr_probes : dom (probes m) ⊆ dom (probes m');
  gr_new : workQueue m' ⊆ workQueue m ∪ dom (probes m');
}.

Lemma grows_refl m : grows m m.
Proof. split; set_solver. Qed.
Lemma grows_trans m1 m2 m3 : grows m1 m2 → grows m2 m3 → grows m1 m3.
Proof. intros [] []. split; set_solver. Qed.

Lemma grows_same m m' : workQueue m' = workQueue m → dom (probes m') = dom (probes m) → grows m m'.
Proof. intros Hq Hp. split; set_solver. Qed.

Lemma grows_eject uid m : grows m (ejectStateUnsafe uid m).
Proof. unfold ejectStateUnsafe. destruct (targetStates m !! uid); by apply grows_same. Qed.

Lemma grows_add_probe l target m ip : grows m (add_probe l target m ip).
Proof.
  unfold add_probe, ip_context. destruct (podContexts m !! ip); split; simpl; rewrite ?dom_insert_L; set_solver.
Qed.

Lemma grows_add_probes l target ips : ∀ m, grows m (foldl (add_probe l target) m ips).
Proof.
  induction ips as [|ip ips IH]; intros m; simpl; [apply grows_refl|].
  eapply grows_trans; [apply grows_add_probe|apply IH].
Qed.

Lemma grows_probeTarget n c sub target m : grows m (probeTarget n c sub target m).
Proof.
  unfold probeTarget. set (m0 := new_state c sub target m).
  eapply (grows_trans _ m0); [by apply grows_same|].
  eapply grows_trans; [apply grows_add_probes|by apply grows_same].
Qed.

Lemma grows_IsReady n target c sub m : grows m (prober_IsReady n target c sub m).2.
Proof.
  unfold prober_IsReady. destruct target as [|target]; [apply grows_refl|].
  destruct (targetStates m !! sub_UID sub ≫= _) as [[l s]|]; [|apply grows_probeTarget].
  destruct (isOutdatedTargetState _ _ _); [eapply grows_trans; [apply grows_eject|apply grows_probeTarget]|].
  destruct (checkReadiness s). by apply grows_same.
Qed.

Lemma grows_refresh n lt uids : ∀ m, grows m (refresh_loop n lt uids m).
Proof.
  induction uids as [|uid uids IH]; intros m; cbn [refresh_loop]; [apply grows_refl|].
  destruct (targetStates m !! uid ≫= _) as [[l s]|]; [|apply IH].
  destruct (checkReadiness s) as [ready s']. destruct ready; [|destruct (lt (ts_ch s')) as [|target]].
  - eapply grows_trans; [|apply IH]. by apply grows_same.
  - by apply grows_same.
  - eapply grows_trans; [|apply IH]. eapply grows_trans; [|apply grows_probeTarget].
    eapply grows_trans; [|apply grows_eject]. by apply grows_same.
Qed.

Lemma dom_insert_same {A} (x : gmap nat A) k v v' : x !! k = Some v → dom (<[k := v']> x) = dom x.
Proof. intros Hk. rewrite dom_insert_L. apply (elem_of_dom_2 (D:=gset nat)) in Hk. set_solver. Qed.

Lemma notice_frame id m :
  workQueue (notice_cancellation id m) = workQueue m ∧ dom (probes (notice_cancellation id m)) = dom (probes m).
Proof.
  unfold notice_cancellation. destruct (probes m !! id) as [wi|] eqn:Hid; [|done].
  destruct (states m !! wi_targetStates wi) as [s|]; [|done]. destruct (context_done wi s m); [|done].
  unfold onProbingCancellation. destruct (decide _); [done|]. destruct (decide _); [destruct (checkReadiness _) as [[] ?]|]; simpl;
    by rewrite (dom_insert_same _ _ _ _ Hid).
Qed.

Lemma grows_piece m m' :
  piece m m' → (dom (probes m') = dom (probes m) → workQueue m' = workQueue m) → grows m m'.
Proof.
  intros Hp Hq. destruct Hp as
    [l s Hl|l s Hl|l s Hl|uid|l s Hl|c sub target|ip|l s c target ip Hl Hip|id|id Hid|id wi p Hid|l s Hl Hr];
    try by apply grows_same.
  - unfold ip_context. destruct (podContexts m !! ip); by apply grows_same.
  - split; simpl; rewrite ?dom_insert_L; set_solver.
  - apply grows_same; [by apply Hq|done].
  - apply grows_same; [by apply Hq|done].
  - apply grows_same; [done|]. simpl. by apply (dom_insert_same _ _ _ _ Hid).
Qed.

Lemma api_step_grows m m' : api_step m m' → grows m m'.
Proof.
  intros [m1 Hp Hq| | | | |]; [by apply grows_piece|apply grows_IsReady|apply grows_eject| |apply grows_refresh|].
  - unfold CancelPodProbing. destruct (podContexts m !! ip); by apply grows_same.
  - destruct (notice_frame id m). by apply grows_same.
Qed.

Lemma api_step_step m m' : api_step m m' → prober_step m [] m'.
Proof. intros []; [by apply step_piece|apply step_IsReady|apply step_CancelProbing|apply step_CancelPodProbing|apply step_Refresh|apply step_notice]. Qed.

(** A processed item stays in the set exactly when its probe failed. *)
Lemma process_frame id a m :
  outcome_of_probe id a m ≠ None →
  workQueue (processWorkItem id a m) =
    (if decide (outcome_of_probe id a m = Some OutcomeFailed) then {[id]} ∪ workQueue m ∖ {[id]} else workQueue m ∖ {[id]}) ∧
  dom (probes (processWorkItem id a m)) = dom (probes m).
Proof.
  unfold outcome_of_probe, processWorkItem. destruct (probes m !! id) as [wi|] eqn:Hid; [|done]. simpl.
  destruct (states m !! wi_targetStates wi) as [s|]; [|done]. simpl. intros _.
  destruct (probeVerifier a s) as [ok s']. change (context_done wi s' (with_states _ _)) with (context_done wi s' m).
  destruct (context_done wi s' m); [done|]. destruct ok; simpl; [|done].
  unfold onProbingSuccess. destruct (decide _) as [|]; [destruct (checkReadiness s') as [[] ?]|]; simpl;
    by rewrite (dom_insert_same _ _ _ _ Hid).
Qed.

(** Every item of the set has a probe and its probe has a state. *)
Lemma queue_known tr m : prober_run tr m → workQueue m ⊆ dom (probes m).
Proof.
  induction 1 as [|tr m rs m' Hr IH Hst]; [done|].
  destruct Hst as [m m' Hp|id a wi s m Hid Hs|n t c sub m|sub m|ip m|n lt m|id a m Hin|id m].
  3-6: lazymatch goal with |- workQueue ?m' ⊆ _ => destruct (api_step_grows m m'); [by constructor|set_solver] end.
  4: destruct (api_step_grows m (notice_cancellation id m)); [by constructor|set_solver].
  { destruct Hp; simpl; rewrite ?dom_insert_L; try set_solver.
    unfold ip_context. by destruct (podContexts m !! ip). }
  { done. }
  destruct (decide (outcome_of_probe id a m = None)) as [Hn|Hn].
  - unfold outcome_of_probe in Hn. unfold processWorkItem. destruct (probes m !! id); simpl in Hn; [|done].
    destruct (states m !! _); simpl in Hn; [|done]. by destruct (probeVerifier _ _).
  - destruct (process_frame id a m Hn) as [-> ->]. case_decide; set_solver.
Qed.

Lemma outcome_known tr m id a : prober_run tr m → id ∈ workQueue m → outcome_of_probe id a m ≠ None.
Proof.
  intros Hr Hin. pose proof (queue_known tr m Hr id Hin) as [wi Hid]%elem_of_dom.
  destruct (pi_probes _ _ (prober_run_inv tr m Hr) id wi Hid) as (_ & s & Hs & _).
  unfold outcome_of_probe. rewrite Hid. simpl. rewrite Hs. simpl. by destruct (probeVerifier a s).
Qed.
End prober_queue.

(** ** The invariant *)
Section pool_inv.
Context `{GoRuntime}.
Implicit Types (P : Pool) (id w : nat).

Definition worker_item (s : worker) : option nat :=
  match s with Probing id | Finishing id => Some id | Looping | Exited => None end.

(** An item that the queue, the waiting loop or a worker still holds for a probe. *)
Definition held P id : Prop :=
  id ∈ q_dirty (p_queue P) ∨ id ∈ p_delayed P ∨ ∃ w, p_workers P !! w = Some (Probing id).

Record pool_inv P : Prop := {
  pl_queue : queue_ok (p_queue P);
  pl_held id : held P id → id ∈ workQueue (p_prober P);
  pl_lossless : q_shuttingDown (p_queue P) = false → ∀ id, id ∈ workQueue (p_prober P) → held P id;
  pl_delayed id : id ∈ p_delayed P → id ∉ q_dirty (p_queue P);
  pl_probing w id : p_workers P !! w = Some (Probing id) → (id ∉ q_dirty (p_queue P)) ∧ id ∉ p_delayed P;
  pl_workers id : id ∈ q_processing (p_queue P) ↔ ∃ w s, p_workers P !! w = Some s ∧ worker_item s = Some id;
  pl_one w1 w2 s1 s2 id :
    p_workers P !! w1 = Some s1 → p_workers P !! w2 = Some s2 → worker_item s1 = Some id → worker_item s2 = Some id → w1 = w2;
  pl_done : q_shuttingDown (p_queue P) = true → p_done P = true;
  pl_exited w : p_workers P !! w = Some Exited → q_shuttingDown (p_queue P) = true;
  pl_closed : p_closed P = true → Forall (eq Exited) (p_workers P);
}.

Lemma Start_inv n : pool_inv (Start n).
Proof.
  assert (Hl : ∀ w s, p_workers (Start n) !! w = Some s → s = Looping).
  { intros w s Hs. by apply lookup_replicate in Hs as [-> _]. }
  split; simpl.
  - apply New_ok.
  - intros id [?|[?|[w Hw%Hl]]]; done.
  - set_solver.
  - set_solver.
  - intros w id Hw%Hl. done.
  - intros id. split; [done|]. intros (w & s & ->%Hl & ?). done.
  - intros w1 w2 s1 s2 id ->%Hl. done.
  - done.
  - intros w Hw%Hl. done.
  - done.
Qed.

(** The workers after one of them moved. *)
Lemma worker_moved P w s0 s w' s' :
  p_workers P !! w = Some s0 →
  p_workers (with_worker w s P) !! w' = Some s' ↔ (w' = w ∧ s' = s) ∨ (w' ≠ w ∧ p_workers P !! w' = Some s').
Proof.
  intros Hw. apply lookup_lt_Some in Hw. simpl. rewrite list_lookup_insert_Some. naive_solver.
Qed.

(** A worker that keeps its item, or has none before and after. *)
Lemma items_kept P w s0 s id :
  p_workers P !! w = Some s0 → worker_item s = worker_item s0 →
  (∃ w' s', p_workers (with_worker w s P) !! w' = Some s' ∧ worker_item s' = Some id) ↔
  (∃ w' s', p_workers P !! w' = Some s' ∧ worker_item s' = Some id).
Proof.
  intros Hw Hi. split.
  - intros (w' & s' & [[-> ->]|[? ?]]%(worker_moved P w s0 s) & Hs); [|by eauto|done]. exists w, s0. by rewrite <-Hi.
  - intros (w' & s' & Hw' & Hs). destruct (decide (w' = w)) as [->|].
    + exists w, s. simplify_eq. rewrite Hi. split; [|done]. apply (worker_moved P w s0); auto.
    + exists w', s'. split; [|done]. apply (worker_moved P w s0); auto.
Qed.

Lemma one_kept P w s0 s w1 w2 s1 s2 id :
  pool_inv P → p_workers P !! w = Some s0 → (∀ id, worker_item s = Some id → worker_item s0 = Some id) →
  p_workers (with_worker w s P) !! w1 = Some s1 → p_workers (with_worker w s P) !! w2 = Some s2 →
  worker_item s1 = Some id → worker_item s2 = Some id → w1 = w2.
Proof.
  intros I Hw Hi H1 H2 Hs1 Hs2.
  apply (worker_moved P w s0) in H1 as [[-> ->]|[? ?]]; [| |done]; apply (worker_moved P w s0) in H2 as [[-> ->]|[? ?]]; try done.
  - eapply (pl_one _ I); eauto.
  - eapply (pl_one _ I); eauto.
  - eapply (pl_one _ I); eauto.
Qed.

Lemma get_inv P w id q :
  pool_inv P → p_workers P !! w = Some Looping → Get (p_queue P) = Item id q →
  pool_inv (with_worker w (Probing id) (with_workQueue q (p_delayed P) (p_failures P) P)).
Proof.
  intros I Hw Hg. destruct (Get_Item _ _ _ (pl_queue _ I) Hg) as (Hq & Hd & Hp & Hd' & Hp' & Hs).
  set (P1 := with_workQueue q (p_delayed P) (p_failures P) P).
  assert (Hmoved : ∀ w' s', p_workers (with_worker w (Probing id) P1) !! w' = Some s' ↔
    (w' = w ∧ s' = Probing id) ∨ (w' ≠ w ∧ p_workers P !! w' = Some s')) by (intros; by apply (worker_moved P1 w Looping)).
  assert (Hheld : ∀ id', held (with_worker w (Probing id) P1) id' ↔ held P id').
  { intros id'. unfold held. setoid_rewrite Hmoved. simpl. rewrite Hd'. split.
    - intros [?|[?|(w' & [[-> [= ->]]|[? ?]])]]; [left; set_solver|auto|auto|eauto].
    - intros [?|[?|(w' & ?)]]; [|auto|right; right; exists w'; right; split; [congruence|done]].
      destruct (decide (id' = id)) as [->|]; [right; right; exists w; auto|left; set_solver]. }
  split; try (simpl; rewrite ?Hs; apply I).
  - done.
  - intros id'. rewrite Hheld. apply I.
  - simpl. rewrite Hs. intros ? id' ?. rewrite Hheld. by apply I.
  - simpl. rewrite Hd'. intros id' Hin. pose proof (pl_delayed _ I id' Hin). set_solver.
  - intros w' id'. rewrite Hmoved. simpl. rewrite Hd'. intros [[-> [= ->]]|[? Hw']].
    + split; [set_solver|]. intros Hin. by apply (pl_delayed _ I) in Hin.
    + destruct (pl_probing _ I _ _ Hw'). set_solver.
  - intros id'. setoid_rewrite Hmoved. simpl. rewrite Hp', elem_of_union, elem_of_singleton, (pl_workers _ I). split.
    + intros [->|(w' & s & Hw' & Hi)]; [by exists w, (Probing id); auto|]. exists w', s. split; [|done]. right.
      split; [|done]. intros ->. by simplify_eq.
    + intros (w' & s & [[-> ->]|[? ?]] & Hi); [simpl in Hi; left; congruence|right; eauto].
  - intros w1 w2 s1 s2 id'. rewrite !Hmoved. intros [[-> ->]|[? ?]] [[-> ->]|[? ?]] Hi1 Hi2; try done.
    + injection Hi1 as ->. destruct Hp. apply (pl_workers _ I). eauto.
    + injection Hi2 as ->. destruct Hp. apply (pl_workers _ I). eauto.
    + eapply (pl_one _ I); eauto.
  - intros w'. rewrite Hmoved. intros [[_ ?]|[_ Hw']]; [done|]. simpl. rewrite Hs. by apply (pl_exited _ I) in Hw'.
  - simpl. intros Hc%(pl_closed _ I). rewrite Forall_lookup in Hc. by apply Hc in Hw.
Qed.

Lemma exit_inv P w :
  pool_inv P → p_workers P !! w = Some Looping → Get (p_queue P) = ShutdownSeen → pool_inv (with_worker w Exited P).
Proof.
  intros I Hw Hg. destruct (Get_shutdown _ Hg) as [Hs _].
  assert (Hheld : ∀ id, held (with_worker w Exited P) id → held P id).
  { intros id [?|[?|(w' & [[_ ?]|[? ?]]%(worker_moved P w Looping))]]; [by left|by right; left|done| |done].
    right; right; eauto. }
  split; try apply I.
  - intros id ?%Hheld. by apply I.
  - simpl. congruence.
  - intros w' id [[_ ?]|[? ?]]%(worker_moved P w Looping); [done|by eapply (pl_probing _ I)|done].
  - intros id. rewrite (items_kept P w Looping) by done. apply I.
  - intros w1 w2 s1 s2 id. by apply (one_kept P w Looping).
  - simpl. intros w' _. done.
  - simpl. intros Hc%(pl_closed _ I). by apply Forall_insert.
Qed.

Lemma done_inv P w id :
  pool_inv P → p_workers P !! w = Some (Finishing id) →
  pool_inv (with_worker w Looping (with_workQueue (Done id (p_queue P)) (p_delayed P) (p_failures P) P)).
Proof.
  intros I Hw. set (P1 := with_workQueue (Done id (p_queue P)) (p_delayed P) (p_failures P) P).
  assert (Hmoved : ∀ w' s', p_workers (with_worker w Looping P1) !! w' = Some s' ↔
    (w' = w ∧ s' = Looping) ∨ (w' ≠ w ∧ p_workers P !! w' = Some s')) by (intros; by apply (worker_moved P1 w (Finishing id))).
  assert (Hin : id ∈ q_processing (p_queue P)) by (apply (pl_workers _ I); eauto).
  assert (Hheld : ∀ id', held (with_worker w Looping P1) id' ↔ held P id').
  { intros id'. unfold held. setoid_rewrite Hmoved. simpl. split.
    - intros [?|[?|(w' & [[_ ?]|[? ?]])]]; [auto|auto|done|eauto].
    - intros [?|[?|(w' & ?)]]; [auto|auto|]. right; right. exists w'. right. split; [congruence|done]. }
  split; try apply I.
  - by apply Done_ok; [apply I|].
  - intros id'. rewrite Hheld. apply I.
  - intros ? id' ?. rewrite Hheld. by apply I.
  - intros w' id'. rewrite Hmoved. intros [[_ ?]|[? ?]]; [done|]. by apply (pl_probing _ I w').
  - intros id'. setoid_rewrite Hmoved. simpl. rewrite elem_of_difference, elem_of_singleton, (pl_workers _ I). split.
    + intros [(w' & s & Hw' & Hi) Hne]. exists w', s. split; [|done]. right. split; [|done]. intros ->. simplify_eq. by simplify_eq/=.
    + intros (w' & s & [[-> ->]|[Hne Hw']] & Hi); [done|]. split; [eauto|]. intros ->. destruct Hne.
      by eapply (pl_one _ I); [exact Hw'|exact Hw|exact Hi|].
  - intros w1 w2 s1 s2 id'. rewrite !Hmoved. intros [[-> ->]|[? ?]] [[-> ->]|[? ?]] Hi1 Hi2; try done. by eapply (pl_one _ I).
  - intros w'. rewrite Hmoved. intros [[_ ?]|[_ ?]]; [done|]. by eapply (pl_exited _ I).
  - simpl. intros Hc%(pl_closed _ I). rewrite Forall_lookup in Hc. by apply Hc in Hw.
Qed.

(** What touches neither the workers nor the prober. *)
Lemma queue_inv P q delayed failures done :
  pool_inv P → queue_ok q → q_processing q = q_processing (p_queue P) →
  (∀ id, id ∈ q_dirty q ∨ id ∈ delayed ↔ id ∈ q_dirty (p_queue P) ∨ id ∈ p_delayed P) →
  (∀ id, id ∈ delayed → id ∉ q_dirty q) →
  (q_shuttingDown (p_queue P) = true → q_shuttingDown q = true) →
  (q_shuttingDown q = true → done = true) →
  pool_inv (mkPool q delayed failures (p_workers P) (p_prober P) done (p_closed P)).
Proof.
  intros I Hq Hp Hd Hsep Hs Hdone.
  assert (Hheld : ∀ id, held (mkPool q delayed failures (p_workers P) (p_prober P) done (p_closed P)) id ↔ held P id).
  { intros id. specialize (Hd id). unfold held. simpl. tauto. }
  split; try apply I; simpl; try done.
  - intros id. rewrite Hheld. apply I.
  - intros Hf id ?. rewrite Hheld. apply I; [|done]. apply not_true_iff_false. intros ?%Hs. congruence.
  - intros w id Hw%(pl_probing _ I). specialize (Hd id). tauto.
  - intros id. rewrite Hp. apply I.
  - intros w ?%(pl_exited _ I). auto.
Qed.

Lemma expire_inv P id :
  pool_inv P → id ∈ p_delayed P → q_shuttingDown (p_queue P) = false →
  pool_inv (with_workQueue (Add id (p_queue P)) (p_delayed P ∖ {[id]}) (p_failures P) P).
Proof.
  intros I Hin Hs. pose proof (pl_delayed _ I id Hin) as Hn.
  assert (Hd : q_dirty (Add id (p_queue P)) = {[id]} ∪ q_dirty (p_queue P)).
  { apply set_eq. intros x. pose proof (Add_dirty id (p_queue P)). pose proof (Add_dirty_mono id (p_queue P)).
    pose proof (Add_accepted id _ Hs). set_solver. }
  apply queue_inv; [done|by apply Add_ok, I|apply Add_processing|..]; rewrite ?Add_shuttingDown; rewrite ?Hd; try done; [| |apply I].
  - intros x. destruct (decide (x = id)) as [->|]; set_solver.
  - intros x Hx. pose proof (pl_delayed _ I x). set_solver.
Qed.

(** The pool after an answer: the delays of the queue, and the prober. *)
Lemma AddAfter_shape id d P :
  (0 < d)%Z →
  AddAfter id d P =
    mkPool (p_queue P) (if q_shuttingDown (p_queue P) then p_delayed P else {[id]} ∪ p_delayed P) (p_failures P)
      (p_workers P) (p_prober P) (p_done P) (p_closed P).
Proof.
  intros Hd. unfold AddAfter. destruct (q_shuttingDown _) eqn:Hs; [by destruct P|]. by rewrite decide_False by lia.
Qed.

Lemma AddRateLimited_shape b id P :
  ∃ F, AddRateLimited b id P =
    mkPool (p_queue P) (if q_shuttingDown (p_queue P) then p_delayed P else {[id]} ∪ p_delayed P) F
      (p_workers P) (p_prober P) (p_done P) (p_closed P).
Proof.
  unfold AddRateLimited. pose proof (When_positive probe_baseDelay probe_maxDelay id (p_failures P)) as Hp.
  destruct (When _ _ _ _) as [delay F]. exists F. simpl in Hp. unfold probe_baseDelay, probe_maxDelay in Hp.
  rewrite AddAfter_shape by lia. done.
Qed.

Definition retried (id : nat) (a : probe_answer) P : bool :=
  bool_decide (outcome_of_probe id a (p_prober P) = Some OutcomeFailed) && negb (q_shuttingDown (p_queue P)).

Lemma after_answer_shape b id a P :
  ∃ F, after_answer b id a P =
    mkPool (p_queue P) (if retried id a P then {[id]} ∪ p_delayed P else p_delayed P) F
      (p_workers P) (processWorkItem id a (p_prober P)) (p_done P) (p_closed P).
Proof.
  unfold after_answer, retried. destruct (outcome_of_probe id a (p_prober P)) as [[]|].
  - by eexists.
  - destruct (AddRateLimited_shape b id (with_prober (processWorkItem id a (p_prober P)) P)) as [F ->]. exists F.
    rewrite bool_decide_true by done. simpl. by destruct (q_shuttingDown _).
  - by eexists.
  - by eexists.
Qed.

Lemma answer_inv tr P w id b a :
  prober_run tr (p_prober P) → pool_inv P → p_workers P !! w = Some (Probing id) →
  pool_inv (with_worker w (Finishing id) (after_answer b id a P)).
Proof.
  intros Hr I Hw. destruct (after_answer_shape b id a P) as [F ->]. set (D := if retried _ _ _ then _ else _).
  set (P1 := mkPool _ _ _ _ _ _ _).
  assert (Hin : id ∈ workQueue (p_prober P)) by (apply (pl_held _ I); right; right; eauto).
  destruct (process_frame id a (p_prober P) (outcome_known _ _ _ a Hr Hin)) as [Hwq _].
  destruct (pl_probing _ I _ _ Hw) as [Hnd Hnl].
  assert (Hmoved : ∀ w' s', p_workers (with_worker w (Finishing id) P1) !! w' = Some s' ↔
    (w' = w ∧ s' = Finishing id) ∨ (w' ≠ w ∧ p_workers P !! w' = Some s')) by (intros; by apply (worker_moved P1 w (Probing id))).
  assert (HD : ∀ x, x ∈ D ↔ x ∈ p_delayed P ∨ (x = id ∧ retried id a P = true))
    by (intros x; unfold D; destruct (retried id a P); set_solver).
  assert (Hheld : ∀ x, held (with_worker w (Finishing id) P1) x ↔ (held P x ∧ x ≠ id) ∨ (x = id ∧ retried id a P = true)).
  { intros x. unfold held. setoid_rewrite Hmoved. simpl. rewrite HD. split.
    - intros [?|[[?|?]|(w' & [[_ ?]|[Hne Hw']])]]; [left; split; [auto|congruence]..|by right|done|].
      left. split; [eauto|]. intros ->. destruct Hne. by eapply (pl_one _ I).
    - intros [[[?|[?|(w' & ?)]] ?]|?]; [auto|auto| |auto]. right; right. exists w'. right. split; [congruence|done]. }
  split; try apply I.
  - intros x. rewrite Hheld. simpl. rewrite Hwq. unfold retried. intros [[?%(pl_held _ I) ?]|[-> Hret]].
    + case_decide; set_solver.
    + apply andb_true_iff in Hret as [Hf%bool_decide_eq_true _]. rewrite decide_True by done. set_solver.
  - simpl. rewrite Hwq. intros Hs x Hx. apply Hheld. destruct (decide (x = id)) as [->|Hne].
    + right. unfold retried. rewrite Hs. case_decide as Ho; [by rewrite bool_decide_true|set_solver].
    + left. split; [|done]. apply (pl_lossless _ I Hs). case_decide; set_solver.
  - simpl. intros x [?%(pl_delayed _ I)|[-> _]]%HD; done.
  - intros w' x. rewrite Hmoved. simpl. rewrite HD. intros [[_ ?]|[Hne Hw']]; [done|].
    destruct (pl_probing _ I _ _ Hw') as [? ?]. split; [done|]. intros [?|[-> _]]; [done|]. destruct Hne. by eapply (pl_one _ I).
  - intros x. rewrite (items_kept P1 w (Probing id)) by done. apply I.
  - intros w1 w2 s1 s2 x. rewrite !Hmoved. intros [[-> ->]|[? ?]] [[-> ->]|[? ?]] Hi1 Hi2; try done; by eapply (pl_one _ I).
  - intros w'. rewrite Hmoved. intros [[_ ?]|[_ ?]]; [done|]. by eapply (pl_exited _ I).
  - simpl. intros Hc%(pl_closed _ I). rewrite Forall_lookup in Hc. by apply Hc in Hw.
Qed.

(** Putting new items into the queue. *)
Lemma add_new_shape m P :
  add_new m P =
    mkPool (p_queue P) (if q_shuttingDown (p_queue P) then p_delayed P else (workQueue m ∖ workQueue (p_prober P)) ∪ p_delayed P)
      (p_failures P) (p_workers P) m (p_done P) (p_closed P).
Proof.
  unfold add_new.
  assert (Hl : ∀ ids, foldr (λ id, AddAfter id initialDelay) (with_prober m P) ids =
    mkPool (p_queue P) (if q_shuttingDown (p_queue P) then p_delayed P else list_to_set ids ∪ p_delayed P)
      (p_failures P) (p_workers P) m (p_done P) (p_closed P)).
  { induction ids as [|id ids IH]; simpl.
    - unfold with_prober. f_equal. destruct (q_shuttingDown _); set_solver.
    - rewrite IH, AddAfter_shape by done. simpl. f_equal. destruct (q_shuttingDown _); set_solver. }
  rewrite Hl. by rewrite list_to_set_elements_L.
Qed.

Lemma api_inv P m : pool_inv P → api_step (p_prober P) m → pool_inv (add_new m P).
Proof.
  intros I Ha. destruct (api_step_grows _ _ Ha) as [Hq _ _]. rewrite add_new_shape.
  set (P' := mkPool _ _ _ _ _ _ _).
  assert (Hheld : ∀ x, held P' x ↔ held P x ∨ (q_shuttingDown (p_queue P) = false ∧ x ∈ workQueue m ∖ workQueue (p_prober P))).
  { intros x. unfold held, P'. simpl. destruct (q_shuttingDown _); set_solver. }
  split; try apply I.
  - intros x. rewrite Hheld. simpl. intros [?%(pl_held _ I)|[_ ?]]; set_solver.
  - simpl. intros Hs x Hx. apply Hheld. destruct (decide (x ∈ workQueue (p_prober P))); [left; by apply I|right; set_solver].
  - simpl. intros x Hx Hd. assert (x ∈ workQueue (p_prober P)) by (apply (pl_held _ I); by left).
    destruct (q_shuttingDown _); [by apply (pl_delayed _ I) in Hx|]. apply elem_of_union in Hx as [?|Hx]; [set_solver|].
    by apply (pl_delayed _ I) in Hx.
  - intros w x Hw. destruct (pl_probing _ I _ _ Hw) as [? ?].
    assert (x ∈ workQueue (p_prober P)) by (apply (pl_held _ I); right; right; eauto).
    split; [done|]. simpl. destruct (q_shuttingDown _); [done|set_solver].
Qed.
End pool_inv.

(** ** Every run *)
Section pool_runs.
Context `{GoRuntime} (concurrency : nat).
Implicit Types (P : Pool).

Lemma worker_step_inv tr P rs P' :
  prober_run tr (p_prober P) → pool_inv P → worker_step P rs P' → prober_run (tr ++ rs) (p_prober P') ∧ pool_inv P'.
Proof.
  intros Hr I Hst. destruct Hst as [w id q Hw Hg|w Hw Hg|w id b a Hw|w id Hw|id Hd Hs|Hd Hs|Hall Hc];
    rewrite ?app_nil_r; try (split; [exact Hr|]).
  - by apply get_inv.
  - by apply exit_inv.
  - split; [|by eapply answer_inv]. destruct (after_answer_shape b id a P) as [F ->]. simpl.
    eapply run_step; [done|]. constructor. apply (pl_held _ I). right; right; eauto.
  - by apply done_inv.
  - by apply expire_inv.
  - apply queue_inv; try done; [apply ShutDown_ok, I|apply I].
  - by destruct I; split.
Qed.

Lemma pool_step_inv tr P rs P' :
  prober_run tr (p_prober P) → pool_inv P → pool_step P rs P' → prober_run (tr ++ rs) (p_prober P') ∧ pool_inv P'.
Proof.
  intros Hr I [rs' P1 Hst|m Ha|]; [by eapply worker_step_inv|..].
  - split; [|by apply api_inv]. rewrite add_new_shape. simpl. eapply run_step; [done|by apply api_step_step].
  - rewrite app_nil_r. split; [done|]. apply queue_inv; try done; apply I.
Qed.

Lemma pool_run_inv tr P : pool_run concurrency tr P → prober_run tr (p_prober P) ∧ pool_inv P.
Proof.
  induction 1 as [|tr P rs P' _ [Hr I] Hst]; [split; [constructor|apply Start_inv]|by eapply pool_step_inv].
Qed.

(** When the last worker has returned nothing is left in the queue. *)
Definition drained P : Prop :=
  p_workers P ≠ [] → Forall (eq Exited) (p_workers P) → q_queue (p_queue P) = [] ∧ q_dirty (p_queue P) = ∅.

Lemma exited_after (l : list worker) w s s0 : l !! w = Some s0 → Forall (eq Exited) (<[w := s]> l) → s = Exited.
Proof.
  intros Hw Hall. rewrite Forall_lookup in Hall. apply lookup_lt_Some in Hw.
  symmetry. apply (Hall w). by apply list_lookup_insert_eq.
Qed.

Lemma worker_step_drained P rs P' : pool_inv P → drained P → worker_step P rs P' → drained P'.
Proof.
  intros I D Hst Hne Hall. destruct Hst as [w id q Hw Hg|w Hw Hg|w id b a Hw|w id Hw|id Hd Hs|Hd Hs|Hall' Hc]; simpl in *;
    try (by pose proof (exited_after _ _ _ _ Hw Hall)).
  - destruct (Get_shutdown _ Hg) as [_ Hg']. unfold Get in Hg. destruct (q_queue (p_queue P)) eqn:Hq; [|done]. split; [done|].
    pose proof (Get_empty _ (pl_queue _ I) Hg') as Hsub. apply elem_of_equiv_empty_L. intros x Hx%Hsub.
    apply (pl_workers _ I) in Hx as (w' & s & Hw' & Hi). rewrite Forall_lookup in Hall.
    destruct (decide (w' = w)) as [->|]; [by simplify_eq|].
    assert (Exited = s) as <-; [|done]. apply (Hall w'). by rewrite list_lookup_insert_ne.
  - destruct (after_answer_shape b id a P) as [F HF]. rewrite HF in Hall, Hne. simpl in *.
    by pose proof (exited_after _ _ _ _ Hw Hall).
  - exfalso. destruct (p_workers P) as [|s ws] eqn:Hws; [done|]. apply Forall_cons in Hall as [<- _].
    assert (p_workers P !! 0 = Some Exited) as ?%(pl_exited _ I) by (by rewrite Hws). congruence.
  - auto.
  - auto.
Qed.

Lemma pool_run_drained tr P : pool_run concurrency tr P → drained P.
Proof.
  induction 1 as [|tr P rs P' Hrun IH Hst].
  - intros Hne Hall. simpl in *. destruct concurrency; [done|]. by apply Forall_cons in Hall as [? _].
  - destruct (pool_run_inv _ _ Hrun) as [_ I]. destruct Hst as [rs' P1 Hst|m Ha|]; [by eapply worker_step_drained| |done].
    rewrite add_new_shape. exact IH.
Qed.

Lemma pool_run_length tr P : pool_run concurrency tr P → length (p_workers P) = concurrency.
Proof.
  induction 1 as [|tr P rs P' _ IH Hst]; [apply length_replicate|].
  destruct Hst as [rs' P1 Hst|m Ha|]; [|by rewrite add_new_shape|done].
  destruct Hst as [| |w id b a| | | |]; simpl; rewrite ?length_insert; try done.
  destruct (after_answer_shape b id a P) as [F ->]. done.
Qed.

(** ** After the shutdown *)
Definition worker_weight (s : worker) : nat :=
  match s with Looping => 1 | Probing _ => 3 | Finishing _ => 2 | Exited => 0 end.
Definition pool_weight P : nat :=
  4 * size (q_dirty (p_queue P)) + sum_list_with worker_weight (p_workers P) + (if p_closed P then 0 else 1).

Lemma weight_moved (ws : list worker) w s0 s :
  ws !! w = Some s0 →
  sum_list_with worker_weight (<[w := s]> ws) + worker_weight s0 = sum_list_with worker_weight ws + worker_weight s.
Proof.
  revert w. induction ws as [|s' ws IH]; intros [|w] Hw; simplify_eq/=; [lia|]. specialize (IH w Hw). lia.
Qed.

Lemma size_minus (x : nat) (X : gset nat) : x ∈ X → S (size (X ∖ {[x]})) = size X.
Proof.
  intros Hx. rewrite size_difference by set_solver. rewrite size_singleton.
  assert (size X ≠ 0); [|lia]. intros ?%size_empty_inv. set_solver.
Qed.

Lemma stopping_step P rs P' :
  pool_inv P → q_shuttingDown (p_queue P) = true → worker_step P rs P' →
  q_shuttingDown (p_queue P') = true ∧ pool_weight P' < pool_weight P.
Proof.
  intros I Hs Hst. unfold pool_weight.
  destruct Hst as [w id q Hw Hg|w Hw Hg|w id b a Hw|w id Hw|id Hd Hs'|Hd Hs'|Hall Hc]; try congruence; simpl.
  - destruct (Get_Item _ _ _ (pl_queue _ I) Hg) as (_ & Hd & _ & -> & _ & ->). split; [done|].
    pose proof (size_minus id _ Hd). pose proof (weight_moved _ _ _ (Probing id) Hw). simpl in *. lia.
  - split; [done|]. pose proof (weight_moved _ _ _ Exited Hw). simpl in *. lia.
  - destruct (after_answer_shape b id a P) as [F ->]. split; [done|]. simpl.
    pose proof (weight_moved _ _ _ (Finishing id) Hw). simpl in *. lia.
  - split; [done|]. pose proof (weight_moved _ _ _ Looping Hw). simpl in *. lia.
  - split; [done|]. rewrite Hc. lia.
Qed.

Definition wstep P P' : Prop := ∃ rs, worker_step P rs P'.

Lemma stopping_terminates tr P :
  prober_run tr (p_prober P) → pool_inv P → q_shuttingDown (p_queue P) = true → sn wstep P.
Proof.
  remember (pool_weight P) as n eqn:Hn. revert tr P Hn. induction n as [n IH] using lt_wf_ind. intros tr P -> Hr I Hs.
  constructor. intros P' [rs Hst]. destruct (stopping_step _ _ _ I Hs Hst) as [Hs' Hlt].
  destruct (worker_step_inv _ _ _ _ Hr I Hst) as [Hr' I']. by eapply IH.
Qed.

Lemma stopping_run tr P P' :
  pool_run concurrency tr P → q_shuttingDown (p_queue P) = true → rtc wstep P P' →
  q_shuttingDown (p_queue P') = true ∧ ∃ tr', pool_run concurrency tr' P'.
Proof.
  intros Hr Hs Hst. revert tr Hr Hs. induction Hst as [|P P1 P' [rs Hst] _ IH]; intros tr Hr Hs; [eauto|].
  destruct (pool_run_inv _ _ Hr) as [_ I]. destruct (stopping_step _ _ _ I Hs Hst) as [Hs' _].
  eapply IH; [|done]. eapply pool_more; [done|by constructor].
Qed.

Lemma stopping_progress P : q_shuttingDown (p_queue P) = true → nf wstep P → Forall (eq Exited) (p_workers P) ∧ p_closed P = true.
Proof.
  intros Hs Hnf.
  assert (Hall : Forall (eq Exited) (p_workers P)).
  { apply Forall_lookup. intros w s Hw. destruct s as [|id|id|]; [| | |done]; destruct Hnf.
    - destruct (Get (p_queue P)) as [| |id q] eqn:Hg.
      + unfold Get in Hg. rewrite Hs in Hg. by destruct (q_queue _).
      + eexists _, _. by apply (ws_exit P w).
      + eexists _, _. by apply (ws_get P w id q).
    - eexists _, _. by apply (ws_answer P w id 0%Z ProbeError).
    - eexists _, _. by apply (ws_done P w id). }
  split; [done|]. destruct (p_closed P) eqn:Hc; [done|]. destruct Hnf. eexists _, _. by apply ws_close.
Qed.

Lemma closed_stuck P :
  Forall (eq Exited) (p_workers P) → q_shuttingDown (p_queue P) = true → p_closed P = true → nf wstep P.
Proof.
  rewrite Forall_lookup. intros Hall Hs Hc (P' & rs & Hst).
  destruct Hst as [w id q Hw Hg|w Hw Hg|w id b a Hw|w id Hw|id Hd Hs'|Hd Hs'|Hall' Hc']; try congruence; by apply Hall in Hw.
Qed.

(** C10: The goroutines of [Start] implement the prober. In every interleaving of the
    workers, the waiting loop, the operations of the controller and the shutdown, what
    the pods reported and what was done about it is a run of [Prober]; the items that
    the queue, the waiting loop and the workers hold are items of its set, and all of
    them as long as the queue is not shut down, so that none is lost; no item is in the
    queue twice or probed by two workers at once. *)
Theorem start_refines tr P (run : pool_run concurrency tr P) :
  prober_run tr (p_prober P) ∧
  (∀ id, held P id → id ∈ workQueue (p_prober P)) ∧
  (q_shuttingDown (p_queue P) = false → ∀ id, id ∈ workQueue (p_prober P) → held P id) ∧
  NoDup (q_queue (p_queue P)) ∧
  (∀ w1 w2 id, p_workers P !! w1 = Some (Probing id) → p_workers P !! w2 = Some (Probing id) → w1 = w2).
Proof.
  destruct (pool_run_inv _ _ run) as [Hr I]. split_and!; [done|apply I|apply I|apply I|].
  intros w1 w2 id H1 H2. by eapply (pl_one _ I).
Qed.

(** C37: The prober stops when its context is done: the queue can then be shut down, and
    after the shutdown every interleaving of its goroutines ends. It ends only when every
    worker has returned and the channel that [Start] made is closed, and no work item is
    then left in the queue; and the channel is closed only then. *)
Theorem prober_stops tr P (run : pool_run concurrency tr P) (stop : p_done P = true) :
  (q_shuttingDown (p_queue P) = false → ∃ P', worker_step P [] P' ∧ q_shuttingDown (p_queue P') = true) ∧
  (q_shuttingDown (p_queue P) = true →
   sn wstep P ∧
   ∀ P', rtc wstep P P' → nf wstep P' →
     p_closed P' = true ∧ Forall (eq Exited) (p_workers P') ∧
     (concurrency ≠ 0 → q_queue (p_queue P') = [] ∧ q_dirty (p_queue P') = ∅)) ∧
  (p_closed P = true → Forall (eq Exited) (p_workers P)).
Proof.
  destruct (pool_run_inv _ _ run) as [Hr I]. split_and!; [|intros Hs; split|apply I].
  - intros Hs. eexists. by split; [apply ws_shutdown|].
  - by eapply stopping_terminates.
  - intros P' Hst Hnf. destruct (stopping_run _ _ _ run Hs Hst) as [Hs' [tr' Hr']].
    destruct (stopping_progress P' Hs' Hnf) as [Hall Hc]. split_and!; [done|done|]. intros Hn.
    apply (pool_run_drained _ _ Hr'); [|done]. intros Hw. pose proof (pool_run_length _ _ Hr') as Hlen. rewrite Hw in Hlen. done.
Qed.
End pool_runs.

(** ** A run: one worker, one pod, which fails once and then reports all partitions *)
Section demo.
#[local] Existing Instance Channel.demo_runtime.

Definition demo_worker (s : worker) (q : Queue nat) (delayed : gset nat) (failures : gmap nat nat) (m : Prober) (stop closed : bool) : Pool :=
  mkPool q delayed failures [s] m stop closed.
Definition demo_items (q : list nat) (d p : gset nat) (shut : bool) : Queue nat := mkQueue q d p shut.

Definition demo_retrying : Pool :=
  demo_worker (Finishing 2) (demo_items [] ∅ {[2]} false) {[2]} {[2 := 1]} (processWorkItem 2 ProbeError (demo_queued 2)) false false.
Definition demo_complete : Prober := processWorkItem 2 (demo_answer [0%Z; 1%Z]) (processWorkItem 2 ProbeError (demo_queued 2)).
Definition demo_stopping : Pool :=
  demo_worker (Finishing 2) (demo_items [] ∅ {[2]} true) ∅ {[2 := 1]} demo_complete true false.
Definition demo_stopped : Pool :=
  demo_worker Exited (demo_items [] ∅ ∅ true) ∅ {[2 := 1]} demo_complete true true.

Definition demo_delayed : Pool := add_new (demo_queued 2) (Start 1).

Definition reached P : Prop := ∃ tr, pool_run 1 tr P.
Lemma reached_worker P rs P' P'' : reached P → worker_step P rs P' → P' = P'' → reached P''.
Proof. intros [tr Hr] Hst <-. exists (tr ++ rs). eapply pool_more; [done|by constructor]. Qed.

Lemma demo_run_delayed : reached demo_delayed.
Proof. eexists. apply (pool_more 1 [] (Start 1) []); [apply pool_start|]. by apply ps_api, api_IsReady. Qed.

Definition demo_probing (failures : gmap nat nat) (m : Prober) : Pool :=
  demo_worker (Probing 2) (demo_items [] ∅ {[2]} false) ∅ failures m false false.

(** The delay of the item passes and the worker takes it. *)
Lemma demo_taken failures m :
  reached (demo_worker Looping (demo_items [] ∅ ∅ false) {[2]} failures m false false) → reached (demo_probing failures m).
Proof.
  intros Hr. apply (reached_worker (demo_worker Looping (demo_items [2] {[2]} ∅ false) ∅ failures m false false) []
    (with_worker 0 (Probing 2) (demo_worker Looping (demo_items [] ∅ {[2]} false) ∅ failures m false false)));
    [|by apply ws_get|reflexivity].
  eapply (reached_worker _ []); [exact Hr|apply (ws_expire _ 2); [simpl; set_solver|reflexivity]|reflexivity].
Qed.

Lemma demo_run_retrying : reached demo_retrying.
Proof.
  eapply (reached_worker (demo_probing ∅ (demo_queued 2))); [|by apply (ws_answer _ 0 2 0%Z ProbeError)|reflexivity].
  apply demo_taken. exact demo_run_delayed.
Qed.

Lemma demo_run_complete : reached (demo_worker (Finishing 2) (demo_items [] ∅ {[2]} false) ∅ {[2 := 1]} demo_complete false false).
Proof.
  eapply (reached_worker (demo_probing {[2 := 1]} (processWorkItem 2 ProbeError (demo_queued 2))));
    [|by apply (ws_answer _ 0 2 0%Z (demo_answer [0%Z; 1%Z]))|].
  2:{ unfold after_answer. assert (outcome_of_probe 2 _ _ = Some OutcomeSucceeded) as -> by (vm_compute; reflexivity). reflexivity. }
  apply demo_taken. eapply (reached_worker _ []); [exact demo_run_retrying|by apply (ws_done _ 0 2)|reflexivity].
Qed.

Lemma demo_run_stopping : reached demo_stopping.
Proof.
  eapply (reached_worker (demo_worker (Finishing 2) (demo_items [] ∅ {[2]} false) ∅ {[2 := 1]} demo_complete true false) []);
    [|by apply ws_shutdown|reflexivity].
  destruct demo_run_complete as [tr Hr]. exists (tr ++ []). eapply pool_more; [exact Hr|apply ps_cancel].
Qed.

Lemma demo_run_stopped : rtc wstep demo_stopping demo_stopped.
Proof.
  eapply rtc_l; [exists []; by apply (ws_done _ 0 2)|]. eapply rtc_l; [exists []; by apply (ws_exit _ 0)|].
  eapply rtc_l; [exists []; apply ws_close; [by repeat constructor|done]|]. apply rtc_refl.
Qed.

Lemma demo_stopped_final : nf wstep demo_stopped.
Proof. apply closed_stuck; [by repeat constructor|done..]. Qed.

Lemma start_refines_witness :
  held demo_retrying 2 ∧ 2 ∈ workQueue (p_prober demo_retrying) ∧
  ∃ tr, pool_run 1 tr demo_retrying ∧ prober_run tr (p_prober demo_retrying).
Proof.
  destruct demo_run_retrying as [tr Hr]. destruct (start_refines 1 tr demo_retrying Hr) as (Hrun & Hheld & _).
  assert (Hh : held demo_retrying 2) by (right; left; exact eq_refl).
  split; [exact Hh|]. split; [apply Hheld; exact Hh|]. exists tr. split; [exact Hr|exact Hrun].
Defined.

Lemma prober_stops_witness :
  sn wstep demo_stopping ∧ rtc wstep demo_stopping demo_stopped ∧ p_closed demo_stopped = true ∧
  q_queue (p_queue demo_stopped) = [].
Proof.
  destruct demo_run_stopping as [tr Hr]. destruct (prober_stops 1 tr demo_stopping Hr eq_refl) as (_ & Hshut & _).
  destruct (Hshut eq_refl) as [Hsn Hend]. destruct (Hend demo_stopped demo_run_stopped demo_stopped_final) as (Hc & _ & Hq).
  split; [exact Hsn|]. split; [exact demo_run_stopped|]. split; [exact Hc|]. apply Hq. discriminate.
Defined.

(** The failure of an item whose probe has succeeded is still counted. *)
Lemma success_keeps_failures :
  reached demo_stopping ∧ ts_ready <$> (states (p_prober demo_stopping) !! 0) = Some true ∧
  p_failures demo_stopping !! 2 = Some 1.
Proof. split; [exact demo_run_stopping|]. split; vm_compute; reflexivity. Qed.
End demo.
