(* ===== verification/Wiring.v ===== *)
(** * Wiring: from the informers to the queues

    What [NewController] of the controller
    ([src/pkg/channel/kt/reconciler/controller/controller.go]) and of the dispatcher
    ([src/pkg/channel/kt/reconciler/dispatcher/kafkachannel.go]) set up: which
    notification of which informer enqueues which keys, refreshes the probing or
    cleans a channel up; and what [NewImpl] and [NewReconciler] of the generated
    code make of the reconcilers and their options.  What these functions read from the
    environment and start is in [Startup].

    The handlers are those of [client-go/tools/cache] and of
    [knative.dev/pkg/controller] that the source composes.  An object of an informer
    is an [Obj]; [Tombstone] is [cache.DeletedFinalStateUnknown], what a deletion
    that the watch missed is notified with. *)
From Stdlib Require Import Ascii.
From S2P Require Import Prelude GoStrings FieldError Conditions ApiTypes Channel Sender KafkaSubscription Dispatcher DispatcherReconciler Prober Resources Controller GenReconciler ItemQueue WorkQueue.

(** ** Objects and filters *)
Inductive Obj :=
  | ChannelObj (c : KafkaTopicChannel)
  | DeploymentObj (d : Deployment)
  | ServiceObj (s : Service)
  | EndpointsObj (e : Endpoints)
  | PodObj (pod : ObjectMeta)
  | Tombstone (key : string) (last : Obj).

(** [obj.(metav1.Object)]. *)
Definition as_object (obj : Obj) : option ObjectMeta :=
  match obj with
  | ChannelObj c => Some (meta c)
  | DeploymentObj d => Some (d_meta d)
  | ServiceObj s => Some (s_meta s)
  | EndpointsObj e => Some (ep_meta e)
  | PodObj pod => Some pod
  | Tombstone _ _ => None
  end.

(** [kmeta.DeletionHandlingAccessor]. *)
Definition DeletionHandlingAccessor (obj : Obj) : option ObjectMeta :=
  match obj with Tombstone _ last => as_object last | _ => as_object obj end.

(** A filter on the metadata: anything that is no [metav1.Object] is left out. *)
Definition on_object (f : ObjectMeta → bool) (obj : Obj) : bool :=
  match as_object obj with Some m => f m | None => false end.

(** [schema.ParseGroupVersion]. *)
Definition ParseGroupVersion (gv : string) : option GroupVersion :=
  if decide (gv = "" ∨ gv = "/") then Some (mkGV "" "")
  else match Split "/"%char gv with
       | [version] => Some (mkGV "" version)
       | [group; version] => Some (mkGV group version)
       | _ => None
       end.

Definition FilterControllerGK (gk : GroupKind) : Obj → bool := on_object (λ m,
  match GetControllerOf m with
  | None => false
  | Some owner =>
      match ParseGroupVersion (or_APIVersion owner) with
      | None => false
      | Some ownerGV => bool_decide (gv_Group ownerGV = gk_Group gk ∧ or_Kind owner = gk_Kind gk)
      end
  end).

(** ** Handlers *)
Section handlers.
Context {P : Type}.

(** [cache.ResourceEventHandler], acting on a state [P]. *)
Record ResourceEventHandler := mkHandler {
  OnAdd : Obj → P → P;
  OnUpdate : Obj → Obj → P → P;
  OnDelete : Obj → P → P;
}.

(** [cache.ResourceEventHandlerFuncs]: a function that is nil does nothing. *)
Definition ResourceEventHandlerFuncs (AddFunc : option (Obj → P → P)) (UpdateFunc : option (Obj → Obj → P → P))
    (DeleteFunc : option (Obj → P → P)) : ResourceEventHandler :=
  mkHandler (default (λ _ p, p) AddFunc) (default (λ _ _ p, p) UpdateFunc) (default (λ _ p, p) DeleteFunc).

Definition PassNew (f : Obj → P → P) : Obj → Obj → P → P := λ _ new, f new.

Definition HandleAll (h : Obj → P → P) : ResourceEventHandler :=
  ResourceEventHandlerFuncs (Some h) (Some (PassNew h)) (Some h).

Definition FilteringResourceEventHandler (filter : Obj → bool) (h : ResourceEventHandler) : ResourceEventHandler :=
  mkHandler
    (λ obj p, if filter obj then OnAdd h obj p else p)
    (λ old new p,
       match filter new, filter old with
       | true, true => OnUpdate h old new p
       | true, false => OnAdd h new p
       | false, true => OnDelete h old p
       | false, false => p
       end)
    (λ obj p, if filter obj then OnDelete h obj p else p).

(** What an informer tells its handlers. *)
Inductive notification := Added (obj : Obj) | Changed (old new : Obj) | Deleted (obj : Obj).

Definition deliver (h : ResourceEventHandler) (x : notification) (p : P) : P :=
  match x with
  | Added obj => OnAdd h obj p
  | Changed old new => OnUpdate h old new p
  | Deleted obj => OnDelete h obj p
  end.

Definition objects_of (x : notification) : list Obj :=
  match x with Added obj | Deleted obj => [obj] | Changed old new => [old; new] end.
End handlers.
Arguments ResourceEventHandler : clear implicits.

(** ** The controller's process *)

(** The work queue and the prober, with the store of the channel informer. *)
Record process := mkProcess {
  p_queue : twoLaneQueue;
  p_prober : Prober;
  p_store : gmap NamespacedName KafkaTopicChannel;
}.
Definition with_queue (q : twoLaneQueue) (p : process) : process := mkProcess q (p_prober p) (p_store p).
Definition with_prober (m : Prober) (p : process) : process := mkProcess (p_queue p) m (p_store p).

Definition key_of (m : ObjectMeta) : NamespacedName := mkNamespacedName (Namespace m) (Name m).

(** [Impl.Enqueue] and [Impl.EnqueueSlow]: an object without metadata is logged. *)
Definition Enqueue (ln : Lane) (obj : Obj) (q : twoLaneQueue) : twoLaneQueue :=
  match DeletionHandlingAccessor obj with
  | None => q
  | Some m => enqueue ln (key_of m) q
  end.

Section controller.
Context `{GoRuntime}.

(** [FilteredGlobalResync] over the store, in the order [n] of its map. *)
Definition FilteredGlobalResync (n : nat) (f : Obj → bool) (store : gmap NamespacedName KafkaTopicChannel)
    (q : twoLaneQueue) : twoLaneQueue :=
  if ShuttingDown q then q
  else foldl (λ q c, if f (ChannelObj c) then Enqueue Slow (ChannelObj c) q else q) q
         (range_order n (map_to_list store).*2).
Definition GlobalResync (n : nat) := FilteredGlobalResync n (λ _, true).

(** [grCh]. *)
Definition grCh (n : nat) (_ : Obj) (p : process) : process := with_queue (GlobalResync n (p_store p) (p_queue p)) p.

Definition channel_handler : ResourceEventHandler process :=
  HandleAll (λ obj p, with_queue (Enqueue Fast obj (p_queue p)) p).

Definition filterFn : Obj → bool := FilterControllerGK (Kind "KafkaTopicChannel").

(** The handlers of deployments, services and endpoints. *)
Definition owned_handler (n : nat) : ResourceEventHandler process :=
  FilteringResourceEventHandler filterFn (HandleAll (grCh n)).

(** [getPodInformerEventHandler]. *)
Definition getPodInformerEventHandler (n : nat) (list_targets : KafkaTopicChannel → string + ProbeTarget)
    (obj : Obj) (p : process) : process :=
  match obj with
  | PodObj _ =>
      let p := with_prober (RefreshPodProbing n list_targets (p_prober p)) p in
      with_queue (GlobalResync n (p_store p) (p_queue p)) p
  | _ => p
  end.

Definition pod_handler (n : nat) (list_targets : KafkaTopicChannel → string + ProbeTarget) : ResourceEventHandler process :=
  let h := getPodInformerEventHandler n list_targets in
  FilteringResourceEventHandler (on_object pod_filter) (ResourceEventHandlerFuncs (Some h) None (Some h)).

(** The ready callback given to the prober. *)
Definition ready_callback (c : KafkaTopicChannel) (s : SubscriberSpec) (p : process) : process :=
  with_queue (enqueue Fast (mkNamespacedName (Namespace (meta c)) (Name (meta c))) (p_queue p)) p.

(** ** Promotion ([PromoteFunc]) *)

(** [MaybeEnqueueBucketKey]; [bkt] is [Bucket.Has]. *)
Definition MaybeEnqueueBucketKey (bkt : NamespacedName → bool) (key : NamespacedName) (q : twoLaneQueue) : twoLaneQueue :=
  if bkt key then enqueue Slow key q else q.

(** [all] is what [lister.List] returns. *)
Definition PromoteFunc (all : string + list KafkaTopicChannel) (bkt : NamespacedName → bool) (q : twoLaneQueue) :
    option string * twoLaneQueue :=
  match all with
  | inl err => (Some err, q)
  | inr all => (None, foldl (λ q elt, MaybeEnqueueBucketKey bkt (key_of (meta elt)) q) q all)
  end.
End controller.

(** ** The dispatcher's process *)
Record dispatcher_process := mkDispatcherProcess { dp_queue : twoLaneQueue; dp_dispatcher : KafkaDispatcher; dp_crashed : bool }.

Section dispatcher.
Context `{KafkaCluster} `{GoRuntime} `{PeriodParser}.

Definition dispatcher_enqueue (obj : Obj) (p : dispatcher_process) : dispatcher_process :=
  mkDispatcherProcess (Enqueue Fast obj (dp_queue p)) (dp_dispatcher p) (dp_crashed p).

(** The [DeleteFunc]: [obj.( *v1alpha1.KafkaTopicChannel)] and the clean up panic
    when they fail; its error is logged. *)
Definition dispatcher_delete (obj : Obj) (p : dispatcher_process) : dispatcher_process :=
  match obj with
  | ChannelObj c =>
      match reconciler_CleanupChannel c (dp_dispatcher p) with
      | (Panic _, d) => mkDispatcherProcess (dp_queue p) d true
      | (_, d) => mkDispatcherProcess (dp_queue p) d (dp_crashed p)
      end
  | _ => mkDispatcherProcess (dp_queue p) (dp_dispatcher p) true
  end.

Definition dispatcher_handler (channelName systemNamespace : string) : ResourceEventHandler dispatcher_process :=
  FilteringResourceEventHandler (on_object (filterWithAnnotation channelName systemNamespace))
    (ResourceEventHandlerFuncs (Some dispatcher_enqueue) (Some (PassNew dispatcher_enqueue)) (Some dispatcher_delete)).

(** The reconciler of the dispatcher as a typed reconciler. *)
Definition dispatcher_method (sync : KafkaTopicChannel → KafkaDispatcher → res string unit * KafkaDispatcher) :
    Method KafkaDispatcher := λ c n d,
  match sync c d with
  | (Ok _, d) => Returned None c n d
  | (Err err, d) => Returned (Some (PlainError err)) c n d
  | (Panic why, _) => Panicked why
  end.
End dispatcher.

(** ** [NewImpl] and [NewReconciler] *)
Section options.
Context {W Store Demote : Type}.

(** The interfaces that the reconciler given to the generated code implements. *)
Record Interface := mkInterface {
  i_ReconcileKind : Method W;
  i_FinalizeKind : option (Method W);
  i_ObserveKind : option (Method W);
  i_ObserveFinalizeKind : option (Method W);
  (** it implements [reconciler.LeaderAware] *)
  i_LeaderAware : bool;
}.

(** [controller.Options]. *)
Record Options := mkOptions {
  ConfigStore : option Store;
  FinalizerName : string;
  AgentName : string;
  SkipStatusUpdates : bool;
  DemoteFunc : option Demote;
}.

(** The generated reconciler with what the options set besides. *)
Record built := mkBuilt { b_impl : reconcilerImpl W; b_configStore : option Store; b_DemoteFunc : option Demote; b_agentName : string }.

Definition defaultControllerAgentName : string := "kafkatopicchannel-controller".

Definition new_built (leader : NamespacedName → bool) (r : Interface) (agent : string) : built :=
  mkBuilt {| IsLeaderFor := leader; r_ReconcileKind := i_ReconcileKind r; r_FinalizeKind := i_FinalizeKind r;
             r_ObserveKind := i_ObserveKind r; r_ObserveFinalizeKind := i_ObserveFinalizeKind r;
             finalizerName := defaultFinalizerName; skipStatusUpdates := false |} None None agent.

Definition set_impl (name : string) (skip : bool) (i : reconcilerImpl W) : reconcilerImpl W :=
  {| IsLeaderFor := IsLeaderFor i; r_ReconcileKind := r_ReconcileKind i; r_FinalizeKind := r_FinalizeKind i;
     r_ObserveKind := r_ObserveKind i; r_ObserveFinalizeKind := r_ObserveFinalizeKind i;
     finalizerName := name; skipStatusUpdates := skip |}.

(** The body of the loop over the options; [NewReconciler] has no agent name. *)
Definition apply_Options (agents : bool) (b : built) (opts : Options) : built :=
  mkBuilt
    (set_impl (if decide (FinalizerName opts = "") then finalizerName (b_impl b) else FinalizerName opts)
       (SkipStatusUpdates opts || skipStatusUpdates (b_impl b)) (b_impl b))
    (match ConfigStore opts with Some s => Some s | None => b_configStore b end)
    (match DemoteFunc opts with Some f => Some f | None => b_DemoteFunc b end)
    (if agents then if decide (AgentName opts = "") then b_agentName b else AgentName opts else b_agentName b).

(** [logger.Fatal] ends the process: [None]. *)
Definition NewImpl (leader : NamespacedName → bool) (r : Interface) (optionsFns : list Options) : option built :=
  if decide (1 < length optionsFns) then None
  else Some (foldl (apply_Options true) (new_built leader r defaultControllerAgentName) optionsFns).

Definition NewReconciler (leader : NamespacedName → bool) (r : Interface) (options : list Options) : option built :=
  if decide (1 < length options) then None
  else if i_LeaderAware r then None
  else Some (foldl (apply_Options false) (new_built leader r "") options).
End options.
Arguments Interface : clear implicits.
Arguments Options : clear implicits.
Arguments built : clear implicits.

(** ** Enqueueing many keys *)
Section enqueue.
Context `{GoRuntime} (threads : nat).
Implicit Types (q : twoLaneQueue) (k : NamespacedName) (x : notification).

(** Enqueueing in the lane [ln] the keys of the list [os] that pass [f]. *)
Lemma enqueue_all_inv {A} ln (f : A → bool) (key : A → NamespacedName) os : ∀ q,
  inv threads q → inv threads (foldl (λ q o, if f o then enqueue ln (key o) q else q) q os).
Proof.
  induction os as [|o os IH]; intros q Hi; [done|]. cbn [foldl]. apply IH. destruct (f o); [by apply enqueue_inv|done].
Qed.

Lemma enqueue_shuttingDown ln ln' k q :
  q_shuttingDown (ln_queue (lane ln' (enqueue ln k q))) = q_shuttingDown (ln_queue (lane ln' q)).
Proof. destruct ln, ln'; simpl; by rewrite ?Add_shuttingDown. Qed.

Lemma enqueue_all_keeps {A} ln (f : A → bool) (key : A → NamespacedName) k os : ∀ q,
  pending k q → pending k (foldl (λ q o, if f o then enqueue ln (key o) q else q) q os).
Proof.
  induction os as [|o os IH]; intros q Hp; [done|]. cbn [foldl]. apply IH. destruct (f o); [by apply enqueue_pending|done].
Qed.

Lemma enqueue_all_pending {A} ln (f : A → bool) (key : A → NamespacedName) o os : ∀ q,
  q_shuttingDown (ln_queue (lane ln q)) = false → o ∈ os → f o = true →
  pending (key o) (foldl (λ q o, if f o then enqueue ln (key o) q else q) q os).
Proof.
  induction os as [|o' os IH]; intros q Hs Hin Hf; [by apply elem_of_nil in Hin|]. cbn [foldl].
  apply elem_of_cons in Hin as [->|Hin].
  - rewrite Hf. apply enqueue_all_keeps. by apply enqueue_accepted.
  - apply IH; [|done|done]. destruct (f o'); [by rewrite enqueue_shuttingDown|done].
Qed.

(** A global resync enqueues every channel of the store. *)
Lemma GlobalResync_eq n store q :
  GlobalResync n store q =
  if ShuttingDown q then q
  else foldl (λ q c, if true then enqueue Slow (key_of (meta c)) q else q) q (range_order n (map_to_list store).*2).
Proof. done. Qed.

Lemma GlobalResync_inv n store q : inv threads q → inv threads (GlobalResync n store q).
Proof.
  intros Hi. rewrite GlobalResync_eq. destruct (ShuttingDown q); [done|].
  by apply (enqueue_all_inv Slow (λ _ : KafkaTopicChannel, true) (λ c, key_of (meta c))).
Qed.

Lemma GlobalResync_pending n store ls q c ref :
  run threads newTwoLaneWorkQueue ls q → ShuttingDown q = false → store !! ref = Some c →
  pending (key_of (meta c)) (GlobalResync n store q).
Proof.
  intros Hrun Hs Hc. rewrite GlobalResync_eq, Hs.
  apply (enqueue_all_pending Slow (λ _ : KafkaTopicChannel, true) (λ c, key_of (meta c))); [| |done].
  - simpl. unfold ShuttingDown in Hs. rewrite <-Hs. by eapply (run_lanes threads); [|exact Hrun].
  - rewrite range_order_perm. apply list_elem_of_fmap. exists (ref, c). split; [done|]. by apply elem_of_map_to_list.
Qed.

(** A filter handler whose objects all pass, or all fail. *)
Lemma owned_delivered n x (p : process) :
  (∀ o, o ∈ objects_of x → filterFn o = true) →
  deliver (owned_handler n) x p = with_queue (GlobalResync n (p_store p) (p_queue p)) p.
Proof.
  intros Hf. destruct x as [o|old new|o]; simpl in *.
  - by rewrite (Hf o) by left.
  - rewrite (Hf new) by (right; left). by rewrite (Hf old) by left.
  - by rewrite (Hf o) by left.
Qed.

Lemma filtered_out {P} filter (h : ResourceEventHandler P) x p :
  (∀ o, o ∈ objects_of x → filter o = false) → deliver (FilteringResourceEventHandler filter h) x p = p.
Proof.
  intros Hf. destruct x as [o|old new|o]; simpl in *.
  - by rewrite (Hf o) by left.
  - rewrite (Hf new) by (right; left). by rewrite (Hf old) by left.
  - by rewrite (Hf o) by left.
Qed.
End enqueue.

(** The object passes the filter of the owned objects. *)
Lemma filterFn_controlled obj m c :
  as_object obj = Some m → GetControllerOf m = Some (ch_controller_ref c) → filterFn obj = true.
Proof. intros Ho Hc. unfold filterFn, FilterControllerGK, on_object. by rewrite Ho, Hc. Qed.

Lemma filterFn_no_controller obj m : as_object obj = Some m → GetControllerOf m = None → filterFn obj = false.
Proof. intros Ho Hc. unfold filterFn, FilterControllerGK, on_object. by rewrite Ho, Hc. Qed.

(** ** Properties of the controller's wiring *)
Section properties.
Context `{GoRuntime} (threads : nat).
Implicit Types (q : twoLaneQueue) (p : process) (x : notification).

(** An object that one of the makers of [Resources] made for [c], or a later
    version of it that still has its owner reference. *)
Definition made_for (obj : Obj) c : Prop :=
  match obj with
  | DeploymentObj d => ∃ args, a_Channel args = c ∧ OwnerReferences (d_meta d) = OwnerReferences (d_meta (MakeDispatcher args))
  | ServiceObj s => ∃ ns, OwnerReferences (s_meta s) = OwnerReferences (s_meta (MakeDispatcherService ns c))
  | _ => False
  end.

(** C20: A change of what the controller made for a channel is noticed: when the informer notifies that a
    dispatcher deployment or a service is added, changed or deleted, every channel
    of the cluster is brought to the reconciler.  In every later run of the work
    queue each key of the store is still held or a worker has started to reconcile
    it, and when no goroutine has work left, a worker has.  The exception is a deletion that the watch missed:
    its notification, a tombstone, does nothing at all. *)
Theorem owned_change_reconciles_channels n x p owner
    (queues : ∃ ls, run threads newTwoLaneWorkQueue ls (p_queue p)) (accepting : ShuttingDown (p_queue p) = false)
    (made : match x with Deleted (Tombstone _ last) => made_for last owner | _ => ∀ o, o ∈ objects_of x → made_for o owner end) :
  let p' := deliver (owned_handler n) x p in
  match x with
  | Deleted (Tombstone _ _) => p' = p
  | _ => ∀ ref c ls' q, p_store p !! ref = Some c → run threads (p_queue p') ls' q →
      let k := key_of (meta c) in
      (pending k q ∨ ∃ w, LStart w k ∈ ls') ∧ (0 < threads → quiescent threads q → ∃ w, LStart w k ∈ ls')
  end.
Proof.
  cbv zeta. destruct queues as [ls queues].
  assert (Hown : (∀ o, o ∈ objects_of x → made_for o owner) → ∀ ref c ls' q, p_store p !! ref = Some c →
    run threads (p_queue (deliver (owned_handler n) x p)) ls' q →
    (pending (key_of (meta c)) q ∨ ∃ w, LStart w (key_of (meta c)) ∈ ls') ∧
    (0 < threads → quiescent threads q → ∃ w, LStart w (key_of (meta c)) ∈ ls')).
  { intros Hmade ref c ls' q stored later. rewrite owned_delivered in later.
    - eapply pending_is_reconciled; [|by eapply GlobalResync_pending|exact later].
      apply GlobalResync_inv. by eapply run_inv; [apply inv_new|].
    - intros o Ho. specialize (Hmade o Ho). destruct o as [| d | s | | |]; try done.
      + destruct Hmade as (args & <- & Hor). apply (filterFn_controlled _ (d_meta d) (a_Channel args)); [done|].
        unfold GetControllerOf. by rewrite Hor.
      + destruct Hmade as (ns & Hor). apply (filterFn_controlled _ (s_meta s) owner); [done|].
        unfold GetControllerOf. by rewrite Hor. }
  destruct x as [o|old new|o]; [by apply Hown..|]. destruct o; try by apply Hown.
  by apply filtered_out; intros o' ->%list_elem_of_singleton.
Qed.

(** What goes unnoticed.  Endpoints have no owner (the cluster makes them from
    the service), so their handler never does anything, nor does it for a service
    that another kind owns; a deletion that the watch missed is dropped for
    deployments, services and endpoints; and the pods of the dispatchers never
    refresh the probing. *)
Theorem unnoticed_changes n list_targets x p :
  ((∀ o, o ∈ objects_of x → ∃ m, as_object o = Some m ∧ GetControllerOf m = None) → deliver (owned_handler n) x p = p) ∧
  (∀ key o, deliver (owned_handler n) (Deleted (Tombstone key o)) p = p) ∧
  ((∀ o, o ∈ objects_of x → ∃ pod args, o = PodObj pod ∧
      (∀ k v, pt_Labels (d_Template (MakeDispatcher args)) !! k = Some v → default ∅ (Labels pod) !! k = Some v)) →
   deliver (pod_handler n list_targets) x p = p).
Proof.
  split_and!.
  - intros Ho. apply filtered_out. intros o (m & Hm & Hc)%Ho. by eapply filterFn_no_controller.
  - intros key o. by apply filtered_out; intros o' ->%list_elem_of_singleton.
  - intros Ho. apply filtered_out. intros o (pod & args & -> & Hl)%Ho.
    change (pod_filter pod = false). assert (Hlab := Hl channelLabelKey "kafka-topic-channel" eq_refl).
    unfold pod_filter. cbn [ChainFilterFuncs]. unfold LabelFilterFunc, mapHasOrDefault. by rewrite Hlab.
Qed.

(** The object whose key a notification of the channel informer enqueues. *)
Definition notified (x : notification) : Obj :=
  match x with Added o | Deleted o => o | Changed _ new => new end.

(** Every notification of the channel informer, a missed deletion included, and
    every call of the ready callback brings the channel to the reconciler, and
    changes nothing else. *)
Theorem channel_event_reconciles x p m ls ls' q
    (queues : run threads newTwoLaneWorkQueue ls (p_queue p)) (accepting : ShuttingDown (p_queue p) = false)
    (object : DeletionHandlingAccessor (notified x) = Some m) :
  let p' := deliver channel_handler x p in
  p_prober p' = p_prober p ∧ p_store p' = p_store p ∧
  (∀ c s, meta c = m → ready_callback c s p = p') ∧
  (run threads (p_queue p') ls' q →
   (pending (key_of m) q ∨ ∃ w, LStart w (key_of m) ∈ ls') ∧
   (0 < threads → quiescent threads q → ∃ w, LStart w (key_of m) ∈ ls')).
Proof.
  cbv zeta. assert (Hd : deliver channel_handler x p = with_queue (enqueue Fast (key_of m) (p_queue p)) p).
  { assert (He : ∀ o, DeletionHandlingAccessor o = Some m →
      with_queue (Enqueue Fast o (p_queue p)) p = with_queue (enqueue Fast (key_of m) (p_queue p)) p).
    { intros o Ho. unfold Enqueue. by rewrite Ho. }
    destruct x; exact (He _ object). }
  rewrite Hd. split_and!; [done|done|by intros c s <-|]. intros later. simpl in later.
  eapply pending_is_reconciled; [|exact (enqueue_accepted Fast (key_of m) (p_queue p) accepting)|exact later].
  apply enqueue_inv. by eapply run_inv; [apply inv_new|].
Qed.

(** Promotion: a replica that becomes the leader of a bucket brings every
    channel of the bucket that the lister knows to the reconciler; when the lister
    fails, nothing is enqueued. *)
Theorem promotion_reconciles_bucket all bkt q c ls ls' q'
    (queues : run threads newTwoLaneWorkQueue ls q) (accepting : ShuttingDown q = false)
    (listed : c ∈ all) (mine : bkt (key_of (meta c)) = true)
    (later : run threads (PromoteFunc (inr all) bkt q).2 ls' q') :
  let k := key_of (meta c) in
  (PromoteFunc (inr all) bkt q).1 = None ∧
  (∀ err, PromoteFunc (inl err) bkt q = (Some err, q)) ∧
  (pending k q' ∨ ∃ w, LStart w k ∈ ls') ∧ (0 < threads → quiescent threads q' → ∃ w, LStart w k ∈ ls').
Proof.
  cbv zeta. split; [done|]. split; [done|]. simpl in later. eapply pending_is_reconciled; [| |exact later].
  - apply (enqueue_all_inv threads Slow (λ elt, bkt (key_of (meta elt))) (λ elt, key_of (meta elt))).
    by eapply run_inv; [apply inv_new|].
  - apply (enqueue_all_pending Slow (λ elt, bkt (key_of (meta elt))) (λ elt, key_of (meta elt))); [|done|done].
    simpl. unfold ShuttingDown in accepting. rewrite <-accepting. by eapply (run_lanes threads); [|exact queues].
Qed.
End properties.

(** ** Properties of the dispatcher's wiring *)
Section dispatcher_properties.
Context `{KafkaCluster} `{GoRuntime} `{PeriodParser}.

(** The metadata of the dispatcher's own channel. *)
Definition own (channelName systemNamespace : string) (m : ObjectMeta) : Prop :=
  Namespace m = systemNamespace ∧ Name m = channelName.

(** A dispatcher serves its own channel alone: its key is enqueued when the
    channel is added or changed, and the channel is cleaned up when it is deleted,
    which ends the process if the channel has no address; notifications of any
    other channel, and a missed deletion of its own, do nothing. *)
Theorem dispatcher_handler_spec channelName systemNamespace p :
  let h := dispatcher_handler channelName systemNamespace in
  (∀ c, own channelName systemNamespace (meta c) →
     deliver h (Added (ChannelObj c)) p = dispatcher_enqueue (ChannelObj c) p ∧
     (∀ old, own channelName systemNamespace (meta old) →
        deliver h (Changed (ChannelObj old) (ChannelObj c)) p = dispatcher_enqueue (ChannelObj c) p) ∧
     deliver h (Deleted (ChannelObj c)) p =
       mkDispatcherProcess (dp_queue p) (handle_delete channelName systemNamespace c (dp_dispatcher p)).2
         (match (handle_delete channelName systemNamespace c (dp_dispatcher p)).1 with Panic _ => true | _ => dp_crashed p end)) ∧
  (∀ x, (∀ o, o ∈ objects_of x → ∀ m, as_object o = Some m → ¬ own channelName systemNamespace m) → deliver h x p = p).
Proof.
  cbv zeta. split.
  - intros c Hc. assert (Hf : ∀ c, own channelName systemNamespace (meta c) →
      on_object (filterWithAnnotation channelName systemNamespace) (ChannelObj c) = true).
    { intros c' [Hns Hn]. unfold on_object, filterWithAnnotation, NameAndNamespaceFilterFunc. simpl. by rewrite bool_decide_true. }
    assert (Hf' := Hf c Hc). split_and!.
    + simpl. by rewrite Hf'.
    + intros old Hold. simpl. rewrite Hf'. by rewrite (Hf old Hold).
    + simpl. rewrite Hf'. unfold handle_delete. change (on_object _ _) with (filterWithAnnotation channelName systemNamespace (meta c)) in Hf'.
      rewrite Hf'. simpl. destruct (reconciler_CleanupChannel c (dp_dispatcher p)) as [[|e|why] d]; done.
  - intros x Hx. apply filtered_out. intros o Ho. unfold on_object. destruct (as_object o) as [m|] eqn:Hm; [|done].
    unfold filterWithAnnotation, NameAndNamespaceFilterFunc. rewrite bool_decide_false; [done|]. intros Hown. by destruct (Hx o Ho m Hm).
Qed.
End dispatcher_properties.

(** ** Properties of the constructors *)
Section constructors.
Context {W Store Demote : Type}.
Implicit Types (leader : NamespacedName → bool) (i : Interface W).

(** [NewImpl] and [NewReconciler] build the same reconciler from the same
    options, up to the agent name; the finalizer is the default one unless the
    options name another, and the status is updated unless they say not to. *)
Theorem NewImpl_NewReconciler leader i (opts : list (Options Store Demote)) :
  i_LeaderAware i = false →
  match NewImpl leader i opts, NewReconciler leader i opts with
  | Some b, Some b' =>
      b_impl b = b_impl b' ∧ b_configStore b = b_configStore b' ∧ b_DemoteFunc b = b_DemoteFunc b' ∧
      skipStatusUpdates (b_impl b) = existsb SkipStatusUpdates opts ∧
      finalizerName (b_impl b) = match opts with
                                 | o :: _ => if decide (FinalizerName o = "") then defaultFinalizerName else FinalizerName o
                                 | [] => defaultFinalizerName
                                 end
  | None, None => 1 < length opts
  | _, _ => False
  end.
Proof.
  intros Hla. unfold NewImpl, NewReconciler. rewrite Hla. destruct (decide (1 < length opts)); [done|].
  destruct opts as [|o [|? ?]]; [done| |simpl in *; lia]. simpl. split_and!; try done.
Qed.
End constructors.

(** The dispatcher of [NewController], of which only the status option is set. *)
Section dispatcher_impl.
Context `{KafkaCluster} `{GoRuntime} `{PeriodParser} `{ApiClient}.

Definition dispatcher_interface : Interface KafkaDispatcher :=
  {| i_ReconcileKind := dispatcher_method dispatcher_ReconcileKind; i_FinalizeKind := None;
     i_ObserveKind := Some (dispatcher_method dispatcher_ObserveKind); i_ObserveFinalizeKind := None; i_LeaderAware := false |}.
Definition dispatcher_options : Options () () := mkOptions None "" "" true None.

(** A dispatcher never writes to the API server: the reconciler that
    [NewController] makes of it, which has no finalizer and skips status updates,
    leaves the channel as it is, for leaders and followers alike and whatever
    syncing the channel answers. *)
Theorem dispatcher_never_writes leader b key st
    (made : NewImpl leader dispatcher_interface [dispatcher_options] = Some b) :
  g_writes (Reconcile (b_impl b) key st).2 = g_writes st.
Proof.
  injection made as <-. unfold Reconcile, newState.
  destruct (SplitMetaNamespaceKey key) as [[ns name]|]; [|done].
  destruct (isNotLeaderNorObserver _); [done|]. unfold lister_Get.
  destruct (match channel_lister_error _ with Some err => _ | None => _ end) as [err|[original|]]; [done| |done].
  assert (Hfin : ∀ r s c e st0, skipStatusUpdates r = true → g_writes (finish r s original c e st0).2 = g_writes (W:=KafkaDispatcher) st0).
  { intros r s c e st0 Hskip. unfold finish. rewrite Hskip. apply report_event_writes. }
  unfold reconcileMethodFor. simpl. destruct (DeletionTimestamp (meta original)).
  - by destruct (leader _).
  - destruct (leader _).
    + unfold reconcile_case, setFinalizerIfFinalizer. simpl. unfold run_method.
      destruct (dispatcher_method _ _ _ _) as [e c n w|why]; [|done]. simpl. by rewrite Hfin.
    + simpl. unfold run_method. destruct (dispatcher_method _ _ _ _) as [e c n w|why]; [|done]. by rewrite Hfin.
Qed.
End dispatcher_impl.

(** ** Witnesses *)
Section demo.
#[local] Existing Instance Channel.demo_runtime.

Definition demo_process : process := mkProcess newTwoLaneWorkQueue NewProber {[mkNamespacedName "ns" "ch" := demo_kc []]}.
Definition demo_made : notification := Added (DeploymentObj (MakeDispatcher (demo_resource_args "ch"))).

Lemma owned_change_reconciles_channels_witness :
  pending (mkNamespacedName "ns" "ch") (p_queue (deliver (owned_handler 0) demo_made demo_process)) ∧
  deliver (owned_handler 0) (Deleted (Tombstone "ns/d" (DeploymentObj (MakeDispatcher (demo_resource_args "ch"))))) demo_process =
    demo_process.
Proof.
  split.
  - destruct (owned_change_reconciles_channels 1 0 demo_made demo_process (a_Channel (demo_resource_args "ch"))
      (ex_intro _ [] (run_nil _ _)) eq_refl
      ltac:(intros o ->%list_elem_of_singleton; by exists (demo_resource_args "ch"))
      (mkNamespacedName "ns" "ch") (demo_kc []) [] (p_queue (deliver (owned_handler 0) demo_made demo_process)) eq_refl (run_nil _ _))
      as [[Hp|[w Hw]] _]; [exact Hp|by apply elem_of_nil in Hw].
  - exact (owned_change_reconciles_channels 1 0
      (Deleted (Tombstone "ns/d" (DeploymentObj (MakeDispatcher (demo_resource_args "ch"))))) demo_process
      (a_Channel (demo_resource_args "ch")) (ex_intro _ [] (run_nil _ _)) eq_refl
      (ex_intro _ (demo_resource_args "ch") (conj eq_refl eq_refl))).
Defined.

Lemma channel_event_reconciles_witness :
  pending (mkNamespacedName "ns" "ch")
    (p_queue (deliver channel_handler (Deleted (Tombstone "ns/ch" (ChannelObj (demo_kc [])))) demo_process)).
Proof.
  destruct (channel_event_reconciles 1 (Deleted (Tombstone "ns/ch" (ChannelObj (demo_kc [])))) demo_process
    (meta (demo_kc [])) [] []
    (p_queue (deliver channel_handler (Deleted (Tombstone "ns/ch" (ChannelObj (demo_kc [])))) demo_process))
    (run_nil _ _) eq_refl eq_refl) as (_ & _ & _ & Hp).
  destruct (Hp (run_nil _ _)) as [[Hk|[w Hw]] _]; [exact Hk|by apply elem_of_nil in Hw].
Defined.

Lemma promotion_reconciles_bucket_witness :
  pending (mkNamespacedName "ns" "ch") (PromoteFunc (inr [demo_kc []]) (λ _, true) newTwoLaneWorkQueue).2.
Proof.
  destruct (promotion_reconciles_bucket 1 [demo_kc []] (λ _, true) newTwoLaneWorkQueue (demo_kc []) [] [] _
    (run_nil _ _) eq_refl (list_elem_of_here _ _) eq_refl (run_nil _ _)) as (_ & _ & [Hk|[w Hw]] & _); [exact Hk|by apply elem_of_nil in Hw].
Defined.

Lemma NewImpl_NewReconciler_witness :
  option_map (finalizerName ∘ b_impl) (NewImpl (Store:=()) (Demote:=()) (demo_leader true)
    (mkInterface (λ c n (w : ()), Returned None c n w) None None None false) [mkOptions None "mine" "" false None]) = Some "mine".
Proof.
  pose proof (NewImpl_NewReconciler (Store:=()) (Demote:=()) (demo_leader true)
    (mkInterface (λ c n (w : ()), Returned None c n w) None None None false) [mkOptions None "mine" "" false None] eq_refl) as Hs.
  destruct (NewImpl _ _ _) as [b|] eqn:E; [|discriminate E].
  destruct (NewReconciler _ _ _) as [b'|]; [|destruct Hs]. destruct Hs as (_ & _ & _ & _ & Hn). simpl. rewrite Hn. reflexivity.
Defined.

#[local] Existing Instance Dispatcher.demo_cluster.
#[local] Existing Instance Sender.demo_parser.
#[local] Existing Instance GenReconciler.demo_api.

Lemma dispatcher_never_writes_witness :
  ∃ b, NewImpl (demo_leader true) dispatcher_interface [dispatcher_options] = Some b ∧
    g_writes (Reconcile (b_impl b) "ns/ch"
      (mkGState {[mkNamespacedName "ns" "ch" := demo_listed None]} (empty_dispatcher "topic") 0 0 [] [])).2 = [].
Proof. eexists. split; [reflexivity|]. exact (dispatcher_never_writes _ _ "ns/ch" _ eq_refl). Defined.
End demo.
