(* ===== verification/Process.v ===== *)
(** * Process: informer, work queue and reconciler of one process

    Puts the pieces of a running controller together: the informer updates its
    cache and notifies the handlers later, in order ([Wiring]), the queue brings the
    key to a worker ([WorkQueue]), the worker runs the generated reconciler on it
    ([GenReconciler]) and its answer decides whether the key comes back.  Everything
    interleaves: a worker holds a key from its start to its return, and in between
    the cache may change; [Reconcile] reads it as it was at some moment of that time.
    Its effects on the rest of the state are taken at its return.

    What a process does with a notification, and what its goroutines outside of the
    reconciler do to the state that the reconciler works on, is given by [Handlers]. *)
From Stdlib Require Import Ascii.
From S2P Require Import Prelude GoStrings ApiTypes Channel Resources Controller GenReconciler ItemQueue WorkQueue Wiring.

(** [safeKey] of [knative.dev/pkg/controller]. *)
Definition safeKey (key : NamespacedName) : string :=
  if decide (nn_Namespace key = "") then nn_Name key else nn_Namespace key +:+ "/" +:+ nn_Name key.

(** What the worker makes of the answer ([processNextWorkItem], [handleErr]); a
    panic ends the process. *)
Definition outcome_of (ret : reconcile_return) : option outcome :=
  match ret with
  | GenReconciler.Forget => Some Succeeded
  | SkipKey => Some Skipped
  | Requeue _ => Some (Failed false)
  | Crash _ => None
  end.

Abbreviation Cache := (gmap NamespacedName KafkaTopicChannel).

(** What the informer does to its cache ([HandleDeltas]). *)
Definition observe (x : notification) (cache : Cache) : Cache :=
  match x with
  | Added (ChannelObj c) | Changed _ (ChannelObj c) => <[key_of (meta c) := c]> cache
  | Deleted o => match DeletionHandlingAccessor o with Some m => delete (key_of m) cache | None => cache end
  | _ => cache
  end.

(** The key of a worker is taken apart again by the reconciler. *)
Lemma safeKey_split key :
  free_of "/"%char (nn_Namespace key) → free_of "/"%char (nn_Name key) →
  SplitMetaNamespaceKey (safeKey key) = Some (nn_Namespace key, nn_Name key).
Proof.
  intros Hns Hn. unfold safeKey, SplitMetaNamespaceKey. destruct (decide _) as [->|Hne].
  - by rewrite Split_free.
  - change (nn_Namespace key +:+ "/" +:+ nn_Name key) with (Join "/" [nn_Namespace key; nn_Name key]).
    by rewrite Split_Join by (repeat constructor; done).
Qed.

(** The handlers of the informer of a process: what a notification does to the queue and
    to the state [W], [None] for a panic, with the key that it enqueues; and the changes
    that the rest of the process makes to that state between reconciliations. *)
Record Handlers (W : Type) := mkHandlers {
  handle : notification → twoLaneQueue * W → option (twoLaneQueue * W);
  enqueues : notification → option NamespacedName;
  drift : W → W → Prop;
  handle_queue x q w q' w' : handle x (q, w) = Some (q', w') →
    q' = match enqueues x with Some key => enqueue Fast key q | None => q end;
}.
Arguments mkHandlers {W} _ _ _ _.
Arguments handle {W} h x.
Arguments enqueues {W} h x.
Arguments drift {W} h w w'.
Arguments handle_queue {W} h x q w q' w'.

Section process.
Context {W : Type} `{GoRuntime} `{ApiClient} (r : reconcilerImpl W) (hs : Handlers W) (threads : nat).

Definition g_set_lister (cache : Cache) (st : GState W) : GState W :=
  mkGState cache (g_inner st) (g_clock st) (g_calls st) (g_writes st) (g_events st).

(** [pr_pending]: the notifications that the listener of the handler still holds;
    [pr_seen]: the caches since the start of each busy worker. *)
Record Process := mkProc {
  pr_queue : twoLaneQueue;
  pr_state : GState W;
  pr_pending : list notification;
  pr_seen : gmap nat (list Cache);
}.

Inductive event :=
  | Cached (x : notification)
  | Notified (x : notification)
  | Started (w : nat) (key : NamespacedName)
  | Reconciled (w : nat) (key : NamespacedName) (st : GState W)
  | Moved (l : label)
  | Drifted.

(** The step of the queue that an event is. *)
Definition label_of (e : event) : option label :=
  match e with
  | Cached _ | Drifted => None
  | Notified x => LAdd Fast <$> enqueues hs x
  | Started w key => Some (LStart w key)
  | Reconciled w key st => LReturn w key <$> outcome_of (Reconcile r (safeKey key) st).1
  | Moved l => Some l
  end.
Definition labels (es : list event) : list label := omap label_of es.

(** Steps of the queue in which no worker takes part: what else enqueues keys
    (resyncs, promotions, the ready callback), its goroutines, the shutdown. *)
Definition plain (l : label) : Prop := match l with LStart _ _ | LReturn _ _ _ => False | _ => True end.

Inductive process_step (p : Process) : event → Process → Prop :=
  | ps_cached x :
      process_step p (Cached x)
        (let cache := observe x (g_lister (pr_state p)) in
         mkProc (pr_queue p) (g_set_lister cache (pr_state p)) (pr_pending p ++ [x])
           ((λ seen, seen ++ [cache]) <$> pr_seen p))
  | ps_notified x pending q w :
      pr_pending p = x :: pending → handle hs x (pr_queue p, g_inner (pr_state p)) = Some (q, w) →
      process_step p (Notified x) (mkProc q (g_set_inner w (pr_state p)) pending (pr_seen p))
  | ps_started w key q :
      step threads (pr_queue p) (LStart w key) q →
      process_step p (Started w key)
        (mkProc q (pr_state p) (pr_pending p) (<[w := [g_lister (pr_state p)]]> (pr_seen p)))
  | ps_reconciled w key seen cache o q :
      pr_seen p !! w = Some seen → cache ∈ seen →
      let st := g_set_lister cache (pr_state p) in
      outcome_of (Reconcile r (safeKey key) st).1 = Some o →
      step threads (pr_queue p) (LReturn w key o) q →
      process_step p (Reconciled w key st)
        (mkProc q (g_set_lister (g_lister (pr_state p)) (Reconcile r (safeKey key) st).2) (pr_pending p)
           (delete w (pr_seen p)))
  | ps_moved l q :
      plain l → step threads (pr_queue p) l q →
      process_step p (Moved l) (mkProc q (pr_state p) (pr_pending p) (pr_seen p))
  | ps_drifted w :
      drift hs (g_inner (pr_state p)) w →
      process_step p Drifted (mkProc (pr_queue p) (g_set_inner w (pr_state p)) (pr_pending p) (pr_seen p)).

Inductive process_run : Process → list event → Process → Prop :=
  | pr_nil p : process_run p [] p
  | pr_cons p e p' es p'' : process_step p e p' → process_run p' es p'' → process_run p (e :: es) p''.

(** ** The process runs the queue *)
Lemma process_step_queue p e p' :
  process_step p e p' →
  match label_of e with Some l => step threads (pr_queue p) l (pr_queue p') | None => pr_queue p' = pr_queue p end.
Proof.
  destruct 1 as [x|x pending q w Hp Hm|w key q Hs|w key seen cache o q Hw Hc st Ho Hs|l q Hl Hs|w Hd]; simpl; [done| |done| |done..].
  - apply handle_queue in Hm as ->. destruct (enqueues hs x); [apply step_add|done].
  - subst st. by rewrite Ho.
Qed.

Lemma process_run_queue p es p' : process_run p es p' → run threads (pr_queue p) (labels es) (pr_queue p').
Proof.
  induction 1 as [|p e p1 es p' Hstep _ IH]; [constructor|]. apply process_step_queue in Hstep. unfold labels. cbn [omap list_omap].
  destruct (label_of e); [by econstructor|]. by rewrite <-Hstep.
Qed.

Lemma labels_split es : ∀ ls1 l ls2,
  labels es = ls1 ++ l :: ls2 →
  ∃ es1 e es2, es = es1 ++ e :: es2 ∧ label_of e = Some l ∧ labels es2 = ls2.
Proof.
  induction es as [|e es IH]; intros ls1 l ls2 Hls; [by destruct ls1|]. unfold labels in Hls. cbn [omap list_omap] in Hls.
  destruct (label_of e) as [l'|] eqn:He.
  - destruct ls1 as [|l1 ls1]; injection Hls as -> Hls; [by exists [], e, es|].
    destruct (IH _ _ _ Hls) as (es1 & e' & es2 & -> & He' & Hes). by exists (e :: es1), e', es2.
  - destruct (IH _ _ _ Hls) as (es1 & e' & es2 & -> & He' & Hes). by exists (e :: es1), e', es2.
Qed.

Lemma process_run_app es1 : ∀ p es2 p', process_run p (es1 ++ es2) p' → ∃ p1, process_run p es1 p1 ∧ process_run p1 es2 p'.
Proof.
  induction es1 as [|e es1 IH]; intros p es2 p' Hrun; [exists p; split; [constructor|done]|].
  inversion Hrun as [|? ? p2 ? ? Hstep Hrun']; subst. destruct (IH _ _ _ Hrun') as (p1 & H1 & H2).
  exists p1. split; [by econstructor|done].
Qed.

Lemma process_run_trans p es1 p1 es2 p' : process_run p es1 p1 → process_run p1 es2 p' → process_run p (es1 ++ es2) p'.
Proof. intros H1 H2. induction H1; [done|]. econstructor; [done|]. by apply IHprocess_run. Qed.

(** Steps of the queue alone. *)
Lemma process_run_moved st pending seen q ls q' :
  run threads q ls q' → Forall plain ls → process_run (mkProc q st pending seen) (Moved <$> ls) (mkProc q' st pending seen).
Proof.
  induction 1 as [|q l q1 ls q' Hstep _ IH]; intros Hls; [constructor|]. apply Forall_cons in Hls as [Hl Hls].
  econstructor; [by apply ps_moved|]. by apply IH.
Qed.

Lemma process_run_cons e es p p' : process_run p (e :: es) p' → ∃ p1, process_step p e p1 ∧ process_run p1 es p'.
Proof. inversion 1; subst. eauto. Qed.

Lemma started_label p e p' w key : process_step p e p' → label_of e = Some (LStart w key) → e = Started w key.
Proof.
  destruct 1 as [x|x pending q w0 Hp Hm|w' key' q Hs|w' key' seen cache o q Hw Hc st Ho Hs|l q Hl Hs|w0 Hd]; simpl; try done.
  - by destruct (enqueues hs x).
  - by intros [= -> ->].
  - subst st. by rewrite Ho.
  - by intros [= ->].
Qed.

Lemma reconciled_label p e p' w key o :
  process_step p e p' → label_of e = Some (LReturn w key o) →
  ∃ seen cache, pr_seen p !! w = Some seen ∧ cache ∈ seen ∧
    e = Reconciled w key (g_set_lister cache (pr_state p)) ∧
    outcome_of (Reconcile r (safeKey key) (g_set_lister cache (pr_state p))).1 = Some o.
Proof.
  destruct 1 as [x|x pending q w0 Hp Hm|w' key' q Hs|w' key' seen cache o' q Hw Hc st Ho Hs|l q Hl Hs|w0 Hd]; simpl; try done.
  - by destruct (enqueues hs x).
  - subst st. rewrite Ho. intros [= -> -> ->]. by exists seen, cache.
  - by intros [= ->].
Qed.

Lemma reconciled_outcome p es p' w key st :
  process_run p es p' → Reconciled w key st ∈ es → ∃ o, LReturn w key o ∈ labels es.
Proof.
  induction 1 as [|p e p1 es p' Hstep _ IH]; [by intros ?%elem_of_nil|]. unfold labels. cbn [omap list_omap].
  intros [<-|[o Ho]%IH]%elem_of_cons.
  - assert (Ho : ∃ o, outcome_of (Reconcile r (safeKey key) st).1 = Some o) by (inversion Hstep; eauto).
    destruct Ho as [o Ho]. exists o. simpl. rewrite Ho. left.
  - exists o. destruct (label_of e); [by right|done].
Qed.

(** ** What the caches say about a key *)

(** The cache, and what worker [w] may have read, have [found] for [key]. *)
Definition agreed (key : NamespacedName) (found : option KafkaTopicChannel) (w : nat) (p : Process) : Prop :=
  g_lister (pr_state p) !! key = found ∧
  ∀ seen cache, pr_seen p !! w = Some seen → cache ∈ seen → cache !! key = found.

(** A change of the object of [key] in the cache. *)
Definition about (key : NamespacedName) (e : event) : Prop :=
  match e with
  | Cached x => key_of <$> DeletionHandlingAccessor (notified x) = Some key
  | _ => False
  end.

Lemma observe_other x cache key : ¬ about key (Cached x) → observe x cache !! key = cache !! key.
Proof.
  intros Hn. simpl in Hn. destruct x as [[c|d|s|e|pod|k o]|old [c|d|s|e|pod|k o]|o]; simpl in *; try done.
  1, 2: rewrite lookup_insert_ne; [done|congruence].
  destruct (DeletionHandlingAccessor o) as [m|]; [|done]. simpl in Hn. rewrite lookup_delete_ne; [done|congruence].
Qed.

Lemma lister_step key p e p' :
  process_step p e p' → ¬ about key e → g_lister (pr_state p') !! key = g_lister (pr_state p) !! key.
Proof. destruct 1; intros Hn; simpl; [by apply observe_other|done..]. Qed.

Lemma lister_run key p es p' :
  process_run p es p' → Forall (λ e, ¬ about key e) es → g_lister (pr_state p') !! key = g_lister (pr_state p) !! key.
Proof.
  induction 1 as [|p e p1 es p' Hstep _ IH]; [done|]. intros [He Hes]%Forall_cons. rewrite IH by done. by eapply lister_step.
Qed.

Lemma agreed_step key found w p e p' :
  process_step p e p' → ¬ about key e → agreed key found w p → agreed key found w p'.
Proof.
  intros Hstep Hn [Hl Hseen]. split; [by rewrite (lister_step _ _ _ _ Hstep)|].
  destruct Hstep as [x|x pending q w0 Hp Hm|w' key' q Hs|w' key' seen cache o q Hw Hc st Ho Hs|l q Hp Hs|w0 Hd]; simpl in *.
  - intros seen cache. rewrite lookup_fmap_Some. intros (seen' & <- & Hw).
    rewrite elem_of_app, list_elem_of_singleton. intros [Hin| ->]; [by eapply Hseen|]. by rewrite observe_other.
  - done.
  - intros seen cache. rewrite lookup_insert_Some. intros [[_ <-]|[_ Hw]]; [|by eapply Hseen].
    by intros ->%list_elem_of_singleton.
  - intros seen' cache'. rewrite lookup_delete_Some. intros [_ Hw']. by eapply Hseen.
  - done.
  - done.
Qed.

Lemma agreed_run key found w p es p' :
  process_run p es p' → Forall (λ e, ¬ about key e) es → agreed key found w p → agreed key found w p'.
Proof.
  induction 1 as [|p e p1 es p' Hstep _ IH]; intros Hes Ha; [done|]. apply Forall_cons in Hes as [He Hes].
  apply IH; [done|]. by eapply agreed_step.
Qed.

(** A pending notification has been delivered when none is pending; what is still
    pending then had been held behind it, or was cached meanwhile. *)
Definition cached_in (es : list event) : list notification := omap (λ e, match e with Cached x => Some x | _ => None end) es.

Lemma pending_delivered x p es p' l l' :
  process_run p es p' → pr_pending p = l ++ x :: l' → pr_pending p' = [] →
  ∃ es1 pa pb es2, es = es1 ++ Notified x :: es2 ∧ process_run p es1 pa ∧ process_step pa (Notified x) pb ∧
    process_run pb es2 p' ∧ pr_pending pb = l' ++ cached_in es1.
Proof.
  intros Hrun. revert l l'. induction Hrun as [p|p e p1 es p' Hstep Hrun IH]; intros l l' Hp Hnil; [by rewrite Hnil in Hp; destruct l|].
  assert (Hkeep : (pr_pending p1 = pr_pending p ∧ cached_in [e] = []) ∨ (∃ y, e = Cached y ∧ pr_pending p1 = pr_pending p ++ [y]) ∨
    ∃ y, e = Notified y ∧ pr_pending p = y :: pr_pending p1) by (destruct Hstep; simpl; eauto).
  destruct Hkeep as [[Hsame He]|[(y & -> & Happ)|(y & -> & Hpop)]].
  - destruct (IH l l') as (es1 & pa & pb & es2 & -> & Ha & Hb & Hc & Hd); [by rewrite Hsame|done|].
    exists (e :: es1), pa, pb, es2. split_and!; [done|by econstructor|done|done|]. rewrite Hd. f_equal. unfold cached_in in *.
    cbn [omap list_omap] in *. by destruct (match e with Cached x => Some x | _ => None end).
  - destruct (IH l (l' ++ [y])) as (es1 & pa & pb & es2 & -> & Ha & Hb & Hc & Hd); [by rewrite Happ, Hp, <-app_assoc|done|].
    exists (Cached y :: es1), pa, pb, es2. split_and!; [done|by econstructor|done|done|]. by rewrite Hd, <-app_assoc.
  - rewrite Hp in Hpop. destruct l as [|z l].
    + injection Hpop as <- Hl. exists [], p, p1, es. split_and!; [done|constructor|done|done|]. by rewrite <-Hl, app_nil_r.
    + injection Hpop as <- Hl. destruct (IH l l') as (es1 & pa & pb & es2 & -> & Ha & Hb & Hc & Hd); [done|done|].
      exists (Notified z :: es1), pa, pb, es2. split_and!; [done|by econstructor|done|done|done].
Qed.

(** The start and the return of the last reconciliation of a key, as events. *)
Lemma last_reconciliation key p es p' ls1 w ls2 o ls3 :
  process_run p es p' → labels es = ls1 ++ LStart w key :: ls2 ++ LReturn w key o :: ls3 →
  Forall (λ e, ¬ about key e) es →
  ∃ es1 st es2 p2, es = es1 ++ Reconciled w key st :: es2 ∧ process_run p2 es2 p' ∧ labels es2 = ls3 ∧
    g_lister st !! key = g_lister (pr_state p) !! key ∧ outcome_of (Reconcile r (safeKey key) st).1 = Some o.
Proof.
  intros Hrun Hls Hes. destruct (labels_split _ _ _ _ Hls) as (e1 & estart & rest & -> & Hstart & Hrest).
  destruct (labels_split _ _ _ _ Hrest) as (e2 & er & e3 & -> & Hret & Hls3).
  apply process_run_app in Hrun as (p1 & Hrun1 & Hrun). apply process_run_cons in Hrun as (p2 & Hs & Hrun).
  apply process_run_app in Hrun as (p3 & Hrun2 & Hrun). apply process_run_cons in Hrun as (p4 & Hr & Hrun3).
  apply Forall_app in Hes as [Hes1 Hes]. apply Forall_cons in Hes as [Hess Hes]. apply Forall_app in Hes as [Hes2 _].
  pose proof (lister_run _ _ _ _ Hrun1 Hes1) as Hl1.
  assert (Ha : agreed key (g_lister (pr_state p1) !! key) w p2).
  { assert (estart = Started w key) as -> by (by eapply started_label). inversion Hs; subst. split; simpl; [done|].
    intros seen cache. rewrite lookup_insert_eq. intros [= <-] ->%list_elem_of_singleton. done. }
  pose proof (agreed_run _ _ _ _ _ _ Hrun2 Hes2 Ha) as [_ Hseen].
  destruct (reconciled_label _ _ _ _ _ _ Hr Hret) as (seen & cache & Hw & Hc & -> & Ho).
  eexists (e1 ++ estart :: e2), _, e3, p4. split_and!; [by rewrite <-app_assoc|done|done| |exact Ho].
  simpl. rewrite <-Hl1. by eapply Hseen.
Qed.

Lemma labels_running es : Moved LShutDown ∉ es → LShutDown ∉ labels es.
Proof.
  intros Hn (e & Hin & He)%list_elem_of_omap. destruct e as [x|x|w k|w k st|l|]; simpl in He; try discriminate He.
  - destruct (enqueues hs x); discriminate He.
  - destruct (outcome_of _); discriminate He.
  - by injection He as ->.
Qed.

(** From the enqueueing of a key to its last reconciliation. *)
Lemma enqueued_settles key p es p' :
  inv threads (pr_queue p) → pending key (pr_queue p) → ShuttingDown (pr_queue p) = false →
  process_run p es p' → Forall (λ e, ¬ about key e) es → Moved LShutDown ∉ es → 0 < threads → quiescent threads (pr_queue p') →
  ∃ es1 w st es2, es = es1 ++ Reconciled w key st :: es2 ∧ g_lister st !! key = g_lister (pr_state p) !! key ∧
    ((Reconcile r (safeKey key) st).1 = GenReconciler.Forget ∨ (Reconcile r (safeKey key) st).1 = SkipKey) ∧
    (∀ w' st', Reconciled w' key st' ∉ es2).
Proof.
  intros Hi Hp Hs Hrun Hes Hnd Hth Hq. pose proof (process_run_queue _ _ _ Hrun) as Hrunq.
  destruct (settled threads key _ _ _ Hi Hp Hrunq (labels_running _ Hnd) Hs Hth Hq)
    as (ls1 & w & ls2 & o & ls3 & Hls & Ho & _ & Hnr).
  destruct (last_reconciliation key _ _ _ _ _ _ _ _ Hrun Hls Hes) as (es1 & st & es2 & p2 & -> & Hrun2 & Hes2 & Hst & Hout).
  exists es1, w, st, es2. split_and!; [done|done| |].
  - destruct (Reconcile r (safeKey key) st).1; simpl in Hout; [by left|by right|congruence|done].
  - intros w' st' Hin. destruct (reconciled_outcome _ _ _ _ _ _ Hrun2 Hin) as [o' Ho']. rewrite Hes2 in Ho'. by destruct (Hnr w' o').
Qed.

(** A change that was delivered had enqueued its key; what is pending then was cached
    after it. *)
Lemma change_enqueued p0 es0 p x key p1 es p2
    (fresh : pr_queue p0 = newTwoLaneWorkQueue) (before : process_run p0 es0 p)
    (accepting : ShuttingDown (pr_queue p) = false)
    (notice : enqueues hs x = Some key)
    (change : process_step p (Cached x) p1) (later : process_run p1 es p2)
    (running : Moved LShutDown ∉ es) (delivered : pr_pending p2 = []) :
  ∃ ea pb eb, es = ea ++ Notified x :: eb ∧ process_run p1 (ea ++ [Notified x]) pb ∧ process_run pb eb p2 ∧ pr_pending pb = cached_in ea ∧
    inv threads (pr_queue pb) ∧ WorkQueue.pending key (pr_queue pb) ∧ ShuttingDown (pr_queue pb) = false.
Proof.
  assert (Hp1 : pr_queue p1 = pr_queue p ∧ pr_pending p1 = pr_pending p ++ [x]) by (by inversion change; subst).
  destruct Hp1 as (Hq1 & Hx).
  destruct (pending_delivered _ _ _ _ _ _ later Hx delivered) as (ea & pa & pb & eb & -> & Hruna & Hn & Hrunb & Hpb).
  assert (Hi : inv threads (pr_queue pa)).
  { eapply run_inv; [|by apply process_run_queue]. rewrite Hq1.
    eapply run_inv; [|by apply process_run_queue]. rewrite fresh. apply inv_new. }
  assert (Hsa : ShuttingDown (pr_queue pa) = false).
  { rewrite <-Hq1 in accepting. eapply run_accepting; [|exact accepting|by apply process_run_queue]. apply labels_running. set_solver. }
  assert (Hqb : pr_queue pb = enqueue Fast key (pr_queue pa)).
  { inversion Hn as [|x' pending q w Hp Hm| | | |]; subst. apply handle_queue in Hm. by rewrite notice in Hm. }
  exists ea, pb, eb. rewrite Hqb. split_and!; [done|by eapply process_run_trans, pr_cons, pr_nil|done|by rewrite Hpb|
    by apply enqueue_inv|by apply enqueue_accepted|by unfold ShuttingDown in *; simpl; rewrite Add_shuttingDown].
Qed.

(** Everything at rest after a last change. *)
Lemma last_version_settles p0 es0 p x key p1 es p2
    (fresh : pr_queue p0 = newTwoLaneWorkQueue) (before : process_run p0 es0 p)
    (accepting : ShuttingDown (pr_queue p) = false)
    (notice : enqueues hs x = Some key)
    (change : process_step p (Cached x) p1) (later : process_run p1 es p2)
    (last : Forall (λ e, ¬ about key e) es) (running : Moved LShutDown ∉ es)
    (workers_started : 0 < threads) (rest : quiescent threads (pr_queue p2)) (delivered : pr_pending p2 = []) :
  let version := observe x (g_lister (pr_state p)) !! key in
  g_lister (pr_state p2) !! key = version ∧
  ∃ es1 w st es2, es = es1 ++ Reconciled w key st :: es2 ∧
    g_lister st !! key = version ∧
    ((Reconcile r (safeKey key) st).1 = GenReconciler.Forget ∨ (Reconcile r (safeKey key) st).1 = SkipKey) ∧
    (∀ w' st', Reconciled w' key st' ∉ es2).
Proof.
  cbv zeta. set (version := observe x (g_lister (pr_state p)) !! key).
  assert (Hv1 : g_lister (pr_state p1) !! key = version) by (by inversion change; subst).
  split; [by rewrite (lister_run _ _ _ _ later)|].
  destruct (change_enqueued p0 es0 p x key p1 es p2) as (ea & pb & eb & -> & Hrunb & Hrun & _ & Hi & Hpend & Hacc); [done..|].
  rewrite cons_middle, app_assoc in last, running |- *. apply Forall_app in last as [Hla Hlb].
  destruct (enqueued_settles key pb eb p2 Hi Hpend Hacc Hrun Hlb) as (es1 & w & st & es2 & -> & Hst & Hret & Hlast); [set_solver|done..|].
  eexists ((ea ++ [Notified x]) ++ es1), w, st, es2. split; [by rewrite <-(app_assoc (ea ++ _))|]. split; [|done].
  by rewrite Hst, (lister_run _ _ _ _ Hrunb).
Qed.

(** C5: The last version is reconciled.  In every interleaving of informer, queue
    and workers, whatever the rest of the process does to the state: when the informer
    cached a change whose handler enqueues the channel, nothing about that channel
    changed later, and everything is at rest, then there was a last
    reconciliation of its key after that; it read the version of the channel that
    the informer saw last (or that the channel is gone) and did not fail with an
    error to be retried.  The cache still holds that version. *)
Theorem last_version_is_reconciled p0 es0 p x key p1 es p2
    (fresh : pr_queue p0 = newTwoLaneWorkQueue) (before : process_run p0 es0 p)
    (accepting : ShuttingDown (pr_queue p) = false)
    (notice : enqueues hs x = Some key)
    (change : process_step p (Cached x) p1) (later : process_run p1 es p2)
    (last : Forall (λ e, ¬ about key e) es) (running : Moved LShutDown ∉ es)
    (workers_started : 0 < threads) (rest : quiescent threads (pr_queue p2)) (delivered : pr_pending p2 = []) :
  let version := observe x (g_lister (pr_state p)) !! key in
  g_lister (pr_state p2) !! key = version ∧
  ∃ es1 w st es2, es = es1 ++ Reconciled w key st :: es2 ∧
    g_lister st !! key = version ∧
    ((Reconcile r (safeKey key) st).1 = GenReconciler.Forget ∨ (Reconcile r (safeKey key) st).1 = SkipKey) ∧
    (∀ w' st', Reconciled w' key st' ∉ es2).
Proof. by eapply last_version_settles. Qed.
End process.

(** ** The handlers of the controller: [HandleAll(impl.Enqueue)]

    The state is that of the reconciler, which the answers of the API server, the other
    informers and the prober may change in any way. *)
Definition controller_handlers {W} : Handlers W.
Proof.
  refine (mkHandlers (λ x '(q, w), Some (Enqueue Fast (notified x) q, w))
    (λ x, key_of <$> DeletionHandlingAccessor (notified x)) (λ _ _, True) _).
  intros x q w q' w' [= <- _]. unfold Enqueue. by destruct (DeletionHandlingAccessor _).
Defined.

(** They are what [NewController] sets up, on the queue of its process. *)
Lemma controller_handlers_spec {W} x (p : process) (w : W) :
  handle controller_handlers x (p_queue p, w) = Some (p_queue (deliver channel_handler x p), w).
Proof. by destruct x as [o|old o|o]. Qed.

(** ** The theorem on a channel that is added, queued and reconciled *)
Section demo.
#[local] Existing Instance Channel.demo_runtime.
#[local] Existing Instance GenReconciler.demo_api.

Section runs.
Context {W : Type} (i : reconcilerImpl W) (hs : Handlers W) (inner : W) (listed : KafkaTopicChannel).

Definition demo_state (cache : Cache) : GState W := mkGState cache inner 0 0 [] [].
Definition demo_idle_process : Process := mkProc newTwoLaneWorkQueue (demo_state ∅) [] ∅.
Definition demo_change : notification := Added (ChannelObj listed).
Definition demo_cache : Cache := {[demo_key := listed]}.
Definition demo_cached : Process := mkProc newTwoLaneWorkQueue (demo_state demo_cache) [demo_change] ∅.
Definition demo_notified : Process := mkProc demo_added (demo_state demo_cache) [] ∅.
Definition demo_done : twoLaneQueue :=
  mkTwoLane (demo_lane ∅ Waiting) newLane (mkQueue [] ∅ {[demo_key]} false) ∅ ∅ {[0 := Finishing demo_key]}.
Definition demo_queued : list (event (W:=W)) :=
  [Moved LInternal; Moved LInternal; Moved LInternal; Started 0 demo_key].
Definition demo_events : list event :=
  Notified demo_change :: demo_queued ++
  [Reconciled 0 demo_key (demo_state demo_cache); Moved LInternal].
(** What the reconciliation left. *)
Definition demo_after : GState W :=
  g_set_lister demo_cache (Reconcile i (safeKey demo_key) (demo_state demo_cache)).2.
Definition demo_busy : Process := mkProc demo_reconciling (demo_state demo_cache) [] {[0 := [demo_cache]]}.

Lemma demo_started : process_run i hs 1 demo_notified demo_queued demo_busy.
Proof.
  destruct (run_app 1 [LInternal; LInternal; LInternal] _ _ _ demo_to_worker) as (t1 & Hmoved & Hrun).
  inversion Hrun as [|? ? t2 ? ? Hstart Hnil]; subst. inversion Hnil; subst.
  assert (demo_queued = (Moved <$> [LInternal; LInternal; LInternal]) ++ [Started 0 demo_key]) as -> by reflexivity.
  apply (process_run_trans i hs 1 demo_notified (Moved <$> [LInternal; LInternal; LInternal])
    (mkProc t1 (demo_state demo_cache) [] ∅) [Started 0 demo_key]).
  - apply process_run_moved; [done|by repeat constructor].
  - eapply pr_cons; [by apply ps_started|apply pr_nil].
Qed.

Lemma demo_events_run
    (handled : handle hs demo_change (newTwoLaneWorkQueue, inner) = Some (demo_added, inner))
    (succeeds : outcome_of (Reconcile i (safeKey demo_key) (demo_state demo_cache)).1 = Some Succeeded) :
  process_run i hs 1 demo_cached demo_events (mkProc demo_idle demo_after [] ∅).
Proof.
  eapply pr_cons; [by apply (ps_notified _ _ _ demo_cached demo_change [] demo_added inner)|].
  apply (process_run_trans _ _ _ _ _ _ _ _ demo_started). eapply pr_cons.
  - eapply (ps_reconciled i hs 1 demo_busy 0 demo_key [demo_cache] demo_cache Succeeded demo_done);
      [reflexivity|apply list_elem_of_here|exact succeeds|].
    assert (Hs := step_return 1 demo_reconciling 0 demo_key Succeeded eq_refl). vm_compute in Hs |- *. exact Hs.
  - apply (process_run_moved i hs 1 demo_after [] ∅ demo_done [LInternal]); [|by repeat constructor].
    eapply run_cons; [|apply run_nil]. assert (Hs := step_done 1 demo_done 0 demo_key eq_refl). vm_compute in Hs |- *. exact Hs.
Qed.

Lemma demo_undisturbed : Forall (λ e, ¬ about demo_key e) demo_events ∧ Moved LShutDown ∉ demo_events.
Proof.
  unfold demo_events, demo_queued. split.
  - repeat (apply Forall_cons_2; [by intros []|]). apply Forall_nil_2.
  - intros Hin. repeat (apply elem_of_cons in Hin as [[=]|Hin]). by apply elem_of_nil in Hin.
Qed.
End runs.

Lemma demo_idle_quiescent : quiescent 1 demo_idle.
Proof.
  intros l t' Hw Hstep.
  destruct Hstep as [ln k|ln k q Hp Hg|ln k Hg|ln Hp Hg|ln k Hs Hr|ln Hc Hr|k Hk Hd|w k q Hl Hn Hg|w k o Hl|w k Hl|]; try done.
  all: try by destruct ln.
  all: try by (simpl in Hl; rewrite lookup_empty in Hl).
Qed.

Lemma last_version_is_reconciled_witness :
  ∃ es1 w st es2, demo_events () (demo_listed None) = es1 ++ Reconciled w demo_key st :: es2 ∧
    g_lister st !! demo_key = Some (demo_listed None) ∧
    ((Reconcile demo_impl (safeKey demo_key) st).1 = GenReconciler.Forget ∨ (Reconcile demo_impl (safeKey demo_key) st).1 = SkipKey).
Proof.
  assert (succeeds : outcome_of (Reconcile demo_impl (safeKey demo_key) (demo_state () (demo_cache (demo_listed None)))).1 = Some Succeeded)
    by (vm_compute; reflexivity).
  destruct (last_version_is_reconciled demo_impl controller_handlers 1 (demo_idle_process ()) [] (demo_idle_process ()) (demo_change (demo_listed None))
    demo_key (demo_cached () (demo_listed None)) (demo_events () (demo_listed None)) (mkProc demo_idle (demo_after demo_impl () (demo_listed None)) [] ∅)
    eq_refl (pr_nil _ _ _ _) eq_refl eq_refl (ps_cached _ _ _ (demo_idle_process ()) (demo_change (demo_listed None)))
    (demo_events_run demo_impl controller_handlers () (demo_listed None) eq_refl succeeds))
    as [_ (es1 & w & st & es2 & Heq & Hl & Hret & _)].
  - apply demo_undisturbed.
  - apply demo_undisturbed.
  - lia.
  - exact demo_idle_quiescent.
  - reflexivity.
  - exists es1, w, st, es2. split; [exact Heq|]. split; [exact Hl|exact Hret].
Defined.
End demo.
