(* ===== verification/Convergence.v ===== *)
(** * Convergence: what the running controller leaves behind

    Puts [Process] (informer, queue and workers of one process), [GenReconciler] (the
    reconciliation of a key) and [Controller] ([ReconcileKind] of
    [src/pkg/channel/kt/reconciler/controller/kafkachannel.go]) together: what is true of a
    channel when the controller has come to rest after its last change. *)
From Stdlib Require Import Ascii.
From S2P Require Import Prelude GoStrings Conditions ApiTypes Channel Prober Resources Controller GenReconciler ItemQueue WorkQueue Wiring Process.

Section convergence.
Context `{GoRuntime} `{ApiClient} `{KubeClient} `{Resolver} `{Reconciler} (leaders : NamespacedName → bool) (threads : nat).

(** How the reconciliation of [key] with the version [original] ended in the state [st],
    and that the status is on the server: it is that of [original], or the last writes of
    the reconciliation are those of an update that succeeded. *)
Definition settled_status (key : NamespacedName) (original : KafkaTopicChannel) (st : GState World) : Prop :=
  ∃ c st1 e w',
    setFinalizerIfFinalizer (controller_impl leaders) original (g_call st) = (inr c, st1) ∧
    let '(c0, n0) := PreProcessReconcile c (g_clock st1) in
    settled_well c0 n0 (g_inner st1) w' e ∧
    let c2 := (PostProcessReconcile (w_channel w') original (w_clock w')).1 in
    (ch_Status original = ch_Status c2 ∨
     ∃ st2 st3, g_writes st2 = g_writes st1 ∧ updateStatus (W:=World) original c2 st2 = (None, st3) ∧
       g_writes (Reconcile (controller_impl leaders) (safeKey key) st).2 = g_writes st3).

(** C6: The controller converges.  In every interleaving of informer, queue and workers
    of the leading controller, and whatever the API server, the other informers and the
    prober do to its state meanwhile: when the informer cached the last change of a channel that
    is not being deleted (whose status is one that the code writes, as are those that the
    server answers with), and everything is at rest, then the last reconciliation of the
    channel read that version and ended in one of two ways: the channel is valid, all its
    conditions but the dispatcher's are True, its address is the host of its service and it
    is ready exactly when its dispatcher is; or it is not ready and the reconciler returned
    a warning event, which is not retried.  The status it ended with is on the server. *)
Theorem controller_converges p0 es0 p x m original p1 es p2
    (fresh : pr_queue p0 = newTwoLaneWorkQueue)
    (before : process_run (controller_impl leaders) controller_handlers threads p0 es0 p)
    (accepting : ShuttingDown (pr_queue p) = false)
    (object : DeletionHandlingAccessor (notified x) = Some m)
    (version : observe x (g_lister (pr_state p)) !! key_of m = Some original)
    (live : DeletionTimestamp (meta original) = None)
    (names : free_of "/"%char (nn_Namespace (key_of m)) ∧ free_of "/"%char (nn_Name (key_of m)))
    (leader : leaders (key_of m) = true) (calm : ∀ n, channel_lister_error n = None)
    (stored : sane (ch_Status original)) (patches : patches_sane)
    (change : process_step (controller_impl leaders) controller_handlers threads p (Cached x) p1)
    (later : process_run (controller_impl leaders) controller_handlers threads p1 es p2)
    (last : Forall (λ e, ¬ about (key_of m) e) es) (running : Moved LShutDown ∉ es)
    (workers_started : 0 < threads) (rest : quiescent threads (pr_queue p2)) (delivered : pr_pending p2 = []) :
  ∃ es1 w st es2, es = es1 ++ Reconciled w (key_of m) st :: es2 ∧ (∀ w' st', Reconciled w' (key_of m) st' ∉ es2) ∧
    g_lister st !! key_of m = Some original ∧ settled_status (key_of m) original st.
Proof.
  destruct (last_version_settles (controller_impl leaders) controller_handlers threads p0 es0 p x (key_of m) p1 es p2)
    as [_ (es1 & w & st & es2 & Hes & Hv & Hret & Hlast)]; [done|done|done|by simpl; rewrite object|done..|]. rewrite version in Hv.
  exists es1, w, st, es2. split_and!; [done|done|done|].
  pose proof (safeKey_split (key_of m) (proj1 names) (proj2 names)) as Hsplit.
  assert (Hkey : mkNamespacedName (nn_Namespace (key_of m)) (nn_Name (key_of m)) = key_of m) by done.
  destruct Hret as [Hret|Hret].
  - eapply controller_forgets; [exact Hsplit|by rewrite Hkey|done|by rewrite Hkey|done..|exact Hret].
  - exfalso. revert Hret. apply (leader_never_skips leaders _ _ _ st Hsplit). by rewrite Hkey.
Qed.
End convergence.

(** ** A channel that is added and reconciled by the only worker *)
Section demo.
#[local] Existing Instance Channel.demo_runtime.
#[local] Existing Instance Controller.demo_resolver.
#[local] Existing Instance Controller.demo_reconciler.
#[local] Existing Instance Controller.demo_client.
#[local] Existing Instance GenReconciler.demo_api.

Definition demo_controller : reconcilerImpl World := controller_impl (demo_leader true).

(** The channel of the run was reconciled before; the server answers with channels
    whose status is empty. *)
Definition demo_reconciled : KafkaTopicChannel := with_Status (demo_listed None) (status demo_written_cell).

Lemma demo_patches : patches_sane.
Proof. intros n ref fs rv c [= <-]. exact (lifecycle_reachable_sane 0 (Channel.fresh 0) (rtc_refl _ _)). Qed.

Lemma controller_converges_witness :
  ∃ es1 w st es2, demo_events demo_world demo_reconciled = es1 ++ Reconciled w demo_key st :: es2 ∧
    settled_status (demo_leader true) demo_key demo_reconciled st.
Proof.
  assert (succeeds : outcome_of (Reconcile demo_controller (safeKey demo_key) (demo_state demo_world (demo_cache demo_reconciled))).1 = Some Succeeded)
    by (vm_compute; reflexivity).
  destruct (controller_converges (demo_leader true) 1 (demo_idle_process demo_world) [] (demo_idle_process demo_world) (demo_change demo_reconciled)
    (meta demo_reconciled) demo_reconciled (demo_cached demo_world demo_reconciled) (demo_events demo_world demo_reconciled)
    (mkProc demo_idle (demo_after demo_controller demo_world demo_reconciled) [] ∅)
    eq_refl (pr_nil _ _ _ _) eq_refl eq_refl) as (es1 & w & st & es2 & Heq & _ & _ & Hsettled).
  - vm_compute. reflexivity.
  - reflexivity.
  - split; by apply (bool_decide_unpack _); vm_compute.
  - reflexivity.
  - reflexivity.
  - exact demo_written_sane.
  - exact demo_patches.
  - apply (ps_cached _ _ _ (demo_idle_process demo_world) (demo_change demo_reconciled)).
  - exact (demo_events_run demo_controller controller_handlers demo_world demo_reconciled eq_refl succeeds).
  - apply demo_undisturbed.
  - apply demo_undisturbed.
  - lia.
  - exact demo_idle_quiescent.
  - reflexivity.
  - exists es1, w, st, es2. split; [exact Heq|exact Hsettled].
Defined.
End demo.
