(* ===== verification/PodProcess.v ===== *)
(** * PodProcess: what the running dispatcher consumes

    Puts [Process] (informer, queue and workers of one process), [GenReconciler] and
    [Wiring] (the reconciler that [NewController] of
    [src/pkg/channel/kt/reconciler/dispatcher/kafkachannel.go] builds, with its handlers) and
    [Dispatcher] together: the dispatcher pod as one process, whose handlers clean channels
    up and whose consumer groups report readiness while the workers reconcile.

    A sync is one transition, at the return of the reconciliation: the code holds the lock
    of the dispatcher over each of its two parts, the registration of the host and
    [ReconcileConsumers], and what other goroutines do between the two is not shown. *)
From Stdlib Require Import Ascii.
From S2P Require Import Prelude GoStrings Conditions ApiTypes Channel Sender KafkaSubscription Dispatcher DispatcherReconciler Resources Controller GenReconciler ItemQueue WorkQueue Wiring Process.

(** The keys of the queue, and the names of the objects. *)
Definition wf_key (key : NamespacedName) : Prop := free_of "/"%char (nn_Namespace key) ∧ free_of "/"%char (nn_Name key).

Section pod.
Context `{KafkaCluster} `{GoRuntime} `{PeriodParser} `{ApiClient} (channelName systemNamespace : string).

(** ** The handlers of the process *)
Definition own_object : Obj → bool := on_object (filterWithAnnotation channelName systemNamespace).

(** What [deliver] does with a notification; [None] when the handler panics. *)
Definition pod_handle (x : notification) (s : twoLaneQueue * KafkaDispatcher) : option (twoLaneQueue * KafkaDispatcher) :=
  let p := deliver (dispatcher_handler channelName systemNamespace) x (mkDispatcherProcess s.1 s.2 false) in
  if dp_crashed p then None else Some (dp_queue p, dp_dispatcher p).

(** The key that a notification enqueues: that of an added or new object that passes
    the filter. *)
Definition pod_enqueues (x : notification) : option NamespacedName :=
  match x with
  | Added obj | Changed _ obj => if own_object obj then key_of <$> DeletionHandlingAccessor obj else None
  | Deleted _ => None
  end.

(** The handlers of the running groups report readiness. *)
Definition reports (d d' : KafkaDispatcher) : Prop := ∃ l uid partition ready, d' = SetReady_at l uid partition ready d.

Definition pod_handlers : Handlers KafkaDispatcher.
Proof.
  refine (mkHandlers pod_handle pod_enqueues reports _).
  unfold pod_handle, pod_enqueues, own_object. intros x q d q' d'.
  assert (Hdel : ∀ obj, dp_queue (dispatcher_delete obj (mkDispatcherProcess q d false)) = q).
  { intros [c| | | | |]; try done. simpl. by destruct (reconciler_CleanupChannel c d) as [[| |] ?]. }
  assert (Hadd : ∀ obj, Enqueue Fast obj q = match key_of <$> DeletionHandlingAccessor obj with Some key => enqueue Fast key q | None => q end)
    by (intros obj; unfold Enqueue; by destruct (DeletionHandlingAccessor obj)).
  destruct x as [o|old o|o]; simpl; destruct (on_object _ o); simpl; try destruct (on_object _ old); simpl; rewrite <-?Hadd;
    try (by intros [= <- <-]); destruct (dp_crashed _); try done; by intros [= <- <-].
Defined.

(** ** The reconciler of the process *)

(** Reconciling a key: a channel that is gone or being deleted changes nothing, any
    other is synced as it is in the cache. *)
Lemma pod_Reconcile leader b key st
    (made : NewImpl leader dispatcher_interface [dispatcher_options] = Some b) (wf : wf_key key)
    (calm : ∀ n, channel_lister_error n = None) :
  let '(ret, st') := Reconcile (b_impl b) (safeKey key) st in
  match g_lister st !! key with
  | Some c =>
      match DeletionTimestamp (meta c) with
      | Some _ => g_inner st' = g_inner st
      | None =>
          match syncChannel c (g_inner st) with
          | (Ok _, d) => ret = GenReconciler.Forget ∧ g_inner st' = d
          | (Err err, d) => (∃ why, ret = Requeue why) ∧ g_inner st' = d
          | (Panic why, _) => ret = Crash why
          end
      end
  | None => g_inner st' = g_inner st
  end.
Proof.
  injection made as <-. unfold Reconcile. rewrite (newState_split _ _ _ _ (safeKey_split key (proj1 wf) (proj2 wf))).
  unfold isNotLeaderNorObserver. simpl. rewrite andb_false_r. unfold lister_Get. rewrite calm. destruct key as [ns name]. simpl.
  destruct (g_lister st !! _) as [c|]; [|done]. unfold reconcileMethodFor. simpl.
  destruct (DeletionTimestamp (meta c)); [by destruct (leader _)|].
  assert (Hrun : ∀ st0 k, g_inner st0 = g_inner st →
    (∀ e c st, ∃ st', g_inner st' = g_inner st ∧ k e c st = report_event e st') →
    let '(ret, st') := run_method (dispatcher_method syncChannel) c st0 k in
    match syncChannel c (g_inner st) with
    | (Ok _, d) => ret = GenReconciler.Forget ∧ g_inner st' = d
    | (Err err, d) => (∃ why, ret = Requeue why) ∧ g_inner st' = d
    | (Panic why, _) => ret = Crash why
    end).
  { intros st0 k Hst Hk. unfold run_method, dispatcher_method. rewrite Hst.
    destruct (syncChannel c (g_inner st)) as [[u|err|why] d]; [| |done].
    - destruct (Hk None c (g_set_clock (g_clock st0) (g_set_inner d st0))) as (st' & Hi & ->). done.
    - destruct (Hk (Some (PlainError err)) c (g_set_clock (g_clock st0) (g_set_inner d st0))) as (st' & Hi & ->).
      split; [by eexists|done]. }
  destruct (leader _); [unfold reconcile_case, setFinalizerIfFinalizer; simpl|]; (apply Hrun; [done|]); intros e c0 st0; eexists; (split; [|reflexivity]); done.
Qed.

(** ** What stays as it is *)

(** [owner] says to which channel a subscription UID belongs: UIDs are given once. *)
Context (owner : string → NamespacedName).

Definition uids_of (c : KafkaTopicChannel) : Prop :=
  ∀ uid, uid ∈ (sub_UID <$> Subscribers (Spec c)) → owner uid = key_of (meta c).
Definition owned (A : Consumed) : Prop := ∀ uid ref sub, A !! uid = Some (ref, sub) → owner uid = ref.

Lemma owned_reconcile ref new failed A :
  owned A → (∀ uid, uid ∈ dom new → owner uid = ref) → owned (spec_reconcile ref new failed A).
Proof.
  intros Ho Hnew uid ref' sub. rewrite spec_reconcile_lookup. destruct (A !! uid) as [[ref0 sub0]|] eqn:Ex.
  - destruct (decide _) as [[-> Hn]|]; [|intros [= <- <-]; by eapply Ho].
    apply not_elem_of_dom in Hn. rewrite Hn. by destruct (decide _).
  - destruct (decide _); [done|]. destruct (new !! uid) eqn:Ew; [|done]. intros [= <- <-]. by apply Hnew, (elem_of_dom_2 _ _ _ Ew).
Qed.

Lemma spec_reconcile_others ref new failed A uid ref' sub :
  ref' ≠ ref → spec_reconcile ref new failed A !! uid = Some (ref', sub) ↔ A !! uid = Some (ref', sub).
Proof.
  intros Hne. rewrite spec_reconcile_lookup. destruct (A !! uid) as [[ref0 sub0]|] eqn:Ex.
  - destruct (decide _) as [[-> Hn]|]; [|done]. apply not_elem_of_dom in Hn. rewrite Hn. split; [by destruct (decide _)|]. by intros [= <- _].
  - destruct (decide _); [done|]. destruct (new !! uid); [|done]. split; [|done]. by intros [= <- _].
Qed.

(** Syncing a channel keeps the hosts and what is consumed for the others. *)
Lemma syncChannel_keeps c d A res d' :
  represents d A → owned A → uids_of c → syncChannel c d = (res, d') →
  (∀ host ref, hostToChannelMap d !! host = Some ref → hostToChannelMap d' !! host = Some ref) ∧
  ∃ A', represents d' A' ∧ owned A' ∧
    ∀ uid ref sub, ref ≠ key_of (meta c) → A' !! uid = Some (ref, sub) ↔ A !! uid = Some (ref, sub).
Proof.
  intros HA Ho Hu Hs. unfold syncChannel in Hs.
  assert (Hsame : d' = d → (∀ host ref, hostToChannelMap d !! host = Some ref → hostToChannelMap d' !! host = Some ref) ∧
    ∃ A', represents d' A' ∧ owned A' ∧ ∀ uid ref sub, ref ≠ key_of (meta c) → A' !! uid = Some (ref, sub) ↔ A !! uid = Some (ref, sub)).
  { intros ->. split; [done|]. by exists A. }
  destruct (channel_ready c); simpl in Hs; [|injection Hs as _ <-; by apply Hsame].
  unfold newConfigFromKafkaChannel in Hs. destruct (address_host _) as [host| |]; [|injection Hs as _ <-; by apply Hsame..].
  destruct (new_subscriptions_spec (Subscribers (Spec c))) as [(subs & Hsubs & Hall)|Hp];
    [|rewrite Hp in Hs; injection Hs as _ <-; by apply Hsame].
  rewrite Hsubs in Hs. set (config := mkChannelConfig _ _ _ _) in Hs.
  destruct (RegisterChannelHost config d) as [e d1] eqn:Hreg.
  assert (Hhost : ∀ host ref, hostToChannelMap d !! host = Some ref → hostToChannelMap d1 !! host = Some ref).
  { intros h ref Hh. revert Hreg. unfold RegisterChannelHost. destruct (hostToChannelMap d !! cc_HostName config) eqn:E.
    - by case_bool_decide; intros [= _ <-].
    - intros [= _ <-]. cbn [with_hosts hostToChannelMap]. rewrite lookup_insert_ne; [done|]. change (cc_HostName config) with host in E. congruence. }
  pose proof (RegisterChannelHost_represents _ _ _ _ _ HA Hreg) as HA1.
  destruct e as [err|]; [injection Hs as _ <-; split; [done|]; by exists A|].
  destruct (ReconcileConsumers config d1) as [failed d2] eqn:Hrec.
  assert (Huids : ∀ uid, uid ∈ SubscriptionsUIDs config → owner uid = key_of (meta c)).
  { intros uid. unfold SubscriptionsUIDs. simpl. rewrite (new_subscriptions_uids _ _ Hall). apply Hu. }
  assert (Hun : unshared config A) by (intros uid ref sub Hx Hin; rewrite <-(Ho _ _ _ Hx); by apply Huids).
  destruct (ReconcileConsumers_represents config d1 A failed d2 HA1 Hun Hrec) as (Hh2 & fs & _ & _ & Hfs & HA2).
  assert (Hd : represents d' (spec_reconcile (channel_of config) (wanted subs) (dom fs) A) ∧ hostToChannelMap d' = hostToChannelMap d1).
  { destruct failed; injection Hs as _ <-; [|done]. split; [by apply represents_ranged|done]. }
  destruct Hd as [HA' Hh']. split; [intros h ref Hh; rewrite Hh'; by apply Hhost|]. eexists. split; [exact HA'|].
  change (channel_of config) with (key_of (meta c)). split.
  - apply owned_reconcile; [done|]. intros uid. rewrite dom_wanted, elem_of_list_to_set. apply Huids.
  - intros uid ref sub Hne. by apply spec_reconcile_others.
Qed.

(** Syncing keeps the topic. *)
Lemma subscribe_topic ref sub d : topicFunc (subscribe ref sub d).2 = topicFunc d.
Proof.
  unfold subscribe, get_or_create, StartConsumerGroup. destruct (channelSubscriptions d !! ref); simpl; by destruct (start_error _ _).
Qed.

Lemma unsubscribe_topic ref sub d : topicFunc (unsubscribe ref sub d).2 = topicFunc d.
Proof. unfold unsubscribe. repeat (case_match; simpl; try done). Qed.

Lemma ReconcileConsumers_topic config d : topicFunc (ReconcileConsumers config d).2 = topicFunc d.
Proof.
  assert (Hadd : ∀ ref l st, topicFunc (foldl (subscribe_step ref) st l).2 = topicFunc st.2).
  { intros ref l. induction l as [|us l IH]; intros [failed d0]; [done|]. cbn [foldl]. rewrite IH. unfold subscribe_step.
    pose proof (subscribe_topic ref us.2 d0) as Ht. by destruct (subscribe ref us.2 d0) as [[err|] d1]. }
  assert (Hrm : ∀ ref l d, topicFunc (foldl (unsubscribe_step ref) d l) = topicFunc d).
  { intros ref l. induction l as [|uid l IH]; intros d0; [done|]. cbn [foldl]. rewrite IH. apply unsubscribe_topic. }
  unfold ReconcileConsumers. destruct (foldl (subscribe_step _) _ _) as [failed d1] eqn:E. cbn [snd]. rewrite Hrm.
  apply (f_equal (topicFunc ∘ snd)) in E. simpl in E. by rewrite Hadd in E.
Qed.

Lemma syncChannel_topic c d res d' : syncChannel c d = (res, d') → topicFunc d' = topicFunc d.
Proof.
  unfold syncChannel. destruct (negb _); [by intros [= _ <-]|]. destruct (newConfigFromKafkaChannel c) as [config|err|why]; [|by intros [= _ <-]..].
  destruct (RegisterChannelHost config d) as [e d1] eqn:Hreg.
  assert (Ht : topicFunc d1 = topicFunc d).
  { revert Hreg. unfold RegisterChannelHost. destruct (hostToChannelMap d !! _); [by case_bool_decide; intros [= _ <-]|by intros [= _ <-]]. }
  destruct e; [by intros [= _ <-]|]. pose proof (ReconcileConsumers_topic config d1) as Ht2.
  destruct (ReconcileConsumers config d1) as [[failed|] d2]; intros [= _ <-]; simpl in *; congruence.
Qed.

(** ** Runs of the process *)

(** What the informer of channels notifies; a cache of such objects. *)
Definition well_notified (x : notification) : Prop :=
  match x with
  | Added (ChannelObj c) => uids_of c
  | Changed (ChannelObj old) (ChannelObj c) => key_of (meta old) = key_of (meta c) ∧ uids_of c
  | Deleted (ChannelObj _) | Deleted (Tombstone _ (ChannelObj _)) => True
  | _ => False
  end.
Definition cache_ok (cache : Cache) : Prop := ∀ key c, cache !! key = Some c → key_of (meta c) = key ∧ uids_of c.

Definition event_ok (e : event (W:=KafkaDispatcher)) : Prop :=
  match e with Cached x => well_notified x | Reconciled _ key _ => wf_key key | _ => True end.

Context (leader : NamespacedName → bool) (b : built KafkaDispatcher () ()) (threads : nat).
Context (made : NewImpl leader dispatcher_interface [dispatcher_options] = Some b) (calm : ∀ n, channel_lister_error n = None).
Implicit Types (p : Process (W:=KafkaDispatcher)).

Record pod_inv p : Prop := {
  pi_consumed : ∃ A, represents (g_inner (pr_state p)) A ∧ owned A;
  pi_lister : cache_ok (g_lister (pr_state p));
  pi_seen : ∀ w seen cache, pr_seen p !! w = Some seen → cache ∈ seen → cache_ok cache;
  pi_pending : Forall well_notified (pr_pending p);
}.

Lemma observe_ok x cache : well_notified x → cache_ok cache → cache_ok (observe x cache).
Proof.
  intros Hx Hc. destruct x as [[c|d|s|e|pod|k o]|[o|d|s|e|pod|k o] [c|d'|s'|e'|pod'|k' o']|o]; simpl in *; try done.
  - intros key c' [[<- <-]|[_ Hl]]%lookup_insert_Some; [done|by apply Hc].
  - intros key c' [[<- <-]|[_ Hl]]%lookup_insert_Some; [by split; [|apply Hx]|by apply Hc].
  - destruct (DeletionHandlingAccessor o) as [m|]; [|done]. intros key c' [_ Hl]%lookup_delete_Some. by apply Hc.
Qed.

(** The handlers only ever clean up. *)
Lemma pod_handle_consumed x q d q' d' A :
  represents d A → owned A → pod_handle x (q, d) = Some (q', d') → ∃ A', represents d' A' ∧ owned A'.
Proof.
  intros HA Ho. unfold pod_handle. assert (Hdel : ∀ obj, let p := dispatcher_delete obj (mkDispatcherProcess q d false) in
    dp_crashed p = false → ∃ A', represents (dp_dispatcher p) A' ∧ owned A').
  { intros [c| | | | |]; try done. simpl. unfold reconciler_CleanupChannel. destruct (address_host _) as [host| |]; simpl; [|eauto|done].
    destruct (CleanupChannel _ _ _ _) as [e d1] eqn:Hc. destruct (CleanupChannel_represents _ _ _ _ _ _ _ HA Hc) as (_ & gone & HA1 & _).
    assert (Ho1 : owned (filter (λ x, x.1 ∉ gone) A)) by (intros uid ref sub [Hx _]%map_lookup_filter_Some; by eapply Ho).
    destruct e; simpl; eauto. }
  destruct x as [o|old o|o]; simpl; destruct (on_object _ o); simpl; try destruct (on_object _ old); simpl; try (intros [= _ <-]; eauto).
  - specialize (Hdel old). destruct (dp_crashed _) eqn:E; [done|]. intros [= _ <-]. by apply Hdel.
  - specialize (Hdel o). destruct (dp_crashed _) eqn:E; [done|]. intros [= _ <-]. by apply Hdel.
Qed.

(** Reconciling some key: the dispatcher syncs the channel that is cached under it, or
    does nothing. *)
Lemma reconciled_inner key st o :
  wf_key key → outcome_of (Reconcile (b_impl b) (safeKey key) st).1 = Some o →
  let d' := g_inner (Reconcile (b_impl b) (safeKey key) st).2 in
  d' = g_inner st ∨
  ∃ c res, g_lister st !! key = Some c ∧ DeletionTimestamp (meta c) = None ∧ syncChannel c (g_inner st) = (res, d').
Proof.
  intros Hwf Ho. pose proof (pod_Reconcile leader b key st made Hwf calm) as Hr. destruct (Reconcile _ _ _) as [ret st']. simpl in *.
  destruct (g_lister st !! key) as [c|]; [|by left]. destruct (DeletionTimestamp (meta c)) eqn:Hd; [by left|].
  right. exists c. destruct (syncChannel c (g_inner st)) as [[u|err|why] d].
  - destruct Hr as [_ ->]. eauto.
  - destruct Hr as [_ ->]. eauto.
  - by subst ret.
Qed.

Lemma pod_step_inv p e p' : process_step (b_impl b) pod_handlers threads p e p' → event_ok e → pod_inv p → pod_inv p'.
Proof.
  intros Hstep He [(A & HA & Ho) Hl Hs Hp].
  destruct Hstep as [x|x pending q d Hpend Hh|w key q Hq|w key seen cache o q Hw Hc st Hout Hq|l q Hl' Hq|d (l & uid & part & ready & ->)]; simpl in *.
  - assert (Hobs := observe_ok x _ He Hl). split; simpl; [by exists A|done| |apply Forall_app; by rewrite Forall_singleton].
    intros w seen cache. rewrite lookup_fmap_Some. intros (seen' & <- & Hw). rewrite elem_of_app, list_elem_of_singleton.
    intros [Hin| ->]; [by eapply Hs|done].
  - rewrite Hpend in Hp. apply Forall_cons in Hp as [_ Hp]. split; simpl; [|done..]. by eapply pod_handle_consumed.
  - split; simpl; [by exists A|done| |done]. intros w' seen cache. rewrite lookup_insert_Some.
    intros [[_ <-]|[_ Hw]]; [|by eapply Hs]. by intros ->%list_elem_of_singleton.
  - split; simpl; [|done| |done].
    + destruct (reconciled_inner key st o He Hout) as [->|(c & res & Hc' & _ & Hsync)]; [by exists A|].
      destruct (Hs _ _ _ Hw Hc _ _ Hc') as [_ Hu]. destruct (syncChannel_keeps _ _ _ _ _ HA Ho Hu Hsync) as (_ & A' & HA' & Ho' & _). by exists A'.
    + intros w' seen' cache'. rewrite lookup_delete_Some. intros [_ Hw']. by eapply Hs.
  - split; simpl; [by exists A|done..].
  - split; simpl; [|done..]. exists A. split; [by apply represents_SetReady_at|done].
Qed.

Lemma pod_run_inv p es p' :
  process_run (b_impl b) pod_handlers threads p es p' → Forall event_ok es → pod_inv p → pod_inv p'.
Proof. induction 1 as [|p e p1 es p' Hstep _ IH]; [done|]. intros [He Hes]%Forall_cons Hi. apply IH; [done|]. by eapply pod_step_inv. Qed.

(** ** The channel of the pod *)
Definition own_key : NamespacedName := mkNamespacedName systemNamespace channelName.
Definition own_reference : ChannelReference := mkChannelReference systemNamespace channelName.

(** The dispatcher consumes the subscriptions [S] for its channel, and [host] resolves to it. *)
Definition serves (host : string) (S : gmap string Subscription) (d : KafkaDispatcher) : Prop :=
  hostToChannelMap d !! host = Some own_reference ∧
  ∃ A, represents d A ∧ owned A ∧ ∀ uid sub, A !! uid = Some (own_key, sub) ↔ S !! uid = Some sub.

(** The handlers do nothing about another channel. *)
Lemma pod_handle_foreign x q d q' d' :
  well_notified x → ¬ about (W:=KafkaDispatcher) own_key (Cached x) → pod_handle x (q, d) = Some (q', d') → d' = d.
Proof.
  intros Hx Hn. unfold pod_handle. rewrite (proj2 (dispatcher_handler_spec channelName systemNamespace _) x); [by intros [= _ <-]|].
  assert (Hown : ∀ m, own channelName systemNamespace m → key_of m = own_key) by (intros m [Hns Hname]; unfold key_of, own_key; by rewrite Hns, Hname).
  intros o Ho m Hm Hown'%Hown.
  destruct x as [[c| | | | |]|[old| | | | |] [c| | | | |]|[c| | | | |k [c| | | | |]]]; simpl in Hx, Hn, Ho; try done.
  - apply list_elem_of_singleton in Ho as ->. injection Hm as <-. congruence.
  - destruct Hx as [Hk _]. apply elem_of_cons in Ho as [-> | ->%list_elem_of_singleton]; injection Hm as <-; congruence.
  - apply list_elem_of_singleton in Ho as ->. injection Hm as <-. congruence.
  - by apply list_elem_of_singleton in Ho as ->.
Qed.

(** Syncing a ready channel without error: what is consumed for it then. *)
Lemma synced_consumes c d A d' :
  represents d A → owned A → uids_of c → channel_ready c = true → syncChannel c d = (Ok (), d') →
  ∃ url A', Address (ch_Status c) = Some (Some url) ∧
    hostToChannelMap d' !! Host url = Some (mkChannelReference (ch_Namespace c) (ch_Name c)) ∧ represents d' A' ∧ owned A' ∧
    (∀ uid, uid ∈ (sub_UID <$> Subscribers (Spec c)) ↔ ∃ sub, A' !! uid = Some (key_of (meta c), sub)) ∧
    ∀ uid sub, A' !! uid = Some (key_of (meta c), sub) →
      A !! uid = Some (key_of (meta c), sub) ∨ ∃ s, s ∈ Subscribers (Spec c) ∧ consumed_as s sub.
Proof.
  intros HA Ho Hu Hready Hsync.
  destruct (λ Hun, syncChannel_ok c d A HA Hun d' Hsync Hready) as (url & subs & Haddr & Hall & Hhost & HA').
  { intros uid ref sub Hx Hin. rewrite <-(Ho _ _ _ Hx). by apply Hu. }
  change (mkNamespacedName (ch_Namespace c) (ch_Name c)) with (key_of (meta c)) in HA'. set (A' := spec_reconcile _ _ _ _) in HA'.
  assert (Hdom : ∀ uid, uid ∈ dom (wanted subs) ↔ uid ∈ (sub_UID <$> Subscribers (Spec c)))
    by (intros uid; by rewrite dom_wanted, (new_subscriptions_uids _ _ Hall), elem_of_list_to_set).
  assert (Hown : ∀ uid, uid ∈ dom (wanted subs) → owner uid = key_of (meta c)) by (intros uid Hin; by apply Hu, Hdom).
  exists url, A'. split_and!; [done| |done|by apply owned_reconcile| |].
  - unfold getChannelReferenceFromHost in Hhost. destruct (hostToChannelMap d' !! Host url); [|done]. by injection Hhost as ->.
  - intros uid. rewrite <-Hdom. unfold A'. rewrite spec_reconcile_lookup. split.
    + intros Hin. pose proof Hin as [sub Hx]%elem_of_dom. destruct (A !! uid) as [[ref sub0]|] eqn:Ex.
      * rewrite decide_False by tauto. exists sub0. by rewrite <-(Ho _ _ _ Ex), Hown.
      * rewrite decide_False by set_solver. exists sub. by rewrite Hx.
    + intros [sub Hx]. destruct (decide (uid ∈ dom (wanted subs))) as [|Hn]; [done|]. exfalso.
      pose proof Hn as Hw%not_elem_of_dom. rewrite Hw in Hx. destruct (A !! uid) as [[ref sub0]|]; [|by destruct (decide _)].
      destruct (decide _) as [|Hn']; [by destruct (decide _)|]. injection Hx as -> ->. by apply Hn'.
  - intros uid sub Hx. unfold A' in Hx. rewrite spec_reconcile_lookup in Hx.
    assert (Hnew : ∀ y, (λ sub, (key_of (meta c), sub)) <$> wanted subs !! uid = Some y → ∃ s, s ∈ Subscribers (Spec c) ∧ consumed_as s y.2).
    { intros y (sub' & Hw & ->)%fmap_Some. apply wanted_in in Hw. destruct (list_elem_of_lookup_1 _ _ Hw) as [k Hk].
      destruct (Forall2_lookup_r _ _ _ _ _ Hall Hk) as (s & Hs & Hc). exists s. split; [by eapply list_elem_of_lookup_2|done]. }
    destruct (A !! uid) as [[ref sub0]|].
    + destruct (decide _); [|by left]. rewrite decide_False in Hx by set_solver. right. exact (Hnew _ Hx).
    + rewrite decide_False in Hx by set_solver. right. exact (Hnew _ Hx).
Qed.

(** For the channel of the pod. *)
Lemma synced_serves c d A d' :
  own channelName systemNamespace (meta c) → represents d A → owned A → uids_of c → channel_ready c = true → syncChannel c d = (Ok (), d') →
  ∃ url S, Address (ch_Status c) = Some (Some url) ∧ serves (Host url) S d' ∧ dom S = list_to_set (sub_UID <$> Subscribers (Spec c)) ∧
    ∀ uid sub, S !! uid = Some sub → A !! uid = Some (own_key, sub) ∨ ∃ s, s ∈ Subscribers (Spec c) ∧ consumed_as s sub.
Proof.
  intros [Hns Hname] HA Ho Hu Hready Hsync. destruct (synced_consumes c d A d' HA Ho Hu Hready Hsync) as (url & A' & Haddr & Hh & HA' & Ho' & Huids & Hfrom).
  assert (Hkey : key_of (meta c) = own_key) by (unfold key_of, own_key; by rewrite Hns, Hname). rewrite Hkey in Huids, Hfrom.
  exists url, (omap (λ x, if decide (x.1 = own_key) then Some x.2 else None) A').
  assert (HS : ∀ uid sub, omap (λ x, if decide (x.1 = own_key) then Some x.2 else None) A' !! uid = Some sub ↔ A' !! uid = Some (own_key, sub)).
  { intros uid sub. rewrite lookup_omap_Some. split; [intros ([ref sub'] & Hd & Hx); simpl in Hd|intros Hx; exists (own_key, sub); simpl; by rewrite decide_True].
    by destruct (decide _) as [->|]; [injection Hd as ->|]. }
  split_and!; [done| | |].
  - split; [|by exists A']. rewrite Hh. unfold own_reference, ch_Namespace, ch_Name. by rewrite Hns, Hname.
  - apply set_eq. intros uid. rewrite elem_of_dom, elem_of_list_to_set, Huids. split; intros [sub Hx]; exists sub; by apply HS.
  - intros uid sub Hx%HS. by apply Hfrom.
Qed.

(** Nothing of the channel is pending in the listener. *)
Definition calm_pending p : Prop := Forall (λ x, ¬ about (W:=KafkaDispatcher) own_key (Cached x)) (pr_pending p).

Lemma serves_step host S p e p' :
  process_step (b_impl b) pod_handlers threads p e p' → event_ok e → ¬ about own_key e → (∀ w st, e ≠ Reconciled w own_key st) →
  pod_inv p → calm_pending p → serves host S (g_inner (pr_state p)) → serves host S (g_inner (pr_state p')) ∧ calm_pending p'.
Proof.
  intros Hstep He Hn Hr Hi Hc HS.
  destruct Hstep as [x|x pending q d Hpend Hh|w key q Hq|w key seen cache o q Hw Hcache st Hout Hq|l q Hl' Hq|d (l & uid & part & ready & ->)]; simpl in *;
    unfold calm_pending in *; simpl.
  - split; [done|]. apply Forall_app. by rewrite Forall_singleton.
  - rewrite Hpend in Hc. apply Forall_cons in Hc as [Hx Hc]. split; [|done].
    pose proof (pi_pending _ Hi) as Hp. rewrite Hpend in Hp. apply Forall_cons in Hp as [Hw _].
    by rewrite (pod_handle_foreign x _ _ _ _ Hw Hx Hh).
  - done.
  - split; [|done]. destruct (reconciled_inner key st o He Hout) as [->|(c & res & Hc' & _ & Hsync)]; [done|].
    destruct (pi_seen _ Hi _ _ _ Hw Hcache _ _ Hc') as [Hk Hu]. destruct HS as (Hh & A & HA & Ho & HS).
    destruct (syncChannel_keeps _ _ _ _ _ HA Ho Hu Hsync) as (Hhosts & A' & HA' & Ho' & Hsame).
    split; [by apply Hhosts|]. exists A'. split_and!; [done|done|]. intros uid sub. rewrite Hsame; [done|].
    rewrite Hk. intros Heq. apply (Hr w st). by rewrite Heq.
  - done.
  - split; [|done]. destruct HS as (Hh & A & HA & Ho & HS). split; [done|]. exists A. split_and!; [by apply represents_SetReady_at|done..].
Qed.

Lemma serves_run host S p es p' :
  process_run (b_impl b) pod_handlers threads p es p' → Forall event_ok es → Forall (λ e, ¬ about own_key e) es →
  (∀ w st, Reconciled w own_key st ∉ es) →
  pod_inv p → calm_pending p → serves host S (g_inner (pr_state p)) → serves host S (g_inner (pr_state p')).
Proof.
  induction 1 as [|p e p1 es p' Hstep _ IH]; [done|]. intros [He Hes]%Forall_cons [Hn Hns]%Forall_cons Hr Hi Hc HS.
  destruct (serves_step host S _ _ _ Hstep He Hn) as [HS1 Hc1]; [|done..|].
  { intros w st ->. apply (Hr w st). left. }
  apply IH; [done|done| |by eapply pod_step_inv|done|done]. intros w st Hin. apply (Hr w st). by right.
Qed.

Lemma calm_run p es p' :
  process_run (b_impl b) pod_handlers threads p es p' → Forall (λ e, ¬ about own_key e) es → calm_pending p → calm_pending p'.
Proof.
  induction 1 as [|p e p1 es p' Hstep _ IH]; [done|]. intros [He Hes]%Forall_cons Hc. apply IH; [done|].
  unfold calm_pending in *. destruct Hstep as [x|x pending q d Hpend Hh| | | |]; simpl in *; try done.
  - apply Forall_app. by rewrite Forall_singleton.
  - rewrite Hpend in Hc. by apply Forall_cons in Hc as [_ Hc].
Qed.

Lemma cached_calm (es : list (event (W:=KafkaDispatcher))) : Forall (λ e, ¬ about own_key e) es → Forall (λ x, ¬ about (W:=KafkaDispatcher) own_key (Cached x)) (cached_in es).
Proof.
  induction 1 as [|e es He _ IH]; [constructor|]. unfold cached_in in *. cbn [omap list_omap]. by destruct e; [constructor|..].
Qed.

(** ** The pod at rest *)

(** The process at its start: no channel is cached and nothing is consumed. *)
Definition pod_start (topic : string) : Process :=
  mkProc newTwoLaneWorkQueue (mkGState ∅ (empty_dispatcher topic) 0 0 [] []) [] ∅.

Lemma pod_start_inv topic : pod_inv (pod_start topic).
Proof.
  split; simpl; [|by intros key c ?%lookup_empty_Some|by intros w seen cache ?%lookup_empty_Some|constructor].
  exists ∅. split; [apply represents_empty|]. by intros uid ref sub ?%lookup_empty_Some.
Qed.

(** The last reconciliation of the channel of the pod, and what the dispatcher does from
    then on. *)
Lemma reconciled_serves c p w st p' es p'' :
  own channelName systemNamespace (meta c) → DeletionTimestamp (meta c) = None → channel_ready c = true → wf_key own_key →
  pod_inv p → calm_pending p → process_step (b_impl b) pod_handlers threads p (Reconciled w own_key st) p' → g_lister st !! own_key = Some c →
  ((Reconcile (b_impl b) (safeKey own_key) st).1 = GenReconciler.Forget ∨ (Reconcile (b_impl b) (safeKey own_key) st).1 = SkipKey) →
  process_run (b_impl b) pod_handlers threads p' es p'' → Forall event_ok es → Forall (λ e, ¬ about own_key e) es →
  (∀ w' st', Reconciled w' own_key st' ∉ es) →
  ∃ url S A, Address (ch_Status c) = Some (Some url) ∧ represents (g_inner st) A ∧ serves (Host url) S (g_inner (pr_state p'')) ∧
    dom S = list_to_set (sub_UID <$> Subscribers (Spec c)) ∧
    ∀ uid sub, S !! uid = Some sub → A !! uid = Some (own_key, sub) ∨ ∃ s, s ∈ Subscribers (Spec c) ∧ consumed_as s sub.
Proof.
  intros Hown Hlive Hready Hwf Hi Hcalm Hstep Hl Hret Hrun Hok Hn Hlast.
  assert (Hi' : pod_inv p') by by eapply pod_step_inv.
  assert (Hp' : calm_pending p' ∧ g_inner st = g_inner (pr_state p) ∧ g_inner (pr_state p') = g_inner (Reconcile (b_impl b) (safeKey own_key) st).2 ∧ uids_of c).
  { inversion Hstep as [| | |w0 key0 seen cache o q Hw Hc st0 Hout Hq| |]; subst. split_and!; [done..|]. subst st0. simpl in Hl. by eapply (pi_seen _ Hi). }
  destruct Hp' as (Hcalm' & Hst & Hinner & Hu). destruct (pi_consumed _ Hi) as (A & HA & Ho).
  pose proof (pod_Reconcile leader b own_key st made Hwf calm) as Hr. destruct (Reconcile _ _ st) as [ret st']. simpl in *. rewrite Hl, Hlive in Hr.
  destruct (syncChannel c (g_inner st)) as [[[]|err|why] d] eqn:Hsync.
  - destruct Hr as [_ Hd]. rewrite Hst in Hsync.
    destruct (synced_serves c _ A d Hown HA Ho Hu Hready Hsync) as (url & S & Haddr & HS & Hdom & Hfrom).
    exists url, S, A. split_and!; [done|by rewrite Hst| |done|done].
    eapply serves_run; [exact Hrun|done..|]. by rewrite Hinner, Hd.
  - destruct Hr as [[why ->] _]. by destruct Hret.
  - subst ret. by destruct Hret.
Qed.

(** C7: The dispatcher converges.  In every interleaving of informer, queue and workers
    of the dispatcher's process, with its handlers cleaning channels up and its consumer
    groups reporting readiness meanwhile: when the informer cached a last version of
    the dispatcher's own channel, which is ready and not being deleted, and everything is at
    rest, then the last reconciliation of the channel read that version without error,
    the host of the channel's address resolves to the channel, and the subscriptions
    that the process consumes for it are the subscribers of that version, each consumed
    already before that reconciliation or as the version says. *)
Theorem dispatcher_converges topic es0 p x c p1 es p2
    (before : process_run (b_impl b) pod_handlers threads (pod_start topic) es0 p) (accepting : ShuttingDown (pr_queue p) = false)
    (cached : x = Added (ChannelObj c) ∨ ∃ old, x = Changed (ChannelObj old) (ChannelObj c))
    (named : own channelName systemNamespace (meta c)) (names : wf_key own_key)
    (live : DeletionTimestamp (meta c) = None) (ready : channel_ready c = true)
    (change : process_step (b_impl b) pod_handlers threads p (Cached x) p1)
    (later : process_run (b_impl b) pod_handlers threads p1 es p2)
    (watched : Forall event_ok (es0 ++ Cached x :: es))
    (last : Forall (λ e, ¬ about own_key e) es) (running : Moved LShutDown ∉ es)
    (workers_started : 0 < threads) (rest : quiescent threads (pr_queue p2)) (delivered : pr_pending p2 = []) :
  ∃ es1 w st es2 url S A,
    es = es1 ++ Reconciled w own_key st :: es2 ∧ (∀ w' st', Reconciled w' own_key st' ∉ es2) ∧ g_lister st !! own_key = Some c ∧
    Address (ch_Status c) = Some (Some url) ∧ serves (Host url) S (g_inner (pr_state p2)) ∧
    dom S = list_to_set (sub_UID <$> Subscribers (Spec c)) ∧ represents (g_inner st) A ∧
    ∀ uid sub, S !! uid = Some sub → A !! uid = Some (own_key, sub) ∨ ∃ s, s ∈ Subscribers (Spec c) ∧ consumed_as s sub.
Proof.
  assert (Hkey : key_of (meta c) = own_key) by (destruct named as [Hns Hn]; unfold key_of, own_key; by rewrite Hns, Hn).
  assert (Hfilter : own_object (ChannelObj c) = true).
  { destruct named. unfold own_object, on_object, filterWithAnnotation, NameAndNamespaceFilterFunc. simpl. by rewrite bool_decide_true. }
  apply Forall_app in watched as [Hok0 [Hokx Hok]%Forall_cons].
  assert (Hi1 : pod_inv p1) by (eapply pod_step_inv; [exact change|done|]; eapply pod_run_inv; [exact before|done|apply pod_start_inv]).
  assert (Hx : enqueues pod_handlers x = Some own_key) by (rewrite <-Hkey; destruct cached as [->|[old ->]]; simpl; by rewrite Hfilter).
  assert (Hv1 : g_lister (pr_state p1) !! own_key = Some c).
  { inversion change; subst. rewrite <-Hkey. destruct cached as [->|[old ->]]; simpl; by rewrite lookup_insert_eq. }
  destruct (change_enqueued (b_impl b) pod_handlers threads (pod_start topic) es0 p x own_key p1 es p2)
    as (ea & pb & eb & -> & Hrunb & Hrun & Hpb & Hi & Hpend & Hacc); [done..|].
  rewrite cons_middle, app_assoc in Hok, last, running |- *. apply Forall_app in Hok as [Hoka Hokb].
  apply Forall_app in last as [Hla Hlb]. assert (Hib : pod_inv pb) by by eapply pod_run_inv.
  assert (Hcb : calm_pending pb) by (unfold calm_pending; rewrite Hpb; apply cached_calm; by apply Forall_app in Hla as [??]).
  destruct (enqueued_settles (b_impl b) pod_handlers threads own_key pb eb p2 Hi Hpend Hacc Hrun Hlb)
    as (es1 & w & st & es2 & -> & Hst & Hret & Hlast); [set_solver|done..|].
  apply process_run_app in Hrun as (pc & Hrunc & Hrun). apply process_run_cons in Hrun as (pd & Hstep & Hrund).
  apply Forall_app in Hokb as [Hokc [_ Hokd]%Forall_cons]. apply Forall_app in Hlb as [Hlc [_ Hld]%Forall_cons].
  rewrite (lister_run _ _ _ _ _ _ _ Hrunb Hla), Hv1 in Hst.
  assert (Hic : pod_inv pc) by by eapply pod_run_inv. assert (Hcc : calm_pending pc) by by eapply calm_run.
  destruct (reconciled_serves c pc w st pd es2 p2) as (url & S & A & Haddr & HA & HS & Hdom & Hfrom); [done..|].
  exists ((ea ++ [Notified x]) ++ es1), w, st, es2, url, S, A. split_and!; [by rewrite <-(app_assoc (ea ++ _))|done..].
Qed.

(** ** Promotion *)

(** C21: Promotion serves channels of other dispatchers.  The handlers do nothing about a
    channel that is not the pod's, but promotion brings every channel of the bucket that
    the lister knows to the reconciler, which does not ask: when such a channel is ready, its
    reconciliation registers its host and consumes each of its subscriptions, in the
    consumer group of the channel's own dispatcher, from the topic of this pod. *)
Theorem promotion_serves_foreign_channels all bkt q c st A
    (accepting : ShuttingDown q = false) (queues : ∃ ls, run threads newTwoLaneWorkQueue ls q)
    (foreign : own_object (ChannelObj c) = false) (known : c ∈ all) (bucket : bkt (key_of (meta c)) = true) (names : wf_key (key_of (meta c)))
    (listed : g_lister st !! key_of (meta c) = Some c) (live : DeletionTimestamp (meta c) = None) (ready : channel_ready c = true)
    (consumed : represents (g_inner st) A) (given_once : owned A) (uids : uids_of c)
    (succeeds : (Reconcile (b_impl b) (safeKey (key_of (meta c))) st).1 = GenReconciler.Forget) :
  let d := g_inner (Reconcile (b_impl b) (safeKey (key_of (meta c))) st).2 in
  (∀ q d, pod_handle (Added (ChannelObj c)) (q, d) = Some (q, d)) ∧
  WorkQueue.pending (key_of (meta c)) (PromoteFunc (inr all) bkt q).2 ∧
  (∃ url, Address (ch_Status c) = Some (Some url) ∧
     getChannelReferenceFromHost (Host url) d = Ok (mkChannelReference (ch_Namespace c) (ch_Name c))) ∧
  topicFunc d = topicFunc (g_inner st) ∧
  ∀ uid, uid ∈ (sub_UID <$> Subscribers (Spec c)) →
    ∃ h sub l, subsConsumerGroups d !! uid = Some h ∧
      open_groups d !! h = Some (mkConsumerGroup (groupID (key_of (meta c)) uid) [topicFunc d] sub l).
Proof.
  cbv zeta. split; [intros q' d; unfold pod_handle; simpl; unfold own_object in foreign; by rewrite foreign|]. split.
  { destruct queues as [ls Hrun]. apply (enqueue_all_pending Slow (λ elt, bkt (key_of (meta elt))) (λ elt, key_of (meta elt))); [|done|done].
    simpl. unfold ShuttingDown in accepting. rewrite <-accepting. by eapply (run_lanes threads); [|exact Hrun]. }
  pose proof (pod_Reconcile leader b (key_of (meta c)) st made names calm) as Hr. destruct (Reconcile _ _ st) as [ret st']. simpl in *.
  rewrite listed, live in Hr. destruct (syncChannel c (g_inner st)) as [[[]|err|why] d] eqn:Hsync; [|by destruct Hr as [[why ->] _]|by subst ret].
  destruct Hr as [_ ->]. destruct (synced_consumes c _ A d consumed given_once uids ready Hsync) as (url & A' & Haddr & Hh & HA' & _ & Huids & _).
  split_and!.
  - exists url. split; [done|]. unfold getChannelReferenceFromHost. by rewrite Hh.
  - by eapply syncChannel_topic.
  - intros uid [sub Hx]%Huids. destruct (rp_groups _ _ HA' _ _ _ Hx) as (h & l & Hg & _ & Ho). by exists h, sub, l.
Qed.
End pod.

(** ** A ready channel of the pod that is added and reconciled *)
Section demo.
#[local] Existing Instance Channel.demo_runtime.
#[local] Existing Instance Dispatcher.demo_cluster.
#[local] Existing Instance Sender.demo_parser.
#[local] Existing Instance GenReconciler.demo_api.

Definition demo_ready : KafkaTopicChannel := demo_channel [demo_subscriber "u1" (Some "PT1S")].
Definition demo_pod : built KafkaDispatcher () () :=
  apply_Options true (new_built (demo_leader true) dispatcher_interface defaultControllerAgentName) dispatcher_options.
Definition demo_pod_handlers : Handlers KafkaDispatcher := pod_handlers "ch" "ns".

Lemma demo_names : wf_key demo_key.
Proof. split; by apply (bool_decide_unpack _); vm_compute. Qed.

Lemma demo_uids : uids_of (λ _, demo_key) demo_ready.
Proof. done. Qed.

Lemma dispatcher_converges_witness :
  ∃ url S, Address (ch_Status demo_ready) = Some (Some url) ∧
    serves "ch" "ns" (λ _, demo_key) (Host url) S (g_inner (demo_after (b_impl demo_pod) (empty_dispatcher "topic") demo_ready)) ∧
    dom S = {["u1"]}.
Proof.
  assert (succeeds : outcome_of (Reconcile (b_impl demo_pod) (safeKey demo_key) (demo_state (empty_dispatcher "topic") (demo_cache demo_ready))).1 = Some Succeeded)
    by (vm_compute; reflexivity).
  destruct (dispatcher_converges "ch" "ns" (λ _, demo_key) (demo_leader true) demo_pod 1 eq_refl (λ n : nat, eq_refl : channel_lister_error (ApiClient:=GenReconciler.demo_api) n = None) "topic" [] (pod_start "topic")
    (demo_change demo_ready) demo_ready (demo_cached (empty_dispatcher "topic") demo_ready) (demo_events (empty_dispatcher "topic") demo_ready)
    (mkProc demo_idle (demo_after (b_impl demo_pod) (empty_dispatcher "topic") demo_ready) [] ∅)
    (pr_nil _ _ _ _) eq_refl) as (es1 & w & st & es2 & url & S & A & _ & _ & _ & Haddr & HS & Hdom & _).
  - left. reflexivity.
  - split; reflexivity.
  - exact demo_names.
  - reflexivity.
  - vm_compute. reflexivity.
  - apply (ps_cached _ _ _ (pod_start "topic") (demo_change demo_ready)).
  - exact (demo_events_run (b_impl demo_pod) demo_pod_handlers (empty_dispatcher "topic") demo_ready eq_refl succeeds).
  - simpl. repeat constructor; apply demo_names.
  - apply demo_undisturbed.
  - apply demo_undisturbed.
  - lia.
  - exact demo_idle_quiescent.
  - reflexivity.
  - exists url, S. split; [exact Haddr|]. split; [exact HS|]. rewrite Hdom. vm_compute. reflexivity.
Defined.

(** A pod of another channel that is promoted. *)
Lemma promotion_serves_foreign_channels_witness :
  let d := g_inner (Reconcile (b_impl demo_pod) (safeKey (key_of (meta demo_ready))) (demo_state (empty_dispatcher "topic") (demo_cache demo_ready))).2 in
  ∃ h sub l, subsConsumerGroups d !! "u1" = Some h ∧ open_groups d !! h = Some (mkConsumerGroup (groupID (key_of (meta demo_ready)) "u1") ["topic"] sub l).
Proof.
  destruct (promotion_serves_foreign_channels "other" "ns" (λ _, demo_key) (demo_leader true) demo_pod 1 eq_refl
    (λ n : nat, eq_refl : channel_lister_error (ApiClient:=GenReconciler.demo_api) n = None)
    [demo_ready] (λ _, true) newTwoLaneWorkQueue demo_ready (demo_state (empty_dispatcher "topic") (demo_cache demo_ready)) ∅)
    as (_ & _ & _ & Htopic & Hall).
  - reflexivity.
  - exists []. apply run_nil.
  - reflexivity.
  - apply list_elem_of_here.
  - reflexivity.
  - exact demo_names.
  - reflexivity.
  - reflexivity.
  - vm_compute. reflexivity.
  - apply represents_empty.
  - intros uid ref sub Hx. destruct (lookup_empty_Some _ _ Hx).
  - exact demo_uids.
  - vm_compute. reflexivity.
  - rewrite Htopic in Hall. exact (Hall "u1" (list_elem_of_here "u1" [])).
Defined.

(** ** A deletion during a reconciliation *)
Section deleted.
Context {W : Type} (i : reconcilerImpl W) (hs : Handlers W) (inner : W) (listed : KafkaTopicChannel) (x : notification).

Definition demo_deleted_events : list (event (W:=W)) :=
  [Cached x; Notified x; Reconciled 0 demo_key (demo_state inner (demo_cache listed)); Moved LInternal].
Definition demo_undone : Process :=
  mkProc demo_idle (g_set_lister ∅ (Reconcile i (safeKey demo_key) (demo_state inner (demo_cache listed))).2) [] ∅.

Lemma demo_deleted_run
    (gone : observe x (demo_cache listed) = ∅)
    (handled : handle hs x (demo_reconciling, inner) = Some (demo_reconciling, inner))
    (succeeds : outcome_of (Reconcile i (safeKey demo_key) (demo_state inner (demo_cache listed))).1 = Some Succeeded) :
  process_run i hs 1 (demo_busy inner listed) demo_deleted_events demo_undone.
Proof.
  pose proof (ps_cached i hs 1 (demo_busy inner listed) x) as Hcached. cbv zeta in Hcached. simpl in Hcached. rewrite gone in Hcached.
  eapply pr_cons; [exact Hcached|]. set (seen := (λ seen, seen ++ [∅]) <$> {[0 := [demo_cache listed]]}).
  set (p := mkProc demo_reconciling (demo_state inner ∅) [] seen). apply (pr_cons _ _ _ _ _ p).
  { exact (ps_notified i hs 1 (mkProc demo_reconciling (demo_state inner ∅) [x] seen) x [] _ _ eq_refl handled). }
  eapply pr_cons.
  - eapply (ps_reconciled i hs 1 p 0 demo_key [demo_cache listed; ∅] (demo_cache listed) Succeeded demo_done);
      [reflexivity|apply list_elem_of_here|exact succeeds|].
    assert (Hs := step_return 1 demo_reconciling 0 demo_key Succeeded eq_refl). vm_compute in Hs |- *. exact Hs.
  - apply (process_run_moved i hs 1 _ [] ∅ demo_done [LInternal]); [|by repeat constructor].
    eapply run_cons; [|apply run_nil]. assert (Hs := step_done 1 demo_done 0 demo_key eq_refl). vm_compute in Hs |- *. exact Hs.
Qed.
End deleted.

(** A channel that is deleted stays consumed: the handler cleans up while a worker
    still holds the version that it had read from the cache, and the sync of that version
    brings host and consumer groups back for good. *)
Theorem deletion_can_be_undone :
  let deletion := Deleted (ChannelObj demo_ready) in let start := empty_dispatcher "topic" in
  let p := demo_undone (b_impl demo_pod) start demo_ready in
  process_run (b_impl demo_pod) demo_pod_handlers 1 (demo_cached start demo_ready)
    (Notified (demo_change demo_ready) :: demo_queued ++ demo_deleted_events start demo_ready deletion) p ∧
  quiescent 1 (pr_queue p) ∧ pr_pending p = [] ∧ g_lister (pr_state p) = ∅ ∧
  groupID demo_key "u1" ∈ (cg_groupID <$> (map_to_list (open_groups (g_inner (pr_state p)))).*2) ∧ hostToChannelMap (g_inner (pr_state p)) ≠ ∅.
Proof.
  cbv zeta. split_and!; [|exact demo_idle_quiescent|reflexivity|reflexivity|vm_compute; apply list_elem_of_here|vm_compute; discriminate].
  assert (gone : observe (Deleted (ChannelObj demo_ready)) (demo_cache demo_ready) = ∅) by (vm_compute; reflexivity).
  assert (added : handle demo_pod_handlers (demo_change demo_ready) (newTwoLaneWorkQueue, empty_dispatcher "topic") = Some (demo_added, empty_dispatcher "topic"))
    by (vm_compute; reflexivity).
  assert (handled : handle demo_pod_handlers (Deleted (ChannelObj demo_ready)) (demo_reconciling, empty_dispatcher "topic")
    = Some (demo_reconciling, empty_dispatcher "topic")) by (vm_compute; reflexivity).
  assert (succeeds : outcome_of (Reconcile (b_impl demo_pod) (safeKey demo_key) (demo_state (empty_dispatcher "topic") (demo_cache demo_ready))).1 = Some Succeeded)
    by (vm_compute; reflexivity).
  eapply pr_cons; [exact (ps_notified _ _ _ (demo_cached _ _) (demo_change demo_ready) [] demo_added (empty_dispatcher "topic") eq_refl added)|].
  eapply process_run_trans; [apply demo_started|exact (demo_deleted_run _ _ _ _ _ gone handled succeeds)].
Qed.
End demo.
