(* ===== verification/Client.v ===== *)
(** * Client: the typed client of channels and its fake

    Models [src/pkg/client/clientset/versioned]: the requests of
    [typed/messaging/v1alpha1/kafkatopicchannel.go] as the request builder of
    [vendor/k8s.io/client-go/rest/request.go] makes them, the actions of
    [typed/messaging/v1alpha1/fake/fake_kafkatopicchannel.go] as the recorder of
    [vendor/k8s.io/client-go/testing] takes them, and the construction of the
    clients ([clientset.go], [messaging_client.go]).

    The transport is the class [RoundTripper]; the encoding of bodies and of the
    options is the class [Codec], label selectors the class [LabelSelectors]. *)
From Stdlib Require Import Ascii.
From S2P Require Import Prelude GoStrings FieldError ApiTypes Channel Prober Resources Controller.

(** ** The request builder ([rest/request.go]) *)

Record ListOptions := mkListOptions {
  LabelSelector : string;
  FieldSelector : string;
  lo_Watch : bool;
  lo_ResourceVersion : string;
  TimeoutSeconds : option Z;
}.
Definition set_watch (o : ListOptions) : ListOptions :=
  mkListOptions (LabelSelector o) (FieldSelector o) true (lo_ResourceVersion o) (TimeoutSeconds o).

(** The options of the other verbs ([GetOptions], [CreateOptions], ...) are passed
    through as they are. *)
Definition Opts : Type := list (string * string).

Inductive Params := PlainParams (o : Opts) | ListParams (o : ListOptions).
Inductive Payload := ObjectBody (c : KafkaTopicChannel) | OptionsBody (o : Opts) | DataBody (data : string).

Record Request := mkRequest {
  r_verb : string;
  r_contentType : string;
  (** [None] until [Namespace] has set it *)
  r_namespace : option string;
  r_resource : string;
  r_resourceName : string;
  r_subresource : string;
  r_params : list Params;
  r_timeout : Z;
  r_body : option Payload;
  r_err : option string;
}.

Definition set_err (err : string) (r : Request) : Request :=
  mkRequest (r_verb r) (r_contentType r) (r_namespace r) (r_resource r) (r_resourceName r) (r_subresource r)
    (r_params r) (r_timeout r) (r_body r) (Some err).

Definition NameMayNotBe : list string := ["."; ".."].
Definition NameMayNotContain : list ascii := ["/"%char; "%"%char].

Definition IsValidPathSegmentName (name : string) : list string :=
  match List.find (λ illegalName, bool_decide (name = illegalName)) NameMayNotBe with
  | Some illegalName => ["may not be '" +:+ illegalName +:+ "'"]
  | None =>
      (λ c, "may not contain '" +:+ String c "'") <$> filter (λ c, ¬ free_of c name) NameMayNotContain
  end.

(** [%v] of a slice of strings. *)
Definition show_list (l : list string) : string := "[" +:+ Join " " l +:+ "]".

(** Each setter leaves a request that has an error alone. *)
Definition unless_err (f : Request → Request) (r : Request) : Request :=
  match r_err r with Some _ => r | None => f r end.

(** [path.Join] of segments without separators, [.] and [..]. *)
Definition path_Join (elems : list string) : string := Join "/" (filter (λ e, e ≠ "") elems).

Definition rNamespace (namespace : string) : Request → Request := unless_err (λ r,
  match r_namespace r with
  | Some old => set_err ("namespace already set to " +:+ quote old +:+ ", cannot change to " +:+ quote namespace) r
  | None =>
      match IsValidPathSegmentName namespace with
      | [] => mkRequest (r_verb r) (r_contentType r) (Some namespace) (r_resource r) (r_resourceName r)
                (r_subresource r) (r_params r) (r_timeout r) (r_body r) (r_err r)
      | msgs => set_err ("invalid namespace " +:+ quote namespace +:+ ": " +:+ show_list msgs) r
      end
  end).

Definition rResource (resource : string) : Request → Request := unless_err (λ r,
  if decide (r_resource r ≠ "") then
    set_err ("resource already set to " +:+ quote (r_resource r) +:+ ", cannot change to " +:+ quote resource) r
  else
    match IsValidPathSegmentName resource with
    | [] => mkRequest (r_verb r) (r_contentType r) (r_namespace r) resource (r_resourceName r) (r_subresource r)
              (r_params r) (r_timeout r) (r_body r) (r_err r)
    | msgs => set_err ("invalid resource " +:+ quote resource +:+ ": " +:+ show_list msgs) r
    end).

Definition rName (resourceName : string) : Request → Request := unless_err (λ r,
  if decide (resourceName = "") then set_err "resource name may not be empty" r
  else if decide (r_resourceName r ≠ "") then
    set_err ("resource name already set to " +:+ quote (r_resourceName r) +:+ ", cannot change to " +:+ quote resourceName) r
  else
    match IsValidPathSegmentName resourceName with
    | [] => mkRequest (r_verb r) (r_contentType r) (r_namespace r) (r_resource r) resourceName (r_subresource r)
              (r_params r) (r_timeout r) (r_body r) (r_err r)
    | msgs => set_err ("invalid resource name " +:+ quote resourceName +:+ ": " +:+ show_list msgs) r
    end).

(** The first of the subresources that is no path segment. *)
Definition invalid_subresource (subresources : list string) : option string :=
  List.find (λ s, bool_decide (IsValidPathSegmentName s ≠ [])) subresources.

Definition rSubResource (subresources : list string) : Request → Request := unless_err (λ r,
  let subresource := path_Join subresources in
  if decide (r_subresource r ≠ "") then
    set_err ("subresource already set to " +:+ quote (r_resource r) +:+ ", cannot change to " +:+ quote subresource) r
  else
    match invalid_subresource subresources with
    | Some s => set_err ("invalid subresource " +:+ quote s +:+ ": " +:+ show_list (IsValidPathSegmentName s)) r
    | None => mkRequest (r_verb r) (r_contentType r) (r_namespace r) (r_resource r) (r_resourceName r) subresource
                (r_params r) (r_timeout r) (r_body r) (r_err r)
    end).

Definition rTimeout (d : Z) : Request → Request := unless_err (λ r,
  mkRequest (r_verb r) (r_contentType r) (r_namespace r) (r_resource r) (r_resourceName r) (r_subresource r)
    (r_params r) d (r_body r) (r_err r)).

Class Codec := {
  params_error : Params → option string;
  body_error : Payload → option string;
}.

Definition VersionedParams `{Codec} (p : Params) : Request → Request := unless_err (λ r,
  match params_error p with
  | Some err => set_err err r
  | None => mkRequest (r_verb r) (r_contentType r) (r_namespace r) (r_resource r) (r_resourceName r) (r_subresource r)
              (r_params r ++ [p]) (r_timeout r) (r_body r) (r_err r)
  end).

Definition rBody `{Codec} (b : Payload) : Request → Request := unless_err (λ r,
  match body_error b with
  | Some err => set_err err r
  | None => mkRequest (r_verb r) (r_contentType r) (r_namespace r) (r_resource r) (r_resourceName r) (r_subresource r)
              (r_params r) (r_timeout r) (Some b) (r_err r)
  end).

Definition Verb (verb : string) : Request := mkRequest verb "" None "" "" "" [] 0 None None.
Definition rPatch (pt : string) : Request := mkRequest "PATCH" pt None "" "" "" [] 0 None None.

(** The path of [URL] below the version ([pathPrefix]). *)
Definition pathPrefix : list string := ["apis"; GroupName; "v1alpha1"].
Definition URL_segments (r : Request) : list string :=
  pathPrefix ++
  (match r_namespace r with Some ns => if decide (ns = "") then [] else ["namespaces"; ns] | None => [] end) ++
  (if decide (r_resource r = "") then [] else [ToLower (r_resource r)]) ++
  filter (λ e, e ≠ "") [r_resourceName r; r_subresource r].
Definition URL_path (r : Request) : string := "/" +:+ Join "/" (URL_segments r).

(** ** The typed client ([kafkatopicchannel.go]) *)
Definition kafkatopicchannels : string := "kafkatopicchannels".

(** [time.Duration( *opts.TimeoutSeconds) * time.Second], an [int64]. *)
Definition list_timeout (o : ListOptions) : Z :=
  match TimeoutSeconds o with Some s => wrap64 (s * 10 ^ 9) | None => 0 end.

Section requests.
Context `{Codec} (ns : string).

Definition on_resource (r : Request) : Request := rResource kafkatopicchannels (rNamespace ns r).

Definition Get (name : string) (options : Opts) : Request :=
  VersionedParams (PlainParams options) (rName name (on_resource (Verb "GET"))).
Definition List (opts : ListOptions) : Request :=
  rTimeout (list_timeout opts) (VersionedParams (ListParams opts) (on_resource (Verb "GET"))).
Definition Watch (opts : ListOptions) : Request :=
  rTimeout (list_timeout opts) (VersionedParams (ListParams (set_watch opts)) (on_resource (Verb "GET"))).
Definition Create (c : KafkaTopicChannel) (opts : Opts) : Request :=
  rBody (ObjectBody c) (VersionedParams (PlainParams opts) (on_resource (Verb "POST"))).
Definition Update (c : KafkaTopicChannel) (opts : Opts) : Request :=
  rBody (ObjectBody c) (VersionedParams (PlainParams opts) (rName (Name (meta c)) (on_resource (Verb "PUT")))).
Definition UpdateStatus (c : KafkaTopicChannel) (opts : Opts) : Request :=
  rBody (ObjectBody c) (VersionedParams (PlainParams opts)
    (rSubResource ["status"] (rName (Name (meta c)) (on_resource (Verb "PUT"))))).
Definition Delete (name : string) (opts : Opts) : Request :=
  rBody (OptionsBody opts) (rName name (on_resource (Verb "DELETE"))).
Definition DeleteCollection (opts : Opts) (listOpts : ListOptions) : Request :=
  rBody (OptionsBody opts) (rTimeout (list_timeout listOpts)
    (VersionedParams (ListParams listOpts) (on_resource (Verb "DELETE")))).
Definition Patch (name pt data : string) (opts : Opts) (subresources : list string) : Request :=
  rBody (DataBody data) (VersionedParams (PlainParams opts)
    (rSubResource subresources (rName name (on_resource (rPatch pt))))).
End requests.

(** [&v1alpha1.KafkaTopicChannel{}]. *)
Definition empty_channel : KafkaTopicChannel :=
  mkChannel (new_meta "" "" None []) (mkSpec 0 0 [] (Channel.mkNet (mkSASL false None None None) (mkTLS false None None None)) "" [] None)
    (mkStatus 0 [] None []).

(** What comes back: an object, a list, a watch or nothing. *)
Inductive Answer := Single (c : KafkaTopicChannel) | Items (l : list KafkaTopicChannel) | Stream (id : nat) | Nothing.

Class RoundTripper (S : Type) := round_trip : Request → S → (string + Answer) * S.

(** [Do(ctx).Into(result)]: an error of the builder never reaches the server. *)
Definition do_request {S} `{RoundTripper S} (r : Request) (s : S) : (string + Answer) * S :=
  match r_err r with Some err => (inl err, s) | None => round_trip r s end.

(** ** The fake client ([fake/fake_kafkatopicchannel.go]) *)

(** [testing.Action]; the selectors are those of a list, a watch or the deletion
    of a collection. *)
Record Action := mkAction {
  a_Verb : string;
  a_Namespace : string;
  a_Name : string;
  a_Subresource : string;
  a_Object : option KafkaTopicChannel;
  a_Selectors : option (string * string);
  a_ResourceVersion : string;
  a_Patch : option (string * string);
}.

Definition plain_action (verb ns name : string) : Action := mkAction verb ns name "" None None "" None.
Definition list_action (verb ns : string) (o : ListOptions) : Action :=
  mkAction verb ns "" "" None (Some (LabelSelector o, FieldSelector o))
    (if decide (verb = "watch") then lo_ResourceVersion o else "") None.
Definition object_action (verb ns subresource : string) (c : KafkaTopicChannel) : Action :=
  mkAction verb ns "" subresource (Some c) None "" None.

(** A reactor: [None] when it does not handle the action, else its object, which
    may be nil, and its error. *)
Definition Reactor (S : Type) : Type := Action → S → option ((option Answer * option string) * S).

Record Fake (S : Type) := mkFake { fk_actions : list Action; fk_state : S }.
Arguments mkFake {S} fk_actions fk_state.
Arguments fk_actions {S} f.
Arguments fk_state {S} f.

Section fake.
Context {S : Type} (ReactionChain : list (Reactor S)).

Fixpoint react (chain : list (Reactor S)) (a : Action) (default : option Answer * option string) (s : S) :
    (option Answer * option string) * S :=
  match chain with
  | [] => (default, s)
  | reactor :: chain => match reactor a s with Some r => r | None => react chain a default s end
  end.

(** [Invokes] and [InvokesWatch]; the two chains of the Go record are one, whose
    reactors look at the verb. *)
Definition Invokes (a : Action) (default : option Answer * option string) (f : Fake S) :
    (option Answer * option string) * Fake S :=
  let (r, s) := react ReactionChain a default (fk_state f) in (r, mkFake (fk_actions f ++ [a]) s).

Definition default_object : option Answer * option string := (Some (Single empty_channel), None).

Class LabelSelectors := parse_selector : string → option (option (gmap string string) → bool).
Context `{LabelSelectors} (ns : string).

Definition fake_Get (name : string) := Invokes (plain_action "get" ns name) default_object.
(** An unparsable selector panics. *)
Definition fake_List (opts : ListOptions) (f : Fake S) : res string (option Answer * option string) * Fake S :=
  match parse_selector (LabelSelector opts) with
  | None => (Panic "invalid selector", f)
  | Some matches =>
      let (r, f) := Invokes (list_action "list" ns opts) (Some (Items []), None) f in
      match r with
      | (Some (Items items), err) => (Ok (Some (Items (filter (λ c, matches (Labels (meta c)) = true) items)), err), f)
      | r => (Ok r, f)
      end
  end.
Definition fake_Watch (opts : ListOptions) := Invokes (list_action "watch" ns opts) (None, Some "unhandled watch").
Definition fake_Create (c : KafkaTopicChannel) := Invokes (object_action "create" ns "" c) default_object.
Definition fake_Update (c : KafkaTopicChannel) := Invokes (object_action "update" ns "" c) default_object.
Definition fake_UpdateStatus (c : KafkaTopicChannel) := Invokes (object_action "update" ns "status" c) default_object.

(** A deletion drops the object. *)
Definition only_error (r : (option Answer * option string) * Fake S) : (option Answer * option string) * Fake S :=
  ((None, r.1.2), r.2).
Definition fake_Delete (name : string) (f : Fake S) :=
  only_error (Invokes (plain_action "delete" ns name) default_object f).
Definition fake_DeleteCollection (listOpts : ListOptions) (f : Fake S) :=
  only_error (Invokes (list_action "delete-collection" ns listOpts) (Some (Items []), None) f).
Definition fake_Patch (name pt data : string) (subresources : list string) :=
  Invokes (mkAction "patch" ns name (path_Join subresources) None None "" (Some (pt, data))) default_object.
End fake.

(** ** The two clients on one store *)

(** A call of [KafkaTopicChannelInterface]. *)
Inductive Op :=
  | OpGet (name : string) (opts : Opts)
  | OpList (opts : ListOptions)
  | OpWatch (opts : ListOptions)
  | OpCreate (c : KafkaTopicChannel) (opts : Opts)
  | OpUpdate (c : KafkaTopicChannel) (opts : Opts)
  | OpUpdateStatus (c : KafkaTopicChannel) (opts : Opts)
  | OpDelete (name : string) (opts : Opts)
  | OpDeleteCollection (opts : Opts) (listOpts : ListOptions)
  | OpPatch (name pt data : string) (opts : Opts) (subresources : list string).

Definition typed_request `{Codec} (ns : string) (op : Op) : Request :=
  match op with
  | OpGet name o => Get ns name o
  | OpList o => List ns o
  | OpWatch o => Watch ns o
  | OpCreate c o => Create ns c o
  | OpUpdate c o => Update ns c o
  | OpUpdateStatus c o => UpdateStatus ns c o
  | OpDelete name o => Delete ns name o
  | OpDeleteCollection o lo => DeleteCollection ns o lo
  | OpPatch name pt data o subs => Patch ns name pt data o subs
  end.

Definition is_deletion (op : Op) : bool :=
  match op with OpDelete _ _ | OpDeleteCollection _ _ => true | _ => false end.

(** What the methods allocate for the result before the request. *)
Definition new_result (op : Op) : option Answer :=
  match op with
  | OpGet _ _ | OpCreate _ _ | OpUpdate _ _ | OpUpdateStatus _ _ | OpPatch _ _ _ _ _ => Some (Single empty_channel)
  | OpList _ => Some (Items [])
  | OpWatch _ | OpDelete _ _ | OpDeleteCollection _ _ => None
  end.

(** The call on the typed client: with an error, the empty result is returned too. *)
Definition typed_call {S} `{Codec} `{RoundTripper S} (ns : string) (op : Op) (s : S) :
    (option Answer * option string) * S :=
  let (r, s) := do_request (typed_request ns op) s in
  (match r with
   | inl err => (new_result op, Some err)
   | inr answer => (if is_deletion op then None else Some answer, None)
   end, s).

Definition fake_call {S} `{LabelSelectors} (chain : list (Reactor S)) (ns : string) (op : Op) (f : Fake S) :
    res string (option Answer * option string) * Fake S :=
  let ok (r : (option Answer * option string) * Fake S) := (Ok r.1, r.2) in
  match op with
  | OpGet name _ => ok (fake_Get chain ns name f)
  | OpList o => fake_List chain ns o f
  | OpWatch o => ok (fake_Watch chain ns o f)
  | OpCreate c _ => ok (fake_Create chain ns c f)
  | OpUpdate c _ => ok (fake_Update chain ns c f)
  | OpUpdateStatus c _ => ok (fake_UpdateStatus chain ns c f)
  | OpDelete name _ => ok (fake_Delete chain ns name f)
  | OpDeleteCollection _ lo => ok (fake_DeleteCollection chain ns lo f)
  | OpPatch name pt data _ subs => ok (fake_Patch chain ns name pt data subs f)
  end.

(** What keeps the channels, for the server and for the fake's tracker alike: it
    lists whole namespaces and leaves the selection by labels to its user, and it
    can always be watched.  (What a store does with an action, such as which part of
    the object an update of the subresource [status] replaces, is its own.) *)
Class Store (S : Type) := {
  serve : Action → S → (string + Answer) * S;
  serve_watch a s : a_Verb a = "watch" → ∀ err, (serve a s).1 ≠ inl err;
}.

(** The reactors of [NewSimpleClientset]: [ObjectReaction], which has no case for
    the deletion of a collection, and the one for watches, which leaves an error of
    the tracker to the next reactor. *)
Definition tracker_reactor {S} `{Store S} : Reactor S := λ a s,
  if decide (a_Verb a = "delete-collection") then None
  else
    match serve a s with
    | (inl err, s) => if decide (a_Verb a = "watch") then None else Some ((None, Some err), s)
    | (inr answer, s) => Some ((Some answer, None), s)
    end.

(** The conventions of the API: which action a request asks for. *)
Definition route_in (ns verb contentType : string) (tail : list string) (params : list Params) (body : option Payload) :
    option Action :=
  match tail, params, body with
  | [], [ListParams o], None =>
      if decide (verb = "GET") then Some (list_action (if lo_Watch o then "watch" else "list") ns o) else None
  | [], [ListParams o], Some (OptionsBody _) =>
      if decide (verb = "DELETE") then Some (list_action "delete-collection" ns o) else None
  | [], _, Some (ObjectBody c) => if decide (verb = "POST") then Some (object_action "create" ns "" c) else None
  | [name], _, None => if decide (verb = "GET") then Some (plain_action "get" ns name) else None
  | [name], _, Some (OptionsBody _) => if decide (verb = "DELETE") then Some (plain_action "delete" ns name) else None
  | name :: sub, _, Some (ObjectBody c) =>
      if decide (verb = "PUT" ∧ name = Name (meta c)) then Some (object_action "update" ns (Join "/" sub) c) else None
  | name :: sub, _, Some (DataBody data) =>
      if decide (verb = "PATCH") then
        Some (mkAction "patch" ns name (Join "/" sub) None None "" (Some (contentType, data)))
      else None
  | _, _, _ => None
  end.

Definition route (r : Request) : option Action :=
  match Split "/"%char (URL_path r) with
  | "" :: "apis" :: group :: version :: rest =>
      if decide (group = GroupName ∧ version = "v1alpha1") then
        match rest with
        | "namespaces" :: ns :: resource :: tail =>
            if decide (resource = kafkatopicchannels) then
              route_in ns (r_verb r) (r_contentType r) tail (r_params r) (r_body r)
            else None
        | resource :: tail =>
            if decide (resource = kafkatopicchannels) then
              route_in "" (r_verb r) (r_contentType r) tail (r_params r) (r_body r)
            else None
        | [] => None
        end
      else None
  | _ => None
  end.

(** An API server in front of the store, which does select by labels. *)
Definition select `{LabelSelectors} (a : Action) (answer : Answer) : Answer :=
  match answer, a_Selectors a with
  | Items items, Some (labels, _) =>
      if decide (a_Verb a = "list") then
        match parse_selector labels with
        | Some matches => Items (filter (λ c, matches (Labels (meta c)) = true) items)
        | None => Items items
        end
      else Items items
  | answer, _ => answer
  end.

#[local] Instance server {S} `{Store S} `{LabelSelectors} : RoundTripper S := λ r s,
  match route r with
  | None => (inl "the server could not find the requested resource", s)
  | Some a => let (answer, s) := serve a s in
              (match answer with inl err => inl err | inr x => inr (select a x) end, s)
  end.

(** ** Building requests *)
Lemma Join_cons2 sep e e' es : Join sep (e :: e' :: es) = e +:+ sep +:+ Join sep (e' :: es).
Proof. done. Qed.

Lemma Join_flatten sep es es' : es' ≠ [] → Join sep (es ++ [Join sep es']) = Join sep (es ++ es').
Proof.
  intros Hne. induction es as [|e es IH]; [done|]. destruct es as [|e' es].
  - destruct es' as [|e' es']; [done|]. done.
  - cbn [app]. rewrite !Join_cons2. do 2 f_equal. exact IH.
Qed.

Definition valid_segment (s : string) : Prop := IsValidPathSegmentName s = [].

Lemma valid_segment_free s : valid_segment s → free_of "/"%char s.
Proof.
  unfold valid_segment, IsValidPathSegmentName. destruct (List.find _ _); [done|].
  unfold NameMayNotContain. rewrite filter_cons. destruct (decide (¬ free_of _ s)) as [|Hf]; [done|]. intros _.
  by apply dec_stable.
Qed.

Lemma invalid_subresource_None subs : Forall valid_segment subs → invalid_subresource subs = None.
Proof.
  unfold invalid_subresource. induction 1 as [|s subs Hs _ IH]; [done|]. simpl. rewrite Hs.
  by rewrite bool_decide_false by (intros Hn; by apply Hn).
Qed.

Lemma route_segments r segs :
  URL_path r = "/" +:+ Join "/" segs → segs ≠ [] → Forall (free_of "/"%char) segs →
  Split "/"%char (URL_path r) = "" :: segs.
Proof.
  intros -> Hne Hf. destruct segs as [|e segs]; [done|].
  change ("/" +:+ Join "/" (e :: segs)) with (Join "/" ("" :: e :: segs)). rewrite Split_Join; [done|].
  constructor; [by apply (bool_decide_unpack (free_of _ _))|done].
Qed.

(** ** Properties *)
Section agreement.
Context {S : Type} `{Store S} `{LabelSelectors} `{Codec}.
Implicit Types (ns name : string) (c : KafkaTopicChannel).

(** The encoders accept everything. *)
Definition encodes : Prop := (∀ p, params_error p = None) ∧ (∀ b, body_error b = None).

(** What a call needs besides a valid namespace: names and subresources that are
    path segments, a selector that parses, and a list that does not ask to watch. *)
Definition op_ok (op : Op) : Prop :=
  match op with
  | OpGet name _ | OpDelete name _ => name ≠ "" ∧ valid_segment name
  | OpUpdate c _ | OpUpdateStatus c _ => Name (meta c) ≠ "" ∧ valid_segment (Name (meta c))
  | OpPatch name _ _ _ subs => name ≠ "" ∧ valid_segment name ∧ Forall valid_segment subs ∧ Forall (λ e, e ≠ "") subs
  | OpList o => lo_Watch o = false ∧ is_Some (parse_selector (LabelSelector o))
  | OpWatch _ | OpCreate _ _ | OpDeleteCollection _ _ => True
  end.

(** The action of a call. *)
Definition action_of ns (op : Op) : Action :=
  match op with
  | OpGet name _ => plain_action "get" ns name
  | OpList o => list_action "list" ns o
  | OpWatch o => list_action "watch" ns (set_watch o)
  | OpCreate c _ => object_action "create" ns "" c
  | OpUpdate c _ => object_action "update" ns "" c
  | OpUpdateStatus c _ => object_action "update" ns "status" c
  | OpDelete name _ => plain_action "delete" ns name
  | OpDeleteCollection _ lo => list_action "delete-collection" ns lo
  | OpPatch name pt data _ subs => mkAction "patch" ns name (path_Join subs) None None "" (Some (pt, data))
  end.

(** The builders, on requests without an error. *)
Lemma on_resource_eq ns r :
  valid_segment ns → r_err r = None → r_namespace r = None → r_resource r = "" →
  on_resource ns r =
  mkRequest (r_verb r) (r_contentType r) (Some ns) kafkatopicchannels (r_resourceName r) (r_subresource r)
    (r_params r) (r_timeout r) (r_body r) None.
Proof.
  intros Hns He Hn Hr. unfold on_resource, rNamespace, unless_err. rewrite He, Hn, Hns.
  unfold rResource, unless_err. simpl. rewrite Hr. rewrite decide_False by (by intros []). reflexivity.
Qed.

Lemma rName_eq name r :
  name ≠ "" → valid_segment name → r_err r = None → r_resourceName r = "" →
  rName name r = mkRequest (r_verb r) (r_contentType r) (r_namespace r) (r_resource r) name (r_subresource r)
                   (r_params r) (r_timeout r) (r_body r) None.
Proof.
  intros Hne Hv He Hr. unfold rName, unless_err. rewrite He, decide_False by done.
  rewrite Hr, decide_False by (by intros []). by rewrite Hv.
Qed.

Lemma rSubResource_eq subs r :
  Forall valid_segment subs → r_err r = None → r_subresource r = "" →
  rSubResource subs r = mkRequest (r_verb r) (r_contentType r) (r_namespace r) (r_resource r) (r_resourceName r)
                          (path_Join subs) (r_params r) (r_timeout r) (r_body r) None.
Proof.
  intros Hv He Hs. unfold rSubResource, unless_err. rewrite He. cbv zeta.
  rewrite Hs, decide_False by (by intros []). by rewrite invalid_subresource_None.
Qed.

Lemma VersionedParams_eq p r :
  encodes → r_err r = None →
  VersionedParams p r = mkRequest (r_verb r) (r_contentType r) (r_namespace r) (r_resource r) (r_resourceName r)
                          (r_subresource r) (r_params r ++ [p]) (r_timeout r) (r_body r) None.
Proof. intros [Hp _] He. unfold VersionedParams, unless_err. by rewrite He, Hp. Qed.

Lemma rBody_eq b r :
  encodes → r_err r = None →
  rBody b r = mkRequest (r_verb r) (r_contentType r) (r_namespace r) (r_resource r) (r_resourceName r)
                (r_subresource r) (r_params r) (r_timeout r) (Some b) None.
Proof. intros [_ Hb] He. unfold rBody, unless_err. by rewrite He, Hb. Qed.

(** The request of a call is [mkRequest] of its parts. *)
Definition built_request ns (op : Op) : Request :=
  let mk verb ct name sub params timeout body := mkRequest verb ct (Some ns) kafkatopicchannels name sub params timeout body None in
  match op with
  | OpGet name o => mk "GET" "" name "" [PlainParams o] 0%Z None
  | OpList o => mk "GET" "" "" "" [ListParams o] (list_timeout o) None
  | OpWatch o => mk "GET" "" "" "" [ListParams (set_watch o)] (list_timeout o) None
  | OpCreate c o => mk "POST" "" "" "" [PlainParams o] 0%Z (Some (ObjectBody c))
  | OpUpdate c o => mk "PUT" "" (Name (meta c)) "" [PlainParams o] 0%Z (Some (ObjectBody c))
  | OpUpdateStatus c o => mk "PUT" "" (Name (meta c)) "status" [PlainParams o] 0%Z (Some (ObjectBody c))
  | OpDelete name o => mk "DELETE" "" name "" [] 0%Z (Some (OptionsBody o))
  | OpDeleteCollection o lo => mk "DELETE" "" "" "" [ListParams lo] (list_timeout lo) (Some (OptionsBody o))
  | OpPatch name pt data o subs => mk "PATCH" pt name (path_Join subs) [PlainParams o] 0%Z (Some (DataBody data))
  end.

Lemma typed_request_eq ns op : encodes → valid_segment ns → op_ok op → typed_request ns op = built_request ns op.
Proof.
  intros Henc Hns Hop. destruct op as [name o|o|o|c o|c o|c o|name o|o lo|name pt data o subs]; simpl in Hop |- *;
    unfold Get, List, Watch, Create, Update, UpdateStatus, Delete, DeleteCollection, Patch;
    rewrite on_resource_eq by done; simpl.
  - destruct Hop. rewrite rName_eq by done. by rewrite VersionedParams_eq.
  - by rewrite VersionedParams_eq.
  - by rewrite VersionedParams_eq.
  - rewrite VersionedParams_eq by done. by rewrite rBody_eq.
  - destruct Hop. rewrite rName_eq by done. rewrite VersionedParams_eq by done. by rewrite rBody_eq.
  - destruct Hop. rewrite rName_eq by done. rewrite rSubResource_eq by (done || by repeat constructor).
    rewrite VersionedParams_eq by done. by rewrite rBody_eq.
  - destruct Hop. rewrite rName_eq by done. by rewrite rBody_eq.
  - rewrite VersionedParams_eq by done. unfold rTimeout, unless_err. simpl. by rewrite rBody_eq.
  - destruct Hop as (? & ? & ? & ?). rewrite rName_eq by done. rewrite rSubResource_eq by done.
    rewrite VersionedParams_eq by done. by rewrite rBody_eq.
Qed.

(** The segments after the name. *)
Definition op_tail (op : Op) : list string :=
  match op with
  | OpGet name _ | OpDelete name _ => [name]
  | OpUpdate c _ => [Name (meta c)]
  | OpUpdateStatus c _ => [Name (meta c); "status"]
  | OpPatch name _ _ _ subs => name :: subs
  | _ => []
  end.

Lemma op_tail_free op : op_ok op → Forall (free_of "/"%char) (op_tail op).
Proof.
  destruct op as [name o|o|o|c o|c o|c o|name o|o lo|name pt data o subs]; simpl; try by (intros _; constructor).
  - intros [_ Hv]. constructor; [by apply valid_segment_free|constructor].
  - intros [_ Hv]. constructor; [by apply valid_segment_free|constructor].
  - intros [_ Hv]. constructor; [by apply valid_segment_free|]. constructor; [by apply (bool_decide_unpack (free_of _ _))|constructor].
  - intros [_ Hv]. constructor; [by apply valid_segment_free|constructor].
  - intros (_ & Hv & Hs & _). constructor; [by apply valid_segment_free|].
    eapply Forall_impl; [exact Hs|]. intros s. apply valid_segment_free.
Qed.

Definition base_segments ns : list string :=
  pathPrefix ++ (if decide (ns = "") then [] else ["namespaces"; ns]) ++ [kafkatopicchannels].

Lemma filter_nonempty (l : list string) : Forall (λ e, e ≠ "") l → filter (λ e, e ≠ "") l = l.
Proof. induction 1 as [|e l He _ IH]; [done|]. rewrite filter_cons_True by done. by rewrite IH. Qed.

Lemma built_path ns op :
  op_ok op → URL_path (built_request ns op) = "/" +:+ Join "/" (base_segments ns ++ op_tail op).
Proof.
  intros Hop. unfold URL_path. f_equal. unfold URL_segments, base_segments.
  destruct op as [name o|o|o|c o|c o|c o|name o|o lo|name pt data o subs]; simpl in Hop |- *;
    try (rewrite <-!app_assoc; reflexivity).
  - destruct Hop. rewrite filter_cons_True by done. by rewrite <-!app_assoc.
  - destruct Hop. rewrite filter_cons_True by done. by rewrite <-!app_assoc.
  - destruct Hop. rewrite filter_cons_True by done. by rewrite <-!app_assoc.
  - destruct Hop. rewrite filter_cons_True by done. by rewrite <-!app_assoc.
  - destruct Hop as (Hn & _ & _ & Hs). rewrite filter_cons_True by done. unfold path_Join. rewrite (filter_nonempty subs) by done.
    destruct subs as [|s subs]; [by rewrite <-!app_assoc|].
    rewrite filter_cons_True; [rewrite filter_nil|].
    + pose proof (Join_flatten "/" (pathPrefix ++ (if decide (ns = "") then [] else ["namespaces"; ns]) ++ [kafkatopicchannels; name]) (s :: subs) ltac:(done)) as Hj.
      rewrite <-!app_assoc in *. exact Hj.
    + apply Forall_cons in Hs as [Hs _]. destruct subs; [done|]. rewrite Join_cons2. by destruct s.
Qed.

(** The path is taken apart again. *)
Lemma built_split ns op :
  valid_segment ns → op_ok op →
  Split "/"%char (URL_path (built_request ns op)) = "" :: base_segments ns ++ op_tail op.
Proof.
  intros Hns Hop. apply route_segments; [by apply built_path|by unfold base_segments|].
  apply Forall_app. split; [|by apply op_tail_free]. unfold base_segments.
  destruct (decide (ns = "")); repeat apply Forall_cons_2; try done;
    first [by apply valid_segment_free | by apply (bool_decide_unpack (free_of _ _))].
Qed.

Lemma route_built ns op :
  valid_segment ns → op_ok op → route (built_request ns op) = Some (action_of ns op).
Proof.
  intros Hns Hop. unfold route. rewrite built_split by done. unfold base_segments.
  assert (Hin : route_in ns (r_verb (built_request ns op)) (r_contentType (built_request ns op)) (op_tail op)
                  (r_params (built_request ns op)) (r_body (built_request ns op)) = Some (action_of ns op)).
  { destruct op as [name o|o|o|c o|c o|c o|name o|o lo|name pt data o subs]; simpl in Hop |- *.
    - done.
    - destruct Hop as [-> _]. done.
    - done.
    - done.
    - by rewrite decide_True.
    - by rewrite decide_True.
    - done.
    - done.
    - destruct Hop as (_ & _ & _ & Hs). unfold path_Join. rewrite filter_nonempty by done. by destruct subs. }
  destruct (decide (ns = "")) as [->|Hne]; cbn [pathPrefix app]; rewrite decide_True by done; rewrite decide_True by done;
    exact Hin.
Qed.

(** The fake returns no object with an error. *)
Definition nil_on_error (r : option Answer * option string) : option Answer * option string :=
  match r.2 with None => r | Some err => (None, Some err) end.


(** Once a request has an error it keeps one. *)
Definition errs (r : Request) : Prop := is_Some (r_err r).

Lemma errs_keep f r : errs r → errs (unless_err f r).
Proof. intros [err He]. unfold errs, unless_err. rewrite He. by rewrite He; eexists. Qed.
Lemma errs_set err r : errs (set_err err r).
Proof. by eexists. Qed.

Lemma errs_name name r : name = "" ∨ ¬ valid_segment name → errs (rName name r).
Proof.
  intros Hn. unfold rName, unless_err. destruct (r_err r) eqn:He; [by exists s|].
  destruct (decide (name = "")); [apply errs_set|]. destruct (decide (r_resourceName r ≠ "")); [apply errs_set|].
  destruct Hn as [|Hn]; [done|]. unfold valid_segment in Hn. destruct (IsValidPathSegmentName name); [done|apply errs_set].
Qed.

Lemma errs_namespace ns r : r_namespace r = None → ¬ valid_segment ns → errs (on_resource ns r).
Proof.
  intros Hr Hn. unfold on_resource. apply errs_keep. unfold rNamespace, unless_err.
  destruct (r_err r) eqn:He; [by exists s|]. rewrite Hr. unfold valid_segment in Hn.
  destruct (IsValidPathSegmentName ns); [done|apply errs_set].
Qed.

Lemma errs_subresource subs r sub : sub ∈ subs → ¬ valid_segment sub → errs (rSubResource subs r).
Proof.
  intros Hin Hn. unfold rSubResource, unless_err. destruct (r_err r) eqn:He; [by exists s|]. cbv zeta.
  destruct (decide (r_subresource r ≠ "")); [apply errs_set|].
  destruct (invalid_subresource subs) eqn:Hi; [apply errs_set|]. exfalso. apply Hn. unfold invalid_subresource in Hi.
  pose proof (find_none _ _ Hi sub (proj1 (list_elem_of_In _ _) Hin)) as Hf. apply bool_decide_eq_false in Hf.
  by apply dec_stable.
Qed.

(** A call that names nothing, or something that is no path segment, never
    reaches the server: the typed client fails with the builder's error and the
    server's state is kept, whatever answers there. *)
Theorem malformed_call_stays_local `{RoundTripper S} ns op s
    (malformed : ¬ valid_segment ns ∨
       match op with
       | OpGet name _ | OpDelete name _ => name = "" ∨ ¬ valid_segment name
       | OpUpdate c _ | OpUpdateStatus c _ => Name (meta c) = "" ∨ ¬ valid_segment (Name (meta c))
       | OpPatch name _ _ _ subs => name = "" ∨ ¬ valid_segment name ∨ ∃ sub, sub ∈ subs ∧ ¬ valid_segment sub
       | _ => False
       end) :
  ∃ err, typed_call ns op s = ((new_result op, Some err), s).
Proof.
  assert (Herr : errs (typed_request ns op)).
  { destruct malformed as [Hn|Hop].
    - destruct op; simpl; unfold Get, List, Watch, Create, Update, UpdateStatus, Delete, DeleteCollection, Patch;
        repeat first [by apply errs_namespace | apply errs_keep].
    - destruct op; simpl in *; try done; unfold Get, Update, UpdateStatus, Delete, Patch.
      + apply errs_keep. by apply errs_name.
      + do 2 apply errs_keep. by apply errs_name.
      + do 3 apply errs_keep. by apply errs_name.
      + apply errs_keep. by apply errs_name.
      + do 2 apply errs_keep. destruct Hop as [Hn|[Hn|(sub & Hin & Hn)]]; [..|by eapply errs_subresource].
        * apply errs_keep, errs_name. by left.
        * apply errs_keep, errs_name. by right. }
  destruct Herr as [err He]. exists err. unfold typed_call, do_request. by rewrite He.
Qed.
End agreement.

(** ** Constructing the clients *)

(** [0 < q] of a [float32], a rational. *)
Definition positive_rate (q : Qcanon.Qc) : Prop := Qcanon.Qclt (Qcanon.Q2Qc (QArith_base.Qmake 0 1)) q.
#[export] Instance positive_rate_dec q : Decision (positive_rate q).
Proof. unfold positive_rate. apply _. Defined.

(** [rest.Config], as far as the constructors read and write it; [L] is the type of
    rate limiters. *)
Record Config (L : Type) := mkConfig {
  RateLimiter : option L;
  QPS : Qcanon.Qc;
  Burst : Z;
  cfg_GroupVersion : option (string * string);
  APIPath : string;
  UserAgent : string;
}.
Arguments mkConfig {L} _ _ _ _ _ _.
Arguments RateLimiter {L} _.
Arguments QPS {L} _.
Arguments Burst {L} _.
Arguments cfg_GroupVersion {L} _.
Arguments APIPath {L} _.
Arguments UserAgent {L} _.

(** What [client-go] makes of a configuration, or refuses. *)
Class RestLib (L REST Discovery : Type) := {
  NewTokenBucketRateLimiter : Qcanon.Qc → Z → L;
  RESTClientFor : Config L → string + REST;
  NewDiscoveryClientForConfig : Config L → string + Discovery;
  DefaultKubernetesUserAgent : string;
}.

Section construct.
Context {L REST Discovery : Type} `{RestLib L REST Discovery}.

Definition set_RateLimiter (l : L) (c : Config L) : Config L :=
  mkConfig (Some l) (QPS c) (Burst c) (cfg_GroupVersion c) (APIPath c) (UserAgent c).

Definition setConfigDefaults (c : Config L) : Config L :=
  mkConfig (RateLimiter c) (QPS c) (Burst c) (Some (gv_Group SchemeGroupVersion, gv_Version SchemeGroupVersion)) "/apis"
    (if decide (UserAgent c = "") then DefaultKubernetesUserAgent else UserAgent c).

(** [NewForConfig] of the messaging client. *)
Definition messaging_NewForConfig (c : Config L) : string + REST := RESTClientFor (setConfigDefaults c).

Record Clientset := mkClientset { messagingV1alpha1 : REST; DiscoveryClient : Discovery }.

(** [NewForConfig] of the clientset; the configuration is copied first. *)
Definition NewForConfig (c : Config L) : string + Clientset :=
  let limited := bool_decide (RateLimiter c = None ∧ positive_rate (QPS c)) in
  if limited && bool_decide (Burst c ≤ 0)%Z then
    inl "burst is required to be greater than 0 when RateLimiter is not set and QPS is set to greater than 0"
  else
    let shallow := if limited then set_RateLimiter (NewTokenBucketRateLimiter (QPS c) (Burst c)) c else c in
    match messaging_NewForConfig shallow with
    | inl err => inl err
    | inr m =>
        match NewDiscoveryClientForConfig shallow with
        | inl err => inl err
        | inr d => inr (mkClientset m d)
        end
    end.

(** [NewForConfigOrDie]: the configuration as it is, and a panic for an error. *)
Definition NewForConfigOrDie (c : Config L) : res string Clientset :=
  match messaging_NewForConfig c with
  | inl err => Panic err
  | inr m =>
      match NewDiscoveryClientForConfig c with
      | inl err => Panic err
      | inr d => Ok (mkClientset m d)
      end
  end.

(** The clients of one clientset share a rate limiter: when the configuration
    has none but asks for a rate, one limiter of that rate is made and both
    clients are built with it, the messaging client for its group and version
    below [/apis]; without a positive burst no client is built.  In every other
    case the configuration decides, and [NewForConfigOrDie] builds the same. *)
Theorem NewForConfig_shares_limiter c :
  if decide (RateLimiter c = None ∧ positive_rate (QPS c) ∧ (Burst c ≤ 0)%Z) then ∃ err, NewForConfig c = inl err
  else ∃ shallow, NewForConfig c = match NewForConfigOrDie shallow with
                                   | Ok cs => inr cs | Panic err | Err err => inl err end ∧
    RateLimiter shallow = (match RateLimiter c with
                           | Some l => Some l
                           | None => if decide (positive_rate (QPS c)) then Some (NewTokenBucketRateLimiter (QPS c) (Burst c)) else None
                           end) ∧
    (RateLimiter c ≠ None → shallow = c) ∧
    messaging_NewForConfig shallow = RESTClientFor (setConfigDefaults shallow) ∧
    APIPath (setConfigDefaults shallow) = "/apis" ∧
    cfg_GroupVersion (setConfigDefaults shallow) = Some (GroupName, "v1alpha1") ∧
    UserAgent (setConfigDefaults shallow) = (if decide (UserAgent c = "") then DefaultKubernetesUserAgent else UserAgent c).
Proof.
  unfold NewForConfig, NewForConfigOrDie. destruct (decide (RateLimiter c = None ∧ _)) as [(Hl & Hq & Hb)|Hn].
  - rewrite !bool_decide_true by done. by eexists.
  - destruct (decide (RateLimiter c = None ∧ positive_rate (QPS c))) as [[Hl Hq]|Hn'].
    + rewrite (bool_decide_true (RateLimiter c = None ∧ _)) by done. rewrite bool_decide_false by tauto. simpl.
      exists (set_RateLimiter (NewTokenBucketRateLimiter (QPS c) (Burst c)) c).
      split; [by destruct (messaging_NewForConfig _); [|destruct (NewDiscoveryClientForConfig _)]|].
      rewrite Hl, decide_True by done. done.
    + rewrite (bool_decide_false (RateLimiter c = None ∧ _)) by done. simpl. exists c.
      split; [by destruct (messaging_NewForConfig _); [|destruct (NewDiscoveryClientForConfig _)]|].
      split_and!; try done. destruct (RateLimiter c) eqn:E; [done|]. rewrite decide_False; [done|]. intros ?. by apply Hn'.
Qed.
End construct.

(** ** Witnesses *)
Section demo.
#[local] Instance demo_codec : Codec := {| params_error _ := None; body_error _ := None |}.
#[local] Instance demo_selectors : LabelSelectors := λ s, if decide (s = "") then Some (λ _, true) else None.
(** A store that answers every action with a list of one channel. *)
#[local] Instance demo_store : Store nat :=
  {| serve a n := (inr (Items [empty_channel]), n + 1); serve_watch _ _ _ _ := ltac:(done) |}.

Lemma demo_encodes : encodes.
Proof. by split. Qed.
Definition demo_list : Op := OpList (mkListOptions "" "" false "" (Some 30%Z)).


Lemma malformed_call_stays_local_witness :
  ∃ err, typed_call "ns" (OpGet "a/b" []) 0 = ((Some (Single empty_channel), Some err), 0).
Proof. apply (malformed_call_stays_local "ns" (OpGet "a/b" []) 0). right. right. vm_compute. discriminate. Defined.
End demo.
