(* ===== verification/Informers.v ===== *)
(** * Informers: listers and the shared informer factory

    Models [src/pkg/client/listers/messaging/v1alpha1/kafkatopicchannel.go] over the
    indexer of [vendor/k8s.io/client-go/tools/cache], and
    [src/pkg/client/informers/externalversions]: the factory ([factory.go],
    [generic.go]) and the informer of channels
    ([messaging/v1alpha1/kafkatopicchannel.go]).

    The maps of [GenReconciler] and [Wiring] that stand for what an informer caches
    are refined here by the indexer: it keeps objects under the key
    [namespace/name], a plain string. *)
From Stdlib Require Import Ascii.
From S2P Require Import Prelude GoStrings FieldError ApiTypes Channel Prober Resources Controller GenReconciler Client.

(** ** The indexer *)

(** [labels.Selector]. *)
Record Selector := mkSelector { sel_Empty : bool; Matches : option (gmap string string) → bool }.

(** [thread_safe_store]: the items by key, and whether it indexes namespaces. *)
Record Indexer := mkIndexer { ix_items : gmap string KafkaTopicChannel; ix_namespaces : bool }.

(** [MetaNamespaceKeyFunc]. *)
Definition MetaNamespaceKeyFunc (m : ObjectMeta) : string :=
  if decide (0 < String.length (Namespace m)) then Namespace m +:+ "/" +:+ Name m else Name m.

(** What the watch does to the store. *)
Definition ix_put (c : KafkaTopicChannel) (ix : Indexer) : Indexer :=
  mkIndexer (<[MetaNamespaceKeyFunc (meta c) := c]> (ix_items ix)) (ix_namespaces ix).
Definition ix_remove (c : KafkaTopicChannel) (ix : Indexer) : Indexer :=
  mkIndexer (delete (MetaNamespaceKeyFunc (meta c)) (ix_items ix)) (ix_namespaces ix).
Definition ix_replace (cs : list KafkaTopicChannel) (ix : Indexer) : Indexer :=
  foldl (λ ix c, ix_put c ix) (mkIndexer ∅ (ix_namespaces ix)) cs.

Section listers.
Context `{GoRuntime}.

(** [indexer.List], in the order [n] of its map. *)
Definition ix_List (n : nat) (ix : Indexer) : list KafkaTopicChannel := range_order n (map_to_list (ix_items ix)).*2.

Definition selected (selector : Selector) (c : KafkaTopicChannel) : Prop :=
  sel_Empty selector = true ∨ Matches selector (Labels (meta c)) = true.
#[export] Instance selected_dec selector c : Decision (selected selector c).
Proof. unfold selected. apply _. Defined.

(** [cache.ListAll]. *)
Definition ListAll (n : nat) (ix : Indexer) (selector : Selector) : list KafkaTopicChannel :=
  filter (selected selector) (ix_List n ix).

(** [indexer.Index(NamespaceIndex, ...)]; without that index it fails. *)
Definition ix_Index (n : nat) (namespace : string) (ix : Indexer) : option (list KafkaTopicChannel) :=
  if ix_namespaces ix then Some (filter (λ c, Namespace (meta c) = namespace) (ix_List n ix)) else None.

(** [cache.ListAllByNamespace]: the search without index ignores [Empty]. *)
Definition ListAllByNamespace (n : nat) (ix : Indexer) (namespace : string) (selector : Selector) : list KafkaTopicChannel :=
  if decide (namespace = "") then filter (selected selector) (ix_List n ix)
  else
    match ix_Index n namespace ix with
    | None => filter (λ c, Namespace (meta c) = namespace ∧ Matches selector (Labels (meta c)) = true) (ix_List n ix)
    | Some items => filter (selected selector) items
    end.

(** [kafkaTopicChannelLister] and [kafkaTopicChannelNamespaceLister]. *)
Definition lister_List (n : nat) (selector : Selector) (ix : Indexer) : list KafkaTopicChannel := ListAll n ix selector.
Definition namespace_List (n : nat) (namespace : string) (selector : Selector) (ix : Indexer) : list KafkaTopicChannel :=
  ListAllByNamespace n ix namespace selector.
End listers.

Definition namespace_Get (namespace name : string) (ix : Indexer) : string + KafkaTopicChannel :=
  match ix_items ix !! (namespace +:+ "/" +:+ name) with
  | None => inl (gr_Resource (Resource "kafkatopicchannel") +:+ "." +:+ gr_Group (Resource "kafkatopicchannel") +:+ " " +:+ quote name +:+ " not found")
  | Some c => inr c
  end.

(** ** The shared informer factory *)

(** A [SharedIndexInformer]: what it lists and watches, and how often it resyncs. *)
Record Informer := mkInformer {
  inf_id : nat;
  inf_namespace : string;
  inf_tweak : option (ListOptions → ListOptions);
  inf_resync : Z;
}.

Record sharedInformerFactory := mkFactory {
  f_namespace : string;
  f_tweakListOptions : option (ListOptions → ListOptions);
  defaultResync : Z;
  customResync : gmap string Z;
  (** by the name of the object's type *)
  informers : gmap string Informer;
  startedInformers : gmap string bool;
  (** informers created so far, and the goroutines [informer.Run] *)
  f_created : nat;
  f_runs : list nat;
}.

Definition WithCustomResyncConfig (resyncConfig : list (string * Z)) (f : sharedInformerFactory) : sharedInformerFactory :=
  mkFactory (f_namespace f) (f_tweakListOptions f) (defaultResync f)
    (foldl (λ m kv, <[kv.1 := kv.2]> m) (customResync f) resyncConfig)
    (informers f) (startedInformers f) (f_created f) (f_runs f).
Definition WithTweakListOptions (tweak : option (ListOptions → ListOptions)) (f : sharedInformerFactory) : sharedInformerFactory :=
  mkFactory (f_namespace f) tweak (defaultResync f) (customResync f) (informers f) (startedInformers f) (f_created f) (f_runs f).
Definition WithNamespace (namespace : string) (f : sharedInformerFactory) : sharedInformerFactory :=
  mkFactory namespace (f_tweakListOptions f) (defaultResync f) (customResync f) (informers f) (startedInformers f)
    (f_created f) (f_runs f).

Definition NewSharedInformerFactoryWithOptions (resync : Z) (options : list (sharedInformerFactory → sharedInformerFactory)) :
    sharedInformerFactory :=
  foldl (λ f opt, opt f) (mkFactory "" None resync ∅ ∅ ∅ 0 []) options.
Definition NewSharedInformerFactory (resync : Z) : sharedInformerFactory := NewSharedInformerFactoryWithOptions resync [].
Definition NewFilteredSharedInformerFactory (resync : Z) (namespace : string) (tweak : option (ListOptions → ListOptions)) :
    sharedInformerFactory :=
  NewSharedInformerFactoryWithOptions resync [WithNamespace namespace; WithTweakListOptions tweak].

(** [newFunc] makes the informer with the given identity and resync period. *)
Definition InformerFor (informerType : string) (newFunc : nat → Z → Informer) (f : sharedInformerFactory) :
    Informer * sharedInformerFactory :=
  match informers f !! informerType with
  | Some informer => (informer, f)
  | None =>
      let resyncPeriod := default (defaultResync f) (customResync f !! informerType) in
      let informer := newFunc (f_created f) resyncPeriod in
      (informer,
       mkFactory (f_namespace f) (f_tweakListOptions f) (defaultResync f) (customResync f)
         (<[informerType := informer]> (informers f)) (startedInformers f) (S (f_created f)) (f_runs f))
  end.

Definition is_started (f : sharedInformerFactory) (informerType : string) : bool :=
  default false (startedInformers f !! informerType).

(** The body of the loop of [Start]. *)
Definition start_one (f : sharedInformerFactory) (kv : string * Informer) : sharedInformerFactory :=
  if is_started f kv.1 then f
  else mkFactory (f_namespace f) (f_tweakListOptions f) (defaultResync f) (customResync f) (informers f)
         (<[kv.1 := true]> (startedInformers f)) (f_created f) (f_runs f ++ [inf_id kv.2]).

Section factory.
Context `{GoRuntime}.

Definition Start (n : nat) (f : sharedInformerFactory) : sharedInformerFactory :=
  foldl start_one f (range_order n (map_to_list (informers f))).

(** [synced] is what [cache.WaitForCacheSync] answers for an informer. *)
Definition WaitForCacheSync (synced : Informer → bool) (f : sharedInformerFactory) : gmap string bool :=
  synced <$> filter (λ kv : string * Informer, is_started f kv.1 = true) (informers f).
End factory.

(** ** The informer of channels *)
Definition channelType : string := "*v1alpha1.KafkaTopicChannel".

Definition NewFilteredKafkaTopicChannelInformer (namespace : string) (tweak : option (ListOptions → ListOptions))
    (id : nat) (resyncPeriod : Z) : Informer := mkInformer id namespace tweak resyncPeriod.

(** [ListFunc] and [WatchFunc]. *)
Definition tweaked (i : Informer) (options : ListOptions) : ListOptions :=
  match inf_tweak i with Some tweak => tweak options | None => options end.
Definition ListFunc `{Codec} (i : Informer) (options : ListOptions) : Request := List (inf_namespace i) (tweaked i options).
Definition WatchFunc `{Codec} (i : Informer) (options : ListOptions) : Request := Watch (inf_namespace i) (tweaked i options).

(** [f.Messaging().V1alpha1().KafkaTopicChannels().Informer()]. *)
Definition channel_Informer (f : sharedInformerFactory) : Informer * sharedInformerFactory :=
  InformerFor channelType (NewFilteredKafkaTopicChannelInformer (f_namespace f) (f_tweakListOptions f)) f.

(** [ForResource]; the resource is group, version and name. *)
Definition ForResource (resource : string * string * string) (f : sharedInformerFactory) :
    (string + Informer) * sharedInformerFactory :=
  if decide (resource = (gv_Group SchemeGroupVersion, gv_Version SchemeGroupVersion, "kafkatopicchannels")) then
    let (i, f) := channel_Informer f in (inr i, f)
  else (inl ("no informer found for " +:+ resource.1.1 +:+ "/" +:+ resource.1.2 +:+ ", Resource=" +:+ resource.2), f).

(** ** Reachable factories *)
Section reach.
Context `{GoRuntime}.

Inductive factory_step (f : sharedInformerFactory) : sharedInformerFactory → Prop :=
  | step_informer ty newFunc :
      (∀ id resync, inf_id (newFunc id resync) = id) → factory_step f (InformerFor ty newFunc f).2
  | step_start n : factory_step f (Start n f).

Record factory_inv (f : sharedInformerFactory) : Prop := {
  fi_ids ty i : informers f !! ty = Some i → inf_id i < f_created f;
  fi_inj ty ty' i i' : informers f !! ty = Some i → informers f !! ty' = Some i' → inf_id i = inf_id i' → ty = ty';
  fi_started ty : is_started f ty = true → is_Some (informers f !! ty);
  fi_nodup : NoDup (f_runs f);
  fi_runs id : id ∈ f_runs f ↔ ∃ ty i, informers f !! ty = Some i ∧ inf_id i = id ∧ is_started f ty = true;
}.

(** A factory before anything was asked of it. *)
Definition fresh_factory (f : sharedInformerFactory) : Prop :=
  informers f = ∅ ∧ startedInformers f = ∅ ∧ f_created f = 0 ∧ f_runs f = [].

Lemma fresh_factory_inv f : fresh_factory f → factory_inv f.
Proof.
  intros (Hi & Hs & Hc & Hr). unfold is_started. split; unfold is_started; rewrite ?Hi, ?Hs, ?Hc, ?Hr.
  - by intros ty i; rewrite lookup_empty.
  - by intros ty ty' i i'; rewrite lookup_empty.
  - by intros ty; rewrite lookup_empty.
  - constructor.
  - intros id. split; [by intros ?%elem_of_nil|]. by intros (ty & i & Hty & _); rewrite lookup_empty in Hty.
Qed.

Lemma InformerFor_inv ty newFunc f :
  (∀ id resync, inf_id (newFunc id resync) = id) → factory_inv f → factory_inv (InformerFor ty newFunc f).2.
Proof.
  intros Hid Hf. assert (Hf' := Hf). destruct Hf as [H1 H2 H3 H4 H5]. unfold InformerFor.
  destruct (informers f !! ty) as [i|] eqn:Hty; [done|]. simpl.
  set (i := newFunc _ _). assert (Hi : inf_id i = f_created f) by apply Hid.
  split; simpl; unfold is_started; simpl.
  - intros ty' i'. rewrite lookup_insert_Some. intros [[<- <-]|[_ Hl]]; [lia|]. specialize (H1 _ _ Hl). lia.
  - intros ty1 ty2 i1 i2. rewrite !lookup_insert_Some. intros [[<- <-]|[Hn1 Hl1]] [[<- <-]|[Hn2 Hl2]] Heq; try done.
    + specialize (H1 _ _ Hl2). lia.
    + specialize (H1 _ _ Hl1). lia.
    + by eapply H2.
  - intros ty' Hs. rewrite lookup_insert_is_Some. destruct (decide (ty = ty')); [by left|right]. split; [done|]. by apply H3.
  - done.
  - intros id. rewrite H5. split.
    + intros (ty' & i' & Hl & Hid' & Hs). exists ty', i'. rewrite lookup_insert_ne by congruence. done.
    + intros (ty' & i' & [[<- <-]|[_ Hl]]%lookup_insert_Some & Hid' & Hs); [|by exists ty', i'].
      apply H3 in Hs. rewrite Hty in Hs. by destruct Hs.
Qed.

Lemma start_one_inv f kv : informers f !! kv.1 = Some kv.2 → factory_inv f → factory_inv (start_one f kv).
Proof.
  destruct kv as [ty i]. cbn [fst snd]. intros Hi Hf. unfold start_one. cbn [fst snd].
  destruct (is_started f ty) eqn:Hs; [done|]. destruct Hf as [H1 H2 H3 H4 H5].
  assert (Hst : ∀ ty', default false (<[ty := true]> (startedInformers f) !! ty') = true ↔ ty' = ty ∨ is_started f ty' = true).
  { intros ty'. unfold is_started. destruct (decide (ty = ty')) as [->|].
    - rewrite lookup_insert_eq. simpl. tauto.
    - rewrite lookup_insert_ne by done. split; [by right|]. by intros [-> |]. }
  split; simpl; unfold is_started; simpl.
  - done.
  - done.
  - intros ty' [->|Ht]%Hst; [by eexists|by apply H3].
  - apply NoDup_app. split; [done|]. split; [|apply NoDup_singleton].
    intros id Hid ->%list_elem_of_singleton. apply H5 in Hid as (ty' & i' & Hl & Heq & Ht).
    assert (ty' = ty) as -> by by eapply H2. congruence.
  - intros id. rewrite elem_of_app, list_elem_of_singleton, H5. split.
    + intros [(ty' & i' & Hl & Hid & Ht)| ->]; [exists ty', i'|exists ty, i]; (split; [done|]; split; [done|]; apply Hst); auto.
    + intros (ty' & i' & Hl & Hid & [-> |Ht]%Hst); [right; congruence|left; eauto].
Qed.

Lemma start_one_informers f kv : informers (start_one f kv) = informers f.
Proof. unfold start_one. by destruct (is_started f kv.1). Qed.

Lemma start_all_inv kvs : ∀ f,
  (∀ kv, kv ∈ kvs → informers f !! kv.1 = Some kv.2) → factory_inv f →
  factory_inv (foldl start_one f kvs) ∧ informers (foldl start_one f kvs) = informers f ∧
  (∀ ty, is_started f ty = true → is_started (foldl start_one f kvs) ty = true) ∧
  (∀ kv, kv ∈ kvs → is_started (foldl start_one f kvs) kv.1 = true).
Proof.
  induction kvs as [|kv kvs IH]; intros f Hkv Hf; cbn [foldl].
  { split_and!; [done|done|done|]. by intros kv ?%elem_of_nil. }
  assert (Hone : ∀ ty, is_started f ty = true ∨ ty = kv.1 → is_started (start_one f kv) ty = true).
  { intros ty Hty. unfold start_one. destruct (is_started f kv.1) eqn:Hs; [by destruct Hty as [| ->]|].
    unfold is_started. simpl. destruct (decide (kv.1 = ty)) as [->|]; [by rewrite lookup_insert_eq|].
    rewrite lookup_insert_ne by done. by destruct Hty as [|Heq]; [|rewrite Heq in *]. }
  destruct (IH (start_one f kv)) as (H1 & H2 & H3 & H4).
  - intros kv' Hin. rewrite start_one_informers. apply Hkv. by right.
  - apply start_one_inv; [|done]. apply Hkv. left.
  - rewrite H2, start_one_informers. split_and!; [done|done|by intros ty Ht; apply H3, Hone; left|].
    intros kv' [->|Hin]%elem_of_cons; [apply H3, Hone; by right|by apply H4].
Qed.

Lemma Start_spec n f :
  factory_inv f →
  factory_inv (Start n f) ∧ informers (Start n f) = informers f ∧
  ∀ ty i, informers f !! ty = Some i → is_started (Start n f) ty = true.
Proof.
  intros Hf. unfold Start. destruct (start_all_inv (range_order n (map_to_list (informers f))) f) as (H1 & H2 & _ & H4).
  - intros [ty i]. rewrite range_order_perm. by intros ?%elem_of_map_to_list.
  - done.
  - split_and!; [done|done|]. intros ty i Hl. apply (H4 (ty, i)). rewrite range_order_perm. by apply elem_of_map_to_list.
Qed.

Lemma factory_reach_inv f f' : factory_inv f → rtc factory_step f f' → factory_inv f'.
Proof.
  intros Hf Hrun. induction Hrun as [|f f1 f' Hstep Hrun IH]; [done|]. apply IH.
  destruct Hstep; [by apply InformerFor_inv|by apply Start_spec].
Qed.

(** An informer, once made, is the one of its type from then on. *)
Lemma step_keeps f f' ty i : factory_inv f → informers f !! ty = Some i → factory_step f f' → informers f' !! ty = Some i.
Proof.
  intros Hf Hi Hstep. destruct Hstep as [ty' newFunc Hid|n].
  - unfold InformerFor. destruct (informers f !! ty') eqn:E; [done|]. simpl. rewrite lookup_insert_ne; congruence.
  - destruct (Start_spec n f Hf) as (_ & -> & _). done.
Qed.
End reach.

(** ** Properties of the factory *)
Section factory_properties.
Context `{GoRuntime}.

(** Informers are shared and run once.  Whatever informers are asked for and
    however often the factory is started: no informer is run twice, one runs iff its
    type was started, after [Start] all that were asked for run, and whoever asks
    for a type again gets the informer made first, in every later state too. *)
Theorem informers_run_once f0 f (fresh : fresh_factory f0) (reached : rtc factory_step f0 f) :
  NoDup (f_runs f) ∧
  (∀ id, id ∈ f_runs f ↔ ∃ ty i, informers f !! ty = Some i ∧ inf_id i = id ∧ is_started f ty = true) ∧
  ∀ ty i, informers f !! ty = Some i →
    (∀ n, inf_id i ∈ f_runs (Start n f)) ∧
    ∀ f' newFunc, rtc factory_step f f' → InformerFor ty newFunc f' = (i, f').
Proof.
  assert (Hf : factory_inv f) by (eapply factory_reach_inv; [by apply fresh_factory_inv|done]).
  split; [apply Hf|]. split; [apply Hf|]. intros ty i Hi. split.
  - intros n. destruct (Start_spec n f Hf) as (Hs & Heq & Hall). apply Hs. exists ty, i. rewrite Heq. eauto.
  - intros f' newFunc Hrun. assert (Hi' : informers f' !! ty = Some i).
    { clear fresh reached. induction Hrun as [|f f1 f' Hstep Hrun IH]; [done|].
      apply IH; [|by eapply step_keeps]. eapply factory_reach_inv; [exact Hf|by apply rtc_once]. }
    unfold InformerFor. by rewrite Hi'.
Qed.

(** Waiting for the caches answers for exactly the informers that were started,
    with what each of them says; and an informer resyncs at the period of its type,
    or at the default one. *)
Theorem WaitForCacheSync_spec synced f ty newFunc :
  (∀ b, WaitForCacheSync synced f !! ty = Some b ↔
     ∃ i, informers f !! ty = Some i ∧ is_started f ty = true ∧ synced i = b) ∧
  (informers f !! ty = None →
   (InformerFor ty newFunc f).1 =
     newFunc (f_created f) (match customResync f !! ty with Some d => d | None => defaultResync f end)).
Proof.
  split.
  - intros b. unfold WaitForCacheSync. rewrite lookup_fmap, fmap_Some. split.
    + intros (i & Hi & ->). apply map_lookup_filter_Some in Hi as [Hi Hs]. by exists i.
    + intros (i & Hi & Hs & <-). exists i. split; [|done]. by apply map_lookup_filter_Some.
  - intros Hn. unfold InformerFor. rewrite Hn. simpl. by destruct (customResync f !! ty).
Qed.
End factory_properties.

Section channel_informer.
Context `{Codec}.
#[local] Instance any_selector : LabelSelectors := λ _, Some (λ _, true).

(** The informer of channels of a factory made for a namespace lists and
    watches that namespace, with the options as the factory tweaks them; it is what
    [ForResource] gives for the channels' resource, and there is no other resource. *)
Theorem channel_informer_requests resync ns tweak o resource
    (encoders : encodes) (namespace : valid_segment ns) :
  let f := NewFilteredSharedInformerFactory resync ns tweak in
  let i := (channel_Informer f).1 in
  let o' := match tweak with Some t => t o | None => o end in
  (lo_Watch o' = false → route (ListFunc i o) = Some (list_action "list" ns o')) ∧
  route (WatchFunc i o) = Some (list_action "watch" ns o') ∧
  inf_resync i = resync ∧
  ForResource (GroupName, "v1alpha1", "kafkatopicchannels") f = (inr i, (channel_Informer f).2) ∧
  (resource ≠ (GroupName, "v1alpha1", "kafkatopicchannels") → ∃ err, ForResource resource f = (inl err, f)).
Proof.
  cbv zeta. set (f := NewFilteredSharedInformerFactory resync ns tweak). set (i := (channel_Informer f).1).
  set (o' := match tweak with Some t => t o | None => o end).
  assert (Hl : ListFunc i o = typed_request ns (OpList o')) by by destruct tweak.
  assert (Hw : WatchFunc i o = typed_request ns (OpWatch o')) by by destruct tweak.
  rewrite Hl, Hw. split_and!.
  - intros Hwatch. assert (Hop : op_ok (OpList o')) by by split; [|eexists].
    rewrite typed_request_eq by done. by rewrite route_built.
  - rewrite typed_request_eq by done. by rewrite route_built.
  - done.
  - unfold ForResource. rewrite decide_True by done. by destruct (channel_Informer f).
  - intros Hne. unfold ForResource. rewrite decide_False by done. by eexists.
Qed.
End channel_informer.

(** ** Properties of the lister *)

(** The indexer stands for the map [m] by namespace and name. *)
Definition abstracts (ix : Indexer) (m : gmap NamespacedName KafkaTopicChannel) : Prop :=
  ∀ ns name, ns ≠ "" → free_of "/"%char ns → free_of "/"%char name →
    ix_items ix !! (ns +:+ "/" +:+ name) = m !! mkNamespacedName ns name.

(** Names as the API server admits them. *)
Definition named c : Prop :=
  Namespace (meta c) ≠ "" ∧ free_of "/"%char (Namespace (meta c)) ∧ free_of "/"%char (Name (meta c)).

Lemma key_named c : named c → MetaNamespaceKeyFunc (meta c) = Namespace (meta c) +:+ "/" +:+ Name (meta c).
Proof.
  intros (Hns & _). unfold MetaNamespaceKeyFunc. destruct (Namespace (meta c)); [done|].
  by rewrite decide_True by (simpl; lia).
Qed.

(** The lister refines the map that the reconciler works on: on an indexer that
    stands for a map, storing and removing a channel is storing and removing it
    under its namespace and name, and [Get] answers what the map holds; a key that
    the informer stores an object under splits into the namespace and the name that
    [Get] finds it by. *)
Theorem lister_refines_map ix m c
    (repr : abstracts ix m) (names : named c) :
  abstracts (ix_put c ix) (<[ref_of c := c]> m) ∧ abstracts (ix_remove c ix) (delete (ref_of c) m) ∧
  (∀ ns name, ns ≠ "" → free_of "/"%char ns → free_of "/"%char name →
     match namespace_Get ns name ix, m !! mkNamespacedName ns name with
     | inr c, Some c' => c = c' | inl _, None => True | _, _ => False end) ∧
  SplitMetaNamespaceKey (MetaNamespaceKeyFunc (meta c)) = Some (Namespace (meta c), Name (meta c)) ∧
  namespace_Get (Namespace (meta c)) (Name (meta c)) (ix_put c ix) = inr c.
Proof.
  assert (Hkey := key_named c names). destruct names as (Hns & Hf1 & Hf2).
  assert (Hput : abstracts (ix_put c ix) (<[ref_of c := c]> m)).
  { intros ns name Hne Hfn Hfm. simpl. rewrite Hkey.
    destruct (decide (ref_of c = mkNamespacedName ns name)) as [Heq|Hneq].
    - rewrite Heq. injection Heq as -> ->. by rewrite !lookup_insert_eq.
    - rewrite !lookup_insert_ne; [by apply repr|done|]. intros Heq. apply Hneq.
      apply (append_sep_inj "/"%char) in Heq as [Hn Hm]; [|done..]. unfold ref_of. by rewrite Hn, Hm. }
  split_and!.
  - done.
  - intros ns name Hne Hfn Hfm. simpl. rewrite Hkey.
    destruct (decide (ref_of c = mkNamespacedName ns name)) as [Heq|Hneq].
    + rewrite Heq. injection Heq as -> ->. by rewrite !lookup_delete_eq.
    + rewrite !lookup_delete_ne; [by apply repr|done|]. intros Heq. apply Hneq.
      apply (append_sep_inj "/"%char) in Heq as [Hn Hm]; [|done..]. unfold ref_of. by rewrite Hn, Hm.
  - intros ns name Hne Hfn Hfm. unfold namespace_Get. rewrite repr by done. by destruct (m !! _).
  - rewrite Hkey. unfold SplitMetaNamespaceKey. change ("/" +:+ Name (meta c)) with (String "/" (Name (meta c))).
    rewrite Split_append by done. by rewrite Split_free.
  - unfold namespace_Get. rewrite Hput by done. change (mkNamespacedName _ _) with (ref_of c). by rewrite lookup_insert_eq.
Qed.

Section lists.
Context `{GoRuntime}.

(** Listing a namespace gives exactly the stored channels of that namespace, or
    of all for the empty one, whose labels the selector matches, in some order, with
    or without the index by namespace. *)
Theorem namespace_List_spec n ns selector ix c
    (everything : sel_Empty selector = true → ∀ ls, Matches selector ls = true) :
  c ∈ namespace_List n ns selector ix ↔
    (∃ key, ix_items ix !! key = Some c) ∧ (ns = "" ∨ Namespace (meta c) = ns) ∧ Matches selector (Labels (meta c)) = true.
Proof.
  assert (Hs : selected selector c ↔ Matches selector (Labels (meta c)) = true).
  { unfold selected. split; [intros [He|]; [by apply everything|done]|by right]. }
  assert (Hl : c ∈ ix_List n ix ↔ ∃ key, ix_items ix !! key = Some c).
  { unfold ix_List. rewrite range_order_perm, list_elem_of_fmap. split.
    - intros ([key c'] & -> & Hin%elem_of_map_to_list). by exists key.
    - intros (key & Hk). exists (key, c). split; [done|]. by apply elem_of_map_to_list. }
  unfold namespace_List, ListAllByNamespace. destruct (decide (ns = "")) as [->|Hne].
  - rewrite list_elem_of_filter, Hs, Hl. naive_solver.
  - unfold ix_Index. destruct (ix_namespaces ix).
    + rewrite !list_elem_of_filter, Hs, Hl. naive_solver.
    + rewrite list_elem_of_filter, Hl. naive_solver.
Qed.
End lists.

(** ** Witnesses *)
Section demo.
#[local] Existing Instance Channel.demo_runtime.
#[local] Existing Instance Client.demo_codec.

Definition demo_factory : sharedInformerFactory := NewFilteredSharedInformerFactory 10 "ns" None.
Definition demo_running : sharedInformerFactory := Start 0 (channel_Informer demo_factory).2.

Lemma demo_running_reached : rtc factory_step demo_factory demo_running.
Proof.
  eapply rtc_l; [by apply (step_informer demo_factory channelType (NewFilteredKafkaTopicChannelInformer "ns" None))|]. apply rtc_once. apply step_start.
Qed.

Lemma informers_run_once_witness : NoDup (f_runs (Start 1 demo_running)) ∧ f_runs (Start 1 demo_running) = [0].
Proof.
  split; [|vm_compute; reflexivity].
  apply (informers_run_once demo_factory); [repeat split|].
  eapply rtc_r; [exact demo_running_reached|apply step_start].
Defined.

Lemma channel_informer_requests_witness :
  route (WatchFunc (channel_Informer demo_factory).1 (mkListOptions "" "" false "7" None)) =
    Some (list_action "watch" "ns" (mkListOptions "" "" false "7" None)).
Proof.
  exact (proj1 (proj2 (channel_informer_requests 10 "ns" None (mkListOptions "" "" false "7" None) ("", "", "")
    Client.demo_encodes eq_refl))).
Defined.

Definition demo_ix : Indexer := mkIndexer ∅ true.
Lemma lister_refines_map_witness : namespace_Get "ns" "ch" (ix_put (demo_kc []) demo_ix) = inr (demo_kc []).
Proof.
  refine (proj2 (proj2 (proj2 (proj2 (lister_refines_map demo_ix ∅ (demo_kc []) _ _))))).
  - intros ns name _ _ _. by rewrite !lookup_empty.
  - split; [done|]. split; apply (bool_decide_unpack (free_of _ _)); reflexivity.
Defined.

Lemma namespace_List_spec_witness :
  demo_kc [] ∈ namespace_List 0 "ns" (mkSelector true (λ _, true)) (ix_put (demo_kc []) demo_ix).
Proof.
  apply (namespace_List_spec 0 "ns" (mkSelector true (λ _, true))); [reflexivity|].
  split; [|split; [by right|reflexivity]]. exists "ns/ch". vm_compute. reflexivity.
Defined.
End demo.
