(* ===== verification/Injection.v ===== *)
(** * Injection: clients and informers passed through the context

    Models [src/pkg/client/injection]: [client/client.go],
    [informers/factory/factory.go], [informers/messaging/v1alpha1/kafkatopicchannel]
    and their filtered and fake variants, with the order in which
    [knative.dev/pkg/injection] calls them.

    A [context.Context] is immutable: [WithValue] makes a new one.  The factories
    that it holds are pointers, locations of a memory that also has the variables
    captured by closures: in Go 1.15, the version of [go.mod], a [range] loop
    assigns one variable that all its iterations share. *)
From S2P Require Import Prelude GoStrings FieldError ApiTypes Channel Client Informers.

Section injection.
Context {L REST Discovery FakeSet : Type} `{RestLib L REST Discovery}.

(** ** Values of the context *)

(** What is stored under [client.Key]: a clientset or the fake one. *)
Inductive AnyClient := RealClient (c : Clientset (REST:=REST) (Discovery:=Discovery)) | FakeClient (cs : FakeSet).

(** The keys used here, each with its value; a [KafkaTopicChannelInformer] is the
    pointer to its factory. *)
Record Context := mkContext {
  cx_config : option (Config L);
  cx_namespace : option string;
  cx_resync : option Z;
  cx_client : option AnyClient;
  cx_factory : option nat;
  cx_informer : option nat;
  cx_labels : option (list string);
  cx_filtered_factory : gmap string nat;
  cx_filtered_informer : gmap string nat;
}.

Definition WithConfig (cfg : Config L) (ctx : Context) : Context :=
  mkContext (Some cfg) (cx_namespace ctx) (cx_resync ctx) (cx_client ctx) (cx_factory ctx) (cx_informer ctx)
    (cx_labels ctx) (cx_filtered_factory ctx) (cx_filtered_informer ctx).
Definition WithNamespaceScope (namespace : string) (ctx : Context) : Context :=
  mkContext (cx_config ctx) (Some namespace) (cx_resync ctx) (cx_client ctx) (cx_factory ctx) (cx_informer ctx)
    (cx_labels ctx) (cx_filtered_factory ctx) (cx_filtered_informer ctx).
Definition with_client (c : AnyClient) (ctx : Context) : Context :=
  mkContext (cx_config ctx) (cx_namespace ctx) (cx_resync ctx) (Some c) (cx_factory ctx) (cx_informer ctx)
    (cx_labels ctx) (cx_filtered_factory ctx) (cx_filtered_informer ctx).
Definition with_factory (ref : nat) (ctx : Context) : Context :=
  mkContext (cx_config ctx) (cx_namespace ctx) (cx_resync ctx) (cx_client ctx) (Some ref) (cx_informer ctx)
    (cx_labels ctx) (cx_filtered_factory ctx) (cx_filtered_informer ctx).
Definition with_informer (ref : nat) (ctx : Context) : Context :=
  mkContext (cx_config ctx) (cx_namespace ctx) (cx_resync ctx) (cx_client ctx) (cx_factory ctx) (Some ref)
    (cx_labels ctx) (cx_filtered_factory ctx) (cx_filtered_informer ctx).
(** [WithSelectors]. *)
Definition WithSelectors (selector : list string) (ctx : Context) : Context :=
  mkContext (cx_config ctx) (cx_namespace ctx) (cx_resync ctx) (cx_client ctx) (cx_factory ctx) (cx_informer ctx)
    (Some selector) (cx_filtered_factory ctx) (cx_filtered_informer ctx).
Definition with_filtered_factory (selector : string) (ref : nat) (ctx : Context) : Context :=
  mkContext (cx_config ctx) (cx_namespace ctx) (cx_resync ctx) (cx_client ctx) (cx_factory ctx) (cx_informer ctx)
    (cx_labels ctx) (<[selector := ref]> (cx_filtered_factory ctx)) (cx_filtered_informer ctx).
Definition with_filtered_informer (selector : string) (ref : nat) (ctx : Context) : Context :=
  mkContext (cx_config ctx) (cx_namespace ctx) (cx_resync ctx) (cx_client ctx) (cx_factory ctx) (cx_informer ctx)
    (cx_labels ctx) (cx_filtered_factory ctx) (<[selector := ref]> (cx_filtered_informer ctx)).

Definition GetNamespaceScope (ctx : Context) : string := default "" (cx_namespace ctx).
Definition HasNamespaceScope (ctx : Context) : bool := bool_decide (GetNamespaceScope ctx ≠ "").

(** Nanoseconds: 10 hours. *)
Definition DefaultResyncPeriod : Z := 36000000000000.
Definition GetResyncPeriod (ctx : Context) : Z := default DefaultResyncPeriod (cx_resync ctx).

(** ** The memory *)

(** A factory; [fo_captured] is the variable that the closure given to
    [WithTweakListOptions] reads when it is called. *)
Record FactoryObject := mkFactoryObject { fo_factory : sharedInformerFactory; fo_captured : option nat }.
Record Memory := mkMemory { m_factories : gmap nat FactoryObject; m_vars : gmap nat string; m_next : nat }.

Definition new_factory (f : sharedInformerFactory) (captured : option nat) (m : Memory) : nat * Memory :=
  (m_next m, mkMemory (<[m_next m := mkFactoryObject f captured]> (m_factories m)) (m_vars m) (S (m_next m))).
Definition new_var (m : Memory) : nat * Memory :=
  (m_next m, mkMemory (m_factories m) (<[m_next m := ""]> (m_vars m)) (S (m_next m))).
Definition set_var (v : nat) (s : string) (m : Memory) : Memory :=
  mkMemory (m_factories m) (<[v := s]> (m_vars m)) (m_next m).

(** [func(l *v1.ListOptions) { l.LabelSelector = selector }] when it is called. *)
Definition selector_closure (m : Memory) (v : nat) (l : ListOptions) : ListOptions :=
  mkListOptions (default "" (m_vars m !! v)) (FieldSelector l) (lo_Watch l) (lo_ResourceVersion l) (TimeoutSeconds l).

Definition current (m : Memory) (fo : FactoryObject) : sharedInformerFactory :=
  match fo_captured fo with
  | None => fo_factory fo
  | Some v => WithTweakListOptions (Some (selector_closure m v)) (fo_factory fo)
  end.

(** [inf.Informer()] of the channel informer over a factory. *)
Definition Informer_of (ref : nat) (m : Memory) : option Informer * Memory :=
  match m_factories m !! ref with
  | None => (None, m)
  | Some fo =>
      let (i, f) := channel_Informer (current m fo) in
      (Some i, mkMemory (<[ref := mkFactoryObject f (fo_captured fo)]> (m_factories m)) (m_vars m) (m_next m))
  end.

(** ** The client ([client/client.go]) *)
Definition client_withClient (ctx : Context) (cfg : Config L) : res string Context :=
  match NewForConfigOrDie cfg with
  | Ok c => Ok (with_client (RealClient c) ctx)
  | Err e => Err e
  | Panic why => Panic why
  end.

Definition client_Get (ctx : Context) : res string AnyClient :=
  match cx_client ctx with
  | None =>
      match cx_config ctx with
      | None => Panic "Unable to fetch github.com/optum/kafka-topic-channel/pkg/client/clientset/versioned.Interface from context. This context is not the application context (which is typically given to constructors via sharedmain)."
      | Some _ => Panic "Unable to fetch github.com/optum/kafka-topic-channel/pkg/client/clientset/versioned.Interface from context."
      end
  | Some untyped => Ok untyped
  end.

(** The fake ([client/fake/fake.go]); [cs] is what [NewSimpleClientset] made. *)
Definition fake_With (cs : FakeSet) (ctx : Context) : Context * FakeSet := (with_client (FakeClient cs) ctx, cs).
Definition fake_withClient (cs : FakeSet) (ctx : Context) (cfg : Config L) : res string Context :=
  let '(ctx, _) := fake_With cs ctx in Ok ctx.
Definition fake_client_Get (ctx : Context) : res string FakeSet :=
  match cx_client ctx with
  | None => Panic "Unable to fetch github.com/optum/kafka-topic-channel/pkg/client/clientset/versioned/fake.Clientset from context."
  | Some (FakeClient cs) => Ok cs
  | Some (RealClient _) => Panic "untyped.(*fake.Clientset)"
  end.

(** ** The informer factory ([informers/factory/factory.go]) *)
Definition scope_options (ctx : Context) : list (sharedInformerFactory → sharedInformerFactory) :=
  let opts := [] in
  if HasNamespaceScope ctx then opts ++ [WithNamespace (GetNamespaceScope ctx)] else opts.

(** The body after the client was fetched. *)
Definition add_factory (ctx : Context) (m : Memory) : Context * Memory :=
  let opts := scope_options ctx in
  let (ref, m) := new_factory (NewSharedInformerFactoryWithOptions (GetResyncPeriod ctx) opts) None m in
  (with_factory ref ctx, m).

Definition withInformerFactory (ctx : Context) (m : Memory) : res string (Context * Memory) :=
  match client_Get ctx with
  | Ok _ => Ok (add_factory ctx m)
  | Err e => Err e
  | Panic why => Panic why
  end.
Definition fake_withInformerFactory (ctx : Context) (m : Memory) : res string (Context * Memory) :=
  match fake_client_Get ctx with
  | Ok _ => Ok (add_factory ctx m)
  | Err e => Err e
  | Panic why => Panic why
  end.

Definition factory_Get (ctx : Context) : res string nat :=
  match cx_factory ctx with
  | None => Panic "Unable to fetch github.com/optum/kafka-topic-channel/pkg/client/informers/externalversions.SharedInformerFactory from context."
  | Some untyped => Ok untyped
  end.

(** ** The informer ([informers/messaging/v1alpha1/kafkatopicchannel]) *)
Definition withInformer (ctx : Context) (m : Memory) : res string (Context * list Informer * Memory) :=
  match factory_Get ctx with
  | Ok f =>
      let inf := f in
      let (i, m) := Informer_of inf m in
      Ok (with_informer inf ctx, option_list i, m)
  | Err e => Err e
  | Panic why => Panic why
  end.

Definition informer_Get (ctx : Context) : res string nat :=
  match cx_informer ctx with
  | None => Panic "Unable to fetch github.com/optum/kafka-topic-channel/pkg/client/informers/externalversions/messaging/v1alpha1.KafkaTopicChannelInformer from context."
  | Some untyped => Ok untyped
  end.

(** ** The filtered variants *)

(** The loop over the selectors, whose variable is [v]. *)
Fixpoint filtered_factories (selectors : list string) (v : nat) (ctx : Context) (m : Memory) : Context * Memory :=
  match selectors with
  | [] => (ctx, m)
  | selector :: selectors =>
      let m := set_var v selector m in
      let thisOpts := scope_options ctx in
      let (ref, m) := new_factory (NewSharedInformerFactoryWithOptions (GetResyncPeriod ctx) thisOpts) (Some v) m in
      filtered_factories selectors v (with_filtered_factory selector ref ctx) m
  end.

Definition add_filtered_factories (ctx : Context) (m : Memory) : res string (Context * Memory) :=
  match cx_labels ctx with
  | None => Panic "Unable to fetch labelkey from context."
  | Some labelSelectors => let (v, m) := new_var m in Ok (filtered_factories labelSelectors v ctx m)
  end.

Definition filtered_withInformerFactory (ctx : Context) (m : Memory) : res string (Context * Memory) :=
  match client_Get ctx with
  | Ok _ => add_filtered_factories ctx m
  | Err e => Err e
  | Panic why => Panic why
  end.
Definition fake_filtered_withInformerFactory (ctx : Context) (m : Memory) : res string (Context * Memory) :=
  match fake_client_Get ctx with
  | Ok _ => add_filtered_factories ctx m
  | Err e => Err e
  | Panic why => Panic why
  end.

Definition filtered_factory_Get (ctx : Context) (selector : string) : res string nat :=
  match cx_filtered_factory ctx !! selector with
  | None => Panic ("Unable to fetch github.com/optum/kafka-topic-channel/pkg/client/informers/externalversions.SharedInformerFactory with selector " +:+ selector +:+ " from context.")
  | Some untyped => Ok untyped
  end.

Fixpoint filtered_informers (selectors : list string) (infs : list Informer) (ctx : Context) (m : Memory) :
    res string (Context * list Informer * Memory) :=
  match selectors with
  | [] => Ok (ctx, infs, m)
  | selector :: selectors =>
      match filtered_factory_Get ctx selector with
      | Ok f =>
          let inf := f in
          let ctx := with_filtered_informer selector inf ctx in
          let (i, m) := Informer_of inf m in
          filtered_informers selectors (infs ++ option_list i) ctx m
      | Err e => Err e
      | Panic why => Panic why
      end
  end.

Definition filtered_withInformer (ctx : Context) (m : Memory) : res string (Context * list Informer * Memory) :=
  match cx_labels ctx with
  | None => Panic "Unable to fetch labelkey from context."
  | Some labelSelectors => filtered_informers labelSelectors [] ctx m
  end.

Definition filtered_informer_Get (ctx : Context) (selector : string) : res string nat :=
  match cx_filtered_informer ctx !! selector with
  | None => Panic ("Unable to fetch github.com/optum/kafka-topic-channel/pkg/client/informers/externalversions/messaging/v1alpha1.KafkaTopicChannelInformer with selector " +:+ selector +:+ " from context.")
  | Some untyped => Ok untyped
  end.

(** ** Setting up a context ([injection.SetupInformers])

    The injectors that the [init] functions of the linked packages register. *)
Record Injection := mkInjection {
  inj_clients : list (Context → Config L → res string Context);
  inj_factories : list (Context → Memory → res string (Context * Memory));
  inj_informers : list (Context → Memory → res string (Context * list Informer * Memory));
}.

Fixpoint setup_clients (cs : list (Context → Config L → res string Context)) (cfg : Config L) (ctx : Context) : res string Context :=
  match cs with
  | [] => Ok ctx
  | ci :: cs => match ci ctx cfg with Ok ctx => setup_clients cs cfg ctx | Err e => Err e | Panic why => Panic why end
  end.
Fixpoint setup_factories (fs : list (Context → Memory → res string (Context * Memory))) (ctx : Context) (m : Memory) :
    res string (Context * Memory) :=
  match fs with
  | [] => Ok (ctx, m)
  | ifi :: fs => match ifi ctx m with Ok (ctx, m) => setup_factories fs ctx m | Err e => Err e | Panic why => Panic why end
  end.
Fixpoint setup_informers (iis : list (Context → Memory → res string (Context * list Informer * Memory)))
    (informers : list Informer) (ctx : Context) (m : Memory) : res string (Context * list Informer * Memory) :=
  match iis with
  | [] => Ok (ctx, informers, m)
  | ii :: iis =>
      match ii ctx m with
      | Ok (ctx, inf, m) => setup_informers iis (informers ++ inf) ctx m
      | Err e => Err e
      | Panic why => Panic why
      end
  end.

Definition SetupInformers (i : Injection) (cfg : Config L) (ctx : Context) (m : Memory) :
    res string (Context * list Informer * Memory) :=
  match setup_clients (inj_clients i) cfg ctx with
  | Ok ctx =>
      match setup_factories (inj_factories i) ctx m with
      | Ok (ctx, m) => setup_informers (inj_informers i) [] ctx m
      | Err e => Err e
      | Panic why => Panic why
      end
  | Err e => Err e
  | Panic why => Panic why
  end.

(** What both programs link of this repository. *)
Definition Default : Injection := mkInjection [client_withClient] [withInformerFactory] [withInformer].
(** The tests link the fakes, the filtered injections nothing of the program. *)
Definition Fake_ (cs : FakeSet) : Injection := mkInjection [fake_withClient cs] [fake_withInformerFactory] [withInformer].
Definition Filtered : Injection :=
  mkInjection [client_withClient] [withInformerFactory; filtered_withInformerFactory] [withInformer; filtered_withInformer].

(** ** Properties *)

(** What a factory of a scope is. *)
Lemma scope_factory ctx :
  NewSharedInformerFactoryWithOptions (GetResyncPeriod ctx) (scope_options ctx) =
  mkFactory (GetNamespaceScope ctx) None (GetResyncPeriod ctx) ∅ ∅ ∅ 0 [].
Proof.
  unfold scope_options, HasNamespaceScope. destruct (decide (GetNamespaceScope ctx = "")) as [E|E].
  - by rewrite bool_decide_false by tauto; rewrite E.
  - by rewrite bool_decide_true.
Qed.

(** The informer that [withInformer] registers over a factory that has none. *)
Lemma withInformer_spec ctx m ref fo :
  factory_Get ctx = Ok ref → m_factories m !! ref = Some fo → informers (fo_factory fo) = ∅ →
  let i := mkInformer (f_created (fo_factory fo)) (f_namespace (fo_factory fo)) (f_tweakListOptions (current m fo))
             (default (defaultResync (fo_factory fo)) (customResync (fo_factory fo) !! channelType)) in
  ∃ m', withInformer ctx m = Ok (with_informer ref ctx, [i], m') ∧
    informer_Get (with_informer ref ctx) = Ok ref ∧ Informer_of ref m' = (Some i, m').
Proof.
  intros Hget Hm Hnone. cbv zeta. unfold withInformer. rewrite Hget. unfold Informer_of at 1. rewrite Hm.
  assert (Hfields : informers (current m fo) = ∅ ∧ f_created (current m fo) = f_created (fo_factory fo) ∧
    f_namespace (current m fo) = f_namespace (fo_factory fo) ∧ defaultResync (current m fo) = defaultResync (fo_factory fo) ∧
    customResync (current m fo) = customResync (fo_factory fo)).
  { unfold current. by destruct (fo_captured fo). }
  destruct Hfields as (H1 & H2 & H3 & H4 & H5).
  unfold channel_Informer, InformerFor. rewrite H1, lookup_empty, H2, H3, H4, H5.
  cbn [option_list option_rect NewFilteredKafkaTopicChannelInformer].
  eexists. split; [reflexivity|]. split; [done|]. unfold Informer_of. cbn [m_factories]. rewrite lookup_insert_eq.
  unfold channel_Informer, InformerFor, current. cbn [fo_captured fo_factory].
  destruct (fo_captured fo) as [v|]; cbn; rewrite lookup_insert_eq; do 2 f_equal; by rewrite insert_insert_eq.
Qed.

Lemma injected_context cfg ctx m c :
  NewForConfigOrDie cfg = Ok c → ∃ ctx' m' ref i,
    SetupInformers Default cfg ctx m = Ok (ctx', [i], m') ∧
    client_Get ctx' = Ok (RealClient c) ∧ factory_Get ctx' = Ok ref ∧ informer_Get ctx' = Ok ref ∧
    Informer_of ref m' = (Some i, m') ∧ inf_resync i = GetResyncPeriod ctx ∧
    ∀ (codec : Codec) (options : ListOptions),
      ListFunc i options = List (GetNamespaceScope ctx) options ∧
      WatchFunc i options = Watch (GetNamespaceScope ctx) options.
Proof.
  intros Hc. unfold SetupInformers, Default. cbn [inj_clients inj_factories inj_informers setup_clients].
  unfold client_withClient. rewrite Hc.
  set (ctx1 := with_client (RealClient c) ctx). cbn [setup_factories withInformerFactory].
  unfold withInformerFactory. cbn [client_Get ctx1 with_client cx_client]. unfold add_factory, new_factory.
  rewrite scope_factory. set (f := mkFactory _ _ _ _ _ _ _ _). cbn [setup_informers].
  set (m1 := mkMemory _ _ _). set (ctx2 := with_factory (m_next m) _).
  destruct (withInformer_spec ctx2 m1 (m_next m) (mkFactoryObject f None)) as (m' & Hw & Hg & Hi);
    [done|apply lookup_insert_eq|done|].
  rewrite Hw. eexists _, m', (m_next m), _. split; [reflexivity|]. by split_and!.
Qed.

(** What the injection hands to [NewController]: if the client can be built,
    [Get] of client, factory and informer succeed on the context it makes; the
    informer that [NewController] obtains by [Get(ctx).Informer()] is the one that
    [sharedmain] starts, however often it is asked for, and it lists and watches
    the channels of the scope of the context alone (all of them without a scope).
    Otherwise the set up panics with the error of the client. *)
Theorem injected_informer_is_started cfg ctx m :
  match NewForConfigOrDie cfg with
  | Ok c => ∃ ctx' m' ref i,
      SetupInformers Default cfg ctx m = Ok (ctx', [i], m') ∧
      client_Get ctx' = Ok (RealClient c) ∧ factory_Get ctx' = Ok ref ∧ informer_Get ctx' = Ok ref ∧
      Informer_of ref m' = (Some i, m') ∧ inf_resync i = GetResyncPeriod ctx ∧
      ∀ (codec : Codec) (options : ListOptions),
        ListFunc i options = List (GetNamespaceScope ctx) options ∧
        WatchFunc i options = Watch (GetNamespaceScope ctx) options
  | Panic why => SetupInformers Default cfg ctx m = Panic why
  | Err _ => False
  end.
Proof.
  destruct (NewForConfigOrDie cfg) as [c|e|why] eqn:Hc; [by apply injected_context| |].
  - unfold NewForConfigOrDie in Hc. by repeat case_match.
  - unfold SetupInformers, Default. simpl. unfold client_withClient. by rewrite Hc.
Qed.

(** Without the injection every [Get] panics. *)
Lemma Get_panics ctx selector :
  cx_client ctx = None → cx_factory ctx = None → cx_informer ctx = None →
  cx_filtered_factory ctx !! selector = None → cx_filtered_informer ctx !! selector = None →
  (∃ why, client_Get ctx = Panic why) ∧ (∃ why, fake_client_Get ctx = Panic why) ∧ (∃ why, factory_Get ctx = Panic why) ∧
  (∃ why, informer_Get ctx = Panic why) ∧ (∃ why, filtered_factory_Get ctx selector = Panic why) ∧
  (∃ why, filtered_informer_Get ctx selector = Panic why).
Proof.
  unfold client_Get, fake_client_Get, factory_Get, informer_Get, filtered_factory_Get, filtered_informer_Get.
  intros -> -> -> -> ->. split_and!; [destruct (cx_config ctx)|..]; by eexists.
Qed.

Lemma last_cons_default {A} (l : list A) : ∀ a d, List.last (a :: l) d = List.last l a.
Proof.
  induction l as [|b l IH]; intros a d; [done|].
  change (List.last (b :: l) d = List.last (b :: l) a). by rewrite !IH.
Qed.

(** The loop of the filtered factories: each selector gets a factory of the scope,
    and all of them capture the variable of the loop, which ends with the last. *)
Lemma filtered_factories_spec v selectors : ∀ ctx m s0,
  v < m_next m → m_vars m !! v = Some s0 →
  let (ctx', m') := filtered_factories selectors v ctx m in
  m_vars m' !! v = Some (List.last selectors s0) ∧
  (∀ ref fo, ref < m_next m → m_factories m !! ref = Some fo → m_factories m' !! ref = Some fo) ∧
  (∀ s, s ∉ selectors → cx_filtered_factory ctx' !! s = cx_filtered_factory ctx !! s) ∧
  (∀ s, s ∈ selectors → ∃ ref, cx_filtered_factory ctx' !! s = Some ref ∧
     m_factories m' !! ref = Some (mkFactoryObject
       (mkFactory (GetNamespaceScope ctx) None (GetResyncPeriod ctx) ∅ ∅ ∅ 0 []) (Some v))).
Proof.
  induction selectors as [|s selectors IH]; intros ctx m s0 Hv Hs0; cbn [filtered_factories].
  { split_and!; [done|done|done|]. by intros s ?%elem_of_nil. }
  rewrite scope_factory. unfold new_factory. cbn [m_factories m_vars m_next set_var].
  set (m1 := mkMemory _ _ _). set (ctx1 := with_filtered_factory s _ ctx).
  specialize (IH ctx1 m1 s). destruct (filtered_factories selectors v ctx1 m1) as [ctx' m'].
  destruct IH as (H1 & H2 & H3 & H4); [simpl; lia|apply lookup_insert_eq|].
  split_and!.
  - rewrite H1. f_equal. symmetry. apply last_cons_default.
  - intros ref fo Hr Hl. apply H2; [simpl; lia|]. simpl. rewrite lookup_insert_ne by lia. done.
  - intros s' [Hne Hin]%not_elem_of_cons. rewrite H3 by done. simpl. by rewrite lookup_insert_ne.
  - intros s' Hin. destruct (decide (s' ∈ selectors)) as [Hs'|Hs']; [by apply H4|].
    apply elem_of_cons in Hin as [->|]; [|done]. exists (m_next m). split.
    + rewrite H3 by done. simpl. apply lookup_insert_eq.
    + apply H2; [simpl; lia|]. simpl. apply lookup_insert_eq.
Qed.

(** The filtered factories do not filter by their selectors: the closures
    share the variable of the loop, so that every factory of the context, under
    whichever of the selectors it is fetched, lists and watches with the last one.
    With one selector it is the right one. *)
Theorem filtered_factories_use_last_selector ctx m selectors ctx' m' selector
    (labels : cx_labels ctx = Some selectors) (listed : selector ∈ selectors)
    (setup : filtered_withInformerFactory ctx m = Ok (ctx', m')) :
  ∃ ref i m'', filtered_factory_Get ctx' selector = Ok ref ∧ Informer_of ref m' = (Some i, m'') ∧
    ∀ options, LabelSelector (tweaked i options) = List.last selectors "".
Proof.
  unfold filtered_withInformerFactory, add_filtered_factories in setup. rewrite labels in setup.
  destruct (client_Get ctx) as [c|e|why]; [|done|done]. unfold new_var in setup.
  pose proof (filtered_factories_spec (m_next m) selectors ctx
    (mkMemory (m_factories m) (<[m_next m := ""]> (m_vars m)) (S (m_next m))) "") as Hspec.
  destruct (filtered_factories _ _ _ _) as [ctx1 m1]. injection setup as <- <-.
  destruct Hspec as (H1 & _ & _ & H4); [simpl; lia|apply lookup_insert_eq|].
  destruct (H4 selector listed) as (ref & Hc & Hm). exists ref. unfold filtered_factory_Get. rewrite Hc.
  unfold Informer_of. rewrite Hm. eexists _, _. split; [done|]. split; [reflexivity|].
  intros options. simpl. unfold tweaked. cbn. by rewrite H1.
Qed.
End injection.

(** ** Witnesses *)
Section demo.
#[local] Instance demo_rest : RestLib () () () :=
  {| NewTokenBucketRateLimiter _ _ := (); RESTClientFor _ := inr (); NewDiscoveryClientForConfig _ := inr ();
     DefaultKubernetesUserAgent := "agent" |}.

Definition demo_config : Config () := mkConfig (Some ()) (Qcanon.Q2Qc (QArith_base.Qmake 5 1)) 10 None "" "".
Definition demo_context : Context (L:=()) (REST:=()) (Discovery:=()) (FakeSet:=()) :=
  WithSelectors ["app=a"; "app=b"] (WithNamespaceScope "ns" (WithConfig demo_config
    (mkContext None None None None None None None ∅ ∅))).
Definition demo_memory : Memory := mkMemory ∅ ∅ 0.
Definition demo_client_context := with_client (RealClient (mkClientset tt tt)) demo_context.

(** The informer of selector [app=a] asks for the channels of [app=b]. *)
Lemma filtered_factories_use_last_selector_witness :
  match filtered_withInformerFactory demo_client_context demo_memory with
  | Ok (ctx, m) => ∃ ref i m'', filtered_factory_Get ctx "app=a" = Ok ref ∧ Informer_of ref m = (Some i, m'') ∧
      LabelSelector (tweaked i (mkListOptions "" "" false "" None)) = "app=b"
  | _ => False
  end.
Proof.
  destruct (filtered_withInformerFactory demo_client_context demo_memory) as [[ctx m]|e|why] eqn:E; [|discriminate E|discriminate E].
  destruct (filtered_factories_use_last_selector demo_client_context demo_memory ["app=a"; "app=b"] ctx m "app=a"
    eq_refl (list_elem_of_here _ _) E) as (ref & i & m'' & H1 & H2 & H3).
  exists ref, i, m''. split; [exact H1|]. split; [exact H2|]. exact (H3 (mkListOptions "" "" false "" None)).
Defined.
End demo.
