(* ===== verification/SharedMain.v ===== *)
(** * SharedMain: what a Knative process does before and after its constructor

    Models [MainWithContext] and [MainWithConfig] of
    [vendor/knative.dev/pkg/injection/sharedmain/main.go] up to the start of the controllers, with
    [system/env.go], and the names of the configuration maps ([logging], [leaderelection],
    [metrics]): every step that can end the process, in its order.

    [Err (message, err)] is [log.Fatal] or [logger.Fatalw]: the process logs and exits.  The API server's
    answers, the parsing of the configuration maps, the version check and what the flags
    give are the class [MainServices]; the calls that read a configuration map are numbered, since the
    answers may change. *)
From S2P Require Import Prelude GoStrings ApiTypes Resources KafkaEnv Client Informers Injection.

#[local] Notation "'let!' x ':=' m 'in' k" :=
  (match m with Ok x => k | Err e => Err e | Panic why => Panic why end) (at level 10, x pattern, m at level 100, k at level 200, only parsing).

(** ** The environment *)
Definition Getenv (environ : Environ) (key : string) : string := default "" (environ !! key).

(** [system.Namespace]; the text of the panic goes on with advice. *)
Definition system_Namespace {E} (environ : Environ) : res E string :=
  let ns := Getenv environ NamespaceEnvKey in
  if decide (ns = "") then Panic ("The environment variable " +:+ quote NamespaceEnvKey +:+ " is not set")
  else Ok ns.

Definition ResourceLabelEnvKey : string := "SYSTEM_RESOURCE_LABEL".
Definition ResourceLabel (environ : Environ) : string := Getenv environ ResourceLabelEnvKey.

(** A variable with a default. *)
Definition env_or (environ : Environ) (key default : string) : string :=
  let v := Getenv environ key in if decide (v = "") then default else v.

Definition logging_ConfigMapName (environ : Environ) : string := env_or environ "CONFIG_LOGGING_NAME" "config-logging".
Definition leaderelection_ConfigMapName (environ : Environ) : string :=
  env_or environ "CONFIG_LEADERELECTION_NAME" "config-leader-election".
Definition metrics_ConfigMapName (environ : Environ) : string := env_or environ "CONFIG_OBSERVABILITY_NAME" "config-observability".

Definition getMinimumVersion (environ : Environ) : string := env_or environ "KUBERNETES_MIN_VERSION" "v1.18.0".

(** ** The services *)
Inductive ConfigMapAnswer := FoundMap (data : gmap string string) | NotFoundMap | FailedMap (err : string).

(** A [configmap.Watcher]: the informed one, for the maps of a namespace with these labels, or another. *)
Inductive Watcher := InformedWatcher (namespace : string) (labels : list string) | AnotherWatcher.

Class MainServices := {
  (** the [n]-th read of a configuration map *)
  GetConfigMap : nat → string → string → ConfigMapAnswer;
  (** how often [PollImmediate] polls within five seconds, after the first time *)
  poll_ticks : nat;
  (** the errors of [view.Register], [version.CheckMinimumVersion], [FilterConfigByLabelExists], [NewConfigFromMap] of
      the logging and of the leader election configuration, [cmw.Start] and [StartInformers] *)
  register_views : option string;
  CheckMinimumVersion : string → option string;
  FilterConfigByLabelExists : string → option string;
  logging_NewConfigFromMap : gmap string string → option string;
  leaderelection_NewConfigFromMap : gmap string string → option string;
  watcher_Start : Watcher → option string;
  StartInformers : option string;
}.

Section sharedmain.
Context `{MainServices}.
Abbreviation fatal := (string * string)%type.

(** ** The steps *)

(** [MemStatsOrDie]. *)
Definition MemStatsOrDie : res fatal () :=
  match register_views with Some err => Err ("Error exporting go memstats view: ", err) | None => Ok () end.

(** The polls from the [n]-th read on, with the number of the next read. *)
Fixpoint poll_config_map (ticks n : nat) (ns name : string) : (string + gmap string string) * nat :=
  match GetConfigMap n ns name with
  | FoundMap data => (inr data, S n)
  | NotFoundMap => (inr ∅, S n)
  | FailedMap err =>
      match ticks with
      | O => (inl ("timed out waiting for the condition: " +:+ err), S n)
      | S ticks => poll_config_map ticks (S n) ns name
      end
  end.

Definition GetLoggingConfig (environ : Environ) (n : nat) : res fatal ((string + ()) * nat) :=
  let! ns := system_Namespace environ in
  let (r, n) := poll_config_map poll_ticks n ns (logging_ConfigMapName environ) in
  Ok (match r with
      | inl err => inl err
      | inr data => match logging_NewConfigFromMap data with Some err => inl err | None => inr () end
      end, n).

Definition SetupLoggerOrDie (environ : Environ) (n : nat) : res fatal nat :=
  let! r := GetLoggingConfig environ n in
  match r.1 with inl err => Err ("Error reading/parsing logging configuration: ", err) | inr _ => Ok r.2 end.

Definition CheckK8sClientMinimumVersionOrDie (environ : Environ) : res fatal () :=
  match CheckMinimumVersion (getMinimumVersion environ) with
  | Some err => Err ("Version check failed", err)
  | None => Ok ()
  end.

Definition SetupConfigMapWatchOrDie (environ : Environ) : res fatal Watcher :=
  let cmLabel := ResourceLabel environ in
  if decide (cmLabel = "") then let! ns := system_Namespace environ in Ok (InformedWatcher ns [])
  else
    match FilterConfigByLabelExists cmLabel with
    | Some err => Err ("Failed to generate requirement for label " +:+ cmLabel, err)
    | None => let! ns := system_Namespace environ in Ok (InformedWatcher ns [cmLabel])
    end.

(** With its caller's handling of the error. *)
Definition GetLeaderElectionConfig (environ : Environ) (n : nat) : res fatal nat :=
  let! ns := system_Namespace environ in
  match GetConfigMap n ns (leaderelection_ConfigMapName environ) with
  | NotFoundMap => Ok (S n)
  | FailedMap err => Err ("Error loading leader election configuration: ", err)
  | FoundMap data =>
      match leaderelection_NewConfigFromMap data with
      | Some err => Err ("Error loading leader election configuration: ", err)
      | None => Ok (S n)
      end
  end.

(** [WatchLoggingConfigOrDie] and [WatchObservabilityConfigOrDie]: the map is watched if it is there. *)
Definition WatchConfigOrDie (name : string) (environ : Environ) (n : nat) : res fatal nat :=
  let! ns := system_Namespace environ in
  match GetConfigMap n ns name with
  | FailedMap err => Err ("Error reading ConfigMap " +:+ name, err)
  | FoundMap _ | NotFoundMap => Ok (S n)
  end.

(** ** The whole *)
Context {L REST Discovery FakeSet : Type} `{RestLib L REST Discovery}.
Abbreviation Context := (Context (L:=L) (REST:=REST) (Discovery:=Discovery) (FakeSet:=FakeSet)).
Implicit Types (ctx : Context).

(** The rates that the user has not set, for [ctors] controllers. *)
Definition DefaultQPS : Qcanon.Qc := Qcanon.Q2Qc (QArith_base.Qmake 5 1).
Definition DefaultBurst : Z := 10.
Definition with_default_rates (ctors : Z) (cfg : Config L) : Config L :=
  let qps := if decide (QPS cfg = Qcanon.Q2Qc (QArith_base.Qmake 0 1)) then Qcanon.Qcmult (Qcanon.Q2Qc (QArith_base.inject_Z ctors)) DefaultQPS else QPS cfg in
  let burst := if decide (Burst cfg = 0%Z) then (ctors * DefaultBurst)%Z else Burst cfg in
  mkConfig (RateLimiter cfg) qps burst (cfg_GroupVersion cfg) (APIPath cfg) (UserAgent cfg).

(** From [SetupLoggerOrDie] to the leader election configuration. *)
Definition main_setup (environ : Environ) : res fatal (Watcher * nat) :=
  let! n := SetupLoggerOrDie environ 0 in
  let! _ := CheckK8sClientMinimumVersionOrDie environ in
  let! cmw := SetupConfigMapWatchOrDie environ in
  let! n := GetLeaderElectionConfig environ n in
  Ok (cmw, n).

(** From the constructor to the start of the controllers. *)
Definition main_start (environ : Environ) (cmw : Watcher) (n : nat) : res fatal () :=
  let! n := WatchConfigOrDie (logging_ConfigMapName environ) environ n in
  let! n := WatchConfigOrDie (metrics_ConfigMapName environ) environ n in
  match watcher_Start cmw with
  | Some err => Err ("Failed to start configuration manager", err)
  | None => match StartInformers with Some err => Err ("Failed to start informers", err) | None => Ok () end
  end.

(** With one constructor.  The two clients and their informers that this repository brings are injected; what it makes is returned when the controllers are started. *)
Definition MainWithConfig {A} (environ : Environ) ctx (m : Memory) (cfg : Config L)
    (ctor : Context → Watcher → Memory → res fatal A) : res fatal A :=
  let! _ := MemStatsOrDie in
  let cfg := with_default_rates 1 cfg in
  match SetupInformers Default cfg (WithConfig cfg ctx) m with
  | Err why | Panic why => Panic why
  | Ok (ctx, _, m) =>
      let! r := main_setup environ in
      let! a := ctor ctx r.1 m in
      let! _ := main_start environ r.1 r.2 in
      Ok a
  end.

(** [rest] is what [ParseAndGetRESTConfigOrDie] makes of the flags, or its fatal message. *)
Definition MainWithContext {A} (environ : Environ) ctx (m : Memory) (rest : fatal + Config L)
    (ctor : Context → Watcher → Memory → res fatal A) : res fatal A :=
  match rest with inl e => Err e | inr cfg => MainWithConfig environ ctx m cfg ctor end.

(** ** Every way the steps fail *)
Definition setup_failure (environ : Environ) (e : fatal) : Prop :=
  let ns := Getenv environ NamespaceEnvKey in
  (e.1 = "Error reading/parsing logging configuration: " ∧
     ((∃ err, e.2 = "timed out waiting for the condition: " +:+ err ∧
        (∀ n, n < poll_ticks → ∃ err', GetConfigMap n ns (logging_ConfigMapName environ) = FailedMap err') ∧
        GetConfigMap poll_ticks ns (logging_ConfigMapName environ) = FailedMap err) ∨
      ∃ data, logging_NewConfigFromMap data = Some e.2)) ∨
  (e.1 = "Version check failed" ∧ CheckMinimumVersion (getMinimumVersion environ) = Some e.2) ∨
  (e.1 = "Failed to generate requirement for label " +:+ ResourceLabel environ ∧ ResourceLabel environ ≠ "" ∧
     FilterConfigByLabelExists (ResourceLabel environ) = Some e.2) ∨
  (e.1 = "Error loading leader election configuration: " ∧
     ∃ n, GetConfigMap n ns (leaderelection_ConfigMapName environ) = FailedMap e.2 ∨
          ∃ data, GetConfigMap n ns (leaderelection_ConfigMapName environ) = FoundMap data ∧
                  leaderelection_NewConfigFromMap data = Some e.2).

Definition start_failure (environ : Environ) (cmw : Watcher) (e : fatal) : Prop :=
  (∃ name n, (name = logging_ConfigMapName environ ∨ name = metrics_ConfigMapName environ) ∧
     e.1 = "Error reading ConfigMap " +:+ name ∧ GetConfigMap n (Getenv environ NamespaceEnvKey) name = FailedMap e.2) ∨
  (e.1 = "Failed to start configuration manager" ∧ watcher_Start cmw = Some e.2) ∨
  (e.1 = "Failed to start informers" ∧ StartInformers = Some e.2).

Lemma system_Namespace_ok {E} environ :
  Getenv environ NamespaceEnvKey ≠ "" → system_Namespace (E:=E) environ = Ok (Getenv environ NamespaceEnvKey).
Proof. intros Hns. unfold system_Namespace. by rewrite decide_False. Qed.

Lemma poll_config_map_spec ns name ticks : ∀ n,
  match (poll_config_map ticks n ns name).1 with
  | inr data => ∃ k, k ≤ ticks ∧ (GetConfigMap (n + k) ns name = FoundMap data ∨ GetConfigMap (n + k) ns name = NotFoundMap ∧ data = ∅)
  | inl err => ∃ err', err = "timed out waiting for the condition: " +:+ err' ∧
      (∀ k, k < ticks → ∃ e, GetConfigMap (n + k) ns name = FailedMap e) ∧ GetConfigMap (n + ticks) ns name = FailedMap err'
  end.
Proof.
  induction ticks as [|ticks IH]; intros n; simpl; destruct (GetConfigMap n ns name) as [data| |err] eqn:Hg; simpl.
  - exists 0. rewrite Nat.add_0_r. auto.
  - exists 0. rewrite Nat.add_0_r. auto.
  - exists err. rewrite Nat.add_0_r. split_and!; [done|lia|done].
  - exists 0. rewrite Nat.add_0_r. split; [lia|by left].
  - exists 0. rewrite Nat.add_0_r. split; [lia|by right].
  - specialize (IH (S n)). destruct (poll_config_map ticks (S n) ns name).1 as [err'|data].
    + destruct IH as (e & -> & Hall & Hlast). exists e. rewrite <-Nat.add_succ_comm. split_and!; [done| |done].
      intros [|k] Hk; [rewrite Nat.add_0_r; by exists err|]. rewrite <-Nat.add_succ_comm. apply Hall. lia.
    + destruct IH as (k & Hk & Hg'). exists (S k). rewrite <-Nat.add_succ_comm. split; [lia|done].
Qed.

Lemma main_setup_spec environ :
  match main_setup environ with
  | Ok (cmw, _) => Getenv environ NamespaceEnvKey ≠ "" ∧ ∃ labels, cmw = InformedWatcher (Getenv environ NamespaceEnvKey) labels
  | Err e => setup_failure environ e
  | Panic _ => Getenv environ NamespaceEnvKey = ""
  end.
Proof.
  unfold main_setup, SetupLoggerOrDie, GetLoggingConfig. unfold system_Namespace at 1.
  destruct (decide (Getenv environ NamespaceEnvKey = "")) as [|Hns]; [done|]. unfold setup_failure. set (ns := Getenv environ NamespaceEnvKey) in *.
  pose proof (poll_config_map_spec ns (logging_ConfigMapName environ) poll_ticks 0) as Hp.
  destruct (poll_config_map _ 0 _ _) as [[err|data] n]; simpl in *; [left; split; [done|by left]|].
  destruct (logging_NewConfigFromMap data) as [err|] eqn:Hl; simpl; [left; split; [done|right; by exists data]|].
  unfold CheckK8sClientMinimumVersionOrDie. destruct (CheckMinimumVersion _) as [err|]; [by right; left|].
  assert (Hlast : ∀ cmw, (∃ labels, cmw = InformedWatcher ns labels) →
    match (let! n := GetLeaderElectionConfig environ n in Ok (cmw, n)) with
    | Ok (cmw, _) => ns ≠ "" ∧ ∃ labels, cmw = InformedWatcher ns labels
    | Err e => e.1 = "Error loading leader election configuration: " ∧
        ∃ n, GetConfigMap n ns (leaderelection_ConfigMapName environ) = FailedMap e.2 ∨
          ∃ data, GetConfigMap n ns (leaderelection_ConfigMapName environ) = FoundMap data ∧ leaderelection_NewConfigFromMap data = Some e.2
    | Panic _ => ns = ""
    end).
  { intros cmw Hcmw. unfold GetLeaderElectionConfig. rewrite system_Namespace_ok by done. fold ns.
    destruct (GetConfigMap n ns _) as [data'| |err] eqn:Hg; [|done|split; [done|]; exists n; by left].
    destruct (leaderelection_NewConfigFromMap data') eqn:Hle; [|done]. split; [done|]. exists n. right. by exists data'. }
  unfold SetupConfigMapWatchOrDie. rewrite system_Namespace_ok by done. fold ns.
  destruct (decide (ResourceLabel environ = "")) as [|Hlab].
  - specialize (Hlast (InformedWatcher ns []) ltac:(by eexists)).
    destruct (GetLeaderElectionConfig environ n) as [|[]|]; simpl in *; [done|by right; right; right|done].
  - destruct (FilterConfigByLabelExists _) as [err|]; [by right; right; left|].
    specialize (Hlast (InformedWatcher ns [ResourceLabel environ]) ltac:(by eexists)).
    destruct (GetLeaderElectionConfig environ n) as [|[]|]; simpl in *; [done|by right; right; right|done].
Qed.

Lemma main_start_spec environ cmw n :
  Getenv environ NamespaceEnvKey ≠ "" →
  match main_start environ cmw n with Ok () => True | Err e => start_failure environ cmw e | Panic _ => False end.
Proof.
  intros Hns. unfold main_start, WatchConfigOrDie, start_failure. rewrite system_Namespace_ok by done.
  destruct (GetConfigMap n _ (logging_ConfigMapName environ)) eqn:H1; simpl.
  3: { left. by exists (logging_ConfigMapName environ), n; split_and!; [left| |]. }
  all: destruct (GetConfigMap (S n) _ (metrics_ConfigMapName environ)) eqn:H2; simpl.
  3, 6: left; by exists (metrics_ConfigMapName environ), (S n); split_and!; [right| |].
  all: destruct (watcher_Start cmw); [by right; left|]; destruct StartInformers; [by right; right|done].
Qed.

(** Everything outside the process that these steps need. *)
Record cluster_up (environ : Environ) : Prop := {
  cu_views : register_views = None;
  cu_version : CheckMinimumVersion (getMinimumVersion environ) = None;
  cu_label : ResourceLabel environ ≠ "" → FilterConfigByLabelExists (ResourceLabel environ) = None;
  cu_reads n name err : GetConfigMap n (Getenv environ NamespaceEnvKey) name ≠ FailedMap err;
  cu_logging n data : GetConfigMap n (Getenv environ NamespaceEnvKey) (logging_ConfigMapName environ) = FoundMap data →
    logging_NewConfigFromMap data = None;
  cu_no_logging : logging_NewConfigFromMap ∅ = None;
  cu_leader n data : GetConfigMap n (Getenv environ NamespaceEnvKey) (leaderelection_ConfigMapName environ) = FoundMap data →
    leaderelection_NewConfigFromMap data = None;
  cu_watcher cmw : watcher_Start cmw = None;
  cu_informers : StartInformers = None;
}.

Lemma cluster_up_setup environ :
  cluster_up environ → Getenv environ NamespaceEnvKey ≠ "" → ∃ labels n, main_setup environ = Ok (InformedWatcher (Getenv environ NamespaceEnvKey) labels, n).
Proof.
  intros [_ Hv Hl Hr Hlog Hno Hle _ _] Hns. pose proof (main_setup_spec environ) as Hs.
  destruct (main_setup environ) as [[cmw n]|e|why] eqn:E; [destruct Hs as (_ & labels & ->); by exists labels, n| |done].
  exfalso. revert E. unfold main_setup, SetupLoggerOrDie, GetLoggingConfig. rewrite system_Namespace_ok by done.
  pose proof (poll_config_map_spec (Getenv environ NamespaceEnvKey) (logging_ConfigMapName environ) poll_ticks 0) as Hp.
  destruct (poll_config_map _ 0 _ _) as [[err|data] n]; simpl in *; [by destruct Hp as (? & _ & _ & Hf); destruct (Hr _ _ _ Hf)|].
  assert (logging_NewConfigFromMap data = None) as ->.
  { destruct Hp as (k & _ & [Hf|[_ ->]]); [by eapply Hlog|done]. }
  simpl. unfold CheckK8sClientMinimumVersionOrDie. rewrite Hv.
  assert (Hleader : ∀ cmw, (let! n := GetLeaderElectionConfig environ n in Ok (cmw, n)) ≠ Err (A:=Watcher * nat) e).
  { intros cmw. unfold GetLeaderElectionConfig. rewrite system_Namespace_ok by done.
    destruct (GetConfigMap n _ (leaderelection_ConfigMapName environ)) as [data'| |err] eqn:Hg; [|done|by destruct (Hr _ _ _ Hg)].
    by rewrite (Hle _ _ Hg). }
  unfold SetupConfigMapWatchOrDie. rewrite system_Namespace_ok by done.
  destruct (decide (ResourceLabel environ = "")) as [|Hlab]; [by apply Hleader|]. rewrite (Hl Hlab). by apply Hleader.
Qed.

Lemma cluster_up_start environ cmw n :
  cluster_up environ → Getenv environ NamespaceEnvKey ≠ "" → main_start environ cmw n = Ok ().
Proof.
  intros [_ _ _ Hr _ _ _ Hw Hi] Hns. unfold main_start, WatchConfigOrDie. rewrite system_Namespace_ok by done.
  destruct (GetConfigMap n _ _) eqn:H1; simpl; [| |by destruct (Hr _ _ _ H1)];
    (destruct (GetConfigMap (S n) _ _) eqn:H2; simpl; [| |by destruct (Hr _ _ _ H2)]); by rewrite Hw, Hi.
Qed.

(** What can come of the whole with a constructor. *)
Lemma MainWithContext_cases {A} environ ctx m rest (ctor : Context → Watcher → Memory → res fatal A) :
  let r := MainWithContext environ ctx m rest ctor in
  (∃ e, rest = inl e ∧ r = Err e) ∨
  ∃ cfg, rest = inr cfg ∧ let k := with_default_rates 1 cfg in
    ((∃ err, register_views = Some err ∧ r = Err ("Error exporting go memstats view: ", err)) ∨
     (∃ why, NewForConfigOrDie k = Panic why ∧ r = Panic why) ∨
     ((∃ why, r = Panic why) ∧ Getenv environ NamespaceEnvKey = "") ∨
     (∃ e, r = Err e ∧ setup_failure environ e) ∨
     (Getenv environ NamespaceEnvKey ≠ "" ∧
      ∃ c ctx' m' ref i labels, NewForConfigOrDie k = Ok c ∧
        SetupInformers Default k (WithConfig k ctx) m = Ok (ctx', [i], m') ∧
        client_Get ctx' = Ok (RealClient c) ∧ informer_Get ctx' = Ok ref ∧ Informer_of ref m' = (Some i, m') ∧
        (∀ (codec : Codec) (options : ListOptions), ListFunc i options = List (GetNamespaceScope ctx) options) ∧
        let cmw := InformedWatcher (Getenv environ NamespaceEnvKey) labels in
        match ctor ctx' cmw m' with
        | Ok a => r = Ok a ∨ ∃ e, r = Err e ∧ start_failure environ cmw e
        | Err e => r = Err e
        | Panic why => r = Panic why
        end)).
Proof.
  cbv zeta. destruct rest as [e|cfg]; [left; by exists e|right]. exists cfg. split; [done|].
  unfold MainWithContext, MainWithConfig, MemStatsOrDie. destruct register_views as [err|]; [left; by exists err|right].
  set (k := with_default_rates 1 cfg).
  destruct (NewForConfigOrDie k) as [c|e|why] eqn:Hc.
  2: { unfold NewForConfigOrDie in Hc. by repeat case_match. }
  2: { left. exists why. split; [done|]. unfold SetupInformers, Default. simpl. unfold client_withClient. by rewrite Hc. }
  right. destruct (injected_context k (WithConfig k ctx) m c Hc) as (ctx' & m' & ref & i & Hset & Hcl & _ & Hinf & Hi & _ & Hlist).
  rewrite Hset. pose proof (main_setup_spec environ) as Hs.
  destruct (main_setup environ) as [[cmw n]|e|why]; [|right; left; by exists e|left; split; [by exists why|done]].
  destruct Hs as (Hns & labels & ->). right; right. split; [done|]. exists c, ctx', m', ref, i, labels.
  split_and!; try done.
  { intros codec options. by rewrite (proj1 (Hlist codec options)). }
  cbn [fst snd]. destruct (ctor ctx' _ m') as [a|e|why]; [|done|done].
  pose proof (main_start_spec environ (InformedWatcher (Getenv environ NamespaceEnvKey) labels) n Hns) as Hst.
  destruct (main_start _ _ n) as [[]|e|why]; [by left|right; by exists e|done].
Qed.
End sharedmain.
