(* ===== verification/Startup.v ===== *)
(** * Startup: from the environment to running processes

    Models the parts of [NewController] of both processes that read the
    environment and start servers and workers
    ([src/pkg/channel/kt/reconciler/controller/controller.go],
    [src/pkg/channel/kt/reconciler/dispatcher/kafkachannel.go]), [NewDispatcher]
    and [Start] ([src/pkg/channel/kt/dispatcher/dispatcher.go]), [NewProducer]
    ([utils/client.go]), [createRecorder] of the generated code and the [main]
    functions under [src/cmd/channel/kt-channel].

    A result [Err (message, error)] is [logger.Fatalw]: the process logs and exits.
    What comes before and after the constructors is in [SharedMain].
    The Kafka client and the tracing set up are the class [Services]. *)
From S2P Require Import Prelude GoStrings ApiTypes Channel Sender KafkaSubscription Dispatcher Endpoint Receiver DispatcherReconciler Prober Resources KafkaEnv Controller GenReconciler WorkQueue Wiring Client Informers Injection SharedMain.

(** ** The environment *)
(** [env.GetRequiredConfigValue]. *)
Definition PodNameEnvVarKey : string := "POD_NAME".
Definition ContainerNameEnvVarKey : string := "CONTAINER_NAME".
Definition GetRequiredConfigValue (environ : Environ) (key : string) : string + string :=
  let value := Getenv environ key in
  if bool_decide (0 < String.length value) then inr value
  else inl ("missing required environment variable '" +:+ key +:+ "'").

(** [envConfig] of the controller. *)
Record envConfig := mkEnvConfig { env_Image : string }.
Definition Process_envConfig (environ : Environ) : string + envConfig :=
  let? image := process_field process_string "" "DISPATCHER_IMAGE" "DISPATCHER_IMAGE" true environ in
  inr (mkEnvConfig image).

(** ** Event recorders ([createRecorder])

    A recorder is one found in the context or made by a broadcaster of its own,
    which has two watches; they stop when the context is done. *)
Inductive Watch_ := LogEvents | RecordToSink (namespace : string).
Inductive EventRecorder := ContextRecorder (id : nat) | BroadcastRecorder (component : string) (watches : list Watch_).

Definition createRecorder (GetEventRecorder : option nat) (agentName : string) : EventRecorder :=
  match GetEventRecorder with
  | Some recorder => ContextRecorder recorder
  | None =>
      let watches := [LogEvents; RecordToSink ""] in
      BroadcastRecorder agentName watches
  end.

(** The watches that run when the context is done or not. *)
Definition running_watches (done : bool) (r : EventRecorder) : list Watch_ :=
  match r with
  | ContextRecorder _ => []
  | BroadcastRecorder _ watches => if done then [] else watches
  end.

(** ** The dispatcher *)

(** The servers of a pod: what is served, and where it listens. *)
Inductive Server := SubscriptionEndpoint (addr : string) | EventReceiver (port : Z).

Record ConnectionArgs := mkConnectionArgs { MaxIdleConns : Z; MaxIdleConnsPerHost : Z }.
Definition DefaultMaxIdleConns : Z := 1000.
Definition DefaultMaxIdleConnsPerHost : Z := 100.

Record KafkaDispatcherArgs := mkKafkaDispatcherArgs {
  KnCEConnectionArgs : option ConnectionArgs;
  ClientID : string;
  Brokers : list string;
  KafkaConfig : SaramaConfig;
  TopicFunc : string;
}.

Class Services := {
  (** [sarama.NewSyncProducer] and [sarama.NewClient] *)
  NewSyncProducer : list string → SaramaConfig → option string;
  NewClient : list string → SaramaConfig * bool → option string;
  SetupDynamicPublishing : string → option string;
}.

(** How a receiver finds the channel of a host: by its form ([ParseChannel]) or
    by the map of the dispatcher. *)
Inductive HostToChannelFunc := ParseChannel | GetChannelReferenceFromHost.
Record MessageReceiver := mkMessageReceiver { mr_port : Z; hostToChannelFunc : HostToChannelFunc }.
Definition ResolveMessageChannelFromHostHeader (f : HostToChannelFunc) (r : MessageReceiver) : string + MessageReceiver :=
  inr (mkMessageReceiver (mr_port r) f).

Fixpoint apply_receiver_options (opts : list (MessageReceiver → string + MessageReceiver)) (r : MessageReceiver) :
    string + MessageReceiver :=
  match opts with
  | [] => inr r
  | opt :: opts => match opt r with inl err => inl err | inr r => apply_receiver_options opts r end
  end.
Definition NewMessageReceiver (opts : list (MessageReceiver → string + MessageReceiver)) : string + MessageReceiver :=
  let receiver := mkMessageReceiver 8080 ParseChannel in
  apply_receiver_options opts receiver.

(** The object of [NewDispatcher]: the maps, and the receiver set at its end. *)
Record DispatcherObject := mkDispatcherObject {
  do_state : KafkaDispatcher;
  do_receiver : option MessageReceiver;
}.

Section startup.
Context `{Services}.

(** With the servers it started, also when it fails in the end. *)
Definition NewDispatcher (environ : Environ) (args : KafkaDispatcherArgs) : (string + DispatcherObject) * list Server :=
  match NewSyncProducer (Brokers args) (KafkaConfig args) with
  | Some err =>
      (inl ("unable to create kafka producer against Kafka bootstrap servers [" +:+ Join " " (Brokers args) +:+ "] : " +:+ err), [])
  | None =>
      let dispatcher := mkDispatcherObject (empty_dispatcher (TopicFunc args)) None in
      let started := [SubscriptionEndpoint ":8081"] in
      match GetRequiredConfigValue environ PodNameEnvVarKey with
      | inl err => (inl err, started)
      | inr podName =>
          match GetRequiredConfigValue environ ContainerNameEnvVarKey with
          | inl err => (inl err, started)
          | inr containerName =>
              match NewMessageReceiver [ResolveMessageChannelFromHostHeader GetChannelReferenceFromHost] with
              | inl err => (inl err, started)
              | inr receiverFunc => (inr (mkDispatcherObject (do_state dispatcher) (Some receiverFunc)), started)
              end
          end
      end
  end.

(** [Start]: the error it returns at once, or the server that runs until the
    context is done. *)
Definition dispatcher_Start (d : DispatcherObject) : string + Server :=
  match do_receiver d with
  | None => inl "message receiver is not set"
  | Some receiver => inr (EventReceiver (mr_port receiver))
  end.

(** [utils.NewProducer]: a client of the configuration with
    [Producer.Return.Errors], a field of its own here. *)
Definition NewProducer `{SaramaLib} (environ : Environ) : string + (list string * (SaramaConfig * bool)) :=
  match NewConfigFromEnv environ with
  | inl err => inl err
  | inr (bs, cfg) =>
      let cfg := (cfg, true) in
      match NewClient bs cfg with Some err => inl err | None => inr (bs, cfg) end
  end.
End startup.

(** *** [NewController] of the dispatcher *)

(** What runs after it returned. *)
Record running_dispatcher := mkRunningDispatcher {
  run_args : KafkaDispatcherArgs;
  (** the connection arguments of the HTTP clients of the process *)
  run_connection : ConnectionArgs;
  run_servers : list Server;
  run_handler : ResourceEventHandler dispatcher_process;
  run_informer : option Informer;
  run_impl : built KafkaDispatcher () ();
  run_recorder : EventRecorder;
  run_process : dispatcher_process;
}.

Section dispatcher.
Context `{KafkaCluster} `{GoRuntime} `{PeriodParser} `{ApiClient} `{SaramaLib} `{Services}.
Context `{MainServices}.
Context {L REST Discovery FakeSet : Type} `{RestLib L REST Discovery}.
Implicit Types (ctx : Context (L:=L) (REST:=REST) (Discovery:=Discovery) (FakeSet:=FakeSet)).

Definition dispatcher_NewController (environ : Environ) (leader : NamespacedName → bool) ctx (cmw : Watcher) (m : Memory) :
    res (string * string) running_dispatcher :=
  let channelName := Getenv environ "CHANNEL_NAME" in
  let dispatcherName := channelName +:+ "-dispatcher" in
  match cmw with
  | AnotherWatcher => Panic "cmw.(*configmapinformer.InformedWatcher)"
  | InformedWatcher _ _ =>
  match SetupDynamicPublishing dispatcherName with
  | Some err => Err ("unable to setup tracing", err)
  | None =>
  let connection := mkConnectionArgs DefaultMaxIdleConns DefaultMaxIdleConnsPerHost in
  match NewConfigFromEnv environ with
  | inl err => Err ("unable to create sarama config", err)
  | inr (brokers, cfg) =>
  match informer_Get ctx with
  | Err e => Err ("", e)
  | Panic why => Panic why
  | Ok kafkaChannelInformer =>
  let args := mkKafkaDispatcherArgs None dispatcherName brokers cfg (TopicName environ) in
  match NewDispatcher environ args with
  | (inl err, _) => Err ("Unable to create kafka dispatcher", err)
  | (inr kafkaDispatcher, started) =>
  match NewImpl leader dispatcher_interface [dispatcher_options] with
  | None => Err ("Up to one options function is supported, found: ", "")
  | Some impl =>
  match system_Namespace environ with
  | Err e => Err e
  | Panic why => Panic why
  | Ok systemNamespace =>
  let handler := dispatcher_handler channelName systemNamespace in
  let started := started ++ match dispatcher_Start kafkaDispatcher with inr s => [s] | inl _ => [] end in
  Ok {| run_args := args; run_connection := connection; run_servers := started; run_handler := handler;
        run_informer := (Informer_of kafkaChannelInformer m).1; run_impl := impl;
        run_recorder := createRecorder None (b_agentName impl);
        run_process := mkDispatcherProcess newTwoLaneWorkQueue (do_state kafkaDispatcher) false |}
  end end end end end end end.

(** [main] of [cmd/channel/kt-channel/dispatcher]. *)
Definition dispatcher_main (environ : Environ) (leader : NamespacedName → bool) ctx (m : Memory)
    (rest : (string * string) + Config L) :
    res (string * string) running_dispatcher :=
  let ns := Getenv environ "NAMESPACE" in
  let ctx := if bool_decide (ns ≠ "") then WithNamespaceScope ns ctx else ctx in
  MainWithContext environ ctx m rest (dispatcher_NewController environ leader).
End dispatcher.

(** ** The controller *)
Inductive Watched := WatchChannels | WatchDeployments | WatchServices | WatchEndpoints | WatchPods.

Record running_controller := mkRunningController {
  rc_reconciler : Controller.Reconciler;
  rc_impl : built World () ();
  rc_recorder : EventRecorder;
  rc_informer : option Informer;
  (** the handlers added to the informers; [n] is the order of a resync,
      [list_targets] the target lister of the prober *)
  rc_handlers : nat → (KafkaTopicChannel → string + ProbeTarget) → list (Watched * ResourceEventHandler process);
  rc_readyCallback : KafkaTopicChannel → SubscriberSpec → process → process;
  rc_process : process;
  (** the workers of the prober *)
  rc_probeConcurrency : nat;
}.

Section controller.
Context `{GoRuntime} `{KubeClient} `{Resolver} `{ApiClient}.
Context `{MainServices}.
Context {L REST Discovery FakeSet : Type} `{RestLib L REST Discovery}.
Implicit Types (ctx : Context (L:=L) (REST:=REST) (Discovery:=Discovery) (FakeSet:=FakeSet)).

Definition probeConcurrency : nat := 100.

(** What [Reconciler] implements. *)
Definition controller_interface (r : Controller.Reconciler) : Interface World :=
  {| i_ReconcileKind := controller_method ReconcileKind; i_FinalizeKind := Some (controller_method FinalizeKind);
     i_ObserveKind := None; i_ObserveFinalizeKind := None; i_LeaderAware := false |}.

Definition controller_NewController (environ : Environ) (leader : NamespacedName → bool) ctx (cmw : Watcher) (m : Memory) :
    res (string * string) running_controller :=
  match informer_Get ctx with
  | Err e => Err ("", e)
  | Panic why => Panic why
  | Ok kafkaChannelInformer =>
  match system_Namespace environ with
  | Err e => Err e
  | Panic why => Panic why
  | Ok systemNamespace =>
  match client_Get ctx with
  | Err e => Err ("", e)
  | Panic why => Panic why
  | Ok kafkaClientSet =>
  match Process_envConfig environ with
  | inl err => Panic ("unable to process Kafka channel's required environment variables: " +:+ err)
  | inr env =>
  let r := {| systemNamespace := systemNamespace; dispatcherImage := env_Image env;
              dispatcherServiceAccount := dispatcherSA |} in
  match NewImpl leader (controller_interface r) [] with
  | None => Err ("Up to one options function is supported, found: ", "")
  | Some impl =>
  let statusProber := NewProber in
  Ok {| rc_reconciler := r; rc_impl := impl; rc_recorder := createRecorder None (b_agentName impl);
        rc_informer := (Informer_of kafkaChannelInformer m).1;
        rc_handlers n list_targets :=
          [(WatchChannels, channel_handler); (WatchDeployments, owned_handler n); (WatchServices, owned_handler n);
           (WatchEndpoints, owned_handler n); (WatchPods, pod_handler n list_targets)];
        rc_readyCallback := ready_callback;
        rc_process := mkProcess newTwoLaneWorkQueue statusProber ∅; rc_probeConcurrency := probeConcurrency |}
  end end end end end.

(** [main] of [cmd/channel/kt-channel/controller]. *)
Definition controller_main (environ : Environ) (leader : NamespacedName → bool) ctx (m : Memory)
    (rest : (string * string) + Config L) :
    res (string * string) running_controller :=
  MainWithContext environ ctx m rest (controller_NewController environ leader).
End controller.

(** ** Properties *)

(** The environment that Kubernetes gives a container declared with [env] in the
    pod [name] of [namespace], when the secrets hold [secret]. *)
Record pod_environ (env : list EnvVar) (secret : SecretKeySelector → string) (namespace name : string)
    (environ : Environ) : Prop := {
  pe_runs : runs_with env secret environ;
  pe_namespace k : mkEnvVar k "" (Some (FieldRef "metadata.namespace")) ∈ env → environ !! k = Some namespace;
  pe_name k : mkEnvVar k "" (Some (FieldRef "metadata.name")) ∈ env → environ !! k = Some name;
}.

Lemma GetRequiredConfigValue_spec environ key :
  match GetRequiredConfigValue environ key with
  | inr value => environ !! key = Some value ∧ value ≠ ""
  | inl err => default "" (environ !! key) = "" ∧ err = "missing required environment variable '" +:+ key +:+ "'"
  end.
Proof.
  unfold GetRequiredConfigValue, Getenv. destruct (environ !! key) as [[|a s]|]; simpl; done.
Qed.

Section dispatcher_properties.
Context `{KafkaCluster} `{GoRuntime} `{PeriodParser} `{ApiClient} `{SaramaLib} `{Services}.
Context `{MainServices}.
Context {L REST Discovery FakeSet : Type} `{RestLib L REST Discovery}.
Implicit Types (ctx : Context (L:=L) (REST:=REST) (Discovery:=Discovery) (FakeSet:=FakeSet)).

(** [NewDispatcher]: it fails for the producer or for a variable, and then the
    endpoint may run already; otherwise its receiver resolves hosts by its map. *)
Lemma NewDispatcher_spec environ args :
  match NewDispatcher environ args with
  | (inr d, started) =>
      NewSyncProducer (Brokers args) (KafkaConfig args) = None ∧
      d = mkDispatcherObject (empty_dispatcher (TopicFunc args)) (Some (mkMessageReceiver 8080 GetChannelReferenceFromHost)) ∧
      started = [SubscriptionEndpoint ":8081"] ∧
      Getenv environ PodNameEnvVarKey ≠ "" ∧ Getenv environ ContainerNameEnvVarKey ≠ ""
  | (inl err, started) =>
      (∃ e, NewSyncProducer (Brokers args) (KafkaConfig args) = Some e ∧ started = [] ∧
         err = "unable to create kafka producer against Kafka bootstrap servers [" +:+ Join " " (Brokers args) +:+ "] : " +:+ e) ∨
      (NewSyncProducer (Brokers args) (KafkaConfig args) = None ∧ started = [SubscriptionEndpoint ":8081"] ∧
       ∃ key, Getenv environ key = "" ∧ err = "missing required environment variable '" +:+ key +:+ "'" ∧
         (key = PodNameEnvVarKey ∨ key = ContainerNameEnvVarKey ∧ Getenv environ PodNameEnvVarKey ≠ ""))
  end.
Proof.
  unfold NewDispatcher. destruct (NewSyncProducer _ _) as [e|]; [left; by exists e|].
  pose proof (GetRequiredConfigValue_spec environ PodNameEnvVarKey) as Hp.
  destruct (GetRequiredConfigValue environ PodNameEnvVarKey) as [err|pod].
  { destruct Hp as [Hp ->]. right. split_and!; [done|done|]. exists PodNameEnvVarKey. split_and!; [done|done|by left]. }
  destruct Hp as [Hp Hp']. assert (Hpod : Getenv environ PodNameEnvVarKey ≠ "") by (unfold Getenv; by rewrite Hp).
  pose proof (GetRequiredConfigValue_spec environ ContainerNameEnvVarKey) as Hc.
  destruct (GetRequiredConfigValue environ ContainerNameEnvVarKey) as [err|container].
  { destruct Hc as [Hc ->]. right. split_and!; [done|done|]. exists ContainerNameEnvVarKey. split_and!; [done|done|by right]. }
  destruct Hc as [Hc Hc']. simpl. split_and!; try done. unfold Getenv. by rewrite Hc.
Qed.

(** What the dispatcher is when it has started. *)
Definition dispatcher_started environ ctx (r : running_dispatcher) : Prop :=
  let dispatcherName := Getenv environ "CHANNEL_NAME" +:+ "-dispatcher" in
  SetupDynamicPublishing dispatcherName = None ∧
  NewConfigFromEnv environ = inr (Brokers (run_args r), KafkaConfig (run_args r)) ∧
  NewSyncProducer (Brokers (run_args r)) (KafkaConfig (run_args r)) = None ∧
  ClientID (run_args r) = dispatcherName ∧
  run_servers r = [SubscriptionEndpoint ":8081"; EventReceiver 8080] ∧
  run_handler r = dispatcher_handler (Getenv environ "CHANNEL_NAME") (Getenv environ NamespaceEnvKey) ∧
  Getenv environ NamespaceEnvKey ≠ "" ∧ skipStatusUpdates (b_impl (run_impl r)) = true ∧
  dp_dispatcher (run_process r) = empty_dispatcher (TopicName environ) ∧
  ∃ i, run_informer r = Some i ∧
    ∀ (codec : Codec) options, let ns := Getenv environ "NAMESPACE" in
      ListFunc i options = List (if decide (ns = "") then GetNamespaceScope ctx else ns) options.

(** The fatal errors of its constructor. *)
Definition constructor_failure environ (message err : string) : Prop :=
  let dispatcherName := Getenv environ "CHANNEL_NAME" +:+ "-dispatcher" in
  (message = "unable to setup tracing" ∧ SetupDynamicPublishing dispatcherName = Some err) ∨
  (message = "unable to create sarama config" ∧ NewConfigFromEnv environ = inl err) ∨
  (message = "Unable to create kafka dispatcher" ∧ ∃ brokers cfg, NewConfigFromEnv environ = inr (brokers, cfg) ∧
     (is_Some (NewSyncProducer brokers cfg) ∨
      ∃ key, Getenv environ key = "" ∧ (key = PodNameEnvVarKey ∨ key = ContainerNameEnvVarKey) ∧
        err = "missing required environment variable '" +:+ key +:+ "'")).

(** The constructor, on a context that has been injected. *)
Lemma dispatcher_constructed environ leader ctx ctx' ns labels m' ref i
    (injected : informer_Get ctx' = Ok ref) (informer : Informer_of ref m' = (Some i, m'))
    (scoped : ∀ (codec : Codec) (options : ListOptions), ListFunc i options =
      List (GetNamespaceScope (if bool_decide (Getenv environ "NAMESPACE" ≠ "") then WithNamespaceScope (Getenv environ "NAMESPACE") ctx else ctx)) options)
    (namespaced : Getenv environ NamespaceEnvKey ≠ "") :
  match dispatcher_NewController environ leader ctx' (InformedWatcher ns labels) m' with
  | Ok r => dispatcher_started environ ctx r
  | Err (message, err) => constructor_failure environ message err
  | Panic _ => False
  end.
Proof.
  unfold dispatcher_NewController, dispatcher_started, constructor_failure.
  destruct (SetupDynamicPublishing _) as [err|] eqn:Htr; [by left|].
  destruct (NewConfigFromEnv environ) as [err|[brokers cfg]] eqn:Hcfg; [by right; left|]. rewrite injected.
  set (args := mkKafkaDispatcherArgs _ _ _ _ _). pose proof (NewDispatcher_spec environ args) as Hnew.
  destruct (NewDispatcher environ args) as [[err|d] started].
  { right; right. split; [done|]. exists brokers, cfg. split; [done|]. destruct Hnew as [(e & He & _)|(_ & _ & key & Hk & Herr & Hor)].
    - left. by exists e.
    - right. exists key. split_and!; [done|naive_solver|done]. }
  destruct Hnew as (Hprod & -> & -> & Hpod & Hcon). cbn [NewImpl dispatcher_options length decide].
  rewrite system_Namespace_ok by done. simpl.
  split_and!; try done. exists i. rewrite informer. split; [done|]. intros codec options. rewrite (scoped codec options).
  f_equal. destruct (decide (Getenv environ "NAMESPACE" = "")) as [->|Hn].
  - by rewrite bool_decide_false by tauto.
  - by rewrite bool_decide_true.
Qed.


Section pod.
Context `{!Controller.Reconciler} (c : KafkaTopicChannel) (secret : SecretKeySelector → string) (pod : string) (environ : Environ).
Context (deployed : pod_environ (makeEnv (dispatcher_args c (Namespace (meta c)))) secret (Namespace (meta c)) pod environ).

Lemma pod_literal k x : (k, x) ∈ literal_vars c → Getenv environ k = x.
Proof.
  intros Hin. unfold Getenv.
  by rewrite (lookup_literal secret (dispatcher_args c (Namespace (meta c))) environ (pe_runs _ _ _ _ _ deployed) k x).
Qed.

Lemma pod_scope v : v ∈ scope_vars (dispatcher_args c (Namespace (meta c))) →
  v ∈ makeEnv (dispatcher_args c (Namespace (meta c))).
Proof. intros Hv. apply elem_of_makeEnv. by right; right. Qed.

Lemma pod_variables :
  Getenv environ "CHANNEL_NAME" = Name (meta c) ∧ Getenv environ NamespaceEnvKey = Namespace (meta c) ∧
  TopicName environ = Topic (Spec c) ∧ Getenv environ "NAMESPACE" = Namespace (meta c) ∧
  Getenv environ PodNameEnvVarKey = pod ∧ Getenv environ ContainerNameEnvVarKey = "dispatcher".
Proof.
  split_and!.
  - apply pod_literal. by repeat constructor.
  - apply pod_literal. by repeat constructor.
  - change (TopicName environ) with (Getenv environ "KAFKA_TOPIC"). apply pod_literal. by repeat constructor.
  - unfold Getenv. rewrite (pe_namespace _ _ _ _ _ deployed "NAMESPACE"); [done|]. apply pod_scope. by repeat constructor.
  - unfold Getenv. rewrite (pe_name _ _ _ _ _ deployed PodNameEnvVarKey); [done|]. apply pod_scope. by repeat constructor.
  - unfold Getenv. rewrite (rw_literal _ _ _ (pe_runs _ _ _ _ _ deployed) ContainerNameEnvVarKey "dispatcher"); [done|].
    apply pod_scope. by repeat constructor.
Qed.
End pod.


(** The variables of another scope than [namespace] lack the name of the pod:
    a dispatcher deployed with them would never come up. *)
Theorem other_scope_never_starts args environ leader ctx m rest secret
    (scope : DispatcherScope args ≠ "namespace") (run : runs_with (makeEnv args) secret environ)
    (unset : (∀ v, v ∈ makeEnv args → env_Name v ≠ PodNameEnvVarKey) → environ !! PodNameEnvVarKey = None) :
  ∀ r, dispatcher_main environ leader ctx m rest ≠ Ok r.
Proof.
  assert (Hpod : environ !! PodNameEnvVarKey = None).
  { apply unset. intros v Hv Hname. apply elem_of_makeEnv in Hv as [Hv|[(key & r & Hv & ->)|Hv]].
    - apply list_elem_of_fmap in Hv as ([key x] & -> & Hv). simpl in Hname. subst key.
      assert (Hno : PodNameEnvVarKey ∉ (literal_vars (a_Channel args)).*1) by by apply (bool_decide_unpack (_ ∉ _)).
      apply Hno, list_elem_of_fmap. by exists (PodNameEnvVarKey, x).
    - simpl in Hname. subst key.
      assert (Hno : PodNameEnvVarKey ∉ (secret_vars (a_Channel args)).*1) by by apply (bool_decide_unpack (_ ∉ _)).
      apply Hno, list_elem_of_fmap. by exists (PodNameEnvVarKey, Some r).
    - unfold scope_vars in Hv. rewrite decide_False in Hv by done. by apply elem_of_nil in Hv. }
  assert (Hctor : ∀ ctx' cmw m' r, dispatcher_NewController environ leader ctx' cmw m' ≠ Ok r).
  { intros ctx' cmw m' r. unfold dispatcher_NewController. destruct cmw; [|done]. destruct (SetupDynamicPublishing _); [done|].
    destruct (NewConfigFromEnv environ) as [err|[brokers cfg]]; [done|]. destruct (informer_Get ctx'); [|done..].
    set (dargs := mkKafkaDispatcherArgs _ _ _ _ _). pose proof (NewDispatcher_spec environ dargs) as Hnew.
    destruct (NewDispatcher environ dargs) as [[err|d] started]; [done|].
    destruct Hnew as (_ & _ & _ & Hne & _). exfalso. apply Hne. unfold Getenv. by rewrite Hpod. }
  intros r. unfold dispatcher_main. set (ctx0 := if bool_decide _ then _ else _).
  pose proof (MainWithContext_cases environ ctx0 m rest (dispatcher_NewController environ leader)) as Hcases. cbv zeta in Hcases.
  destruct Hcases as [(e & _ & ->)|(k & _ & [(err & _ & ->)|[(why & _ & ->)|[([why ->] & _)|[(e & -> & _)|Hok]]]])]; try done.
  destruct Hok as (_ & c & ctx' & m' & ref & i & labels & _ & _ & _ & _ & _ & _ & Hr).
  specialize (Hctor ctx' (InformedWatcher (Getenv environ NamespaceEnvKey) labels) m').
  destruct (dispatcher_NewController _ _ _ _ _) as [a|e|why]; [by destruct (Hctor a)|congruence|congruence].
Qed.
End dispatcher_properties.

Section controller_properties.
Context `{GoRuntime} `{KubeClient} `{Resolver} `{ApiClient}.
Context `{MainServices}.
Context {L REST Discovery FakeSet : Type} `{RestLib L REST Discovery}.
Implicit Types (ctx : Context (L:=L) (REST:=REST) (Discovery:=Discovery) (FakeSet:=FakeSet)).

(** How the controller comes up, given that the client can be built: it panics
    iff its namespace is unset or empty or the image of the dispatchers is unset
    (an empty one passes), and ends with the fatal errors of the steps around its constructor; otherwise its reconciler is the one that
    [GenReconciler] models, with both values, it handles the informer that is
    started, and the prober has its hundred workers and nothing to do. *)
Theorem controller_startup_spec environ leader ctx m k c (client : NewForConfigOrDie (with_default_rates 1 k) = Ok c) :
  match controller_main environ leader ctx m (inr k) with
  | Ok r =>
      Getenv environ NamespaceEnvKey ≠ "" ∧
      rc_reconciler r = {| systemNamespace := Getenv environ NamespaceEnvKey;
                           dispatcherImage := Getenv environ "DISPATCHER_IMAGE";
                           dispatcherServiceAccount := "kt-channel-dispatcher" |} ∧
      is_Some (environ !! "DISPATCHER_IMAGE") ∧
      b_impl (rc_impl r) = (let _ := rc_reconciler r in controller_impl leader) ∧
      running_watches true (rc_recorder r) = [] ∧
      rc_process r = mkProcess newTwoLaneWorkQueue NewProber ∅ ∧ rc_probeConcurrency r = 100 ∧
      ∃ i ctx' m', rc_informer r = Some i ∧
        SetupInformers Default (with_default_rates 1 k) (WithConfig (with_default_rates 1 k) ctx) m = Ok (ctx', [i], m')
  | Panic why => Getenv environ NamespaceEnvKey = "" ∨ environ !! "DISPATCHER_IMAGE" = None ∧
      why = "unable to process Kafka channel's required environment variables: required key DISPATCHER_IMAGE missing value"
  | Err e =>
      (∃ err, e = ("Error exporting go memstats view: ", err) ∧ register_views = Some err) ∨ setup_failure environ e ∨
      ∃ labels, start_failure environ (InformedWatcher (Getenv environ NamespaceEnvKey) labels) e
  end.
Proof.
  unfold controller_main.
  pose proof (MainWithContext_cases environ ctx m (inr k) (controller_NewController environ leader)) as Hcases. cbv zeta in Hcases.
  destruct Hcases as [(e & He & _)|(k' & Hk & [(err & Hv & ->)|[(why & Hw & ->)|[([why ->] & Hns)|[(e & -> & Hf)|Hok]]]])];
    [done|injection Hk as <-..].
  - left. by exists err.
  - congruence.
  - by left.
  - by right; left.
  - destruct Hok as (Hns & c' & ctx' & m' & ref & i & labels & Hc & Hset & Hcl & Hinf & Hi & _ & Hr).
    revert Hr. unfold controller_NewController. rewrite Hinf. rewrite system_Namespace_ok by done. rewrite Hcl.
    unfold Process_envConfig, process_field, process_string.
    destruct (environ !! "DISPATCHER_IMAGE") as [image|] eqn:Himg; simpl; [|intros ->; by right].
    intros [->|(e & -> & Hs)]; [|by right; right; exists labels].
    split_and!; try done.
    + unfold Getenv. by rewrite Himg.
    + exists i, ctx', m'. by rewrite Hi.
Qed.
End controller_properties.

(** ** Witnesses *)
Section demo.
#[local] Existing Instance Channel.demo_runtime.
#[local] Existing Instance KafkaEnv.demo_sarama.
#[local] Existing Instance Injection.demo_rest.
#[local] Existing Instance Dispatcher.demo_cluster.
#[local] Existing Instance Sender.demo_parser.
#[local] Existing Instance GenReconciler.demo_api.
#[local] Existing Instance Controller.demo_reconciler.
#[local] Existing Instance Controller.demo_resolver.
#[local] Existing Instance Controller.demo_client.
#[local] Instance demo_services : Services :=
  {| NewSyncProducer _ _ := None; NewClient _ _ := None; SetupDynamicPublishing _ := None |}.
#[local] Instance demo_main : MainServices :=
  {| GetConfigMap _ _ _ := NotFoundMap; poll_ticks := 5; register_views := None; CheckMinimumVersion _ := None;
     FilterConfigByLabelExists _ := None; logging_NewConfigFromMap _ := None; leaderelection_NewConfigFromMap _ := None;
     watcher_Start _ := None; StartInformers := None |}.

Lemma demo_cluster_up environ : cluster_up environ.
Proof. by split. Qed.

Definition demo_channel : KafkaTopicChannel := a_Channel demo_env_args.
Definition demo_pod_environ : Environ :=
  <["NAMESPACE" := "ns"]> (<[PodNameEnvVarKey := "pod-0"]> (demo_environ_of (makeEnv demo_env_args))).

Lemma demo_makeEnv : makeEnv (dispatcher_args demo_channel (Namespace (meta demo_channel))) = makeEnv demo_env_args.
Proof. reflexivity. Qed.

Lemma demo_deployed :
  pod_environ (makeEnv (dispatcher_args demo_channel (Namespace (meta demo_channel)))) demo_secret
    (Namespace (meta demo_channel)) "pod-0" demo_pod_environ.
Proof.
  rewrite demo_makeEnv. assert (Hlit : ∀ v, v ∈ makeEnv demo_env_args →
    match env_ValueFrom v with
    | None => demo_pod_environ !! env_Name v = Some (env_Value v)
    | Some (SecretKeyRef ref) => demo_pod_environ !! env_Name v = Some (demo_secret ref)
    | Some (FieldRef p) => demo_pod_environ !! env_Name v =
        Some (if decide (p = "metadata.namespace") then "ns" else "pod-0")
    end).
  { intros v Hv. vm_compute in Hv. repeat (apply elem_of_cons in Hv as [->|Hv]; [vm_compute; reflexivity|]).
    by apply elem_of_nil in Hv. }
  split; [split|..].
  - intros k v Hin. exact (Hlit _ Hin).
  - intros k ref Hin. exact (Hlit _ Hin).
  - intros k Hc Hno. unfold demo_pod_environ. rewrite !lookup_insert_ne; [by apply demo_environ_unset| |];
      intros <-; by apply (bool_decide_unpack (_ ∉ consulted)) in Hc.
  - intros k Hin. exact (Hlit _ Hin).
  - intros k Hin. exact (Hlit _ Hin).
Qed.

Definition demo_empty_context : Context (L:=()) (REST:=()) (Discovery:=()) (FakeSet:=()) :=
  mkContext None None None None None None None ∅ ∅.


Lemma demo_client_built : ∀ k, inr demo_config = inr (A:=string * string) k → ∃ c, NewForConfigOrDie (with_default_rates 1 k) = Ok c.
Proof. intros k [= <-]. by eexists. Qed.


Lemma controller_startup_spec_witness :
  ∃ why, controller_main (L:=()) (FakeSet:=()) {[NamespaceEnvKey := "ns"]} (λ _, true) demo_empty_context demo_memory (inr demo_config) = Panic why.
Proof.
  pose proof (controller_startup_spec {[NamespaceEnvKey := "ns"]} (λ _, true) demo_empty_context demo_memory demo_config (mkClientset tt tt) eq_refl) as H.
  destruct (controller_main {[NamespaceEnvKey := "ns"]} (λ _, true) demo_empty_context demo_memory (inr demo_config)) as [r|e|why] eqn:E.
  - destruct H as (_ & _ & [i Hi] & _). vm_compute in Hi. discriminate Hi.
  - vm_compute in E. discriminate E.
  - exists why. reflexivity.
Defined.
End demo.
