(* ===== verification/Stats.v ===== *)
(** * Stats: the reporter of readiness metrics

    Models [src/pkg/channel/kt/reconciler/stats_reporter.go]: the measures its
    [init] creates and the views it registers, the tag map of a report
    ([vendor/go.opencensus.io/tag]) and what [ReportReady] records.  The measures
    reach the metrics back end in the order of [recorded]; what the back end does
    with them is not modelled. *)
From Stdlib Require Import Ascii.
From S2P Require Import Prelude GoStrings ApiTypes Channel.

(** ** Tags ([go.opencensus.io/tag]) *)
Definition maxKeyLength : nat := 255.
Definition validKeyValueMin : nat := 32.
Definition validKeyValueMax : nat := 126.

(** [isASCII]; the loop of the code is over runes, and a byte beyond ASCII is part
    of a rune beyond the maximum. *)
Fixpoint isASCII (s : string) : bool :=
  match s with
  | "" => true
  | String c s =>
      if (nat_of_ascii c <? validKeyValueMin) || (validKeyValueMax <? nat_of_ascii c) then false else isASCII s
  end.

Definition checkKeyName (name : string) : bool :=
  if String.length name =? 0 then false
  else if maxKeyLength <? String.length name then false
  else isASCII name.

Definition checkValue (v : string) : bool :=
  if maxKeyLength <? String.length v then false else isASCII v.

Definition errInvalidKeyName : string := "invalid key name: only ASCII characters accepted; max length must be 255 characters".
Definition errInvalidValue : string := "invalid value: only ASCII characters accepted; max length must be 255 characters".

(** A [tag.Key] is its name. *)
Definition NewKey (name : string) : string + string :=
  if checkKeyName name then inr name else inl errInvalidKeyName.

(** [tag.New(ctx, tag.Insert(k, v))], where [tags] are those of [ctx]: a key that
    is there keeps its value. *)
Definition insert_tag (k v : string) (tags : gmap string string) : string + gmap string string :=
  if checkValue v then inr (match tags !! k with Some _ => tags | None => <[k := v]> tags end)
  else inl errInvalidValue.

(** ** The measures *)
Record StatKey := mkStatKey { ReadyLatencyKey : string; ReadyCountKey : string }.
Record Measure := mkMeasure { ms_Name : string; ms_Description : string; ms_Unit : string }.
Record Measurements := mkMeasurements { ReadyLatencyStat : Measure; ReadyCountStat : Measure }.
Inductive Aggregation := LastValue | Count.
Record View := mkView { v_Measure : Measure; v_Aggregation : Aggregation; v_TagKeys : list string }.

Definition KindToStatKeys : gmap string StatKey :=
  {["KafkaChannel" := mkStatKey "kafkachannel_ready_latency" "kafkachannel_ready_count"]}.

Definition mustNewTagKey (s : string) : res string string :=
  match NewKey s with inl err => Panic err | inr k => Ok k end.

Definition new_measurements (kind : string) (keys : StatKey) : Measurements :=
  mkMeasurements
    (mkMeasure (ReadyLatencyKey keys) ("Time it takes for a " +:+ kind +:+ " to become ready since created") "ms")
    (mkMeasure (ReadyCountKey keys) ("Number of " +:+ kind +:+ " that became ready") "1").

(** What [init] leaves in the variables of the package. *)
Record Package := mkPackage {
  reconcilerTagKey : string;
  keyTagKey : string;
  KindToMeasurements : gmap string Measurements;
}.

Section init.
(** [view.Register], given the views of one call. *)
Context `{GoRuntime} (Register : list View → option string).

Definition views_of (reconciler key : string) (m : Measurements) : list View :=
  [ mkView (ReadyLatencyStat m) LastValue [reconciler; key]; mkView (ReadyCountStat m) Count [reconciler; key] ].

(** The body of the loop of [init]. *)
Definition init_kind (reconciler key : string) (acc : res string (gmap string Measurements)) (kv : string * StatKey) :
    res string (gmap string Measurements) :=
  match acc with
  | Ok measurements =>
      let m := new_measurements kv.1 kv.2 in
      match Register (views_of reconciler key m) with
      | Some err => Panic err
      | None => Ok (<[kv.1 := m]> measurements)
      end
  | r => r
  end.

Definition init (n : nat) : res string Package :=
  match mustNewTagKey "reconciler", mustNewTagKey "key" with
  | Ok reconciler, Ok key =>
      match foldl (init_kind reconciler key) (Ok ∅) (range_order n (map_to_list KindToStatKeys)) with
      | Ok measurements => Ok (mkPackage reconciler key measurements)
      | Err e => Err e
      | Panic why => Panic why
      end
  | Panic why, _ | _, Panic why => Panic why
  | Err e, _ | _, Err e => Err e
  end.
End init.

(** ** The reporter *)
Record reporter := mkReporter { r_tags : gmap string string }.

(** A measurement given to [metrics.Record] with the tags of its context. *)
Record Recorded := mkRecorded { rec_measure : Measure; rec_value : Z; rec_tags : gmap string string }.

Definition NewStatsReporter (p : Package) (reconciler : string) : string + reporter :=
  match insert_tag (reconcilerTagKey p) reconciler ∅ with
  | inl err => inl err
  | inr tags => inr (mkReporter tags)
  end.

Definition ReportReady (p : Package) (r : reporter) (kind namespace service : string) (d : Z) (recorded : list Recorded) :
    option string * list Recorded :=
  let key := namespace +:+ "/" +:+ service in
  let v := Z.quot d (10 ^ 6) in
  match insert_tag (keyTagKey p) key (r_tags r) with
  | inl err => (Some err, recorded)
  | inr tags =>
      match KindToMeasurements p !! kind with
      | None => (Some ("unknown kind attempted to report ready, " +:+ quote kind), recorded)
      | Some m =>
          (None, recorded ++ [mkRecorded (ReadyCountStat m) 1 tags] ++ [mkRecorded (ReadyLatencyStat m) v tags])
      end
  end.

(** ** Properties *)
Lemma isASCII_app s1 s2 : isASCII (s1 +:+ s2) = isASCII s1 && isASCII s2.
Proof. induction s1 as [|c s1 IH]; [done|]. simpl. by destruct (_ || _). Qed.

Section properties.
Context `{GoRuntime} (Register : list View → option string).

Lemma init_eq n p :
  init Register n = Ok p →
  p = mkPackage "reconciler" "key"
        {["KafkaChannel" := new_measurements "KafkaChannel" (mkStatKey "kafkachannel_ready_latency" "kafkachannel_ready_count")]}.
Proof.
  unfold init. change (mustNewTagKey "reconciler") with (Ok (E := string) "reconciler").
  change (mustNewTagKey "key") with (Ok (E := string) "key"). unfold KindToStatKeys. rewrite map_to_list_singleton.
  assert (range_order n [("KafkaChannel", mkStatKey "kafkachannel_ready_latency" "kafkachannel_ready_count")] =
    [("KafkaChannel", mkStatKey "kafkachannel_ready_latency" "kafkachannel_ready_count")]) as ->
    by apply Permutation_singleton_r, range_order_perm.
  simpl. destruct (Register _); [done|]. intros [= <-]. done.
Qed.

(** After the package was initialised and a reporter made, a report of
    readiness is an error and records nothing when its key is longer than 255 bytes
    or not printable ASCII, or when the kind is not ["KafkaChannel"]; else one
    count and the latency in milliseconds, rounded towards zero, are recorded under
    the reconciler and the key.  The kind of the channels themselves is none that
    can be reported. *)
Theorem ReportReady_spec n p name r (initialised : init Register n = Ok p) (made : NewStatsReporter p name = inr r)
    kind namespace service d recorded :
  let key := namespace +:+ "/" +:+ service in
  let tags : gmap string string := {["reconciler" := name; "key" := key]} in
  let valid := String.length key ≤ 255 ∧ isASCII namespace = true ∧ isASCII service = true in
  match ReportReady p r kind namespace service d recorded with
  | (Some err, recorded') => recorded' = recorded ∧ (¬ valid ∨ kind ≠ "KafkaChannel")
  | (None, recorded') =>
      valid ∧ kind = "KafkaChannel" ∧
      ∃ count latency,
        recorded' = recorded ++ [mkRecorded count 1 tags; mkRecorded latency (Z.quot d (10 ^ 6)) tags] ∧
        ms_Name count = "kafkachannel_ready_count" ∧ ms_Name latency = "kafkachannel_ready_latency"
  end ∧
  (∀ c, (ReportReady p r (gvk_Kind (GetGroupVersionKind c)) namespace service d recorded).1 ≠ None).
Proof.
  apply init_eq in initialised as ->. cbv zeta. unfold NewStatsReporter, insert_tag in made.
  destruct (checkValue name); [|done]. rewrite lookup_empty in made. injection made as <-.
  unfold ReportReady, insert_tag, checkValue. cbn [keyTagKey r_tags KindToMeasurements reconcilerTagKey].
  rewrite lookup_insert_ne by done. rewrite lookup_empty, !isASCII_app.
  destruct (Nat.ltb_spec maxKeyLength (String.length (namespace +:+ "/" +:+ service))) as [Hlen|Hlen].
  { split; [|done]. split; [done|]. left. unfold maxKeyLength in Hlen. lia. }
  destruct (isASCII namespace) eqn:Hns; [|split; [split; [done|left; naive_solver]|done]].
  destruct (isASCII service) eqn:Hs; [|split; [split; [done|left; naive_solver]|done]].
  simpl. split; [|done]. destruct (decide (kind = "KafkaChannel")) as [->|Hk].
  - simpl. split; [done|]. split; [done|]. eexists _, _. rewrite <-(insert_insert_ne (M := gmap string)) by done. by rewrite <-!insert_empty.
  - rewrite lookup_singleton_ne by done. split; [done|by right].
Qed.
End properties.

(** ** The theorem applied to a concrete package *)
Section demo.
#[local] Instance demo_runtime : GoRuntime := deterministic_runtime Z.of_nat.

Definition demo_package : Package :=
  mkPackage "reconciler" "key"
    {["KafkaChannel" := new_measurements "KafkaChannel" (mkStatKey "kafkachannel_ready_latency" "kafkachannel_ready_count")]}.
Definition demo_reporter : reporter := mkReporter {["reconciler" := "kafka"]}.

Lemma ReportReady_spec_witness :
  (ReportReady demo_package demo_reporter "KafkaTopicChannel" "ns" "ch" 1500000 []).2 = [] ∧
  String.length "ns/ch" ≤ 255.
Proof.
  assert (Hinit : init (λ _, None) 0 = Ok demo_package) by (vm_compute; reflexivity).
  pose proof (ReportReady_spec (λ _, None) 0 demo_package "kafka" demo_reporter Hinit eq_refl
    "KafkaTopicChannel" "ns" "ch" 1500000 []) as [Hspec _].
  cbv zeta in Hspec. destruct (ReportReady _ _ _ _ _ _ _) as [[err|] recorded'].
  - destruct Hspec as [-> _]. split; [done|simpl; lia].
  - by destruct Hspec as (_ & [=] & _).
Defined.
End demo.
