(* ===== verification/System.v ===== *)
(** * System: the components together

    Two chains that no component shows alone: the readiness protocol, from the
    partitions a dispatcher pod consumes, over its endpoint
    ([dispatcher/subscription_endpoint.go]), to the controller's prober
    ([status/status.go]); and the address, from the controller's reconciler
    ([controller/kafkachannel.go]), over the dispatcher's reconciler
    ([dispatcher/kafkachannel.go]), to the message receiver. *)
From Stdlib Require Import Ascii.
From S2P Require Import Prelude GoStrings Conditions ApiTypes Channel Sender KafkaSubscription Dispatcher Endpoint Receiver DispatcherReconciler Prober Readiness Resources Controller.
Local Open Scope Z_scope.

(** ** Probing a pod *)

(** What the prober sees of the pod whose dispatcher is [d]: the endpoint's
    response to a GET of the item's URL; a panic of the handler closes the
    connection. *)
Definition pod_answer (d : KafkaDispatcher) (wi : workItem) : probe_answer :=
  match ServeHTTP (mkHttpRequest MethodGet (Path (wi_url wi))) d with
  | Responded r => ProbeResponse (w_code r) (w_body r)
  | _ => ProbeError
  end.

(** The partitions of a subscription that the dispatcher holds ready. *)
Definition ready_partitions (d : KafkaDispatcher) (ref : NamespacedName) (uid : string) : option (gset Z) :=
  l ← channelSubscriptions d !! ref;
  ks ← objects d !! l;
  channelReadySubscriptions ks !! uid.

Definition channel_ref (c : KafkaTopicChannel) : NamespacedName := mkNamespacedName (ch_Namespace c) (ch_Name c).

Lemma Int32_List_set (ps : gset Z) : list_to_set (Int32_List ps) = ps.
Proof.
  apply set_eq. intros x. unfold Int32_List. by rewrite elem_of_list_to_set, merge_sort_Permutation, elem_of_elements.
Qed.

Lemma pod_answer_spec d wi c :
  plain_ref (channel_ref c) → wi_url wi = probe_url c →
  match channelSubscriptions d !! channel_ref c with
  | None => pod_answer d wi = ProbeResponse 404 None
  | Some l => pod_answer d wi = ProbeResponse 200 (Some (ready_report d l))
  end.
Proof.
  intros Hplain Hurl. unfold pod_answer. rewrite Hurl.
  assert (HS : ServeHTTP (mkHttpRequest MethodGet (Path (probe_url c))) d = serve_channel (channel_ref c) d d d d).
  { exact (ServeHTTP_interleaved_channel (channel_ref c) d d d d Hplain). }
  rewrite HS. unfold serve_channel.
  destruct (channelSubscriptions d !! channel_ref c) as [l|] eqn:Hl; [|done]. by rewrite decide_True.
Qed.

Lemma pod_report d c uid :
  (channelSubscriptions d !! channel_ref c ≫= λ l, ready_report d l !! uid) =
  Int32_List <$> ready_partitions d (channel_ref c) uid.
Proof.
  unfold ready_partitions, ready_report. destruct (channelSubscriptions d !! channel_ref c) as [l|]; [|done]. simpl.
  destruct (objects d !! l) as [ks|]; [|done]. simpl. by rewrite lookup_fmap.
Qed.

Section readiness.
Context `{GoRuntime}.

(** The readiness protocol, end to end.  The probe of a pod reads what its
    consumers have set up: while the pod's dispatcher holds no partition of the
    subscription, the probe is queued again and nothing changes; otherwise the
    probe is done, and if the partitions heard of are as many as the channel's,
    the callback runs and the subscription is ready from then on. *)
Theorem pod_probe_spec d id m wi s
    (queued : probes m !! id = Some wi) (state : states m !! wi_targetStates wi = Some s)
    (alive : context_done wi s m = false) (one : pod_pendingCount (wi_podState wi) = 1)
    (names : plain_ref (channel_ref (ts_ch s))) (url : wi_url wi = probe_url (ts_ch s)) :
  let m' := processWorkItem id (pod_answer d wi) m in
  match ready_partitions d (channel_ref (ts_ch s)) (sub_UID (ts_sub s)) with
  | None => (id ∈ workQueue m') ∧ states m' = states m ∧ callbacks m' = callbacks m
  | Some ps =>
      (id ∉ workQueue m') ∧
      (Z.of_nat (size (ps ∪ readyPartitions s)) = NumPartitions (Spec (ts_ch s)) →
       callbacks m' = callbacks m ++ [(ts_ch s, ts_sub s)] ∧
       ∀ n target c sub, targetStates m !! sub_UID sub = Some (wi_targetStates wi) →
         sub_Generation (ts_sub s) = sub_Generation sub →
         (prober_IsReady n (inr target) c sub m').1 = (true, None))
  end.
Proof.
  cbv zeta. pose proof (pod_answer_spec d wi (ts_ch s) names url) as Ha.
  pose proof (pod_report d (ts_ch s) (sub_UID (ts_sub s))) as Hr.
  assert (Hfail : ∀ a, probeVerifier a s = (false, s) → let m' := processWorkItem id a m in
    (id ∈ workQueue m') ∧ states m' = states m ∧ callbacks m' = callbacks m).
  { intros a Hv. unfold processWorkItem. rewrite queued, state, Hv. cbv zeta.
    rewrite insert_id by done. replace (context_done wi s _) with false by (by rewrite <-alive).
    cbn. split; [set_solver|done]. }
  destruct (ready_partitions d (channel_ref (ts_ch s)) (sub_UID (ts_sub s))) as [ps|].
  - destruct (channelSubscriptions d !! channel_ref (ts_ch s)) as [l|]; [|done]. simpl in Hr. rewrite Ha.
    assert (Hdone : id ∉ workQueue (processWorkItem id (ProbeResponse 200 (Some (ready_report d l))) m)).
    { unfold processWorkItem. rewrite queued, state. unfold probeVerifier. rewrite decide_True, Hr by done. cbv zeta.
      replace (context_done wi _ _) with false by (by rewrite <-alive). cbn [negb].
      unfold onProbingSuccess. destruct (decide _); [destruct (checkReadiness _) as [[] ?]|]; cbn; set_solver. }
    split; [done|]. intros Hsize.
    destruct (probe_completes id m wi s (ready_report d l) (Int32_List ps) queued state alive one Hr) as (_ & Hc & _ & _ & Hready);
      [by rewrite Int32_List_set|done].
  - destruct (channelSubscriptions d !! channel_ref (ts_ch s)) as [l|]; rewrite Ha; apply Hfail; [|done].
    simpl in Hr. unfold probeVerifier. rewrite decide_True by done. by rewrite Hr.
Qed.
End readiness.

(** ** From the subscription to its status *)
Section published.
Context `{GoRuntime} `{KubeClient} `{Resolver} `{Reconciler}.

(** The lister finds ready pods of the channel's dispatcher. *)
Definition pods_listed (w : World) : Prop :=
  (∀ n, lister_error n = None) ∧
  ∃ target, listed_targets w (w_channel w) = inr target.

(** All subscribers of the spec with the UID [uid] are of the generation [gen]. *)
Definition one_generation (uid : string) (gen : Z) (subs : list SubscriberSpec) : Prop :=
  ∀ sub, sub ∈ subs → sub_UID sub = uid → sub_Generation sub = gen.

(** Asking about the subscribers in turn, each after the others. *)
Lemma ready_subscribers_hold tr uid gen c target subs : ∀ acc w,
  prober_inv tr (w_prober w) → ready_state uid gen (w_prober w) → one_generation uid gen subs →
  (∀ n, lister_error n = None) → listed_targets w c = inr target →
  ∃ after w', ready_subscribers c subs acc w = (Ok after, w') ∧ acc ⊆ after ∧ w_writes w' = w_writes w ∧
    (uid ∈ sub_UID <$> subs → mkSubscriberStatus uid gen "True" "" ∈ after).
Proof.
  induction subs as [|s subs IH]; intros acc w Hinv Hready Hgen Hl Ht.
  { exists acc, w. split; [done|]. split; [done|]. split; [done|]. by intros ?%elem_of_nil. }
  cbn [ready_subscribers]. pose proof (manager_IsReady_eq c s w) as Hstep. cbv zeta in Hstep. rewrite Ht in Hstep.
  set (ready := prober_IsReady _ _ _ _ _) in Hstep. unfold mbind at 1, M_bind at 1. rewrite Hstep.
  destruct (IH (if ready.1.1 then acc ++ [subscriber_ready s] else acc) (set_prober ready.2 (count_call w)))
    as (after & w' & -> & Hacc & Hw & Hin); simpl.
  - by apply IsReady_inv.
  - eapply ready_IsReady; [done| |done]. intros Hu. apply Hgen; [by left|done].
  - intros sub Hsub. apply Hgen. by right.
  - done.
  - rewrite <-Ht. unfold listed_targets, lister_get. simpl. by rewrite !Hl.
  - exists after, w'. split; [done|]. split; [|split; [done|]].
    + intros x Hx. apply Hacc. destruct ready.1.1; [apply elem_of_app; by left|done].
    + intros [Hu|Hu]%elem_of_cons; [|by apply Hin]. apply Hacc. symmetry in Hu.
      assert (Hg : sub_Generation s = gen) by (apply Hgen; [by left|done]). rewrite <-Hu in Hready.
      destruct (ready_asked (w_calls (count_call w)) (inr target) c s (w_prober w) gen Hready Hg) as [Hr _].
      unfold ready. rewrite (Hr target eq_refl). apply elem_of_app. right.
      unfold subscriber_ready. rewrite Hu, Hg. apply list_elem_of_here.
Qed.

(** The reconciler wants exactly the one list [after] in the status. *)
Definition publishes (w : World) (st : SubscriberStatus) : Prop :=
  let c := w_channel w in
  let ref := mkNamespacedName (Namespace (meta c)) (Name (meta c)) in
  ∃ after, st ∈ after ∧
    (st_Subscribers (ch_Status c) = after ∧ (reconcileSubscribers w).1 = Ok () ∨
     w_writes (reconcileSubscribers w).2 = w_writes w ++ [PatchSubscribers ref after]).

(** C4: The answer that completes a subscription is published.  A probe of a subscription's current state is in
    the queue, neither cancelled nor answered; the pods that answered before it reported the partitions
    [readyPartitions s].  When the pod's dispatcher now holds partitions of the subscription ready that
    make these up to as many as the channel has, its answer runs the ready callback once; and after any further
    steps of the prober's goroutines, however they interleave, as long as that
    state is the one in the prober's map, a reconciliation that finds pods and a
    spec with this generation of the subscription wants it in the channel's status, ready: it is there, or the
    channel is patched with it.  Probes of new subscriptions are queued like that
    ([new_subscription_probed]); a subscription whose answers never make up that number stays unready
    ([stuck_subscription_never_ready]). *)
Theorem subscription_becomes_ready tr m id wi s d ps
    (run : prober_run tr m) (waiting : id ∈ workQueue m)
    (queued : probes m !! id = Some wi) (state : states m !! wi_targetStates wi = Some s)
    (alive : context_done wi s m = false) (one : pod_pendingCount (wi_podState wi) = 1)
    (url : wi_url wi = probe_url (ts_ch s)) (names : plain_ref (channel_ref (ts_ch s)))
    (consumed : ready_partitions d (channel_ref (ts_ch s)) (sub_UID (ts_sub s)) = Some ps)
    (complete : Z.of_nat (size (ps ∪ readyPartitions s)) = NumPartitions (Spec (ts_ch s))) :
  let m1 := processWorkItem id (pod_answer d wi) m in
  callbacks m1 = callbacks m ++ [(ts_ch s, ts_sub s)] ∧
  ∀ rs w sub, prober_steps m1 rs (w_prober w) → targetStates (w_prober w) !! sub_UID sub = Some (wi_targetStates wi) →
    pods_listed w → sub ∈ Subscribers (Spec (w_channel w)) → sub_Generation sub = sub_Generation (ts_sub s) →
    one_generation (sub_UID sub) (sub_Generation sub) (Subscribers (Spec (w_channel w))) →
    publishes w (subscriber_ready sub).
Proof.
  pose proof (pod_answer_spec d wi (ts_ch s) names url) as Ha.
  pose proof (pod_report d (ts_ch s) (sub_UID (ts_sub s))) as Hr. rewrite consumed in Hr.
  destruct (channelSubscriptions d !! channel_ref (ts_ch s)) as [k|]; [|done]. simpl in Hr. rewrite Ha.
  destruct (probe_completes id m wi s (ready_report d k) (Int32_List ps) queued state alive one Hr)
    as (_ & Hc & _ & (s' & Hs' & Hr' & Hsub') & _); [by rewrite Int32_List_set|].
  set (m1 := processWorkItem id _ m) in *. cbv zeta. split; [done|].
  intros rs w sub steps cached [Hle [target' Ht]] Hin Hg Hgen.
  assert (run1 : prober_run (tr ++ report_of id (ProbeResponse 200 (Some (ready_report d k))) m) m1)
    by (by eapply run_step, step_process).
  pose proof (steps_ready _ _ _ _ _ _ _ run1 Hs' Hr' steps cached) as Hready. rewrite Hsub', <-Hg in Hready.
  destruct (ready_subscribers_hold _ _ _ (w_channel w) target' _ [] w (prober_run_inv _ _ (prober_run_steps _ _ _ _ run1 steps))
    Hready Hgen Hle Ht) as (after & w' & Heq & _ & Hw & Hafter).
  exists after. split; [apply Hafter; by apply list_elem_of_fmap_2|].
  rewrite (reconcileSubscribers_eq w after w' Heq). destruct (decide _); [by left|right]. simpl. by rewrite Hw.
Qed.
End published.

(** ** From the address to the receiver *)
Section address.
Context `{GoRuntime} `{KubeClient} `{Resolver} `{Reconciler} `{KafkaCluster} `{PeriodParser} `{KafkaProducer}.

(** C15: The address the controller publishes is served.  When reconciling a
    channel left it Ready, and the dispatcher has synced the resulting channel
    without error, a POST of an event to the root of the published host is
    received for the channel: it is never answered 404. *)
Theorem published_address_is_served w e w' d A d' r p
    (stored : sane (ch_Status (w_channel w))) (ran : ReconcileKind w = (Ok e, w'))
    (ready : IsReady (cell w') = true)
    (rep : represents d A) (synced : syncChannel (w_channel w') d = (Ok (), d'))
    (unshared : ∀ uid ref sub, A !! uid = Some (ref, sub) → uid ∈ (sub_UID <$> Subscribers (Spec (w_channel w'))) →
       ref = channel_ref (w_channel w')) :
  ∃ svc, Address (ch_Status (w_channel w')) =
           Some (Some (http_url (GetServiceHostname (Name (s_meta svc)) (Namespace (s_meta svc))))) ∧
    (er_Method r = MethodPost → er_Path r = "/" →
     er_Host r = GetServiceHostname (Name (s_meta svc)) (Namespace (s_meta svc)) →
     let code := (MessageReceiver_ServeHTTP r d' p).1 in
     code = StatusAccepted ∨ code = StatusBadRequest ∨ code = StatusInternalServerError).
Proof.
  pose proof (ReconcileKind_cases w stored) as Hcases. cbv zeta in Hcases. rewrite ran in Hcases.
  destruct Hcases as (_ & _ & Hr). destruct (rd_address _ _ Hr) as (svc & _ & Haddr).
  exists svc. split; [done|]. intros Hm Hp Hh.
  destruct (syncChannel_ok _ _ _ rep unshared _ synced ready) as (url & subs & Haddr' & _ & Href & _).
  rewrite Haddr in Haddr'. injection Haddr' as <-. simpl in Href.
  unfold MessageReceiver_ServeHTTP.
  rewrite decide_False by (intros Hn; by apply Hn). rewrite decide_False by (intros Hn; by apply Hn).
  rewrite Hh, Href. destruct (decide _); [auto|]. destruct (receiverFunc _ _ _ _) as [[err|] p']; auto.
Qed.
End address.

(** ** Witnesses *)
Section demo.
#[local] Existing Instance Channel.demo_runtime.
#[local] Existing Instance Controller.demo_resolver.
#[local] Existing Instance Controller.demo_reconciler.
#[local] Existing Instance Controller.demo_client.
#[local] Existing Instance Dispatcher.demo_cluster.
#[local] Existing Instance Sender.demo_parser.
#[local] Existing Instance Receiver.demo_producer.

Lemma demo_plain_ref : plain_ref (channel_ref (demo_ch 2)).
Proof. by split; apply (bool_decide_unpack (free_of _ _)). Qed.

(** A pod that consumes the partitions 1 and 3 of the subscription, of two. *)
Definition demo_item : workItem := mkWorkItem 0 (mkPodState 1 false) 1 (probe_url (demo_ch 2)) "10.0.0.1" "8081".
Definition demo_state : targetState := mkTargetState demo_sub (demo_ch 2) 1 ∅ {["10.0.0.1"]} false false.

Lemma demo_item_queued : probes (demo_queued 2) !! 2%nat = Some demo_item.
Proof. vm_compute. reflexivity. Qed.
Lemma demo_state_queued : states (demo_queued 2) !! wi_targetStates demo_item = Some demo_state.
Proof. vm_compute. reflexivity. Qed.
Lemma demo_ready_partitions :
  ready_partitions busy_dispatcher (channel_ref (ts_ch demo_state)) (sub_UID (ts_sub demo_state)) = Some {[1; 3]}.
Proof. vm_compute. reflexivity. Qed.
Lemma demo_target_state : targetStates (demo_queued 2) !! sub_UID demo_sub = Some (wi_targetStates demo_item).
Proof. vm_compute. reflexivity. Qed.

Lemma pod_probe_spec_witness :
  (prober_IsReady 1 (inr demo_target) (demo_ch 2) demo_sub
     (processWorkItem 2 (pod_answer busy_dispatcher demo_item) (demo_queued 2))).1 = (true, None).
Proof.
  pose proof (pod_probe_spec busy_dispatcher 2 (demo_queued 2) demo_item demo_state
    demo_item_queued demo_state_queued ltac:(vm_compute; reflexivity) eq_refl demo_plain_ref eq_refl) as Hs.
  cbv zeta in Hs. rewrite demo_ready_partitions in Hs. destruct Hs as [_ Hs].
  destruct Hs as [_ Hs]; [vm_compute; reflexivity|].
  exact (Hs 1%nat demo_target (demo_ch 2) demo_sub demo_target_state eq_refl).
Defined.

(** The pod's answer to the first probe, after which the world holds the prober. *)
Definition demo_asked : Prober := (prober_IsReady 0 (inr demo_target) (demo_ch 2) demo_sub NewProber).2.
Definition demo_answered : Prober := processWorkItem 2 (pod_answer busy_dispatcher demo_item) demo_asked.
Definition demo_published_world : World :=
  mkWorld (demo_kc [demo_sub]) 0 ∅ ∅ ∅ ∅ demo_endpoints demo_answered 0 [] [].

Lemma demo_listed : pods_listed demo_published_world.
Proof. split; [done|]. eexists. vm_compute. reflexivity. Qed.

Lemma subscription_becomes_ready_witness :
  callbacks demo_answered = [(demo_ch 2, demo_sub)] ∧
  publishes demo_published_world (subscriber_ready demo_sub).
Proof.
  destruct (subscription_becomes_ready [] (demo_queued 2) 2 demo_item demo_state busy_dispatcher {[1; 3]}
    (demo_run_queued 2) ltac:(vm_compute; reflexivity) demo_item_queued demo_state_queued ltac:(vm_compute; reflexivity) eq_refl eq_refl
    demo_plain_ref demo_ready_partitions ltac:(vm_compute; reflexivity)) as [Hcb Hpub].
  split; [exact Hcb|].
  apply (Hpub [] demo_published_world); [apply steps_nil|vm_compute; reflexivity|exact demo_listed|vm_compute; left|reflexivity|].
  intros sub Hsub _. apply list_elem_of_singleton in Hsub as ->. reflexivity.
Defined.

Definition demo_reconciled : World := (ReconcileKind demo_written_world).2.
Definition demo_published : KafkaDispatcher := (syncChannel (w_channel demo_reconciled) (empty_dispatcher "topic")).2.

Lemma demo_reconciled_eq :
  ReconcileKind demo_written_world = (Ok (newReconciledNormal "ns" "ch"), demo_reconciled).
Proof. vm_compute. reflexivity. Qed.
Lemma demo_published_eq :
  syncChannel (w_channel demo_reconciled) (empty_dispatcher "topic") = (Ok (), demo_published).
Proof. vm_compute. reflexivity. Qed.
Lemma demo_reconciled_ready : IsReady (cell demo_reconciled) = true.
Proof. vm_compute. reflexivity. Qed.

Lemma published_address_is_served_witness :
  ∃ host, host = "ch-kn-channel.ns.svc.cluster.local" ∧
    let code := (MessageReceiver_ServeHTTP (mkEventRequest "POST" "/" host (mkMessage EncodingBinary "e" None))
                   demo_published (mkProducer [] 0)).1 in
    code = StatusAccepted ∨ code = StatusBadRequest ∨ code = StatusInternalServerError.
Proof.
  destruct (published_address_is_served demo_written_world (newReconciledNormal "ns" "ch") demo_reconciled
    (empty_dispatcher "topic") ∅ demo_published
    (mkEventRequest "POST" "/" "ch-kn-channel.ns.svc.cluster.local" (mkMessage EncodingBinary "e" None)) (mkProducer [] 0)
    demo_written_sane demo_reconciled_eq demo_reconciled_ready (represents_empty "topic") demo_published_eq
    (λ uid ref sub Hx _, ltac:(by rewrite lookup_empty in Hx))) as (svc & Haddr & Hserved).
  eexists. split; [reflexivity|]. apply Hserved; [reflexivity|reflexivity|].
  assert (Ha : Address (ch_Status (w_channel demo_reconciled)) = Some (Some (http_url "ch-kn-channel.ns.svc.cluster.local")))
    by (vm_compute; reflexivity).
  rewrite Haddr in Ha. injection Ha as ->. reflexivity.
Defined.
End demo.
