(* ===== verification/Schemes.v ===== *)
(** * Schemes: the registration of the types

    Models the registry of Go types of [vendor/k8s.io/apimachinery/pkg/runtime/scheme.go]
    and what the repository registers in it: [addKnownTypes] of
    [src/pkg/apis/messaging/v1alpha1/register.go], the schemes of the client sets
    ([clientset/versioned/scheme], [clientset/versioned/fake]) and the [init] functions of
    both controllers and of the generated reconciler, which add the types to the scheme
    of client-go so that events can name their channel ([tools/reference/ref.go]).

    Conversion and defaulting functions, which registration also sets, are not in the
    model.  A panic of a registration ends the process: the result is [None]. *)
From S2P Require Import Prelude GoStrings ApiTypes Channel.

#[export] Instance GroupVersionKind_eq_dec : EqDecision GroupVersionKind.
Proof. solve_decision. Defined.
#[export] Instance GroupVersionKind_countable : Countable GroupVersionKind.
Proof.
  refine (inj_countable' (λ g, (gvk_Group g, gvk_Version g, gvk_Kind g)) (λ '(g, v, k), mkGVK g v k) _).
  by intros [].
Defined.
#[export] Instance GroupVersion_eq_dec : EqDecision GroupVersion.
Proof. solve_decision. Defined.

(** A [reflect.Type] of a struct: its package and its name. *)
Record GoType := mkType { PkgPath : string; TypeName : string }.
#[export] Instance GoType_eq_dec : EqDecision GoType.
Proof. solve_decision. Defined.
#[export] Instance GoType_countable : Countable GoType.
Proof. refine (inj_countable' (λ t, (PkgPath t, TypeName t)) (λ '(p, n), mkType p n) _). by intros []. Defined.

(** ** [runtime.Scheme] *)
Record runtime_Scheme := mkScheme {
  gvkToType : gmap GroupVersionKind GoType;
  typeToGVK : gmap GoType (list GroupVersionKind);
  unversionedTypes : gmap GoType GroupVersionKind;
  unversionedKinds : gmap string GoType;
  observedVersions : list GroupVersion;
}.

Definition NewScheme : runtime_Scheme := mkScheme ∅ ∅ ∅ ∅ [].
Definition APIVersionInternal : string := "__internal".

Definition addObservedVersion (v : GroupVersion) (s : runtime_Scheme) : runtime_Scheme :=
  if decide (gv_Version v = "" ∨ gv_Version v = APIVersionInternal) then s
  else if decide (v ∈ observedVersions s) then s
  else mkScheme (gvkToType s) (typeToGVK s) (unversionedTypes s) (unversionedKinds s) (observedVersions s ++ [v]).

Definition kinds_of (t : GoType) (s : runtime_Scheme) : list GroupVersionKind := default [] (typeToGVK s !! t).

(** The key has another type than [t]. *)
Definition taken `{Countable K} (m : gmap K GoType) (k : K) (t : GoType) : bool :=
  match m !! k with Some old => bool_decide (old ≠ t) | None => false end.

Definition AddKnownTypeWithName (gvk : GroupVersionKind) (t : GoType) (s : runtime_Scheme) : option runtime_Scheme :=
  let s := addObservedVersion (gvk_GroupVersion gvk) s in
  if decide (gvk_Version gvk = "") then None
  else if taken (gvkToType s) gvk t then None
  else
    let typeToGVK' :=
      if decide (gvk ∈ kinds_of t s) then typeToGVK s else <[t := kinds_of t s ++ [gvk]]> (typeToGVK s) in
    Some (mkScheme (<[gvk := t]> (gvkToType s)) typeToGVK' (unversionedTypes s) (unversionedKinds s) (observedVersions s)).

Fixpoint add_all (f : GoType → runtime_Scheme → option runtime_Scheme) (types : list GoType) (s : runtime_Scheme) :
    option runtime_Scheme :=
  match types with
  | [] => Some s
  | t :: types => f t s ≫= add_all f types
  end.

Definition AddKnownTypes (gv : GroupVersion) (types : list GoType) (s : runtime_Scheme) : option runtime_Scheme :=
  add_all (λ t, AddKnownTypeWithName (WithKind gv (TypeName t)) t) types (addObservedVersion gv s).

Definition add_unversioned (gv : GroupVersion) (t : GoType) (s : runtime_Scheme) : option runtime_Scheme :=
  let gvk := WithKind gv (TypeName t) in
  if taken (unversionedKinds s) (gvk_Kind gvk) t then None
  else Some (mkScheme (gvkToType s) (typeToGVK s) (<[t := gvk]> (unversionedTypes s))
         (<[gvk_Kind gvk := t]> (unversionedKinds s)) (observedVersions s)).

Definition AddUnversionedTypes (gv : GroupVersion) (types : list GoType) (s : runtime_Scheme) : option runtime_Scheme :=
  AddKnownTypes gv types (addObservedVersion gv s) ≫= add_all (add_unversioned gv) types.

(** [ObjectKinds]: [None] for a type that is not registered. *)
Definition ObjectKinds (t : GoType) (s : runtime_Scheme) : option (list GroupVersionKind) := typeToGVK s !! t.

(** ** [metav1.AddToGroupVersion] *)
Definition metav1 : string → GoType := mkType "k8s.io/apimachinery/pkg/apis/meta/v1".
Definition optionsTypes : list GoType :=
  metav1 <$> ["ListOptions"; "GetOptions"; "DeleteOptions"; "CreateOptions"; "UpdateOptions"; "PatchOptions"].
Definition Unversioned : GroupVersion := mkGV "" "v1".
Definition WatchEventKind : string := "WatchEvent".

Definition AddToGroupVersion (gv : GroupVersion) (s : runtime_Scheme) : option runtime_Scheme :=
  s ← AddKnownTypeWithName (WithKind gv WatchEventKind) (metav1 "WatchEvent") s;
  s ← AddKnownTypeWithName (WithKind (mkGV (gv_Group gv) APIVersionInternal) WatchEventKind) (metav1 "InternalEvent") s;
  s ← AddKnownTypes gv optionsTypes s;
  AddUnversionedTypes Unversioned
    (metav1 <$> ["Status"; "APIVersions"; "APIGroupList"; "APIGroup"; "APIResourceList"]) s.

(** ** Scheme builders

    A registration leaves the scheme changed also when it answers an error. *)
Definition Registration : Type := runtime_Scheme → option (option string * runtime_Scheme).

Fixpoint builder_AddToScheme (sb : list Registration) : Registration := λ s,
  match sb with
  | [] => Some (None, s)
  | f :: sb => '(err, s) ← f s; match err with Some err => Some (Some err, s) | None => builder_AddToScheme sb s end
  end.

(** [utilruntime.Must]. *)
Definition Must (f : Registration) (s : runtime_Scheme) : option runtime_Scheme :=
  '(err, s) ← f s; match err with Some _ => None | None => Some s end.
(** [_ = f(s)], and a call whose result is not looked at. *)
Definition ignoring_error (f : Registration) (s : runtime_Scheme) : option runtime_Scheme := snd <$> f s.

(** ** What the repository registers *)
Definition v1alpha1 : string → GoType := mkType "github.com/optum/kafka-topic-channel/pkg/apis/messaging/v1alpha1".
Definition KafkaTopicChannel_type : GoType := v1alpha1 "KafkaTopicChannel".

Definition addKnownTypes : Registration := λ s,
  s ← AddKnownTypes SchemeGroupVersion [KafkaTopicChannel_type; v1alpha1 "KafkaTopicChannelList"] s;
  s ← AddToGroupVersion SchemeGroupVersion s;
  Some (None, s).

Definition SchemeBuilder : list Registration := [addKnownTypes].
Definition AddToScheme : Registration := builder_AddToScheme SchemeBuilder.

(** The schemes of the client sets, and their [init]. *)
Definition versioned_localSchemeBuilder : list Registration := [AddToScheme].
Definition versioned_AddToScheme : Registration := builder_AddToScheme versioned_localSchemeBuilder.
Definition versioned_init (s : runtime_Scheme) : option runtime_Scheme :=
  s ← AddToGroupVersion (mkGV "" "v1") s; Must versioned_AddToScheme s.
Definition fake_localSchemeBuilder : list Registration := [AddToScheme].
Definition fake_AddToScheme : Registration := builder_AddToScheme fake_localSchemeBuilder.
Definition fake_init (s : runtime_Scheme) : option runtime_Scheme :=
  s ← AddToGroupVersion (mkGV "" "v1") s; Must fake_AddToScheme s.

(** The [init] functions that change [scheme.Scheme] of client-go. *)
Definition generated_init : runtime_Scheme → option runtime_Scheme := ignoring_error versioned_AddToScheme.
Definition controller_init : runtime_Scheme → option runtime_Scheme := ignoring_error versioned_AddToScheme.
Definition dispatcher_init : runtime_Scheme → option runtime_Scheme := ignoring_error versioned_AddToScheme.

(** ** [reference.GetReference], of an object with metadata *)
Record ObjectReference := mkReference {
  ref_Kind : string; ref_APIVersion : string; ref_Name : string; ref_Namespace : string; ref_UID : string;
  ref_ResourceVersion : string }.

Definition gvk_Empty (gvk : GroupVersionKind) : bool :=
  bool_decide (gvk_Group gvk = "" ∧ gvk_Version gvk = "" ∧ gvk_Kind gvk = "").

(** [t], [gvk] and [m] are the type, the type metadata and the metadata of the object. *)
Definition GetReference (s : runtime_Scheme) (t : GoType) (gvk : GroupVersionKind) (m : ObjectMeta) : option ObjectReference :=
  gvk ← (if gvk_Empty gvk then
           gvks ← ObjectKinds t s;
           match gvks with [] => None | gvk :: _ => if gvk_Empty gvk then None else Some gvk end
         else Some gvk);
  Some (mkReference (gvk_Kind gvk) (gv_String (gvk_GroupVersion gvk)) (Name m) (Namespace m) (UID m) (ResourceVersion m)).

(** ** Registrations as sequences of single ones *)
Inductive op := Observe (v : GroupVersion) | Known (gvk : GroupVersionKind) (t : GoType) | Unver (t : GoType).

Definition run_op (o : op) (s : runtime_Scheme) : option runtime_Scheme :=
  match o with
  | Observe v => Some (addObservedVersion v s)
  | Known gvk t => AddKnownTypeWithName gvk t s
  | Unver t => add_unversioned Unversioned t s
  end.
Fixpoint run_ops (os : list op) (s : runtime_Scheme) : option runtime_Scheme :=
  match os with [] => Some s | o :: os => run_op o s ≫= run_ops os end.

(** The registration does not panic; it has been made; two do not conflict. *)
Definition fits (s : runtime_Scheme) (o : op) : Prop :=
  match o with
  | Observe _ => True
  | Known gvk t => gvk_Version gvk ≠ "" ∧ taken (gvkToType s) gvk t = false
  | Unver t => taken (unversionedKinds s) (TypeName t) t = false
  end.
#[export] Instance fits_dec s o : Decision (fits s o).
Proof. destruct o; simpl; apply _. Defined.

Definition observed (v : GroupVersion) (s : runtime_Scheme) : Prop :=
  gv_Version v = "" ∨ gv_Version v = APIVersionInternal ∨ v ∈ observedVersions s.
Definition made (s : runtime_Scheme) (o : op) : Prop :=
  match o with
  | Observe v => observed v s
  | Known gvk t =>
      gvk_Version gvk ≠ "" ∧ gvkToType s !! gvk = Some t ∧ gvk ∈ kinds_of t s ∧ observed (gvk_GroupVersion gvk) s
  | Unver t =>
      unversionedTypes s !! t = Some (WithKind Unversioned (TypeName t)) ∧ unversionedKinds s !! TypeName t = Some t
  end.
Definition consistent (o o' : op) : Prop :=
  match o, o' with
  | Known gvk t, Known gvk' t' => gvk = gvk' → t = t'
  | Unver t, Unver t' => TypeName t = TypeName t' → t = t'
  | _, _ => True
  end.
#[export] Instance consistent_dec o o' : Decision (consistent o o').
Proof. destruct o, o'; simpl; apply _. Defined.

Lemma taken_false `{Countable K} (m : gmap K GoType) k t : taken m k t = false ↔ m !! k = None ∨ m !! k = Some t.
Proof.
  unfold taken. destruct (m !! k) as [old|]; [|by split; [left|]]. rewrite bool_decide_eq_false. split.
  - intros Hd. right. f_equal. by apply dec_stable.
  - intros [|[= ->]]; [done|]. by intros [].
Qed.

Lemma taken_insert `{Countable K} (m : gmap K GoType) k t k' t' :
  (k = k' → t = t') → taken m k' t' = false → taken (<[k := t]> m) k' t' = false.
Proof.
  rewrite !taken_false. intros He Hm. destruct (decide (k = k')) as [->|Hne].
  - rewrite lookup_insert_eq, He by done. by right.
  - by rewrite lookup_insert_ne.
Qed.

Lemma observed_add v s : observed v (addObservedVersion v s).
Proof. unfold addObservedVersion, observed. repeat case_decide; simpl; set_solver. Qed.

(** What a registration leaves of the rest of the scheme. *)
Lemma addObservedVersion_frame v s :
  let s' := addObservedVersion v s in
  gvkToType s' = gvkToType s ∧ typeToGVK s' = typeToGVK s ∧ unversionedTypes s' = unversionedTypes s ∧
  unversionedKinds s' = unversionedKinds s ∧ (∀ v', observed v' s → observed v' s') ∧
  (observed v s → s' = s).
Proof. unfold addObservedVersion, observed. repeat case_decide; split_and!; simpl; set_solver. Qed.

Lemma AddKnownTypeWithName_Some gvk t s s' :
  AddKnownTypeWithName gvk t s = Some s' ↔
  fits s (Known gvk t) ∧
  s' = mkScheme (<[gvk := t]> (gvkToType s))
         (if decide (gvk ∈ kinds_of t s) then typeToGVK s else <[t := kinds_of t s ++ [gvk]]> (typeToGVK s))
         (unversionedTypes s) (unversionedKinds s) (observedVersions (addObservedVersion (gvk_GroupVersion gvk) s)).
Proof.
  destruct (addObservedVersion_frame (gvk_GroupVersion gvk) s) as (E1 & E2 & E3 & E4 & _).
  unfold AddKnownTypeWithName, fits, kinds_of. rewrite E1, E2, E3, E4.
  destruct (decide _); [naive_solver|]. destruct (taken _ _ _); naive_solver.
Qed.

Lemma run_op_Some o s : fits s o ↔ is_Some (run_op o s).
Proof.
  destruct o as [v|gvk t|t]; cbn -[AddKnownTypeWithName].
  - by split.
  - split; [intros Hf; eexists; by apply AddKnownTypeWithName_Some|]. by intros [s' [Hf _]%AddKnownTypeWithName_Some].
  - unfold add_unversioned. simpl. destruct (taken _ _ _); [|by split].
    split; [done|]. intros Hs. by apply is_Some_None in Hs.
Qed.

Lemma run_op_made o s s' : run_op o s = Some s' → made s' o.
Proof.
  destruct o as [v|gvk t|t]; cbn -[AddKnownTypeWithName].
  - intros [= <-]. apply observed_add.
  - intros [[Hv Ht] ->]%AddKnownTypeWithName_Some. simpl. rewrite lookup_insert_eq. split_and!; [done..| |].
    + unfold kinds_of at 1. simpl. case_decide as Hin; [done|]. rewrite lookup_insert_eq. simpl. set_solver.
    + apply (observed_add (gvk_GroupVersion gvk) s).
  - unfold add_unversioned. simpl. destruct (taken _ _ _); [done|]. intros [= <-]. simpl. by rewrite !lookup_insert_eq.
Qed.

(** One that has been made changes nothing. *)
Lemma made_run_op o s : made s o → run_op o s = Some s.
Proof.
  destruct o as [v|gvk t|t]; cbn -[AddKnownTypeWithName].
  - intros Hv. f_equal. by apply addObservedVersion_frame.
  - intros (Hv & Ht & Hk & Ho). apply AddKnownTypeWithName_Some. split; [split; [done|]; rewrite taken_false; by right|].
    rewrite decide_True, insert_id by done. destruct (addObservedVersion_frame (gvk_GroupVersion gvk) s) as (_ & _ & _ & _ & _ & ->); [|done].
    by destruct s.
  - intros [Ht Hk]. unfold add_unversioned. simpl. rewrite (proj2 (taken_false _ _ _)) by auto. rewrite !insert_id by done. by destruct s.
Qed.

Lemma run_op_keeps_fits o o' s s' : run_op o s = Some s' → consistent o o' → fits s o' → fits s' o'.
Proof.
  intros Hr Hc Hf. destruct o as [v|gvk t|t]; cbn -[AddKnownTypeWithName] in Hr.
  - injection Hr as <-. destruct (addObservedVersion_frame v s) as (E1 & _ & _ & E4 & _). destruct o'; simpl in *; by rewrite ?E1, ?E4.
  - apply AddKnownTypeWithName_Some in Hr as [_ ->]. destruct o'; simpl in *; [done| |done]. destruct Hf. split; [done|]. by apply taken_insert.
  - unfold add_unversioned in Hr. simpl in Hr. destruct (taken _ _ _); [done|]. injection Hr as <-.
    destruct o'; simpl in *; [done..|]. by apply taken_insert.
Qed.

Lemma run_op_keeps_made o o' s s' : run_op o s = Some s' → made s o' → made s' o'.
Proof.
  intros Hr Hm. assert (Hf : fits s o) by (apply run_op_Some; by eexists). destruct o as [v|gvk t|t]; cbn -[AddKnownTypeWithName] in Hr.
  - injection Hr as <-. destruct (addObservedVersion_frame v s) as (E1 & E2 & E3 & E4 & Ho & _).
    destruct o'; simpl in *; unfold kinds_of in *; rewrite ?E1, ?E2, ?E3, ?E4; naive_solver.
  - apply AddKnownTypeWithName_Some in Hr as [_ ->]. destruct (addObservedVersion_frame (gvk_GroupVersion gvk) s) as (_ & _ & _ & _ & Ho & _).
    destruct o' as [v|gvk' t'|t']; simpl in *; [by apply Ho| |done]. destruct Hm as (Hv & Ht & Hk & Hob). destruct Hf as [_ Hf%taken_false].
    split_and!; [done| | |by apply Ho].
    + destruct (decide (gvk = gvk')) as [->|]; [rewrite lookup_insert_eq; naive_solver|by rewrite lookup_insert_ne].
    + unfold kinds_of at 1. simpl. case_decide; [done|]. destruct (decide (t = t')) as [->|].
      * rewrite lookup_insert_eq. simpl. set_solver.
      * by rewrite lookup_insert_ne.
  - unfold add_unversioned in Hr. simpl in Hr, Hf. rewrite Hf in Hr. injection Hr as <-.
    destruct o' as [v|gvk' t'|t']; simpl in *; [done..|]. apply taken_false in Hf. destruct Hm as [Ht Hk].
    destruct (decide (t = t')) as [->|Hne]; [by rewrite !lookup_insert_eq|]. rewrite lookup_insert_ne by done. split; [done|].
    destruct (decide (TypeName t = TypeName t')) as [He|]; [|by rewrite lookup_insert_ne]. rewrite He in *. naive_solver.
Qed.

Lemma run_ops_app os os' s : run_ops (os ++ os') s = run_ops os s ≫= run_ops os'.
Proof. revert s. induction os as [|o os IH]; intros s; simpl; [done|]. destruct (run_op o s); simpl; auto. Qed.

Lemma run_ops_keep os s s' (P : runtime_Scheme → Prop) :
  (∀ o s s', o ∈ os → run_op o s = Some s' → P s → P s') → run_ops os s = Some s' → P s → P s'.
Proof.
  revert s. induction os as [|o os IH]; intros s Hk Hr Hs; simpl in Hr; [by simplify_eq|].
  destruct (run_op o s) as [s1|] eqn:E; [|done]. simpl in Hr.
  apply (IH s1); [|done|by eapply Hk, Hs; [left|]]. intros o' s2 s3 Ho. apply Hk. by right.
Qed.

Lemma run_ops_all_made os s s' : run_ops os s = Some s' → Forall (made s') os.
Proof.
  revert s. induction os as [|o os IH]; intros s Hr; simpl in Hr; [done|]. destruct (run_op o s) as [s1|] eqn:E; [|done].
  constructor; [|by eapply IH]. apply (run_ops_keep os s1 s' (λ s, made s o)); [|done|by eapply run_op_made].
  intros o' s2 s3 _. apply run_op_keeps_made.
Qed.

(** Registrations that conflict with nothing go through, each is made, and making them
    again changes nothing. *)
Lemma run_ops_fit os s :
  Forall (λ o, Forall (consistent o) os) os → Forall (fits s) os →
  ∃ s', run_ops os s = Some s' ∧ Forall (made s') os.
Proof.
  intros Hc Hf. cut (is_Some (run_ops os s)); [intros [s' Hr]; exists s'; eauto using run_ops_all_made|]. revert s Hc Hf.
  induction os as [|o os IH]; intros s Hc Hf; [by eexists|].
  apply Forall_cons in Hf as [[s1 E]%run_op_Some Hf]. apply Forall_cons in Hc as [[_ Hco]%Forall_cons Hc].
  simpl. rewrite E. apply IH.
  - eapply Forall_impl; [exact Hc|]. intros o'. by intros [_ ?]%Forall_cons.
  - rewrite Forall_forall in *. intros o' Ho. eapply run_op_keeps_fits; eauto.
Qed.

Lemma run_ops_made os s : Forall (made s) os → run_ops os s = Some s.
Proof. induction 1 as [|o os Ho _ IH]; simpl; [done|]. by rewrite made_run_op. Qed.

(** A registration keeps what was registered. *)
Lemma run_op_keeps_type o s s' gvk t : run_op o s = Some s' → gvkToType s !! gvk = Some t → gvkToType s' !! gvk = Some t.
Proof.
  intros Hr Ht. destruct o as [v|gvk' t'|t']; cbn -[AddKnownTypeWithName] in Hr.
  - injection Hr as <-. by destruct (addObservedVersion_frame v s) as (-> & _).
  - apply AddKnownTypeWithName_Some in Hr as [[_ Hf%taken_false] ->]. simpl. destruct (decide (gvk' = gvk)) as [->|].
    + rewrite lookup_insert_eq. naive_solver.
    + by rewrite lookup_insert_ne.
  - unfold add_unversioned in Hr. simpl in Hr. destruct (taken _ _ _); [done|]. by injection Hr as <-.
Qed.

(** All types of a scheme come from its registrations. *)
Lemma run_op_types o s s' gvk t :
  run_op o s = Some s' → gvkToType s' !! gvk = Some t → o = Known gvk t ∨ gvkToType s !! gvk = Some t.
Proof.
  intros Hr Ht. destruct o as [v|gvk' t'|t']; cbn -[AddKnownTypeWithName] in Hr.
  - injection Hr as <-. right. by destruct (addObservedVersion_frame v s) as (<- & _).
  - apply AddKnownTypeWithName_Some in Hr as [_ ->]. simpl in Ht. apply lookup_insert_Some in Ht as [[-> ->]|[_ ?]]; auto.
  - unfold add_unversioned in Hr. simpl in Hr. destruct (taken _ _ _); [done|]. injection Hr as <-. by right.
Qed.

Lemma run_ops_types os s s' gvk t :
  run_ops os s = Some s' → gvkToType s' !! gvk = Some t → Known gvk t ∈ os ∨ gvkToType s !! gvk = Some t.
Proof.
  revert s. induction os as [|o os IH]; intros s Hr Ht; simpl in Hr; [simplify_eq; auto|].
  destruct (run_op o s) as [s1|] eqn:E; [|done]. destruct (IH s1 Hr Ht) as [|Ht1]; [left; by right|].
  destruct (run_op_types _ _ _ _ _ E Ht1) as [->|]; [left; by left|by right].
Qed.

(** Registrations that go through on a scheme go through on one with fewer types. *)
Definition subscheme (s1 s2 : runtime_Scheme) : Prop :=
  gvkToType s1 ⊆ gvkToType s2 ∧ unversionedKinds s1 ⊆ unversionedKinds s2.

Lemma taken_mono `{Countable K} (m1 m2 : gmap K GoType) k t : m1 ⊆ m2 → taken m2 k t = false → taken m1 k t = false.
Proof.
  rewrite !taken_false. intros Hs Hm. destruct (m1 !! k) as [t1|] eqn:E; [|by left].
  apply (lookup_weaken _ _ _ _ E) in Hs. naive_solver.
Qed.

Lemma run_op_mono o s1 s2 s2' :
  subscheme s1 s2 → run_op o s2 = Some s2' → ∃ s1', run_op o s1 = Some s1' ∧ subscheme s1' s2'.
Proof.
  intros [Hg Hu] Hr. assert (Hf : fits s1 o).
  { assert (Hf2 : fits s2 o) by (apply run_op_Some; by eexists). destruct o; simpl in *; [done| |by eapply taken_mono].
    destruct Hf2. split; [done|by eapply taken_mono]. }
  apply run_op_Some in Hf as [s1' E]. exists s1'. split; [done|]. destruct o as [v|gvk t|t]; cbn -[AddKnownTypeWithName] in E, Hr.
  - simplify_eq. destruct (addObservedVersion_frame v s1) as (E1 & _ & _ & E4 & _), (addObservedVersion_frame v s2) as (F1 & _ & _ & F4 & _).
    split; by rewrite ?E1, ?F1, ?E4, ?F4.
  - apply AddKnownTypeWithName_Some in E as [_ ->], Hr as [_ ->]. split; [by apply insert_mono|done].
  - unfold add_unversioned in E, Hr. simpl in E, Hr. destruct (taken (unversionedKinds s1) (TypeName t) t), (taken (unversionedKinds s2) (TypeName t) t); simplify_eq.
    split; [done|by apply insert_mono].
Qed.

Lemma run_ops_mono os s1 s2 : subscheme s1 s2 → is_Some (run_ops os s2) → is_Some (run_ops os s1).
Proof.
  revert s1 s2. induction os as [|o os IH]; intros s1 s2 Hs [s2' Hr]; simpl in *; [by eexists|].
  destruct (run_op o s2) as [s3|] eqn:E; [|done]. destruct (run_op_mono o s1 s2 s3 Hs E) as (s4 & -> & Hs').
  apply (IH s4 s3 Hs'). by exists s2'.
Qed.

Lemma subscheme_new s : subscheme NewScheme s.
Proof. split; apply map_empty_subseteq. Qed.

Definition other_type (t : GoType) (o : op) : Prop := match o with Known _ t' => t' ≠ t | _ => True end.
#[export] Instance other_type_dec t o : Decision (other_type t o).
Proof. destruct o; simpl; apply _. Defined.

Lemma run_op_other t o s s' : run_op o s = Some s' → other_type t o → typeToGVK s' !! t = typeToGVK s !! t.
Proof.
  intros Hr Ho. destruct o as [v|gvk' t'|t']; cbn -[AddKnownTypeWithName] in Hr.
  - injection Hr as <-. by destruct (addObservedVersion_frame v s) as (_ & -> & _).
  - apply AddKnownTypeWithName_Some in Hr as [_ ->]. simpl in *. case_decide; [done|]. by rewrite lookup_insert_ne.
  - unfold add_unversioned in Hr. simpl in Hr. destruct (taken _ _ _); [done|]. by injection Hr as <-.
Qed.

(** ** The registrations of the repository *)
Definition known_ops (gv : GroupVersion) (types : list GoType) : list op :=
  Observe gv :: ((λ t, Known (WithKind gv (TypeName t)) t) <$> types).
Definition meta_ops (gv : GroupVersion) : list op :=
  let us := metav1 <$> ["Status"; "APIVersions"; "APIGroupList"; "APIGroup"; "APIResourceList"] in
  [Known (WithKind gv WatchEventKind) (metav1 "WatchEvent");
   Known (WithKind (mkGV (gv_Group gv) APIVersionInternal) WatchEventKind) (metav1 "InternalEvent")] ++
  known_ops gv optionsTypes ++ (Observe Unversioned :: known_ops Unversioned us) ++ (Unver <$> us).
Definition channel_types : list GoType := [KafkaTopicChannel_type; v1alpha1 "KafkaTopicChannelList"].
Definition channel_ops : list op := known_ops SchemeGroupVersion channel_types ++ meta_ops SchemeGroupVersion.

Lemma add_all_ops f (g : GoType → op) ts s : (∀ t s, f t s = run_op (g t) s) → add_all f ts s = run_ops (g <$> ts) s.
Proof.
  intros Hf. revert s. induction ts as [|t ts IH]; intros s; simpl; [done|]. rewrite Hf.
  destruct (run_op (g t) s); simpl; auto.
Qed.

Lemma AddKnownTypes_ops gv ts s : AddKnownTypes gv ts s = run_ops (known_ops gv ts) s.
Proof. unfold AddKnownTypes, known_ops. simpl. by apply add_all_ops. Qed.

Lemma AddUnversionedTypes_ops ts s :
  AddUnversionedTypes Unversioned ts s = run_ops ((Observe Unversioned :: known_ops Unversioned ts) ++ (Unver <$> ts)) s.
Proof.
  unfold AddUnversionedTypes. rewrite AddKnownTypes_ops. change (run_ops (known_ops Unversioned ts) _) with
    (run_ops (Observe Unversioned :: known_ops Unversioned ts) s). rewrite run_ops_app.
  destruct (run_ops _ s) as [s1|]; [|done]. simpl. by apply add_all_ops.
Qed.

Lemma AddToGroupVersion_ops gv s : AddToGroupVersion gv s = run_ops (meta_ops gv) s.
Proof.
  unfold AddToGroupVersion, meta_ops. cbv zeta. cbn [app run_ops run_op].
  destruct (AddKnownTypeWithName _ _ s) as [s1|]; [|done]. cbn [mbind option_bind].
  destruct (AddKnownTypeWithName _ _ s1) as [s2|]; [|done]. cbn [mbind option_bind].
  rewrite AddKnownTypes_ops, run_ops_app. destruct (run_ops _ s2) as [s3|]; [|done]. cbn [mbind option_bind].
  apply AddUnversionedTypes_ops.
Qed.

Lemma addKnownTypes_ops s : addKnownTypes s = (λ s', (None, s')) <$> run_ops channel_ops s.
Proof.
  unfold addKnownTypes, channel_ops. rewrite AddKnownTypes_ops, run_ops_app. fold channel_types.
  destruct (run_ops _ s) as [s1|]; [|done]. cbn [mbind option_bind]. rewrite AddToGroupVersion_ops.
  by destruct (run_ops _ s1).
Qed.

Lemma versioned_AddToScheme_ops s : versioned_AddToScheme s = (λ s', (None, s')) <$> run_ops channel_ops s.
Proof.
  unfold versioned_AddToScheme, versioned_localSchemeBuilder, AddToScheme, SchemeBuilder, builder_AddToScheme. rewrite addKnownTypes_ops.
  by destruct (run_ops _ s).
Qed.

Lemma generated_init_ops s : generated_init s = run_ops channel_ops s.
Proof. unfold generated_init, ignoring_error. rewrite versioned_AddToScheme_ops. by destruct (run_ops _ s). Qed.

Lemma channel_ops_consistent : Forall (λ o, Forall (consistent o) channel_ops) channel_ops.
Proof. apply (bool_decide_unpack _). vm_compute. exact I. Qed.

(** The processes, with the [init] functions of the packages they link that change the
    scheme of client-go, in the order of their imports. *)
Inductive Process_ := ControllerProcess | DispatcherProcess.
Definition process_inits (p : Process_) : list (runtime_Scheme → option runtime_Scheme) :=
  match p with
  | ControllerProcess => [generated_init; controller_init]
  | DispatcherProcess => [generated_init; dispatcher_init]
  end.
Definition initialised (p : Process_) (s : runtime_Scheme) : option runtime_Scheme :=
  foldl (λ s init, s ≫= init) (Some s) (process_inits p).

(** Events name their channel: if nothing else has the kinds of the repository in
    the scheme of client-go, the [init] functions of a process, which register them more
    than once, go through; what the scheme had is kept; and the reference that an
    event of a channel has, whose objects come without type metadata, is not an error,
    as it was before, but says the kind, version, name and UID with which the channel
    owns its objects. *)
Theorem events_name_their_channel p s
    (fit : Forall (fits s) channel_ops) (new : ObjectKinds KafkaTopicChannel_type s = None) :
  ∃ s', initialised p s = Some s' ∧ generated_init s = Some s' ∧
    (∀ gvk t, gvkToType s !! gvk = Some t → gvkToType s' !! gvk = Some t) ∧
    ∀ ch, let owner := NewControllerRef (meta ch) (GetGroupVersionKind ch) in
      GetReference s KafkaTopicChannel_type (mkGVK "" "" "") (meta ch) = None ∧
      GetReference s' KafkaTopicChannel_type (mkGVK "" "" "") (meta ch) =
        Some (mkReference (or_Kind owner) (or_APIVersion owner) (or_Name owner) (Namespace (meta ch)) (or_UID owner)
                (ResourceVersion (meta ch))).
Proof.
  destruct (run_ops_fit channel_ops s channel_ops_consistent fit) as (s' & Hr & Hm).
  assert (Hagain := run_ops_made channel_ops s' Hm).
  exists s'. split_and!.
  - destruct p; unfold initialised; simpl; rewrite generated_init_ops, Hr; simpl;
      change (controller_init s') with (generated_init s'); change (dispatcher_init s') with (generated_init s');
      by rewrite generated_init_ops.
  - by rewrite generated_init_ops.
  - intros gvk t. apply (run_ops_keep channel_ops s s' (λ s, gvkToType s !! gvk = Some t)); [|done].
    intros o s1 s2 _. apply run_op_keeps_type.
  - intros ch owner. unfold GetReference. change (gvk_Empty (mkGVK "" "" "")) with true. cbv iota. rewrite new. split; [done|].
    assert (Hk : ObjectKinds KafkaTopicChannel_type s' = Some [WithKind SchemeGroupVersion "KafkaTopicChannel"]).
    { change channel_ops with ([Observe SchemeGroupVersion; Known (WithKind SchemeGroupVersion "KafkaTopicChannel") KafkaTopicChannel_type]
        ++ drop 2 channel_ops) in Hr. rewrite run_ops_app in Hr.
      destruct (run_ops _ s) as [s1|] eqn:E1; [|done]. cbn [mbind option_bind] in Hr. unfold ObjectKinds.
      eapply (run_ops_keep _ s1 s' (λ s, typeToGVK s !! KafkaTopicChannel_type = Some _)); [|exact Hr|].
      - assert (Hother : Forall (other_type KafkaTopicChannel_type) (drop 2 channel_ops)) by (apply (bool_decide_unpack _); vm_compute; exact I).
        intros o s2 s3 Ho Hstep Hs2. rewrite (run_op_other _ _ _ _ Hstep); [done|]. by eapply Forall_forall in Hother.
      - cbn [run_ops run_op mbind option_bind] in E1. destruct (addObservedVersion_frame SchemeGroupVersion s) as (_ & Et & _).
        destruct (AddKnownTypeWithName _ _ _) as [s2|] eqn:E2; [|done]. injection E1 as <-.
        apply AddKnownTypeWithName_Some in E2 as [_ ->]. unfold kinds_of. rewrite Et. simpl. unfold ObjectKinds in new. rewrite new. simpl.
        by rewrite lookup_insert_eq. }
    rewrite Hk. reflexivity.
Qed.

(** The scheme of the client set, and that of the fake one. *)
Lemma versioned_init_registers :
  versioned_init NewScheme = fake_init NewScheme ∧
  (ObjectKinds KafkaTopicChannel_type <$> versioned_init NewScheme) = Some (Some [WithKind SchemeGroupVersion "KafkaTopicChannel"]).
Proof. split; [reflexivity|vm_compute; reflexivity]. Qed.

(** ** The controller on a scheme that has the types of the core group *)
Definition demo_scheme : runtime_Scheme :=
  default NewScheme (AddKnownTypes (mkGV "" "v1") [mkType "k8s.io/api/core/v1" "Pod"; mkType "k8s.io/api/core/v1" "Service"] NewScheme
                       ≫= AddToGroupVersion (mkGV "" "v1")).
Definition demo_channel : KafkaTopicChannel :=
  mkChannel (mkObjectMeta "c" "ns" "u" "7" 0 None None None [] [])
    (mkSpec 0 0 [] (mkNet (mkSASL false None None None) (mkTLS false None None None)) "" [] None) (mkStatus 0 [] None []).

Lemma events_name_their_channel_witness :
  ∃ s', initialised ControllerProcess demo_scheme = Some s' ∧
    GetReference s' KafkaTopicChannel_type (mkGVK "" "" "") (meta demo_channel) =
      Some (mkReference "KafkaTopicChannel" "messaging.optum.dev/v1alpha1" "c" "ns" "u" "7").
Proof.
  destruct (events_name_their_channel ControllerProcess demo_scheme) as (s' & Hi & _ & _ & Href).
  - apply (bool_decide_unpack _). vm_compute. exact I.
  - vm_compute. reflexivity.
  - exists s'. split; [exact Hi|]. destruct (Href demo_channel) as [_ ->]. vm_compute. reflexivity.
Defined.
