(* ===== verification/Tracker.v ===== *)
(** * Tracker: the store behind the fake client

    Models the object tracker of [vendor/k8s.io/client-go/testing/fixture.go] and
    [NewSimpleClientset] of [src/pkg/client/clientset/versioned/fake/clientset_generated.go],
    which fills it.  The tracker is an instance of the interface [Store] of [Client], so that
    what is proved there of the two clients holds of it; [fake_client_refines_map] says what
    the fake client does to the map from names to channels that the tracker stands for.

    The objects are channels.  Patching, which goes through JSON, is a parameter; a watcher
    takes any number of events. *)
From Stdlib Require Import Ascii.
From S2P Require Import Prelude GoStrings FieldError ErrorText ApiTypes Channel GenReconciler Client Schemes.

Record GroupVersionResource := mkGVR { gvr_Group : string; gvr_Version : string; gvr_Resource : string }.
#[export] Instance GroupVersionResource_eq_dec : EqDecision GroupVersionResource.
Proof. solve_decision. Defined.
#[export] Instance GroupVersionResource_countable : Countable GroupVersionResource.
Proof.
  refine (inj_countable' (λ g, (gvr_Group g, gvr_Version g, gvr_Resource g)) (λ '(g, v, r), mkGVR g v r) _).
  by intros [].
Defined.

(** The variables of [fake_kafkatopicchannel.go]. *)
Definition kafkatopicchannelsResource : GroupVersionResource := mkGVR "messaging.optum.dev" "v1alpha1" "kafkatopicchannels".
Definition kafkatopicchannelsKind : GroupVersionKind := mkGVK "messaging.optum.dev" "v1alpha1" "KafkaTopicChannel".

(** [strings.HasSuffix] and [UnsafeGuessKindToResource], of which the plural is used. *)
Definition HasSuffix (s suffix : string) : bool :=
  bool_decide (String.length suffix ≤ String.length s ∧
               String.substring (String.length s - String.length suffix) (String.length suffix) s = suffix).
Definition unpluralizedSuffixes : list string := ["endpoints"].
Definition plural (singularName : string) : string :=
  if HasSuffix1 singularName "s"%char then singularName +:+ "es"
  else if HasSuffix1 singularName "y"%char then String.substring 0 (String.length singularName - 1) singularName +:+ "ies"
  else singularName +:+ "s".
Definition UnsafeGuessKindToResource (gvk : GroupVersionKind) : GroupVersionResource :=
  if decide (gvk_Kind gvk = "") then mkGVR "" "" ""
  else mkGVR (gvk_Group gvk) (gvk_Version gvk)
         (if existsb (HasSuffix (ToLower (gvk_Kind gvk))) unpluralizedSuffixes then ToLower (gvk_Kind gvk)
          else plural (ToLower (gvk_Kind gvk))).

(** ** The tracker *)
Inductive WatchEvent := WatchAdded (c : KafkaTopicChannel) | WatchModified (c : KafkaTopicChannel) | WatchDeleted (c : KafkaTopicChannel).

(** Watchers by resource and namespace, and what each was sent. *)
Record tracker := mkTracker {
  tr_scheme : runtime_Scheme;
  tr_objects : gmap GroupVersionResource (gmap NamespacedName KafkaTopicChannel);
  tr_watchers : gmap GroupVersionResource (gmap string (list nat));
  tr_sent : list (nat * WatchEvent);
  tr_next : nat;
}.
Definition NewObjectTracker (scheme : runtime_Scheme) : tracker := mkTracker scheme ∅ ∅ [] 0.

Section tracker.
Context {rt : GoRuntime}.

Definition gr_text (gvr : GroupVersionResource) : string := gvr_Resource gvr +:+ "." +:+ gvr_Group gvr.
Definition not_found (gvr : GroupVersionResource) (name : string) : string := gr_text gvr +:+ " " +:+ quote name +:+ " not found".
Definition already_exists (gvr : GroupVersionResource) (name : string) : string :=
  gr_text gvr +:+ " " +:+ quote name +:+ " already exists".

Definition name_less (a b : KafkaTopicChannel) : bool :=
  if decide (Namespace (meta a) = Namespace (meta b)) then String.ltb (Name (meta a)) (Name (meta b))
  else String.ltb (Namespace (meta a)) (Namespace (meta b)).

(** [n] numbers the loop over the map. *)
Definition filterByNamespace (n : nat) (objs : gmap NamespacedName KafkaTopicChannel) (ns : string) : list KafkaTopicChannel :=
  sort_slice name_less (filter (λ c, ns = "" ∨ Namespace (meta c) = ns) (range_order n (map_to_list objs)).*2).

(** A list type has to be registered; the error lacks the name of the scheme. *)
Definition tracker_List (n : nat) (gvr : GroupVersionResource) (gvk : GroupVersionKind) (ns : string) (t : tracker) :
    string + list KafkaTopicChannel :=
  let listGVK := mkGVK (gvk_Group gvk) (if decide (gvk_Version gvk = "") then APIVersionInternal else gvk_Version gvk)
                   (gvk_Kind gvk +:+ "List") in
  match gvkToType (tr_scheme t) !! listGVK with
  | None => inl ("no kind " +:+ quote (gvk_Kind listGVK) +:+ " is registered for version " +:+ quote (gv_String (gvk_GroupVersion listGVK)))
  | Some _ => inr (match tr_objects t !! gvr with None => [] | Some objs => filterByNamespace n objs ns end)
  end.

Definition tracker_Get (gvr : GroupVersionResource) (ns name : string) (t : tracker) : string + KafkaTopicChannel :=
  match tr_objects t !! gvr ≫= (λ objs, objs !! mkNamespacedName ns name) with
  | None => inl (not_found gvr name)
  | Some c => inr c
  end.

Definition getWatches (gvr : GroupVersionResource) (ns : string) (t : tracker) : list nat :=
  match tr_watchers t !! gvr with
  | None => []
  | Some ws => default [] (ws !! ns) ++ (if decide (ns ≠ "") then default [] (ws !! "") else [])
  end.
Definition notify (gvr : GroupVersionResource) (ns : string) (e : WatchEvent) (t : tracker) : list (nat * WatchEvent) :=
  tr_sent t ++ ((λ w, (w, e)) <$> getWatches gvr ns t).

Definition tracker_Watch (gvr : GroupVersionResource) (ns : string) (t : tracker) : nat * tracker :=
  let ws := default ∅ (tr_watchers t !! gvr) in
  (tr_next t, mkTracker (tr_scheme t) (tr_objects t)
     (<[gvr := <[ns := default [] (ws !! ns) ++ [tr_next t]]> ws]> (tr_watchers t)) (tr_sent t) (S (tr_next t))).

Definition set_namespace (ns : string) (c : KafkaTopicChannel) : KafkaTopicChannel :=
  let m := meta c in
  if decide (0 < String.length (Namespace m)) then c
  else mkChannel (mkObjectMeta (Name m) ns (UID m) (ResourceVersion m) (Generation m) (DeletionTimestamp m)
         (Labels m) (Annotations m) (OwnerReferences m) (Finalizers m)) (Spec c) (ch_Status c).

Definition tracker_add (gvr : GroupVersionResource) (obj : KafkaTopicChannel) (ns : string) (replaceExisting : bool) (t : tracker) :
    option string * tracker :=
  let obj := set_namespace ns obj in
  if decide (ns ≠ Namespace (meta obj)) then
    (Some ("request namespace does not match object namespace, request: " +:+ quote ns +:+ " object: " +:+ quote (Namespace (meta obj))), t)
  else
    let objs := default ∅ (tr_objects t !! gvr) in
    let t := mkTracker (tr_scheme t) (<[gvr := objs]> (tr_objects t)) (tr_watchers t) (tr_sent t) (tr_next t) in
    let stored e := mkTracker (tr_scheme t) (<[gvr := <[ref_of obj := obj]> objs]> (tr_objects t)) (tr_watchers t) (notify gvr ns e t) (tr_next t) in
    match objs !! ref_of obj with
    | Some _ => if replaceExisting then (None, stored (WatchModified obj)) else (Some (already_exists gvr (Name (meta obj))), t)
    | None => if replaceExisting then (Some (not_found gvr (Name (meta obj))), t) else (None, stored (WatchAdded obj))
    end.

Definition tracker_Create (gvr : GroupVersionResource) (obj : KafkaTopicChannel) (ns : string) := tracker_add gvr obj ns false.
Definition tracker_Update (gvr : GroupVersionResource) (obj : KafkaTopicChannel) (ns : string) := tracker_add gvr obj ns true.

Definition tracker_Delete (gvr : GroupVersionResource) (ns name : string) (t : tracker) : option string * tracker :=
  match tr_objects t !! gvr ≫= (λ objs, (objs,.) <$> objs !! mkNamespacedName ns name) with
  | None => (Some (not_found gvr name), t)
  | Some (objs, obj) =>
      (None, mkTracker (tr_scheme t) (<[gvr := delete (mkNamespacedName ns name) objs]> (tr_objects t)) (tr_watchers t)
               (notify gvr ns (WatchDeleted obj) t) (tr_next t))
  end.

(** [Add], of a channel: under every kind that its type is registered as. *)
Fixpoint add_kinds (gvks : list GroupVersionKind) (obj : KafkaTopicChannel) (t : tracker) : option string * tracker :=
  match gvks with
  | [] => (None, t)
  | gvk :: gvks =>
      let guess := UnsafeGuessKindToResource gvk in
      let gvr := if decide (gvr_Version guess = APIVersionInternal) then mkGVR (gvr_Group guess) "" (gvr_Resource guess) else guess in
      match tracker_add gvr obj (Namespace (meta obj)) false t with
      | (None, t) => add_kinds gvks obj t
      | failed => failed
      end
  end.
Definition tracker_Add (obj : KafkaTopicChannel) (t : tracker) : option string * tracker :=
  match ObjectKinds KafkaTopicChannel_type (tr_scheme t) with
  | None | Some [] => (Some "no registered kinds", t)
  | Some gvks => add_kinds gvks obj t
  end.

(** ** [NewSimpleClientset]: an error is a panic *)
Definition NewSimpleClientset (scheme : runtime_Scheme) (objects : list KafkaTopicChannel) : option tracker :=
  foldl (λ o obj, t ← o; match tracker_Add obj t with (None, t) => Some t | (Some _, _) => None end)
    (Some (NewObjectTracker scheme)) objects.

(** ** [ObjectReaction] and the watch reactor *)

(** Applying a patch of one of the supported types. *)
Class Patcher := apply_patch : string → string → KafkaTopicChannel → string + KafkaTopicChannel.
Context `{Patcher}.
Definition patch_types : list string :=
  ["application/json-patch+json"; "application/merge-patch+json"; "application/strategic-merge-patch+json"].

Definition then_Get (gvr : GroupVersionResource) (ns name : string) (r : option string * tracker) : (string + Answer) * tracker :=
  match r with
  | (Some err, t) => (inl err, t)
  | (None, t) => (match tracker_Get gvr ns name t with inl err => inl err | inr c => inr (Single c) end, t)
  end.

(** An action by its verb, which says its type; a watch is for the reactor of watches.
    [n] numbers the loop of a list. *)
Definition ObjectReaction (n : nat) (a : Action) (t : tracker) : (string + Answer) * tracker :=
  let gvr := kafkatopicchannelsResource in let ns := a_Namespace a in
  if decide (a_Verb a = "watch") then let (w, t) := tracker_Watch gvr ns t in (inr (Stream w), t)
  else
  match a_Object a with
  | Some obj =>
      if decide (a_Verb a = "create" ∧ a_Subresource a = "") then
        then_Get gvr ns (Name (meta obj)) (tracker_Create gvr obj ns t)
      else then_Get gvr ns (Name (meta obj)) (tracker_Update gvr obj ns t)
  | None =>
      if decide (a_Verb a = "list") then
        (match tracker_List n gvr kafkatopicchannelsKind ns t with inl err => inl err | inr l => inr (Items l) end, t)
      else if decide (a_Verb a = "get") then
        (match tracker_Get gvr ns (a_Name a) t with inl err => inl err | inr c => inr (Single c) end, t)
      else if decide (a_Verb a = "delete") then
        match tracker_Delete gvr ns (a_Name a) t with (Some err, t) => (inl err, t) | (None, t) => (inr Nothing, t) end
      else
        match a_Patch a with
        | Some (pt, data) =>
            match tracker_Get gvr ns (a_Name a) t with
            | inl err => (inl err, t)
            | inr old =>
                if decide (pt ∈ patch_types) then
                  match apply_patch pt data old with
                  | inl err => (inl err, t)
                  | inr obj =>
                      match tracker_Update gvr obj ns t with
                      | (Some err, t) => (inl err, t)
                      | (None, t) => (inr (Single obj), t)
                      end
                  end
                else (inl "PatchType is not supported", t)
            end
        | None => (inl ("no reaction implemented for " +:+ a_Verb a), t)
        end
  end.

(** The tracker keeps the channels as [Client] asks of a store. *)
#[export] Instance tracker_store (n : nat) : Store tracker.
Proof.
  refine {| serve a t := ObjectReaction n a t |}.
  intros a t Hw err. unfold ObjectReaction. rewrite decide_True by done. done.
Defined.
End tracker.

(** ** What the fake client does to the map from names to channels *)
Section refinement.
Context {rt : GoRuntime} `{Patcher} `{LabelSelectors}.
Implicit Types (m : gmap NamespacedName KafkaTopicChannel) (t : tracker) (c : KafkaTopicChannel) (ns name : string).

Definition view t : gmap NamespacedName KafkaTopicChannel := default ∅ (tr_objects t !! kafkatopicchannelsResource).

(** Channels are kept under their own names. *)
Definition keyed m : Prop := ∀ n c, m !! n = Some c → ref_of c = n.

(** What an API server for channels does, over the map: the answer, with its error, and
    the new map. *)
Definition map_store (replace : bool) ns c m : (option Answer * option string) * gmap NamespacedName KafkaTopicChannel :=
  let c := set_namespace ns c in
  if decide (Namespace (meta c) = ns) then
    match m !! ref_of c, replace with
    | Some _, false => ((None, Some (already_exists kafkatopicchannelsResource (Name (meta c)))), m)
    | None, true => ((None, Some (not_found kafkatopicchannelsResource (Name (meta c)))), m)
    | _, _ => ((Some (Single c), None), <[ref_of c := c]> m)
    end
  else ((None, Some ("request namespace does not match object namespace, request: " +:+ quote ns +:+ " object: " +:+
                     quote (Namespace (meta c)))), m).

Definition map_get ns name m : option Answer * option string :=
  match m !! mkNamespacedName ns name with
  | Some c => (Some (Single c), None)
  | None => (None, Some (not_found kafkatopicchannelsResource name))
  end.
Definition map_delete ns name m : (option Answer * option string) * gmap NamespacedName KafkaTopicChannel :=
  match m !! mkNamespacedName ns name with
  | Some _ => ((None, None), delete (mkNamespacedName ns name) m)
  | None => ((None, Some (not_found kafkatopicchannelsResource name)), m)
  end.

Lemma set_namespace_name ns c : Name (meta (set_namespace ns c)) = Name (meta c).
Proof. unfold set_namespace. by case_decide. Qed.

Lemma tracker_Get_view ns name t :
  tracker_Get kafkatopicchannelsResource ns name t =
    match view t !! mkNamespacedName ns name with None => inl (not_found kafkatopicchannelsResource name) | Some c => inr c end.
Proof. unfold tracker_Get, view. by destruct (tr_objects t !! _); simpl; [|rewrite lookup_empty]. Qed.

(** Creating and updating, and reading the result back. *)
Lemma then_Get_add replace ns c t :
  let '(r, t') := then_Get kafkatopicchannelsResource ns (Name (meta c)) (tracker_add kafkatopicchannelsResource c ns replace t) in
  let '(spec, m') := map_store replace ns c (view t) in
  match r with inl err => (None, Some err) | inr x => (Some x, None) end = spec ∧ view t' = m'.
Proof.
  unfold tracker_add, map_store. set (c' := set_namespace ns c). cbv zeta. cbn [tr_objects tr_scheme tr_watchers tr_sent tr_next].
  fold (view t). destruct (decide (ns ≠ Namespace (meta c'))) as [Hne|Heq].
  - rewrite decide_False by congruence. simpl. done.
  - apply dec_stable in Heq. rewrite decide_True by done.
    assert (Hv : ∀ s objs k ws l n, view (mkTracker s (<[kafkatopicchannelsResource := objs]> k) ws l n) = objs)
      by (intros; unfold view; simpl; by rewrite lookup_insert_eq).
    assert (Href : mkNamespacedName ns (Name (meta c)) = ref_of c').
    { unfold ref_of. rewrite <-Heq. unfold c'. by rewrite set_namespace_name. }
    destruct (view t !! ref_of c') as [c0|] eqn:E, replace; cbn [then_Get]; rewrite ?tracker_Get_view, ?Hv, ?Href, ?lookup_insert_eq; done.
Qed.

Lemma keyed_store replace ns c m : keyed m → keyed (map_store replace ns c m).2.
Proof.
  intros Hk. unfold map_store. case_decide; [|done].
  destruct (m !! _), replace; simpl; try done; intros n' c' [[<- <-]|[_ ?]]%lookup_insert_Some; auto.
Qed.

Lemma tracker_Delete_view ns name t :
  let '(r, t') := tracker_Delete kafkatopicchannelsResource ns name t in
  ((None, r), view t') = map_delete ns name (view t).
Proof.
  unfold tracker_Delete, map_delete, view. destruct (tr_objects t !! _) as [objs|] eqn:E; simpl; [|by rewrite E, lookup_empty].
  destruct (objs !! _) eqn:Eo; simpl; [by rewrite lookup_insert_eq|by rewrite E].
Qed.

(** The channels of a namespace, all of them for the empty one, in the order of their names. *)
Definition listed ns (l : list KafkaTopicChannel) m : Prop :=
  StronglySorted (not_less name_less) l ∧ l ≡ₚ filter (λ c, ns = "" ∨ Namespace (meta c) = ns) (map_to_list m).*2.

(** The order of the names is that of [ErrorText] on messages and details. *)
Definition as_error c : FieldError := mkFieldError (Namespace (meta c)) [] (Name (meta c)) [].
#[export] Instance name_less_trans : Transitive (not_less name_less).
Proof. intros a b c. exact (error_not_less_trans (as_error a) (as_error b) (as_error c)). Qed.
#[export] Instance name_less_total : Total (not_less name_less).
Proof. intros a b. exact (error_not_less_total (as_error a) (as_error b)). Qed.

Lemma tracker_List_view n ns t (kind : is_Some (gvkToType (tr_scheme t) !! WithKind SchemeGroupVersion "KafkaTopicChannelList")) :
  ∃ l, tracker_List n kafkatopicchannelsResource kafkatopicchannelsKind ns t = inr l ∧ listed ns l (view t).
Proof.
  destruct kind as [ty Hty]. unfold tracker_List. cbv zeta.
  change (mkGVK _ _ _) with (WithKind SchemeGroupVersion "KafkaTopicChannelList"). rewrite Hty. unfold view, listed.
  destruct (tr_objects t !! _) as [objs|]; simpl.
  - eexists. split; [reflexivity|]. unfold filterByNamespace. split; [by apply sort_slice_sorted; apply _|].
    by rewrite sort_slice_perm, range_order_perm.
  - eexists. split; [reflexivity|]. split; [constructor|]. done.
Qed.

(** The reactors on the tracker, for the action of a call. *)
#[local] Ltac reaction :=
  unfold fake_Get, fake_Watch, fake_Create, fake_Update, fake_UpdateStatus, fake_Delete, fake_DeleteCollection, fake_Patch, only_error, Invokes;
  simpl; unfold tracker_reactor; simpl; unfold ObjectReaction; simpl.
#[local] Ltac recorded := intros _; apply last_length.

#[local] Ltac stored add keeps :=
  pose proof add as Hs; pose proof keeps as Hk; unfold tracker_Create, tracker_Update;
  destruct (then_Get _ _ _ _) as [[err|x] t'], (map_store _ _ _ _) as [spec m']; destruct Hs as [<- Hv]; simpl in *; rewrite Hv;
  (split_and!; [recorded|done..]).

(** The fake client, on its tracker, refines a map from names to channels: a call
    that reads answers what the map has; creating, updating and deleting answer and change the
    map as a server does, with not found, already exists and the mismatch of the
    namespaces as the errors, except that an update of the status replaces the whole
    channel; a list has the channels of the namespace whose labels match, by name; every
    call is recorded; and channels stay under their own names. *)
Theorem fake_client_refines_map n ns op acts t
    (keys : keyed (view t)) (kind : is_Some (gvkToType (tr_scheme t) !! WithKind SchemeGroupVersion "KafkaTopicChannelList")) :
  let '(answer, f) := fake_call [@tracker_reactor _ (tracker_store n)] ns op (mkFake acts t) in
  let m := view t in let m' := view (fk_state f) in
  (answer ≠ Panic "invalid selector" → length (fk_actions f) = S (length acts)) ∧
  match op with
  | OpGet name _ => answer = Ok (map_get ns name m) ∧ m' = m
  | OpCreate c _ => (answer, m') = (Ok (map_store false ns c m).1, (map_store false ns c m).2)
  | OpUpdate c _ | OpUpdateStatus c _ => (answer, m') = (Ok (map_store true ns c m).1, (map_store true ns c m).2)
  | OpDelete name _ => (answer, m') = (Ok (map_delete ns name m).1, (map_delete ns name m).2)
  | OpList o =>
      m' = m ∧
      match parse_selector (LabelSelector o) with
      | None => answer = Panic "invalid selector"
      | Some matches => ∃ l, listed ns l m ∧ answer = Ok (Some (Items (filter (λ c, matches (Labels (meta c)) = true) l)), None)
      end
  | OpWatch _ | OpDeleteCollection _ _ => m' = m
  | OpPatch name pt data _ _ =>
      m' = m ∨ ∃ old new, m !! mkNamespacedName ns name = Some old ∧ apply_patch pt data old = inr new ∧
                          m' = (map_store true ns new m).2
  end ∧ keyed m'.
Proof.
  destruct op as [name o|o|o|c o|c o|c o|name o|o lo|name pt data o subs]; unfold fake_call.
  - reaction. rewrite tracker_Get_view. unfold map_get. destruct (view t !! _); simpl; (split_and!; [recorded|done..]).
  - unfold fake_List. destruct (parse_selector _) as [matches|]; [|split_and!; done]. unfold Invokes. simpl. unfold tracker_reactor.
    simpl. unfold ObjectReaction. simpl. destruct (tracker_List_view n ns t kind) as (l & -> & Hl). simpl.
    split_and!; [recorded|done| |done]. by exists l.
  - reaction. split_and!; [recorded|done..].
  - reaction. stored (then_Get_add false ns c t) (keyed_store false ns c _ keys).
  - reaction. stored (then_Get_add true ns c t) (keyed_store true ns c _ keys).
  - reaction. stored (then_Get_add true ns c t) (keyed_store true ns c _ keys).
  - reaction. pose proof (tracker_Delete_view ns name t) as Hs. assert (Hk : keyed (map_delete ns name (view t)).2).
    { unfold map_delete. destruct (view t !! _); [|done]. simpl. intros n' c' [_ ?]%lookup_delete_Some. auto. }
    destruct (tracker_Delete _ _ _ _) as [[err|] t']; rewrite <-Hs in *; (split_and!; [recorded|done..]).
  - reaction. split_and!; [recorded|done..].
  - reaction. rewrite tracker_Get_view. destruct (view t !! _) as [old|] eqn:Eo; simpl; [|split_and!; [recorded|by left|done]].
    destruct (decide (pt ∈ patch_types)); [|split_and!; [recorded|by left|done]].
    destruct (apply_patch pt data old) as [err|new] eqn:Ep; [split_and!; [recorded|by left|done]|].
    pose proof (then_Get_add true ns new t) as Hs. pose proof (keyed_store true ns new _ keys) as Hk. unfold tracker_Update.
    destruct (tracker_add _ _ _ _ _) as [[err|] t']; simpl in Hs; [|destruct (tracker_Get _ _ _ _)];
      destruct (map_store true ns new (view t)) as [spec m'] eqn:Em; destruct Hs as [_ <-]; (split_and!; [recorded| |done]);
      right; exists old, new; by rewrite Em.
Qed.
End refinement.

(** ** A client set with objects *)
Section construction.
Context {rt : GoRuntime}.
Implicit Types (t : tracker) (c : KafkaTopicChannel) (objs : list KafkaTopicChannel).

Lemma set_namespace_own c : set_namespace (Namespace (meta c)) c = c.
Proof. unfold set_namespace. case_decide; [done|]. by destruct c as [[]]. Qed.

(** The resource that a channel is kept under is the one that the client asks for. *)
Lemma channel_resource : UnsafeGuessKindToResource kafkatopicchannelsKind = kafkatopicchannelsResource.
Proof. vm_compute. reflexivity. Qed.

Lemma tracker_Add_channel c t (kinds : ObjectKinds KafkaTopicChannel_type (tr_scheme t) = Some [kafkatopicchannelsKind]) :
  let '(err, t') := tracker_Add c t in
  (err = None ↔ view t !! ref_of c = None) ∧ tr_scheme t' = tr_scheme t ∧
  (err = None → view t' = <[ref_of c := c]> (view t)).
Proof.
  unfold tracker_Add. rewrite kinds. unfold add_kinds. cbv zeta. rewrite channel_resource. rewrite decide_False by done.
  unfold tracker_add. cbv zeta. rewrite set_namespace_own, decide_False by auto. cbn [tr_objects tr_scheme tr_watchers tr_sent tr_next].
  fold (view t). destruct (view t !! ref_of c) eqn:E; simpl; (split_and!; [done..|]); intros ?; [done|].
  unfold view. simpl. by rewrite lookup_insert_eq.
Qed.

(** A client set is made exactly when no two channels have the same name, and then it
    serves the channels it was given. *)
Theorem NewSimpleClientset_serves scheme objs (kinds : ObjectKinds KafkaTopicChannel_type scheme = Some [kafkatopicchannelsKind]) :
  match NewSimpleClientset scheme objs with
  | Some t => NoDup (ref_of <$> objs) ∧ tr_scheme t = scheme ∧ keyed (view t) ∧ ∀ c, view t !! ref_of c = Some c ↔ c ∈ objs
  | None => ¬ NoDup (ref_of <$> objs)
  end.
Proof.
  unfold NewSimpleClientset. induction objs as [|c objs IH] using rev_ind.
  - simpl. split_and!; [constructor|done|by intros ? ? ?|]. intros c. unfold view. simpl. split; [done|by intros ?%elem_of_nil].
  - rewrite foldl_app, fmap_app. simpl. destruct (foldl _ _ objs) as [t|]; simpl.
    + destruct IH as (Hn & Hs & Hk & Hin). pose proof (tracker_Add_channel c t) as Ha. rewrite Hs in Ha. specialize (Ha kinds).
      destruct (tracker_Add c t) as [err t']. destruct Ha as (Hnew & Hs' & Hv).
      assert (Hfresh : ref_of c ∉ ref_of <$> objs ↔ view t !! ref_of c = None).
      { split.
        - intros Hni. apply eq_None_not_Some. intros [c' Hc']. apply Hni. assert (He := Hk _ _ Hc'). rewrite <-He.
          apply list_elem_of_fmap_2, Hin. by rewrite He.
        - intros Hnone (c' & Heq & Hc')%list_elem_of_fmap. apply Hin in Hc'. congruence. }
      destruct err as [err|].
      * intros (_ & Hd & _)%NoDup_app. assert (Some err = None) as ?; [|done]. apply Hnew, Hfresh. intros Hin'. apply (Hd _ Hin'). by left.
      * assert (Hni := proj2 Hfresh (proj1 Hnew eq_refl)). rewrite Hv by done. split_and!; [|congruence| |].
        -- apply NoDup_app. split_and!; [done| |repeat constructor; by intros ?%elem_of_nil].
           intros r Hr ->%list_elem_of_singleton. done.
        -- intros n' c' [[<- <-]|[_ ?]]%lookup_insert_Some; auto.
        -- intros c'. rewrite lookup_insert_Some, Hin. split.
           ++ intros [[_ ->]|[_ ?]]; set_solver.
           ++ intros [Hc'| ->%list_elem_of_singleton]%elem_of_app; [|by left]. right. split; [|done]. intros Heq. apply Hni.
              rewrite Heq. by apply list_elem_of_fmap_2.
    + intros (Hn & _)%NoDup_app. done.
Qed.
End construction.

(** ** The fake client of a test with one channel *)
Section demo.
#[local] Existing Instance Channel.demo_runtime.
#[local] Instance demo_patcher : Patcher := λ _ _ c, inr c.
#[local] Instance demo_selectors : LabelSelectors := λ s, if decide (s = "") then Some (λ _, true) else None.

Definition demo_tracker : tracker :=
  default (NewObjectTracker NewScheme) (s ← fake_init NewScheme; NewSimpleClientset s [demo_channel]).

Lemma demo_tracker_kinds :
  bool_decide (is_Some (gvkToType (tr_scheme demo_tracker) !! WithKind SchemeGroupVersion "KafkaTopicChannelList")) = true ∧
  map_to_list (view demo_tracker) = [(mkNamespacedName "ns" "c", demo_channel)].
Proof. split; vm_compute; reflexivity. Qed.

Lemma fake_client_refines_map_witness :
  (fake_call [@tracker_reactor _ (tracker_store 0)] "ns" (OpCreate demo_channel []) (mkFake [] demo_tracker)).1 =
    Ok (None, Some (already_exists kafkatopicchannelsResource "c")) ∧
  (fake_call [@tracker_reactor _ (tracker_store 0)] "ns" (OpGet "c" []) (mkFake [] demo_tracker)).1 = Ok (Some (Single demo_channel), None).
Proof.
  destruct demo_tracker_kinds as [Hkind Hlist].
  assert (Hview : view demo_tracker = {[ mkNamespacedName "ns" "c" := demo_channel ]}).
  { rewrite <-(list_to_map_to_list (view demo_tracker)), Hlist. reflexivity. }
  assert (Hkeys : keyed (view demo_tracker)).
  { rewrite Hview. intros n c Hc. apply lookup_singleton_Some in Hc as [<- <-]. reflexivity. }
  assert (Hget := fake_client_refines_map 0 "ns" (OpGet "c" []) [] demo_tracker Hkeys (bool_decide_eq_true_1 _ Hkind)).
  assert (Hcreate := fake_client_refines_map 0 "ns" (OpCreate demo_channel []) [] demo_tracker Hkeys (bool_decide_eq_true_1 _ Hkind)).
  destruct (fake_call _ _ (OpGet _ _) _) as [answer f], (fake_call _ _ (OpCreate _ _) _) as [answer' f'].
  destruct Hget as (_ & [-> _] & _), Hcreate as (_ & Hc & _). apply (f_equal fst) in Hc. cbn [fst] in Hc |- *.
  rewrite Hc, Hview. split; vm_compute; reflexivity.
Defined.
End demo.
