(* ===== verification/Listers.v ===== *)
(** * Listers: the objects of a table test

    Models [src/pkg/channel/kt/reconciler/testing/listers.go] over the sorter of
    [vendor/knative.dev/pkg/reconciler/testing/sorter.go]: the objects of a table, sorted by
    type into indexers, which the fake clients are filled with and the listers read.

    The types that the fake clients of Kubernetes and of Knative eventing register are
    parameters.  An object is given by its type and its metadata. *)
From S2P Require Import Prelude GoStrings FieldError ApiTypes Channel Client Informers Schemes.

Class TableObject (O : Type) := { obj_type : O → GoType; obj_meta : O → ObjectMeta }.

(** The registrations of [kubernetes/fake] and of [eventing/.../versioned/fake]. *)
Class LibrarySchemes := { kube_AddToScheme : Registration; eventing_AddToScheme : Registration }.

Section listers.
Context {rt : GoRuntime} {O : Type} `{TableObject O} `{LibrarySchemes}.

(** [cache.NewIndexer(MetaNamespaceKeyFunc, ...)]. *)
Abbreviation ObjIndexer := (gmap string O).
Definition obj_key (o : O) : string := MetaNamespaceKeyFunc (obj_meta o).

(** ** The sorter *)
Abbreviation ObjectSorter := (gmap GoType ObjIndexer).

(** The types of a scheme, in the order [n] of its map, with one entry for every kind
    that a type is registered under. *)
Definition AllKnownTypes (n : nat) (s : runtime_Scheme) : list GoType := (range_order n (map_to_list (gvkToType s))).*2.

Definition NewObjectSorter (n : nat) (s : runtime_Scheme) : ObjectSorter :=
  foldl (λ cache v, <[v := ∅]> cache) ∅ (AllKnownTypes n s).

Fixpoint AddObjects (objs : list O) (o : ObjectSorter) : option ObjectSorter :=
  match objs with
  | [] => Some o
  | obj :: objs =>
      indexer ← o !! obj_type obj;
      AddObjects objs (<[obj_type obj := <[obj_key obj := obj]> indexer]> o)
  end.

(** Listing the indexer of a type that the sorter does not have is a nil dereference. *)
Fixpoint objects_of (n : nat) (types : list GoType) (o : ObjectSorter) : option (list O) :=
  match types with
  | [] => Some []
  | t :: types =>
      indexer ← o !! t;
      objs ← objects_of (S n) types o;
      Some ((range_order n (map_to_list indexer)).*2 ++ objs)
  end.
Definition ObjectsForScheme (n : nat) (s : runtime_Scheme) (o : ObjectSorter) : option (list O) :=
  objects_of (S n) (AllKnownTypes n s) o.

Definition ObjectsForSchemeFunc (n : nat) (funcs : list Registration) (o : ObjectSorter) : option (list O) :=
  s ← foldl (λ s f, s ≫= Must f) (Some NewScheme) funcs; ObjectsForScheme n s o.

Definition IndexerForObjectType (t : GoType) (o : ObjectSorter) : option ObjIndexer := o !! t.

(** ** [Listers] *)
Definition clientSetSchemes : list Registration :=
  [kube_AddToScheme; eventing_AddToScheme; fake_AddToScheme; eventing_AddToScheme].

(** The scheme of all types; errors are not looked at. *)
Definition all_types : option runtime_Scheme :=
  foldl (λ s addTo, s ≫= ignoring_error addTo) (Some NewScheme) clientSetSchemes.

Record Listers := mkListers { sorter : ObjectSorter }.

Definition NewListers (n : nat) (objs : list O) : option Listers :=
  s ← all_types; mkListers <$> AddObjects objs (NewObjectSorter n s).

Definition indexerFor (t : GoType) (l : Listers) : option ObjIndexer := IndexerForObjectType t (sorter l).

Definition GetKubeObjects (n : nat) (l : Listers) : option (list O) := ObjectsForSchemeFunc n [kube_AddToScheme] (sorter l).
Definition GetEventingObjects (n : nat) (l : Listers) : option (list O) := ObjectsForSchemeFunc n [eventing_AddToScheme] (sorter l).
Definition GetEventsObjects (n : nat) (l : Listers) : option (list O) := ObjectsForSchemeFunc n [eventing_AddToScheme] (sorter l).
Definition GetMessagingObjects (n : nat) (l : Listers) : option (list O) := ObjectsForSchemeFunc n [fake_AddToScheme] (sorter l).

(** [n1], [n2], [n3] number the loops over the three schemes. *)
Definition GetAllObjects (n1 n2 n3 : nat) (l : Listers) : option (list O) :=
  all ← GetMessagingObjects n1 l;
  events ← GetEventsObjects n2 l;
  kube ← GetKubeObjects n3 l;
  Some (all ++ events ++ kube).

(** The listers read the indexer of their type. *)
Definition core (name : string) : GoType := mkType "k8s.io/api/core/v1" name.
Definition GetServiceLister : Listers → option ObjIndexer := indexerFor (core "Service").
Definition GetEndpointsLister : Listers → option ObjIndexer := indexerFor (core "Endpoints").
Definition GetServiceAccountLister : Listers → option ObjIndexer := indexerFor (core "ServiceAccount").
Definition GetRoleBindingLister : Listers → option ObjIndexer := indexerFor (mkType "k8s.io/api/rbac/v1" "RoleBinding").
Definition GetKafkaChannelLister : Listers → option ObjIndexer := indexerFor KafkaTopicChannel_type.
Definition GetDeploymentLister : Listers → option ObjIndexer := indexerFor (mkType "k8s.io/api/apps/v1" "Deployment").

(** ** What the sorter holds *)
Implicit Types (o : ObjectSorter) (objs : list O) (t : GoType).

Definition of_type t objs : list O := filter (λ obj, obj_type obj = t) objs.
Definition index objs : ObjIndexer := foldl (λ ix obj, <[obj_key obj := obj]> ix) ∅ objs.

Lemma index_lookup objs key obj :
  NoDup (obj_key <$> objs) → index objs !! key = Some obj ↔ obj ∈ objs ∧ obj_key obj = key.
Proof.
  unfold index. induction objs as [|obj' objs IH] using rev_ind; intros Hn; simpl; [set_solver|].
  rewrite foldl_app. simpl. rewrite fmap_app in Hn. apply NoDup_app in Hn as (Hn & Hd & _).
  rewrite lookup_insert_Some, IH by done. split.
  - intros [[<- <-]|(Hne & Hin & <-)]; set_solver.
  - intros [[Hin| ->%list_elem_of_singleton]%elem_of_app <-]; [|by left]. right. split_and!; [|done..].
    intros Heq. apply (Hd (obj_key obj)); [by apply list_elem_of_fmap_2|]. rewrite <-Heq. by left.
Qed.

Lemma index_perm objs : NoDup (obj_key <$> objs) → (map_to_list (index objs)).*2 ≡ₚ objs.
Proof.
  unfold index. induction objs as [|obj objs IH] using rev_ind; intros Hn; [done|].
  assert (Hn' := Hn). rewrite fmap_app in Hn. apply NoDup_app in Hn as (Hn & Hd & _).
  assert (Hnone : index objs !! obj_key obj = None).
  { apply eq_None_not_Some. intros [o' [Hin Hk]%index_lookup]; [|done]. apply (Hd (obj_key obj)); [|by left].
    rewrite <-Hk. by apply list_elem_of_fmap_2. }
  rewrite foldl_app. simpl. fold (index objs). rewrite map_to_list_insert by done. simpl. unfold index. rewrite IH by done.
  by rewrite Permutation_app_comm.
Qed.

Lemma NewObjectSorter_lookup n s t ix :
  NewObjectSorter n s !! t = Some ix ↔ ix = ∅ ∧ ∃ gvk, gvkToType s !! gvk = Some t.
Proof.
  assert (Hl : ∀ ts (o : ObjectSorter), (foldl (λ cache v, <[v := ∅]> cache) o ts) !! t = Some ix ↔
    (t ∈ ts ∧ ix = ∅) ∨ (¬ (t ∈ ts) ∧ o !! t = Some ix)).
  { induction ts as [|t' ts IH]; intros o; simpl; [set_solver|]. rewrite IH, lookup_insert_Some.
    destruct (decide (t' = t)), (decide (t ∈ ts)); set_solver. }
  unfold NewObjectSorter. rewrite Hl, lookup_empty.
  assert (Hin : t ∈ AllKnownTypes n s ↔ ∃ gvk, gvkToType s !! gvk = Some t).
  { unfold AllKnownTypes. rewrite range_order_perm, list_elem_of_fmap. split.
    - intros ([gvk t'] & -> & ?%elem_of_map_to_list). by exists gvk.
    - intros [gvk Hg]. exists (gvk, t). split; [done|]. by apply elem_of_map_to_list. }
  rewrite Hin. naive_solver.
Qed.

Lemma AddObjects_Some objs o o' :
  AddObjects objs o = Some o' →
  Forall (λ obj, is_Some (o !! obj_type obj)) objs ∧
  ∀ t, o' !! t = (λ ix, foldl (λ ix obj, <[obj_key obj := obj]> ix) ix (of_type t objs)) <$> (o !! t).
Proof.
  revert o. induction objs as [|obj objs IH]; intros o Ha; simpl in Ha.
  - simplify_eq. split; [done|]. intros t. simpl. by destruct (o' !! t).
  - destruct (o !! obj_type obj) as [ix|] eqn:E; [|done]. simpl in Ha. destruct (IH _ Ha) as [Hk Hl]. split.
    + constructor; [by eexists|]. eapply Forall_impl; [exact Hk|]. intros obj'. simpl.
      destruct (decide (obj_type obj = obj_type obj')) as [<-|]; [by rewrite E|by rewrite lookup_insert_ne].
    + intros t. rewrite Hl. unfold of_type. destruct (decide (obj_type obj = t)) as [<-|Hne].
      * rewrite lookup_insert_eq, E, filter_cons_True by done. done.
      * by rewrite lookup_insert_ne, filter_cons_False by done.
Qed.

(** What [NewListers] leaves for a type. *)
Lemma NewListers_lookup n objs l s t ix (made : NewListers n objs = Some l) (types : all_types = Some s) :
  sorter l !! t = Some ix ↔ ix = index (of_type t objs) ∧ ∃ gvk, gvkToType s !! gvk = Some t.
Proof.
  unfold NewListers in made. rewrite types in made. simpl in made. destruct (AddObjects _ _) as [o'|] eqn:E; [|done].
  simpl in made. injection made as <-. apply AddObjects_Some in E as [_ ->]. rewrite fmap_Some.
  setoid_rewrite NewObjectSorter_lookup. fold (index (of_type t objs)). naive_solver.
Qed.

Lemma NewListers_types n objs l : NewListers n objs = Some l → is_Some all_types.
Proof. unfold NewListers. destruct all_types as [s|]; [by exists s|done]. Qed.

Lemma NoDup_of_type t objs : NoDup (obj_key <$> objs) → NoDup (obj_key <$> of_type t objs).
Proof.
  unfold of_type. induction objs as [|obj objs IH]; [done|]. rewrite fmap_cons, NoDup_cons. intros [Hni Hn].
  rewrite filter_cons. case_decide; [|by apply IH]. rewrite fmap_cons, NoDup_cons. split; [|by apply IH].
  intros (o' & Heq & [_ Hin]%list_elem_of_filter)%list_elem_of_fmap. apply Hni. rewrite Heq. by apply list_elem_of_fmap_2.
Qed.

(** ** The objects that the fake clients get *)

(** The registrations of the libraries are sequences of single ones, as those of the
    repository are. *)
Class LibraryLaws := {
  kube_ops : list op; eventing_ops : list op;
  kube_registers : ∀ s, kube_AddToScheme s = (λ s', (None, s')) <$> run_ops kube_ops s;
  eventing_registers : ∀ s, eventing_AddToScheme s = (λ s', (None, s')) <$> run_ops eventing_ops s;
}.
Context `{!LibraryLaws}.

(** The types that a registration gives a new scheme. *)
Definition scheme_types (f : Registration) : list GoType :=
  match Must f NewScheme with Some s => (map_to_list (gvkToType s)).*2 | None => [] end.
Definition client_types : list GoType :=
  scheme_types fake_AddToScheme ++ scheme_types eventing_AddToScheme ++ scheme_types kube_AddToScheme.

Definition registers (f : Registration) (os : list op) : Prop := ∀ s, f s = (λ s', (None, s')) <$> run_ops os s.

Lemma fake_registers : registers fake_AddToScheme channel_ops.
Proof. exact versioned_AddToScheme_ops. Qed.

Lemma Must_registers f os s : registers f os → Must f s = run_ops os s.
Proof. intros Hf. unfold Must. rewrite Hf. by destruct (run_ops os s). Qed.
Lemma ignoring_registers f os s : registers f os → ignoring_error f s = run_ops os s.
Proof. intros Hf. unfold ignoring_error. rewrite Hf. by destruct (run_ops os s). Qed.

Lemma all_types_ops : all_types = run_ops (kube_ops ++ eventing_ops ++ channel_ops ++ eventing_ops) NewScheme.
Proof.
  unfold all_types, clientSetSchemes. cbn [foldl]. rewrite !run_ops_app. cbn [mbind option_bind].
  rewrite (ignoring_registers _ _ _ kube_registers). destruct (run_ops kube_ops _) as [s1|]; [|done]. cbn [mbind option_bind].
  rewrite (ignoring_registers _ _ _ eventing_registers), run_ops_app. destruct (run_ops eventing_ops _) as [s2|]; [|done]. cbn [mbind option_bind].
  rewrite (ignoring_registers _ _ _ fake_registers), run_ops_app. destruct (run_ops channel_ops _) as [s3|]; [|done]. cbn [mbind option_bind].
  apply (ignoring_registers _ _ _ eventing_registers).
Qed.

(** Every client's part of the scheme can be registered by itself, and its types have
    an indexer. *)
Lemma client_scheme os l1 l2 s f
    (all : all_types = Some s) (part : kube_ops ++ eventing_ops ++ channel_ops ++ eventing_ops = l1 ++ os ++ l2) (reg : registers f os) :
  ∃ s1, Must f NewScheme = Some s1 ∧ ∀ t, t ∈ (map_to_list (gvkToType s1)).*2 → ∃ gvk, gvkToType s !! gvk = Some t.
Proof.
  rewrite all_types_ops, part in all. assert (Hmade := run_ops_all_made _ _ _ all).
  rewrite !run_ops_app in all. destruct (run_ops l1 NewScheme) as [s0|]; [|done]. cbn [mbind option_bind] in all.
  rewrite run_ops_app in all. destruct (run_ops os s0) as [s0'|] eqn:E0; [|done].
  destruct (run_ops_mono os NewScheme s0 (subscheme_new s0)) as [s1 E1]; [by eexists|].
  exists s1. split; [by rewrite (Must_registers _ _ _ reg)|]. intros t ([gvk t'] & -> & Hin%elem_of_map_to_list)%list_elem_of_fmap.
  destruct (run_ops_types _ _ _ _ _ E1 Hin) as [Hop|Hno]; [|done].
  exists gvk. rewrite Forall_forall in Hmade. apply (Hmade (Known gvk t')). set_solver.
Qed.

Lemma objects_of_perm n types o (g : GoType → list O) :
  (∀ t, t ∈ types → ∃ ix, o !! t = Some ix ∧ (map_to_list ix).*2 ≡ₚ g t) →
  ∃ l, objects_of n types o = Some l ∧ l ≡ₚ types ≫= g.
Proof.
  revert n. induction types as [|t types IH]; intros n Ht; simpl; [by exists []|].
  destruct (Ht t) as (ix & -> & Hp); [by left|]. destruct (IH (S n)) as (l & -> & Hl); [intros t' Ht'; apply Ht; by right|].
  eexists. split; [reflexivity|]. by rewrite range_order_perm, Hp, Hl.
Qed.

Lemma bind_of_type_cons ts obj objs :
  ts ≫= (λ t, of_type t (obj :: objs)) ≡ₚ
    replicate (length (filter (λ t, t = obj_type obj) ts)) obj ++ (ts ≫= λ t, of_type t objs).
Proof.
  induction ts as [|t ts IH]; simpl; [done|]. rewrite IH. unfold of_type at 1. destruct (decide (obj_type obj = t)) as [Heq|Hne].
  - rewrite filter_cons_True by done. rewrite (filter_cons_True _ t) by done. simpl. fold (of_type t objs). by rewrite (Permutation_app_swap_app (of_type t objs)).
  - rewrite filter_cons_False by done. rewrite (filter_cons_False _ t) by congruence. fold (of_type t objs). by rewrite (Permutation_app_swap_app (of_type t objs)).
Qed.

Lemma bind_of_type ts objs :
  Forall (λ obj, length (filter (λ t, t = obj_type obj) ts) = 1) objs → ts ≫= (λ t, of_type t objs) ≡ₚ objs.
Proof.
  induction 1 as [|obj objs Ho _ IH]; [by induction ts|]. by rewrite bind_of_type_cons, Ho, IH.
Qed.

Lemma bind_of_types ts1 ts2 ts3 objs l1 l2 l3 :
  l1 ≡ₚ ts1 ≫= (λ t, of_type t objs) → l2 ≡ₚ ts2 ≫= (λ t, of_type t objs) → l3 ≡ₚ ts3 ≫= (λ t, of_type t objs) →
  Forall (λ obj, length (filter (λ t, t = obj_type obj) (ts1 ++ ts2 ++ ts3)) = 1) objs → l1 ++ l2 ++ l3 ≡ₚ objs.
Proof. intros -> -> -> Ho. rewrite <-!bind_app. by apply bind_of_type. Qed.

(** What the fake client of a registration is filled with. *)
Lemma part_objects n m objs l f os l1 l2
    (made : NewListers n objs = Some l) (names : ∀ t, NoDup (obj_key <$> of_type t objs))
    (part : kube_ops ++ eventing_ops ++ channel_ops ++ eventing_ops = l1 ++ os ++ l2) (reg : registers f os) :
  ∃ l', ObjectsForSchemeFunc m [f] (sorter l) = Some l' ∧ l' ≡ₚ scheme_types f ≫= (λ t, of_type t objs).
Proof.
  destruct (NewListers_types _ _ _ made) as [s Hs].
  destruct (client_scheme os l1 l2 s f Hs part reg) as (s1 & E1 & Ht).
  unfold ObjectsForSchemeFunc, scheme_types. cbn [foldl mbind option_bind]. rewrite E1. cbn [mbind option_bind]. unfold ObjectsForScheme.
  destruct (objects_of_perm (S m) (AllKnownTypes m s1) (sorter l) (λ t, of_type t objs)) as (l' & -> & Hl').
  - intros t Hin. unfold AllKnownTypes in Hin. rewrite range_order_perm in Hin. exists (index (of_type t objs)).
    split; [|by apply index_perm]. apply (NewListers_lookup _ _ _ _ _ _ made Hs). auto.
  - exists l'. split; [done|]. rewrite Hl'. unfold AllKnownTypes. by rewrite range_order_perm.
Qed.

(** The part of each client: channels, eventing objects, objects of Kubernetes. *)
Lemma client_parts n m objs l
    (made : NewListers n objs = Some l) (names : ∀ t, NoDup (obj_key <$> of_type t objs)) :
  (∃ lm, GetMessagingObjects m l = Some lm ∧ lm ≡ₚ scheme_types fake_AddToScheme ≫= (λ t, of_type t objs)) ∧
  (∃ le, GetEventingObjects m l = Some le ∧ le ≡ₚ scheme_types eventing_AddToScheme ≫= (λ t, of_type t objs)) ∧
  (∃ lk, GetKubeObjects m l = Some lk ∧ lk ≡ₚ scheme_types kube_AddToScheme ≫= (λ t, of_type t objs)).
Proof.
  split_and!.
  - apply (part_objects n m objs l fake_AddToScheme channel_ops (kube_ops ++ eventing_ops) eventing_ops made names);
      [by rewrite <-!app_assoc|exact fake_registers].
  - by apply (part_objects n m objs l eventing_AddToScheme eventing_ops kube_ops (channel_ops ++ eventing_ops) made names); [|exact eventing_registers].
  - by apply (part_objects n m objs l kube_AddToScheme kube_ops [] (eventing_ops ++ channel_ops ++ eventing_ops) made names); [|exact kube_registers].
Qed.

Lemma all_objects n n1 n2 n3 objs l
    (made : NewListers n objs = Some l) (names : ∀ t, NoDup (obj_key <$> of_type t objs))
    (once : Forall (λ obj, length (filter (λ t, t = obj_type obj) client_types) = 1) objs) :
  ∃ all, GetAllObjects n1 n2 n3 l = Some all ∧ all ≡ₚ objs.
Proof.
  destruct (client_parts n n1 objs l made names) as ((lm & Hm & Pm) & _).
  destruct (client_parts n n2 objs l made names) as (_ & (le & He & Pe) & _).
  destruct (client_parts n n3 objs l made names) as (_ & _ & lk & Hk & Pk).
  unfold GetAllObjects. change (GetEventsObjects n2 l) with (GetEventingObjects n2 l). rewrite Hm, He, Hk.
  eexists. split; [reflexivity|]. exact (bind_of_types _ _ _ objs _ _ _ Pm Pe Pk once).
Qed.

(** No object of a table gets lost or doubled: when the types of the objects are each
    registered once by the fake clients, and no two objects of a type have the same
    namespace and name, then the objects that the clients are filled with are those of
    the table; an unknown type is a panic; and the lister of a type has its objects. *)
Theorem GetAllObjects_complete n n1 n2 n3 objs l
    (made : NewListers n objs = Some l)
    (names : ∀ t, NoDup (obj_key <$> of_type t objs))
    (once : Forall (λ obj, length (filter (λ t, t = obj_type obj) client_types) = 1) objs) :
  (∃ all, GetAllObjects n1 n2 n3 l = Some all ∧ all ≡ₚ objs) ∧
  ∀ t ix key obj, indexerFor t l = Some ix → ix !! key = Some obj ↔ obj ∈ objs ∧ obj_type obj = t ∧ obj_key obj = key.
Proof.
  split.
  - by eapply all_objects.
  - destruct (NewListers_types _ _ _ made) as [s Hs].
    intros t ix key obj Hi. apply (NewListers_lookup _ _ _ _ _ _ made Hs) in Hi as [-> _]. rewrite index_lookup by done.
    unfold of_type. rewrite list_elem_of_filter. clear. naive_solver.
Qed.
End listers.

(** ** A table with a channel and a service *)
Section demo.
#[local] Existing Instance Channel.demo_runtime.

#[local] Instance demo_object : TableObject (GoType * ObjectMeta) := {| obj_type := fst; obj_meta := snd |}.
Definition demo_kube_ops : list op := known_ops (mkGV "" "v1") [core "Service"; core "Pod"; core "Endpoints"] ++ meta_ops (mkGV "" "v1").
Definition demo_eventing_ops : list op := known_ops (mkGV "messaging.knative.dev" "v1") [mkType "knative.dev/eventing/pkg/apis/messaging/v1" "Subscription"].
#[local] Instance demo_schemes : LibrarySchemes := {|
  kube_AddToScheme s := (λ s', (None, s')) <$> run_ops demo_kube_ops s;
  eventing_AddToScheme s := (λ s', (None, s')) <$> run_ops demo_eventing_ops s |}.
#[local] Instance demo_laws : LibraryLaws := {|
  kube_ops := demo_kube_ops; eventing_ops := demo_eventing_ops;
  kube_registers s := eq_refl; eventing_registers s := eq_refl |}.

Definition demo_table : list (GoType * ObjectMeta) :=
  [(KafkaTopicChannel_type, new_meta "c" "ns" None []); (core "Service", new_meta "s" "ns" None [])].

Lemma demo_table_sorted : is_Some (NewListers 0 demo_table).
Proof. apply (bool_decide_unpack _). vm_compute. exact I. Qed.
Lemma demo_table_names : NoDup (obj_key <$> demo_table).
Proof. apply (bool_decide_unpack _). vm_compute. exact I. Qed.
Lemma demo_table_once : Forall (λ obj, length (filter (λ t, t = obj_type obj) client_types) = 1) demo_table.
Proof. apply (bool_decide_unpack _). vm_compute. exact I. Qed.
Lemma unknown_type_panics : bool_decide (is_Some (NewListers 0 [(core "ConfigMap", new_meta "c" "ns" None [])])) = false.
Proof. vm_compute. reflexivity. Qed.

Lemma GetAllObjects_complete_witness :
  ∃ l all, NewListers 0 demo_table = Some l ∧ GetAllObjects 0 1 2 l = Some all ∧ all ≡ₚ demo_table.
Proof.
  destruct demo_table_sorted as [l Hl]. exists l.
  destruct (GetAllObjects_complete 0 0 1 2 demo_table l Hl (λ t, NoDup_of_type t _ demo_table_names) demo_table_once) as [(all & Ha & Hp) _].
  exists all. exact (conj Hl (conj Ha Hp)).
Defined.
End demo.
