(* ===== verification/Fixtures.v ===== *)
(** * Fixtures: the channels of the unit tests

    Models [src/pkg/channel/kt/reconciler/testing]: the builder [NewKafkaChannel] and its
    options ([kafkachannel.go]), which the tests of the reconcilers use to say what a
    channel looks like before and after a reconciliation, and the reactors that
    [MakeFactory] ([factory.go]) puts before the fake client of a test.  An option changes
    the channel through the methods of [Channel], so that what is proved of these methods
    says what the fixtures stand for. *)
From S2P Require Import Prelude GoStrings FieldError ErrorText Conditions ApiTypes Channel GenReconciler Client Schemes Listers.

Section fixtures.
Context {rt : GoRuntime}.

(** A channel under construction, and the readings of the clock made so far. *)
Record Fixture := mkFixture { fx_channel : KafkaTopicChannel; fx_clock : nat }.

Definition cell (f : Fixture) : StatusCell := mkCell (ch_Status (fx_channel f)) (fx_clock f).

Definition on_status (method : StatusCell → StatusCell) (f : Fixture) : Fixture :=
  let cs := method (cell f) in
  mkFixture (mkChannel (meta (fx_channel f)) (Spec (fx_channel f)) (status cs)) (clock cs).
Definition on_meta (g : ObjectMeta → ObjectMeta) (f : Fixture) : Fixture :=
  mkFixture (mkChannel (g (meta (fx_channel f))) (Spec (fx_channel f)) (ch_Status (fx_channel f))) (fx_clock f).

Definition KafkaChannelOption : Type := Fixture → Fixture.

(** ** The options *)
Definition WithInitKafkaChannelConditions : KafkaChannelOption := on_status Status_InitializeConditions.

Definition WithKafkaChannelDeleted : KafkaChannelOption :=
  on_meta (λ m, mkObjectMeta (Name m) (Namespace m) (UID m) (ResourceVersion m) (Generation m) (Some (10 ^ 9)%Z)
    (Labels m) (Annotations m) (OwnerReferences m) (Finalizers m)).

Definition WithKafkaChannelTopicReady : KafkaChannelOption := on_status MarkTopicTrue.
Definition WithKafkaChannelConfigReady : KafkaChannelOption := on_status MarkConfigTrue.
Definition WithKafkaChannelDeploymentNotReady (reason message : string) : KafkaChannelOption :=
  on_status (MarkDispatcherFailed reason message).
Definition WithKafkaChannelDeploymentReady : KafkaChannelOption :=
  on_status (PropagateDispatcherStatus [mkDeploymentCondition "Available" "True" "" ""]).
Definition WithKafkaChannelServicetNotReady (reason message : string) : KafkaChannelOption :=
  on_status (MarkServiceFailed reason message).
Definition WithKafkaChannelServiceReady : KafkaChannelOption := on_status MarkServiceTrue.
Definition WithKafkaChannelChannelServicetNotReady (reason message : string) : KafkaChannelOption :=
  on_status (MarkChannelServiceFailed reason message).
Definition WithKafkaChannelChannelServiceReady : KafkaChannelOption := on_status MarkChannelServiceTrue.
Definition WithKafkaChannelEndpointsNotReady (reason message : string) : KafkaChannelOption :=
  on_status (MarkEndpointsFailed reason message).
Definition WithKafkaChannelEndpointsReady : KafkaChannelOption := on_status MarkEndpointsTrue.
Definition WithKafkaChannelAddress (a : string) : KafkaChannelOption := on_status (SetAddress (Some (http_url a))).

(** [sets.NewString], [Insert] and [List]. *)
Definition WithKafkaFinalizer (finalizerName : string) : KafkaChannelOption :=
  on_meta (λ m, mkObjectMeta (Name m) (Namespace m) (UID m) (ResourceVersion m) (Generation m) (DeletionTimestamp m)
    (Labels m) (Annotations m) (OwnerReferences m)
    (sorted_list ({[finalizerName]} ∪ list_to_set (Finalizers m)))).

Definition WithKafkaChannelSubscribers (subs : list SubscriberSpec) : KafkaChannelOption := λ f,
  let s := Spec (fx_channel f) in
  mkFixture (mkChannel (meta (fx_channel f))
    (mkSpec (NumPartitions s) (ReplicationFactor s) (BootstrapServers s) (Net s) (Topic s) subs (ch_Delivery s))
    (ch_Status (fx_channel f))) (fx_clock f).

(** The slice is made with the length of the subscribers and then appended to. *)
Definition zero_SubscriberStatus : SubscriberStatus := mkSubscriberStatus "" 0 "" "".
Definition ready_SubscriberStatus (s : SubscriberSpec) : SubscriberStatus :=
  mkSubscriberStatus (sub_UID s) (sub_Generation s) "True" "".
Definition WithKafkaChannelStatusSubscribers : KafkaChannelOption := λ f,
  let subs := Subscribers (Spec (fx_channel f)) in
  let ss := foldl (λ ss s, ss ++ [ready_SubscriberStatus s]) (replicate (length subs) zero_SubscriberStatus) subs in
  let st := ch_Status (fx_channel f) in
  mkFixture (mkChannel (meta (fx_channel f)) (Spec (fx_channel f))
    (mkStatus (ObservedGeneration st) (Conditions st) (Address st) ss)) (fx_clock f).

(** ** [NewKafkaChannel] *)
Definition empty_spec : KafkaTopicChannelSpec :=
  mkSpec 0 0 [] (mkNet (mkSASL false None None None) (mkTLS false None None None)) "" [] None.

Definition bare_channel (name namespace : string) : KafkaTopicChannel :=
  mkChannel (mkObjectMeta name namespace "abc-xyz" "" 0 None None None [] []) empty_spec (mkStatus 0 [] None []).

(** [n] is the first reading of the clock. *)
Definition NewKafkaChannel (n : nat) (name namespace : string) (ncopt : list KafkaChannelOption) : Fixture :=
  let nc := foldl (λ nc opt, opt nc) (mkFixture (bare_channel name namespace) n) ncopt in
  mkFixture (SetDefaults (fx_channel nc)) (fx_clock nc).
End fixtures.

(** ** What the fixtures stand for *)
Section marks.
Context {rt : GoRuntime}.

(** The options that mark one condition. *)
Inductive marking : KafkaChannelOption → mark → Prop :=
  | marks_topic : marking WithKafkaChannelTopicReady (MkTrue KafkaTopicChannelConditionTopicReady)
  | marks_config : marking WithKafkaChannelConfigReady (MkTrue KafkaTopicChannelConditionConfigReady)
  | marks_deployment_failed reason msg :
      marking (WithKafkaChannelDeploymentNotReady reason msg) (MkFalse KafkaTopicChannelConditionDispatcherReady reason msg)
  | marks_deployment : marking WithKafkaChannelDeploymentReady (MkTrue KafkaTopicChannelConditionDispatcherReady)
  | marks_service_failed reason msg :
      marking (WithKafkaChannelServicetNotReady reason msg) (MkFalse KafkaTopicChannelConditionServiceReady reason msg)
  | marks_service : marking WithKafkaChannelServiceReady (MkTrue KafkaTopicChannelConditionServiceReady)
  | marks_channel_service_failed reason msg :
      marking (WithKafkaChannelChannelServicetNotReady reason msg) (MkFalse KafkaTopicChannelConditionChannelServiceReady reason msg)
  | marks_channel_service : marking WithKafkaChannelChannelServiceReady (MkTrue KafkaTopicChannelConditionChannelServiceReady)
  | marks_endpoints_failed reason msg :
      marking (WithKafkaChannelEndpointsNotReady reason msg) (MkFalse KafkaTopicChannelConditionEndpointsReady reason msg)
  | marks_endpoints : marking WithKafkaChannelEndpointsReady (MkTrue KafkaTopicChannelConditionEndpointsReady)
  | marks_address a : marking (WithKafkaChannelAddress a) (MkTrue KafkaTopicChannelConditionAddressable).

Lemma cell_on_status method f : cell (on_status method f) = method (cell f).
Proof. unfold cell, on_status. simpl. by destruct (method _). Qed.

Lemma managed_marking opt k f : marking opt k → managed (cell (opt f)) = run_mark kc (managed (cell f)) k.
Proof.
  intros Hm. destruct Hm; (etransitivity; [apply (f_equal managed), cell_on_status|]); try exact (managed_manage _ _).
  unfold SetAddress. rewrite managed_manage. by destruct (Address (status (cell f))).
Qed.

Lemma marking_dependent opt k : marking opt k → mark_target k ∈ dependents kc.
Proof. intros []; apply list_elem_of_In; vm_compute; tauto. Qed.

Lemma foldl_markings opts ks f :
  Forall2 marking opts ks → managed (cell (foldl (λ nc opt, opt nc) f opts)) = foldl (run_mark kc) (managed (cell f)) ks.
Proof.
  intros Hm. revert f. induction Hm as [|opt k opts ks Hk _ IH]; intros f; [done|]. simpl. by rewrite IH, (managed_marking opt k).
Qed.

(** The status last given to a condition, when every condition is marked once. *)
Lemma lookup_marks (ks : list mark) d (s : ConditionStatus) : ∀ a : gmap ConditionType ConditionStatus,
  NoDup (mark_target <$> ks) → a !! d = None →
  foldl spec_mark a ks !! d = Some s ↔ ∃ k, k ∈ ks ∧ mark_target k = d ∧ mark_status k = s.
Proof.
  induction ks as [|k ks IH] using rev_ind; intros a Hn Ha; simpl.
  - rewrite Ha. split; [done|]. by intros (k & ?%elem_of_nil & _).
  - rewrite foldl_app. simpl. unfold spec_mark at 1. rewrite fmap_app in Hn. apply NoDup_app in Hn as (Hn & Hd & _).
    destruct (decide (d = mark_target k)) as [->|Hne].
    + rewrite lookup_insert_eq. split.
      * intros [= <-]. exists k. set_solver.
      * intros (k' & [Hk'| ->%list_elem_of_singleton]%elem_of_app & Ht & Hs); [|by rewrite Hs].
        destruct (Hd (mark_target k')); [by apply list_elem_of_fmap_2|]. rewrite Ht. by left.
    + rewrite lookup_insert_ne by done. rewrite IH by done. set_solver.
Qed.

Lemma marks_permute ks ks' :
  NoDup (mark_target <$> ks) → ks ≡ₚ ks' → foldl spec_mark ∅ ks = foldl spec_mark ∅ ks'.
Proof.
  intros Hn Hp. apply map_eq. intros d. apply option_eq. intros s.
  rewrite !lookup_marks by (done || by rewrite <-Hp). by setoid_rewrite Hp.
Qed.

(** What a fixture stands for: built with options that mark conditions, a channel is
    ready exactly when the marks, the last one of every condition, are true of all seven
    conditions; it has the defaults and the name given; and in what order the options are
    given does not matter to its readiness if each marks another condition. *)
Theorem NewKafkaChannel_ready n name ns opts ks (marked : Forall2 marking opts ks) (some : ks ≠ []) :
  let f := NewKafkaChannel n name ns opts in
  IsReady (cell f) = spec_happy kc (foldl spec_mark ∅ ks) ∧
  (∀ opts' ks', Forall2 marking opts' ks' → NoDup (mark_target <$> ks) → ks ≡ₚ ks' →
     IsReady (cell (NewKafkaChannel n name ns opts')) = IsReady (cell f)).
Proof.
  assert (Hready : ∀ o k, Forall2 marking o k → k ≠ [] →
    IsReady (cell (NewKafkaChannel n name ns o)) = spec_happy kc (foldl spec_mark ∅ k)).
  { intros o k Hm Hk. unfold IsReady, NewKafkaChannel. cbn [fx_channel fx_clock].
    set (f := foldl _ _ _). change (managed (cell (mkFixture (SetDefaults (fx_channel f)) (fx_clock f)))) with (managed (cell f)).
    unfold f. rewrite (foldl_markings _ _ _ Hm).
    assert (Hdep : Forall (λ k, mark_target k ∈ dependents kc) k)
      by (clear -Hm; induction Hm; constructor; [by eapply marking_dependent|done]).
    destruct k as [|k0 k]; [done|]. apply Forall_cons in Hdep as [Hk0 Hdep].
    destruct (run_mark_marked kc kc_wf (mkManaged [] n) k0 (wf_empty kc n) Hk0) as [Hwf0 Hag0 _ _].
    destruct (foldl_run_mark_wf kc k (run_mark kc (mkManaged [] n) k0) (spec_mark ∅ k0)) as (Hwf & Hag & Hrep);
      [exact kc_wf|exact Hwf0|exact Hag0| |exact Hdep|].
    - apply run_mark_represents; [exact kc_wf|apply wf_empty|exact Hk0|]. intros d _. done.
    - by apply represents_happy. }
  split; [by apply Hready|]. intros opts' ks' Hm' Hn Hp. rewrite (Hready _ _ marked some), (Hready opts' ks' Hm').
  - by rewrite (marks_permute _ _ Hn Hp).
  - intros ->. by apply Permutation_nil_r in Hp.
Qed.

(** The option for the subscriber statuses gives twice as many as there are
    subscribers: as many empty ones, then the ready ones. *)
Lemma status_subscribers_padded f :
  st_Subscribers (ch_Status (fx_channel (WithKafkaChannelStatusSubscribers f))) =
    replicate (length (Subscribers (Spec (fx_channel f)))) zero_SubscriberStatus ++
    (ready_SubscriberStatus <$> Subscribers (Spec (fx_channel f))).
Proof.
  unfold WithKafkaChannelStatusSubscribers. simpl. set (l := replicate _ _). clearbody l. revert l.
  induction (Subscribers _) as [|s subs IH]; intros l; simpl; [by rewrite app_nil_r|]. rewrite IH. by rewrite <-(assoc_L (++)).
Qed.

(** The finalizers of a fixture are a sorted set that has the one asked for. *)
Lemma WithKafkaFinalizer_spec name f :
  let fs := Finalizers (meta (fx_channel (WithKafkaFinalizer name f))) in
  NoDup fs ∧ ∀ x, x ∈ fs ↔ x = name ∨ x ∈ Finalizers (meta (fx_channel f)).
Proof.
  cbn. unfold sorted_list. split; [rewrite merge_sort_Permutation; apply NoDup_elements|]. intros x.
  rewrite merge_sort_Permutation, elem_of_elements, elem_of_union, elem_of_singleton, elem_of_list_to_set. done.
Qed.
End marks.

(** ** The reactors of a test *)
Section factory.
Context {rt : GoRuntime} {S : Type}.
Implicit Types (chain : list (Reactor S)) (a : Action) (s : S).

(** A [SimpleReactor] for every resource. *)
Definition PrependReactor (verb : string) (reaction : Reactor S) chain : list (Reactor S) :=
  (λ a s, if decide (verb = "*" ∨ verb = a_Verb a) then reaction a s else None) :: chain.

(** [ValidateCreates] and [ValidateUpdates]: an object that does not validate is the
    answer; [n] numbers the visit of the map that its text takes. *)
Definition ValidateObject (n : nat) : Reactor S := λ a s,
  match a_Object a ≫= Validate with
  | Some err => Some ((None, Some (Error n (Some err))), s)
  | None => None
  end.

(** The reactors [MakeFactory] puts before those of the fake client of the channels. *)
Definition MakeFactory_reactors (n : nat) (WithReactors : list (Reactor S)) chain : list (Reactor S) :=
  PrependReactor "update" (ValidateObject n)
    (PrependReactor "create" (ValidateObject n)
      (foldl (λ chain reactor, PrependReactor "*" reactor chain) chain WithReactors)).

(** In a table test an invalid channel never gets past the client: creating or updating
    it, its status included, is answered with the text of the validation before any
    reactor of the table or the tracker sees it; a valid channel, and every other action,
    goes on to the reactors of the table, the last one first. *)
Theorem factory_validates n reactors chain a default s :
  react (MakeFactory_reactors n reactors chain) a default s =
    match (if decide (a_Verb a = "create" ∨ a_Verb a = "update") then a_Object a ≫= Validate else None) with
    | Some err => ((None, Some (Error n (Some err))), s)
    | None => react (reverse reactors ++ chain) a default s
    end.
Proof.
  assert (Htable : ∀ l chain, react (foldl (λ chain reactor, PrependReactor "*" reactor chain) chain l) a default s =
    react (reverse l ++ chain) a default s).
  { induction l as [|r l IH] using rev_ind; intros c; [done|]. rewrite foldl_app, reverse_app. cbn.
    rewrite decide_True by (by left). by rewrite IH. }
  unfold MakeFactory_reactors, PrependReactor at 1 2. cbn [react]. unfold ValidateObject.
  destruct (decide (a_Verb a = "update")) as [Hu|Hu].
  - rewrite (decide_False (P:="create" = "*" ∨ _)) by (rewrite Hu; naive_solver). rewrite !decide_True by auto.
    destruct (a_Object a ≫= Validate); [done|apply Htable].
  - rewrite (decide_False (P:="update" = "*" ∨ _)) by naive_solver.
    destruct (decide (a_Verb a = "create")) as [Hc|Hc].
    + rewrite !decide_True by auto. destruct (a_Object a ≫= Validate); [done|apply Htable].
    + rewrite !decide_False by naive_solver. apply Htable.
Qed.
End factory.

(** ** The environment of a test *)
Section environment.
Context {rt : GoRuntime} {O : Type} `{TableObject O} `{LibrarySchemes} {R : Type}.

(** What [MakeFactory] makes for a row: the reconciler, the scheme of the dynamic client,
    and the objects that the fake clients are filled with. *)
Record TestEnvironment := mkTestEnvironment {
  te_reconciler : R; te_scheme : runtime_Scheme;
  te_kube : list O; te_eventing : list O; te_channels : list O; te_dynamic : list O }.

(** [Promote] is the method of a reconciler that is aware of its leader; [loop] numbers
    the loops over maps. *)
Definition MakeFactory (ctor : Listers → R) (Promote : option (R → R)) (loop : nat → nat) (Objects : list O) : option TestEnvironment :=
  ls ← NewListers (loop 0) Objects;
  kubeClient ← GetKubeObjects (loop 1) ls;
  eventingClient ← GetEventingObjects (loop 2) ls;
  client ← GetMessagingObjects (loop 3) ls;
  dynamicScheme ← all_types;
  dynamicClient ← GetAllObjects (loop 4) (loop 5) (loop 6) ls;
  let c := ctor ls in
  let c := match Promote with Some promote => promote c | None => c end in
  Some (mkTestEnvironment c dynamicScheme kubeClient eventingClient client dynamicClient).

Context `{!LibraryLaws}.

(** The reconciler of a test sees one consistent world: its listers, the dynamic client
    and the three typed clients together hold the objects of the table, no more and no
    less, and it leads if it can. *)
Theorem MakeFactory_consistent ctor Promote loop objs l
    (made : NewListers (loop 0) objs = Some l)
    (names : ∀ t, NoDup (obj_key <$> of_type t objs))
    (once : Forall (λ obj, length (filter (λ t, t = obj_type obj) client_types) = 1) objs) :
  ∃ te, MakeFactory ctor Promote loop objs = Some te ∧
    te_reconciler te = default id Promote (ctor l) ∧
    te_dynamic te ≡ₚ objs ∧ te_channels te ++ te_eventing te ++ te_kube te ≡ₚ objs.
Proof.
  destruct (client_parts (loop 0) (loop 1) objs l made names) as (_ & _ & lk & Hk & Pk).
  destruct (client_parts (loop 0) (loop 2) objs l made names) as (_ & (le & He & Pe) & _).
  destruct (client_parts (loop 0) (loop 3) objs l made names) as ((lm & Hm & Pm) & _).
  destruct (all_objects (loop 0) (loop 4) (loop 5) (loop 6) objs l made names once) as (all & Ha & Pa).
  destruct (NewListers_types _ _ _ made) as [s Hs].
  exists (mkTestEnvironment (default id Promote (ctor l)) s lk le lm all). split_and!.
  - unfold MakeFactory. do 6 (apply bind_Some; eexists; split; [eassumption|]). by destruct Promote.
  - done.
  - exact Pa.
  - exact (bind_of_types _ _ _ objs _ _ _ Pm Pe Pk once).
Qed.
End environment.

(** ** The fixture of a reconciled channel, as the tests of the controller build it *)
Section demo.
#[local] Existing Instance Channel.demo_runtime.

Definition demo_options : list KafkaChannelOption :=
  [WithKafkaChannelTopicReady; WithKafkaChannelConfigReady; WithKafkaChannelDeploymentReady; WithKafkaChannelServiceReady;
   WithKafkaChannelEndpointsReady; WithKafkaChannelChannelServiceReady; WithKafkaChannelAddress "h"].

Lemma NewKafkaChannel_ready_witness :
  IsReady (cell (NewKafkaChannel 0 "test-kc" "test-namespace" demo_options)) = true ∧
  IsReady (cell (NewKafkaChannel 0 "test-kc" "test-namespace" [WithKafkaChannelTopicReady])) = false.
Proof.
  assert (Hm : ∃ ks, Forall2 marking demo_options ks ∧ ks ≠ [] ∧ spec_happy kc (foldl spec_mark ∅ ks) = true).
  { eexists. split; [repeat constructor|]. split; [discriminate|vm_compute; reflexivity]. }
  destruct Hm as (ks & Hm & Hne & Hhappy).
  destruct (NewKafkaChannel_ready 0 "test-kc" "test-namespace" demo_options ks Hm Hne) as [-> _].
  split; [exact Hhappy|].
  destruct (NewKafkaChannel_ready 0 "test-kc" "test-namespace" [WithKafkaChannelTopicReady] [MkTrue KafkaTopicChannelConditionTopicReady]) as [-> _];
    [repeat constructor|discriminate|vm_compute; reflexivity].
Defined.
End demo.
